(* ===== verification/_CoqProject ===== *)
-Q . S2P
Prelude.v
Num.v
NumText.v
Domain.v
Store.v
Entities.v
Breaker.v
Retry.v
World.v
Dates.v
Calendar.v
Balance.v
Hash.v
PriorityQueue.v
QueueSpec.v
CreateLock.v
JsMap.v
DeadLetter.v
DeadLetterFacts.v
Limiters.v
Leases.v
Traceparent.v
JsonText.v
AuditTrail.v
Access.v
Backoff.v
EventBus.v
HcmApi.v
HcmService.v
TimeOff.v
HcmSync.v
Samples.v
Listing.v
Http.v
MockHcm.v
MockSpec.v
Ledger.v
Effects.v
Lifecycle.v
Books.v
Reconcile.v
Reachable.v
Async.v
BreakerAsync.v
Process.v
Concurrent.v
BatchLock.v
Progress.v
Responses.v
Routes.v
Startup.v
BatchFacts.v
MockSync.v
SyncFacts.v
Findings.v
Witnesses.v
ConcurrentRuns.v
