(* ===== verification/Prelude.v ===== *)
(** * LeaveLedger: a verification library

    LeaveLedger is a NestJS service that keeps employees' leave balances and
    their time-off requests, and keeps both in step with an external system of
    record (HCM) that may be slow, unavailable or ahead.  This library models
    its services as executable functions on an explicit state and proves what
    makes them correct.

    ** The program and its model

    - [src/src/common/constants], the entities under [src/src/modules/*/]:
      [Domain] (records, enums, exceptions), [Entities] (generated ids, managed
      columns, unique constraints).
    - JavaScript numbers: [Num].  A [num] is a binary64 number of the Standard
      Library's [SpecFloat]; [units g n] is [n] steps of the grid [2^-g].  What
      [Number(s)] and [parseFloat(s)] read in a text: [NumText].
    - TypeORM and SQLite: [Store].  The class [Repo] has the repository methods
      the services call, [RepoLaws] what they rely on (a row is stored only without
      a NULL in its columns and without a clash of unique keys; NaN is a NULL),
      [MemRepo] is a table in memory that satisfies the laws.
    - The process: [World].  One record holds the database, the clock, the queue
      of [setImmediate] callbacks, the breaker, the create locks and the batch
      flag.  [Env] supplies what the process does not decide (time, HCM's
      answers, [Math.random]); [TxManager] supplies transactions, which may fail.
    - [src/src/common/utils], what the services call: [Breaker]
      (circuit-breaker.util), [Retry] and [Backoff] (retry.util,
      exponential-backoff.util), [Dates] and [Calendar] (date.util,
      date-range-validator.util), [Hash] (hash.util).
    - [balance.service.js]: [Balance].  [hcm.service.js]: [HcmService], behind
      the interface [HcmApi] that the two other services are written against.
      [timeoff.service.js]: [TimeOff], its [listRequests] in [Listing] and the
      waiting of its [_withCreateLock] in [CreateLock].  [hcm-sync.service.js]:
      [HcmSync].
    - Controllers, exception filter, interceptor, health endpoints and the
      environment of [main.js]: [Http].  Nest's pipes are the class [Nest].  The
      decorators of the controllers as a table of routes, the composition of a
      whole request in [app.module.js] ([application]) and the middlewares
      [main.js] puts in front of it ([server]): [Routes]; matching a URL is the
      class [Express], what the packages cors and express-rate-limit and the body
      parser make of a request the class [Middleware].  Environment variables and
      the modules with their injected arguments: [Startup].
    - [src/src/common/utils], what no service calls: [PriorityQueue], [DeadLetter],
      [Limiters] (rate-limiter, token-bucket-limiter), [Leases] (lock,
      idempotency, request-deduplication), [Traceparent], [AuditTrail]
      (audit-logger, audit-hash), [EventBus], [Access] (rbac,
      circuit-breaker-state, health-aggregator, metrics-registry).  [JsMap] is
      the insertion-ordered [Map] that several of them keep, [JsonText]
      shows that the canonical texts of records tell their fields apart.
    - [src/mock-hcm/src/server.js]: [MockHcm].

    - Interleaving: [Async] has functions that await, [Process] the services'
      operations as such functions (named [m_async]) with the state of the waiting
      creations.

    A method [m(x)] of a service is the definition [m x] of its file, a
    computation [M (World Tbl) exn A]: it returns or throws, and what it wrote
    before it threw stays written.  [transaction] undoes the database on a throw.
    Names are the source's, without the leading underscore of private methods;
    parts of a method that a theorem speaks about ([create_tx], [create_recover],
    [reconcileWith], ...) are definitions of their own.

    ** The theorems

    - [Ledger]: a balance is three amounts that add up to an entitlement; the
      three moves of [BalanceService] simulate the abstract ledger.
    - [Effects], [Lifecycle]: the contracts of [createRequest], approve, reject
      and cancel on every branch: effect, error, idempotent replay, finality.
    - [Books], [Reconcile], [Reachable]: the invariants of the whole service by
      induction on reachability: the amounts of every balance add up and equal
      the days of its requests, no two active requests of an employee at a
      location share a day, requests persist and move along the transitions.
    - [Async], [Process], [Concurrent]: the same invariants when the operations
      interleave at every await, callbacks run among them and the process crashes;
      one answer per idempotency key, decisions that do not conflict, and no
      schedule on which a call blocks.  The sequential operations are schedules of
      the interleaved ones ([call_alone_schedule]).  [ConcurrentRuns] plays such schedules.
      [BreakerAsync] does it for the calls through one breaker, [BatchLock] for
      the flag that keeps batch runs apart.
    - [Progress]: the operations succeed when their conditions hold.
    - [BatchFacts]: a whole batch run as a fold of HCM's reports over each key;
      [MockSync] runs it against the mock server's snapshot.
    - [SyncFacts]: the log and the flag of a batch run, and the retry worker.
    - [Responses]: what a client of the time-off endpoints sees: which statuses
      and codes, and that an error left the database alone.  [Listing]: pages.
    - [Routes]: every request is answered (204 to OPTIONS, 429 by the limiter, 404
      without a route, else by its one route, [HEAD] by that of [GET]), a [GET] or
      [HEAD] changes nothing, and every request is a sequence of the operations of
      [Reachable].
    - [Startup]: variables are read as the numbers they show, and every
      constructor gets its arguments from services of which there is one each.
    - [CreateLock]: under every interleaving creations at one key run one at a
      time, in the order of their calls, and none waits for ever.
    - [Breaker], [Retry], [Backoff], [HcmService], [Dates], [Calendar], [Hash]:
      each component's own contract.
    - [QueueSpec]: the binary heap refines a sorted list.  [DeadLetterFacts]: the
      invariant of the dead-letter queue and what a pass of it does.  [Limiters]:
      no window holds more requests than allowed.  [Leases]: locks exclude, keys
      begin once.  [Traceparent]: headers round-trip.  [AuditTrail]: two
      verified ledgers with one last hash have the same fields at every position,
      or two of their entries collide.  [EventBus]: who is notified, in which
      order, while handlers use the bus.
    - [MockSpec]: the mock HCM server, its random delays and failures included,
      refines a book of accounts, and no account is overdrawn.
    - [Findings]: runs on which code and comments part ways.
    - [Samples], [Witnesses]: a concrete run of the service to which the theorems
      with hypotheses are applied.

    ** Bounds and fuel

    The simulation of the three moves ([move_simulation]) and the accounts of the
    mock server hold on every grid [2^-g], [0 <= g <= 900], the invariants of the
    service on [0 <= g <= 6] (whole days down to 1/64 of a day), for amounts
    below [2^52] steps; there binary64 addition and comparison are exact, and the
    program's tolerances of 0.01 and 0.001 are less than one step.  A request's
    length is a whole number of days, so it is on every grid; HCM's totals are
    assumed on the grid.

    The recursions of [withRetry], [retryWithBackoff], [executeWithRetry] and of
    [createRequest]'s transaction retry have the source's number of turns.  The
    heap's [siftUp] takes the index as fuel and [siftDown] and [drain] the length,
    one more than they can use.  [redriveEligible] and [publish] run over a live
    map: their fuel must exceed its size, and the theorems say that then they
    end.  The loop over days takes [turns], computed from its bounds, and
    [working_days_counted] shows it is enough.

    In [Reachable] an operation runs to its end before the next starts, while
    every transaction, driver call and HCM call may fail.  In [Concurrent] every
    database statement outside a transaction, every transaction, HCM call and
    reading of the clock is a step of its own and the operations take their steps
    in any order; a transaction is one step because the service asks for
    [SERIALIZABLE], a call of HCM because all it changes are the clock and the
    breaker, which may change between any two steps.  [call_alone_schedule] says
    that the sequential operations are schedules of the interleaved ones.  The one
    interleaving that breaks an invariant, a batch run amid a write of the same
    balance, is proved too ([reconcile_stale_read], [batch_breaks_books]): the
    books are shown without batch runs, everything else with them.

    ** Not modelled

    The log lines of the services and message texts; pipes, the validation rules
    of the DTO classes and the matching of URLs (Nest's, class-validator's and
    Express's, parameters); the packages for CORS, rate limiting and the reading of
    bodies (parameters too, their options are [cors_options] and [limits]); Helmet,
    which only sets headers; TypeORM, SQLite,
    SHA-256, [Date]'s parsing of texts other than ISO dates and the HTTP client
    (parameters, with their laws); the injection itself (Nest's, by its
    rule in [Startup]) and the start of the servers.  Bodies of
    requests have the types of their fields: what a handler does with a field of
    another type is left out. *)

From stdpp Require Export base tactics decidable option list numbers gmap strings fin_maps sorting.
From Stdlib Require Export ZArith Lia.

#[export] Set Default Goal Selector "!".

(** ** State-and-exception computations

    An [async] function of the program reads and writes the state it shares
    with the others and either returns a value or throws.  What it wrote before
    it threw stays written, so the state is returned on both paths. *)
Definition M (S E A : Type) : Type := S -> S * (E + A).

#[export] Instance M_ret {S E} : MRet (M S E) := fun A a s => (s, inr a).
#[export] Instance M_bind {S E} : MBind (M S E) := fun A B k m s =>
  match m s with
  | (s', inl e) => (s', inl e)
  | (s', inr a) => k a s'
  end.

Section computations.
Context {S E A : Type}.

(** [throw e] *)
Definition throw (e : E) : M S E A := fun s => (s, inl e).
(** [try { m } catch (e) { h(e) }] *)
Definition try_catch (m : M S E A) (h : E -> M S E A) : M S E A := fun s =>
  match m s with
  | (s', inl e) => h e s'
  | (s', inr a) => (s', inr a)
  end.
(** [try { m } finally { f }] for a [finally] block that does not throw. *)
Definition try_finally (m : M S E A) (f : S -> S) : M S E A := fun s =>
  let '(s', r) := m s in (f s', r).
Definition gets (f : S -> A) : M S E A := fun s => (s, inr (f s)).
Definition modify (f : S -> S) : M S E unit := fun s => (f s, inr tt).
End computations.

(** [for (const x of xs) { body }], run for its effect. *)
Fixpoint for_each {S E A} (xs : list A) (body : A -> M S E unit) : M S E unit :=
  match xs with
  | [] => mret tt
  | x :: xs' => body x ≫= fun _ => for_each xs' body
  end.

Section laws.
Context {S E A B C : Type}.
Implicit Types (m : M S E A).

Lemma bind_ret_l (a : A) (k : A -> M S E B) s : (mret a ≫= k) s = k a s.
Proof. reflexivity. Qed.
Lemma bind_throw (e : E) (k : A -> M S E B) s : (throw e ≫= k) s = (s, inl e).
Proof. reflexivity. Qed.
Lemma bind_ok m (k : A -> M S E B) s s' a : m s = (s', inr a) -> (m ≫= k) s = k a s'.
Proof. intros H. unfold mbind, M_bind. by rewrite H. Qed.
Lemma bind_err m (k : A -> M S E B) s s' e : m s = (s', inl e) -> (m ≫= k) s = (s', inl e).
Proof. intros H. unfold mbind, M_bind. by rewrite H. Qed.
Lemma bind_inv_ok m (k : A -> M S E B) s s'' b :
  (m ≫= k) s = (s'', inr b) -> exists s' a, m s = (s', inr a) /\ k a s' = (s'', inr b).
Proof. unfold mbind, M_bind. destruct (m s) as [s' [e|a]]; [done|eauto]. Qed.
Lemma bind_inv_err m (k : A -> M S E B) s s'' e :
  (m ≫= k) s = (s'', inl e) ->
  m s = (s'', inl e) \/ exists s' a, m s = (s', inr a) /\ k a s' = (s'', inl e).
Proof. unfold mbind, M_bind. destruct (m s) as [s' [e'|a]]; naive_solver. Qed.
Lemma bind_assoc m (k : A -> M S E B) (k' : B -> M S E C) s :
  ((m ≫= k) ≫= k') s = (m ≫= fun a => k a ≫= k') s.
Proof. unfold mbind, M_bind. by destruct (m s) as [s' [e|a]]. Qed.
End laws.

(** A boolean comparison function as a relation. *)
Definition brel {A} (f : A -> A -> bool) : relation A := fun x y => f x y = true.
#[export] Instance brel_dec {A} (f : A -> A -> bool) : RelDecision (brel f).
Proof. intros x y. unfold brel. apply _. Defined.

(** ** Computations that stay within a relation

    [stays R m]: whatever [m] returns or throws, the world it ends in is related
    to the one it started from.  With a preorder this composes; the preorders
    used are frames and preserved invariants. *)
Definition stays {St E A} (R : relation St) (m : M St E A) : Prop := forall w, R w (fst (m w)).

Section stays.
Context {St E : Type} (R : relation St) `{!PreOrder R}.

Lemma stays_ret {A} (a : A) : stays R (mret a : M St E A).
Proof. intros w. reflexivity. Qed.
Lemma stays_throw {A} e : stays R (throw (A := A) (e : E)).
Proof. intros w. reflexivity. Qed.
Lemma stays_gets {A} (f : St -> A) : stays R (gets f : M St E A).
Proof. intros w. reflexivity. Qed.
Lemma stays_bind {A B} (m : M St E A) (k : A -> M St E B) :
  stays R m -> (forall a, stays R (k a)) -> stays R (m ≫= k).
Proof.
  intros Hm Hk w. specialize (Hm w). unfold mbind, M_bind.
  destruct (m w) as [w' [e|a]]; [done|]. by etrans; [|apply Hk].
Qed.
Lemma stays_catch {A} (m : M St E A) h :
  stays R m -> (forall e, stays R (h e)) -> stays R (try_catch m h).
Proof.
  intros Hm Hh w. specialize (Hm w). unfold try_catch.
  destruct (m w) as [w' [e|a]]; [|done]. by etrans; [|apply Hh].
Qed.
Lemma stays_for_each {A} (xs : list A) (body : A -> M St E unit) :
  (forall x, x ∈ xs -> stays R (body x)) -> stays R (for_each xs body).
Proof.
  induction xs as [|x xs IH]; intros Hb; [apply stays_ret|].
  apply stays_bind; [apply Hb; left|]. intros _. apply IH. intros y Hy. apply Hb. by right.
Qed.
Lemma stays_eq {A} (m : M St E A) w w' r : stays R m -> m w = (w', r) -> R w w'.
Proof. intros Hm Hw. specialize (Hm w). by rewrite Hw in Hm. Qed.
End stays.

(** Split a computation into its steps and its branches. *)
Create HintDb effects.
Ltac stays_steps :=
  repeat first
    [ solve [auto with effects]
    | apply stays_ret; apply _ | apply stays_throw; apply _ | apply stays_gets; apply _
    | apply stays_bind; [apply _| |intros ?] | apply stays_catch; [apply _| |intros ?]
    | apply stays_for_each; [apply _|intros ? _]
    | match goal with
      | |- stays _ (match ?x with _ => _ end) => destruct x
      | |- stays _ (let _ := _ in _) => cbv zeta
      end ].


(** ** Lists *)
Lemma list_filter_all {A} (P : A -> Prop) `{forall x, Decision (P x)} (l : list A) :
  (forall x, x ∈ l -> P x) -> filter P l = l.
Proof.
  induction l as [|x l IH]; intros Hl; [done|].
  rewrite filter_cons, decide_True by (apply Hl; left). f_equal. apply IH. intros y Hy. apply Hl. by right.
Qed.

(** ** Sums over the rows of a map *)
Section sum_by.
Context {V : Type}.
Implicit Types (f : V -> Z) (m : gmap string V).

Definition sum_by f m : Z := map_fold (fun _ v acc => (f v + acc)%Z) 0%Z m.

Lemma sum_by_empty f : sum_by f ∅ = 0%Z.
Proof. apply map_fold_empty. Qed.
Lemma sum_by_insert f m i v : m !! i = None -> sum_by f (<[i := v]> m) = (f v + sum_by f m)%Z.
Proof. intros. unfold sum_by. rewrite map_fold_insert_L; [done|intros; lia|done]. Qed.
Lemma sum_by_delete f m i v : m !! i = Some v -> sum_by f m = (f v + sum_by f (delete i m))%Z.
Proof. intros. unfold sum_by. erewrite map_fold_delete_L; [done|intros; lia|done]. Qed.
Lemma sum_by_update f m i v v' :
  m !! i = Some v -> sum_by f (<[i := v']> m) = (sum_by f m - f v + f v')%Z.
Proof.
  intros Hi. rewrite (sum_by_delete f m i v) by done. rewrite <- insert_delete_eq.
  rewrite sum_by_insert by apply lookup_delete_eq. lia.
Qed.
Lemma sum_by_zero f m : (forall i v, m !! i = Some v -> f v = 0%Z) -> sum_by f m = 0%Z.
Proof.
  induction m as [|i v m Hi IH] using map_ind; intros Hz; [apply sum_by_empty|].
  rewrite sum_by_insert by done. rewrite (Hz i v) by apply lookup_insert_eq.
  rewrite IH; [done|]. intros j q Hj. apply (Hz j). rewrite lookup_insert_ne; [done|congruence].
Qed.
Lemma sum_by_member f m i v :
  (forall j q, m !! j = Some q -> 0 <= f q)%Z -> m !! i = Some v -> (f v <= sum_by f m)%Z.
Proof.
  intros Hp Hi. rewrite (sum_by_delete f m i v) by done.
  assert (0 <= sum_by f (delete i m))%Z; [|lia].
  assert (Hd : forall j q, delete i m !! j = Some q -> (0 <= f q)%Z)
    by (intros j q [_ Hj]%lookup_delete_Some; eauto).
  revert Hd. generalize (delete i m). intros m'.
  induction m' as [|j q m' Hj IH] using map_ind; intros Hd; [by rewrite sum_by_empty|].
  rewrite sum_by_insert by done. pose proof (Hd j q (lookup_insert_eq _ _ _)).
  assert (0 <= sum_by f m')%Z; [|lia]. apply IH. intros k x Hk. apply (Hd k).
  rewrite lookup_insert_ne; [done|congruence].
Qed.
End sum_by.
