(* ===== verification/Num.v ===== *)
(** * JavaScript numbers

    The program's balances, days and drifts are JavaScript numbers: IEEE 754
    binary64 with round-to-nearest-even.  This file gives them by the Standard
    Library's executable specification of floating point ([SpecFloat], at
    precision 53 and maximal exponent 1024), not by integers or rationals, so
    that NaN, rounding and the comparison of NaN behave as in the program.

    The second half proves the fact every ledger theorem rests on: on a binary
    grid of step [2^-g] (whole days for [g = 0], half days for [g = 1], ...)
    and below [2^53] grid steps, addition, subtraction and the comparisons are
    those of the integers. *)

From S2P Require Import Prelude.
From Stdlib Require Import SpecFloat.

Declare Scope num_scope.
Delimit Scope num_scope with num.

Definition num : Type := spec_float.
Bind Scope num_scope with num.

Definition nadd (x y : num) : num := SFadd 53 1024 x y.
Definition nsub (x y : num) : num := SFsub 53 1024 x y.
Definition nmul (x y : num) : num := SFmul 53 1024 x y.
Definition ndiv (x y : num) : num := SFdiv 53 1024 x y.
Definition nltb (x y : num) : bool := SFltb x y.
Definition nleb (x y : num) : bool := SFleb x y.
Definition neqb (x y : num) : bool := SFeqb x y.
Definition nabs (x : num) : num := SFabs x.
Definition nopp (x : num) : num := SFopp x.
Definition NaN : num := S754_nan.

Infix "+." := nadd (at level 50, left associativity) : num_scope.
Infix "-." := nsub (at level 50, left associativity) : num_scope.
Infix "<." := nltb (at level 70, no associativity) : num_scope.
Infix "<=." := nleb (at level 70, no associativity) : num_scope.

#[export] Instance num_eq_dec : EqDecision num.
Proof. solve_decision. Defined.

(** [parseFloat(x)] of a number converts it to a string and reads it back: the
    identity (the conversion is the shortest decimal that reads back), except
    that [-0] prints as ["0"]. *)
Definition parseFloat (x : num) : num :=
  match x with
  | S754_zero _ => S754_zero false
  | _ => x
  end.

(** The number [m * 2^e], correctly rounded. *)
Definition dyadic (m e : Z) : num := binary_normalize 53 1024 m e false.
(** An integer literal. *)
Definition of_Z (n : Z) : num := dyadic n 0.
(** A decimal literal [n / d]: the nearest double to the quotient, as [n] and
    [d] are exact. *)
Definition literal (n d : Z) : num := ndiv (of_Z n) (of_Z d).

(** [Math.floor(x)] of a finite number. *)
Definition Math_floor (x : num) : Z :=
  match x with
  | S754_finite s m e =>
      let z := if s then Zneg m else Zpos m in
      if (0 <=? e)%Z then z * 2 ^ e else z / 2 ^ (- e)
  | _ => 0
  end%Z.

(** SQLite stores every number but NaN, which becomes [NULL]. *)
Definition has_value (x : num) : bool := match x with S754_nan => false | _ => true end.
Definition finite (x : num) : bool :=
  match x with S754_zero _ | S754_finite _ _ _ => true | _ => false end.

(** Truthiness of a number: [0], [-0] and [NaN] are falsy. *)
Definition num_truthy (x : num) : bool :=
  match x with
  | S754_zero _ | S754_nan => false
  | _ => true
  end.

(** ** The grid of step [2^-g] *)
Section grid.
Context (g : Z).

(** [n] grid steps. *)
Definition units (n : Z) : num := dyadic n (- g).
End grid.

(** *** Binary lengths *)
Lemma digits2_pos_log2 p : Zpos (digits2_pos p) = (Z.log2 (Zpos p) + 1)%Z.
Proof.
  assert (digits2_pos p = Pos.size p) as -> by (by induction p as [p IH|p IH|]; simpl; rewrite ?IH).
  destruct p; simpl; rewrite ?Pos2Z.inj_succ; lia.
Qed.

Definition bits (n : Z) : Z := Z.log2 (Z.abs n) + 1.

Lemma bits_pos p : bits (Zpos p) = (Z.log2 (Zpos p) + 1)%Z.
Proof. reflexivity. Qed.

Lemma bits_shift p (k : Z) :
  (0 <= k)%Z -> (Z.log2 (Zpos p * 2 ^ k) = Z.log2 (Zpos p) + k)%Z.
Proof. intros. rewrite Z.log2_mul_pow2 by lia. lia. Qed.

Lemma bits_le_53 n : (n <> 0)%Z -> (Z.abs n < 2 ^ 53)%Z -> (1 <= bits n <= 53)%Z.
Proof.
  intros Hn Hb. unfold bits. pose proof (Z.log2_nonneg (Z.abs n)).
  assert (Z.log2 (Z.abs n) < 53)%Z by (apply Z.log2_lt_pow2; lia). lia.
Qed.

(** *** Shifting mantissas *)
Lemma iter_xO_spec m d : Zpos (Pos.iter xO m d) = (Zpos m * 2 ^ Zpos d)%Z.
Proof.
  induction d as [|d IH] using Pos.peano_ind; [simpl; lia|].
  rewrite Pos.iter_succ, Pos2Z.inj_xO, IH, Pos2Z.inj_succ, Z.pow_succ_r by lia. lia.
Qed.

Lemma shl_align_down m e e' :
  (e' <= e)%Z -> Zpos (fst (shl_align m e e')) = (Zpos m * 2 ^ (e - e'))%Z.
Proof.
  intros. unfold shl_align. destruct (e' - e)%Z eqn:E; try lia.
  - replace (e - e')%Z with 0%Z by lia. simpl. lia.
  - cbn [fst]. rewrite iter_xO_spec. f_equal. f_equal. lia.
Qed.

Lemma shl_align_up m e e' : (e <= e')%Z -> shl_align m e e' = (m, e).
Proof. intros. unfold shl_align. destruct (e' - e)%Z eqn:E; try done; lia. Qed.

Lemma shl_align_down_exp m e e' : (e' <= e)%Z -> snd (shl_align m e e') = e'.
Proof. intros. unfold shl_align. destruct (e' - e)%Z eqn:E; simpl; lia. Qed.

Lemma iter_pos_to_nat {A} (f : A -> A) n x : iter_pos f n x = Nat.iter (Pos.to_nat n) f x.
Proof.
  revert x. induction n as [n IH|n IH|]; intros x; cbn [iter_pos]; [| |done].
  - rewrite !IH, Pos2Nat.inj_xI, Nat.iter_succ_r, <- Nat.iter_add. f_equal. lia.
  - rewrite !IH, Pos2Nat.inj_xO, <- Nat.iter_add. f_equal. lia.
Qed.

Definition exact (m : Z) : shr_record := Build_shr_record m false false.

Lemma shr_1_even p : shr_1 (exact (Zpos (xO p))) = exact (Zpos p).
Proof. reflexivity. Qed.

Lemma shr_exact q n :
  Nat.iter n shr_1 (exact (Zpos q * 2 ^ Z.of_nat n)) = exact (Zpos q).
Proof.
  induction n as [|n IH]; [simpl; by rewrite Z.mul_1_r|].
  rewrite Nat.iter_succ_r.
  destruct (Zpos q * 2 ^ Z.of_nat n)%Z eqn:E; try lia.
  replace (Zpos q * 2 ^ Z.of_nat (S n))%Z with (Zpos (xO p)).
  - by rewrite shr_1_even.
  - rewrite Nat2Z.inj_succ, Z.pow_succ_r, Pos2Z.inj_xO by lia. lia.
Qed.

Lemma fexp_normal x : (-1021 <= x)%Z -> fexp 53 1024 x = (x - 53)%Z.
Proof. intros. unfold fexp, emin. lia. Qed.

(** Rounding a mantissa of 53 significant bits followed by zeros is exact. *)
Lemma binary_round_aux_exact sx q k e :
  Z.log2 (Zpos q) = 52%Z -> (0 <= k)%Z -> (-1074 <= e + k <= 971)%Z ->
  binary_round_aux 53 1024 sx (Zpos q * 2 ^ k) e loc_Exact = S754_finite sx q (e + k).
Proof.
  intros Hq Hk He.
  assert (Hd : forall p, Zpos p = (Zpos q * 2 ^ k)%Z -> Zpos (digits2_pos p) = (53 + k)%Z).
  { intros p Hp. rewrite digits2_pos_log2, Hp, bits_shift by lia. lia. }
  assert (H1 : shr_fexp 53 1024 (Zpos q * 2 ^ k) e loc_Exact = (exact (Zpos q), e + k)%Z).
  { unfold shr_fexp. destruct (Zpos q * 2 ^ k)%Z eqn:E; try lia.
    unfold Zdigits2. rewrite (Hd p) by done. rewrite fexp_normal by lia.
    replace (53 + k + e - 53 - e)%Z with k by lia. rewrite <- E.
    unfold shr, shr_record_of_loc. destruct k as [|k|k]; try lia.
    - f_equal; [|lia]. unfold exact. f_equal. lia.
    - rewrite iter_pos_to_nat. f_equal.
      pose proof (shr_exact q (Pos.to_nat k)) as Hs. by rewrite positive_nat_Z in Hs. }
  unfold binary_round_aux. rewrite H1. cbn [exact shr_m loc_of_shr_record round_nearest_even].
  assert (H2 : shr_fexp 53 1024 (Zpos q) (e + k) loc_Exact = (exact (Zpos q), e + k)%Z).
  { unfold shr_fexp, Zdigits2. rewrite digits2_pos_log2, Hq, fexp_normal by lia.
    by replace (52 + 1 + (e + k) - 53 - (e + k))%Z with 0%Z by lia. }
  rewrite H2. cbn [exact shr_m].
  destruct (Z.leb_spec (e + k) (1024 - 53)) as [|]; [done|lia].
Qed.

(** The normalised mantissa of a number of at most 53 bits. *)
Definition mant (m : positive) : positive := Z.to_pos (Zpos m * 2 ^ (53 - bits (Zpos m))).

Lemma mant_spec m :
  (bits (Zpos m) <= 53)%Z -> Zpos (mant m) = (Zpos m * 2 ^ (53 - bits (Zpos m)))%Z.
Proof.
  intros. unfold mant. apply Z2Pos.id.
  apply Z.mul_pos_pos; [lia|]. apply Z.pow_pos_nonneg; lia.
Qed.

Lemma mant_log2 m : (bits (Zpos m) <= 53)%Z -> Z.log2 (Zpos (mant m)) = 52%Z.
Proof.
  intros. rewrite mant_spec, bits_shift by lia. rewrite bits_pos in *. lia.
Qed.

Lemma binary_round_exact sx m k e p :
  (0 <= k)%Z -> (bits (Zpos m) <= 53)%Z -> Zpos p = (Zpos m * 2 ^ k)%Z ->
  (-1074 <= e + k + bits (Zpos m) - 53 <= 971)%Z ->
  binary_round 53 1024 sx p e = S754_finite sx (mant m) (e + k + bits (Zpos m) - 53).
Proof.
  intros Hk Hm Hp He.
  assert (Hd : Zpos (digits2_pos p) = (bits (Zpos m) + k)%Z).
  { rewrite digits2_pos_log2, Hp, bits_shift by lia. rewrite bits_pos. lia. }
  unfold binary_round. rewrite Hd, fexp_normal by lia.
  pose proof (mant_spec m Hm) as HM. pose proof (mant_log2 m Hm) as HL.
  remember (bits (Zpos m)) as d eqn:Ed. destruct (Z.le_ge_cases (d + k) 53).
  - pose proof (shl_align_down p e (d + k + e - 53)%Z ltac:(lia)) as H1.
    pose proof (shl_align_down_exp p e (d + k + e - 53)%Z ltac:(lia)) as H2.
    destruct (shl_align p e (d + k + e - 53)) as [mz ez]. cbn [fst snd] in *. subst ez.
    replace (Zpos mz) with (Zpos (mant m) * 2 ^ 0)%Z.
    + rewrite binary_round_aux_exact by lia. f_equal. lia.
    + rewrite HM, H1, Hp, <- !Z.mul_assoc, <- !Z.pow_add_r by lia. f_equal. f_equal. lia.
  - rewrite shl_align_up by lia.
    replace (Zpos p) with (Zpos (mant m) * 2 ^ (d + k - 53))%Z.
    + rewrite binary_round_aux_exact by lia. f_equal. lia.
    + rewrite HM, Hp, <- !Z.mul_assoc, <- !Z.pow_add_r by lia. f_equal. f_equal. lia.
Qed.

(** *** Arithmetic on the grid *)

(** Magnitudes whose grid arithmetic is exact. *)
Definition small (n : Z) : Prop := (Z.abs n < 2 ^ 53)%Z.

Definition apos (n : Z) : positive := Z.to_pos (Z.abs n).

Lemma apos_spec n : n <> 0%Z -> Zpos (apos n) = Z.abs n.
Proof. intros. unfold apos. rewrite Z2Pos.id; lia. Qed.

Lemma normalize_exact n k e :
  n <> 0%Z -> small n -> (0 <= k)%Z -> (-1000 <= e + k <= 900)%Z ->
  binary_normalize 53 1024 (n * 2 ^ k) e false
  = S754_finite (n <? 0)%Z (mant (apos n)) (e + k + bits n - 53).
Proof.
  intros Hn Hs Hk He. pose proof (apos_spec n Hn) as Ha.
  pose proof (bits_le_53 n Hn Hs) as Hb.
  assert (Hbits : bits (Zpos (apos n)) = bits n) by (unfold bits; rewrite Ha; f_equal; f_equal; lia).
  assert (Hp : (0 < 2 ^ k)%Z) by (apply Z.pow_pos_nonneg; lia).
  assert (Habs : Z.abs (n * 2 ^ k) = (Zpos (apos n) * 2 ^ k)%Z) by (rewrite Ha, Z.abs_mul; lia).
  unfold binary_normalize. destruct (n * 2 ^ k)%Z as [|p|p] eqn:E; [nia| |].
  - rewrite (binary_round_exact false (apos n) k e p), Hbits by lia.
    destruct (Z.ltb_spec n 0); [nia|done].
  - rewrite (binary_round_exact true (apos n) k e p), Hbits by lia.
    destruct (Z.ltb_spec n 0); [done|nia].
Qed.

Section grid_arith.
Context (g : Z) (Hg : (0 <= g <= 900)%Z).
Implicit Types (a b n : Z).

Lemma units_0 : units g 0 = S754_zero false.
Proof. reflexivity. Qed.

Lemma units_finite n :
  n <> 0%Z -> small n ->
  units g n = S754_finite (n <? 0)%Z (mant (apos n)) (bits n - 53 - g).
Proof.
  intros Hn Hs. unfold units, dyadic.
  pose proof (normalize_exact n 0 (- g) Hn Hs ltac:(lia) ltac:(lia)) as H.
  rewrite Z.mul_1_r in H. rewrite H. f_equal. lia.
Qed.

Lemma normalize_units n k :
  small n -> (0 <= k <= 100)%Z ->
  binary_normalize 53 1024 (n * 2 ^ k) (- g - k) false = units g n.
Proof.
  intros Hs Hk. destruct (decide (n = 0%Z)) as [->|Hn]; [done|].
  rewrite normalize_exact, units_finite by (done || lia). f_equal. lia.
Qed.

(** A finite grid number aligned to the exponent [ez]. *)
Lemma aligned_mantissa n ez :
  n <> 0%Z -> small n -> (ez <= bits n - 53 - g)%Z ->
  cond_Zopp (n <? 0)%Z (Zpos (fst (shl_align (mant (apos n)) (bits n - 53 - g) ez)))
  = (n * 2 ^ (- g - ez))%Z.
Proof.
  intros Hn Hs He. pose proof (bits_le_53 n Hn Hs) as Hb. pose proof (apos_spec n Hn) as Ha.
  assert (Hbits : bits (Zpos (apos n)) = bits n) by (unfold bits; rewrite Ha; f_equal; f_equal; lia).
  rewrite shl_align_down, mant_spec, Hbits, Ha by lia.
  rewrite <- Z.mul_assoc, <- Z.pow_add_r by lia.
  replace (53 - bits n + (bits n - 53 - g - ez))%Z with (- g - ez)%Z by lia.
  destruct (Z.ltb_spec n 0); simpl; lia.
Qed.

Lemma units_add a b :
  small a -> small b -> small (a + b) -> (units g a +. units g b)%num = units g (a + b).
Proof.
  intros Ha Hb Hab.
  destruct (decide (a = 0%Z)) as [->|Ha0].
  { rewrite units_0, Z.add_0_l. destruct (decide (b = 0%Z)) as [->|]; [done|].
    by rewrite units_finite. }
  destruct (decide (b = 0%Z)) as [->|Hb0].
  { rewrite units_0, Z.add_0_r, units_finite by done. done. }
  rewrite (units_finite a), (units_finite b) by done.
  pose proof (bits_le_53 a Ha0 Ha). pose proof (bits_le_53 b Hb0 Hb).
  unfold nadd, SFadd. rewrite !aligned_mantissa by (done || lia).
  rewrite <- Z.mul_add_distr_r.
  set (ez := Z.min _ _). replace ez with (- g - (- g - ez))%Z at 2 by lia.
  apply normalize_units; [done|lia].
Qed.

Lemma units_sub a b :
  small a -> small b -> small (a - b) -> (units g a -. units g b)%num = units g (a - b).
Proof.
  intros Ha Hb Hab.
  destruct (decide (b = 0%Z)) as [->|Hb0].
  { rewrite units_0, Z.sub_0_r. destruct (decide (a = 0%Z)) as [->|]; [done|].
    by rewrite units_finite. }
  destruct (decide (a = 0%Z)) as [->|Ha0].
  { rewrite units_0, (units_finite b), (units_finite (0 - b)) by (done || lia).
    unfold nsub, SFsub. replace (bits (0 - b)) with (bits b) by (unfold bits; do 2 f_equal; lia).
    replace (apos (0 - b)) with (apos b) by (unfold apos; f_equal; lia).
    f_equal. destruct (Z.ltb_spec b 0), (Z.ltb_spec (0 - b) 0); simpl; lia. }
  rewrite (units_finite a), (units_finite b) by done.
  pose proof (bits_le_53 a Ha0 Ha). pose proof (bits_le_53 b Hb0 Hb).
  unfold nsub, SFsub. rewrite !aligned_mantissa by (done || lia).
  rewrite <- Z.mul_sub_distr_r.
  set (ez := Z.min _ _). replace ez with (- g - (- g - ez))%Z at 2 by lia.
  apply normalize_units; [done|lia].
Qed.

Lemma mant_compare a b :
  a <> 0%Z -> b <> 0%Z -> small a -> small b ->
  match Z.compare (bits a - 53 - g) (bits b - 53 - g) with
  | Lt => Lt
  | Gt => Gt
  | Eq => Pos.compare_cont Eq (mant (apos a)) (mant (apos b))
  end = Z.compare (Z.abs a) (Z.abs b).
Proof.
  intros Ha0 Hb0 Ha Hb.
  pose proof (bits_le_53 a Ha0 Ha). pose proof (bits_le_53 b Hb0 Hb).
  destruct (Z.compare_spec (bits a - 53 - g) (bits b - 53 - g)) as [He|Hl|Hl].
  - change (Pos.compare_cont Eq (mant (apos a)) (mant (apos b)))
      with (Z.compare (Zpos (mant (apos a))) (Zpos (mant (apos b)))).
    assert (Hm : forall n, n <> 0%Z -> (bits n <= 53)%Z ->
              Zpos (mant (apos n)) = (Z.abs n * 2 ^ (53 - bits n))%Z).
    { intros n Hn Hle. assert (bits (Zpos (apos n)) = bits n) as E
        by (unfold bits; rewrite apos_spec by done; do 2 f_equal; lia).
      rewrite mant_spec, E, apos_spec by (done || lia). done. }
    rewrite !Hm by (done || lia). replace (bits b) with (bits a) by lia.
    symmetry. apply Zmult_compare_compat_r, Z.lt_gt, Z.pow_pos_nonneg; lia.
  - symmetry. apply Z.log2_lt_cancel. unfold bits in *. lia.
  - symmetry. apply Z.lt_gt, Z.log2_lt_cancel. unfold bits in *. lia.
Qed.

Lemma units_compare a b :
  small a -> small b -> SFcompare (units g a) (units g b) = Some (Z.compare a b).
Proof.
  intros Ha Hb.
  destruct (decide (a = 0%Z)) as [->|Ha0], (decide (b = 0%Z)) as [->|Hb0];
    rewrite ?units_0, ?(units_finite a), ?(units_finite b) by done; simpl.
  - done.
  - by destruct b.
  - by destruct a.
  - f_equal. pose proof (mant_compare a b Ha0 Hb0 Ha Hb) as Hm.
    destruct (Z.ltb_spec a 0), (Z.ltb_spec b 0).
    + transitivity (CompOpp (Z.compare (Z.abs a) (Z.abs b))).
      * rewrite <- Hm. by destruct (Z.compare _ _).
      * rewrite <- Z.compare_antisym. destruct (Z.compare_spec (Z.abs b) (Z.abs a)),
          (Z.compare_spec a b); done || lia.
    + symmetry. apply Z.compare_lt_iff. lia.
    + symmetry. apply Z.compare_gt_iff. lia.
    + rewrite Hm. f_equal; lia.
Qed.

Lemma units_ltb a b : small a -> small b -> (units g a <. units g b)%num = (a <? b)%Z.
Proof.
  intros Ha Hb. unfold nltb, SFltb. rewrite units_compare by done.
  unfold Z.ltb. by destruct (a ?= b)%Z.
Qed.

Lemma units_leb a b : small a -> small b -> (units g a <=. units g b)%num = (a <=? b)%Z.
Proof.
  intros Ha Hb. unfold nleb, SFleb. rewrite units_compare by done.
  unfold Z.leb. by destruct (a ?= b)%Z.
Qed.

Lemma units_abs a : small a -> nabs (units g a) = units g (Z.abs a).
Proof.
  intros Ha. destruct (decide (a = 0%Z)) as [->|Ha0]; [done|].
  assert (small (Z.abs a)) by (unfold small in *; lia).
  rewrite !units_finite by (done || lia). simpl.
  replace (Z.abs a <? 0)%Z with false by (symmetry; apply Z.ltb_ge; lia).
  unfold apos, bits. by rewrite Z.abs_idemp.
Qed.

Lemma parseFloat_units a : small a -> parseFloat (units g a) = units g a.
Proof.
  intros Ha. destruct (decide (a = 0%Z)) as [->|Ha0]; [done|]. by rewrite units_finite.
Qed.

(** Distinct grid points are distinct numbers. *)
Lemma units_inj a b : small a -> small b -> units g a = units g b -> a = b.
Proof.
  intros Ha Hb E. pose proof (units_compare a b Ha Hb) as H.
  rewrite E, units_compare in H by done.
  rewrite Z.compare_refl in H. apply Z.compare_eq. by simplify_eq.
Qed.

(** How many steps of the grid a number on it is. *)
Definition ticks (x : num) : Z :=
  match x with
  | S754_finite s m e =>
      cond_Zopp s (if (0 <=? e + g)%Z then Zpos m * 2 ^ (e + g) else Zpos m / 2 ^ (- (e + g)))
  | _ => 0
  end.

Lemma ticks_units n : small n -> ticks (units g n) = n.
Proof.
  intros Hn. destruct (decide (n = 0%Z)) as [->|Hn0]; [done|].
  pose proof (bits_le_53 n Hn0 Hn) as Hb. pose proof (apos_spec n Hn0) as Ha.
  assert (bits (Zpos (apos n)) = bits n) as Hbn by (unfold bits; by rewrite Ha, Z.abs_idemp).
  rewrite units_finite by done. unfold ticks. rewrite mant_spec by lia. rewrite Hbn, Ha.
  replace (bits n - 53 - g + g)%Z with (- (53 - bits n))%Z by lia.
  assert (H2 : (0 < 2 ^ (53 - bits n))%Z) by (apply Z.pow_pos_nonneg; lia).
  assert (Hv : (if (0 <=? - (53 - bits n))%Z then Z.abs n * 2 ^ (53 - bits n) * 2 ^ (- (53 - bits n))
    else Z.abs n * 2 ^ (53 - bits n) / 2 ^ (- (- (53 - bits n))))%Z = Z.abs n).
  { destruct (Z.leb_spec 0 (- (53 - bits n))).
    - replace (53 - bits n)%Z with 0%Z by lia. simpl. lia.
    - rewrite Z.opp_involutive. apply Z.div_mul. lia. }
  rewrite Hv. destruct (Z.ltb_spec n 0); simpl; lia.
Qed.

Lemma units_truthy a : small a -> num_truthy (units g a) = negb (a =? 0)%Z.
Proof.
  intros Ha. destruct (decide (a = 0%Z)) as [->|Ha0]; [done|].
  rewrite units_finite by done. by destruct (Z.eqb_spec a 0).
Qed.
End grid_arith.

Create Rewrite HintDb grid.
#[export] Hint Rewrite parseFloat_units units_add units_sub units_ltb units_leb units_abs
  using (unfold small in *; lia) : grid.

Lemma units_integer n : units 0 n = of_Z n.
Proof. reflexivity. Qed.

Lemma of_Z_units g n :
  (0 <= g <= 50)%Z -> (Z.abs n * 2 ^ g < 2 ^ 53)%Z -> of_Z n = units g (n * 2 ^ g).
Proof.
  intros Hg Hn. assert (Hp : (0 < 2 ^ g)%Z) by (apply Z.pow_pos_nonneg; lia).
  assert (small n) by (unfold small; nia).
  rewrite <- units_integer.
  destruct (decide (n = 0%Z)) as [->|Hn0]; [done|].
  rewrite units_finite by (done || lia).
  unfold units, dyadic.
  replace (- g)%Z with (- 0 - g)%Z at 1 by lia.
  rewrite normalize_exact by (done || lia). f_equal. lia.
Qed.

Lemma Math_floor_of_Z n : (0 <= n)%Z -> small n -> Math_floor (of_Z n) = n.
Proof.
  intros H0 Hn. destruct (decide (n = 0%Z)) as [->|Hn0]; [done|].
  rewrite <- units_integer. rewrite <- (ticks_units 0 ltac:(lia) n) at 2 by done.
  rewrite units_finite by (done || lia). unfold ticks, Math_floor.
  rewrite (proj2 (Z.ltb_ge n 0)), Z.add_0_r by lia. by destruct (0 <=? _)%Z.
Qed.

(** *** Tolerances

    The literals [0.01] and [0.001] are below every positive point of a grid of
    step [1/64] or coarser, so on such a grid the tolerance tests of the drift
    computations are sign tests. *)
Lemma literal_001 : literal 1 100 = S754_finite false 5764607523034235 (-59).
Proof. vm_compute. reflexivity. Qed.
Lemma literal_0001 : literal 1 1000 = S754_finite false 4611686018427388 (-62).
Proof. vm_compute. reflexivity. Qed.

Section tolerance.
Context (g : Z) (Hg : (0 <= g <= 6)%Z) (m : positive) (e : Z) (He : (e <= -59)%Z).

Lemma tiny_ltb_units n : small n -> (S754_finite false m e <. units g n)%num = (0 <? n)%Z.
Proof.
  intros Hn. destruct (decide (n = 0%Z)) as [->|Hn0]; [done|].
  rewrite units_finite by (done || lia). unfold nltb, SFltb. simpl.
  pose proof (bits_le_53 n Hn0 Hn).
  destruct (Z.ltb_spec n 0), (Z.ltb_spec 0 n); try (done || lia).
  by rewrite (proj2 (Z.compare_lt_iff e (bits n - 53 - g))) by lia.
Qed.

Lemma units_ltb_tiny n : small n -> (units g n <. nopp (S754_finite false m e))%num = (n <? 0)%Z.
Proof.
  intros Hn. destruct (decide (n = 0%Z)) as [->|Hn0]; [done|].
  rewrite units_finite by (done || lia). unfold nltb, SFltb. simpl.
  pose proof (bits_le_53 n Hn0 Hn).
  destruct (Z.ltb_spec n 0); [|done].
  by rewrite (proj2 (Z.compare_gt_iff (bits n - 53 - g) e)) by lia.
Qed.

Lemma units_leb_tiny n :
  small n -> (units g n <=. S754_finite false m e)%num = (n <=? 0)%Z.
Proof.
  intros Hn. destruct (decide (n = 0%Z)) as [->|Hn0]; [done|].
  rewrite units_finite by (done || lia). unfold nleb, SFleb. simpl.
  pose proof (bits_le_53 n Hn0 Hn).
  destruct (Z.ltb_spec n 0), (Z.leb_spec n 0); try (done || lia).
  by rewrite (proj2 (Z.compare_gt_iff (bits n - 53 - g) e)) by lia.
Qed.
End tolerance.

(** *** NaN comes from NaN and infinities only *)
Lemma shr_1_nonneg r : (0 <= shr_m r)%Z -> (0 <= shr_m (shr_1 r))%Z.
Proof. destruct r as [[|[]|[]] ? ?]; cbn; lia. Qed.
Lemma shr_fexp_nonneg m e l : (0 <= m)%Z -> (0 <= shr_m (shr_fexp 53 1024 m e l).1)%Z.
Proof.
  intros Hm. unfold shr_fexp, shr. assert (H0 : (0 <= shr_m (shr_record_of_loc m l))%Z) by by destruct l as [|[]].
  destruct (_ - e)%Z; cbn [fst]; [done| |done]. rewrite iter_pos_to_nat.
  induction (Pos.to_nat p) as [|n IH]; [done|]. cbn [Nat.iter]. by apply shr_1_nonneg.
Qed.
Lemma round_even_nonneg m l : (0 <= m)%Z -> (0 <= round_nearest_even m l)%Z.
Proof. intros Hm. unfold round_nearest_even. destruct l as [|[]]; try case_match; lia. Qed.
Lemma binary_round_has_value s m e : has_value (binary_round 53 1024 s m e) = true.
Proof.
  unfold binary_round. destruct (shl_align _ _ _) as [mz ez]. unfold binary_round_aux.
  pose proof (shr_fexp_nonneg (Zpos mz) ez loc_Exact ltac:(lia)) as H1.
  destruct (shr_fexp _ _ (Zpos mz) _ _) as [r1 e1]. cbn [fst] in H1.
  pose proof (shr_fexp_nonneg (round_nearest_even (shr_m r1) (loc_of_shr_record r1)) e1 loc_Exact
    ltac:(by apply round_even_nonneg)) as H2.
  destruct (shr_fexp _ _ (round_nearest_even _ _) _ _) as [r2 e2]. cbn [fst] in H2.
  destruct (shr_m r2); [done|by case_match|lia].
Qed.
Lemma normalize_has_value m e s : has_value (binary_normalize 53 1024 m e s) = true.
Proof. unfold binary_normalize. destruct m; [done|apply binary_round_has_value..]. Qed.
Lemma dyadic_has_value m e : has_value (dyadic m e) = true.
Proof. apply normalize_has_value. Qed.

Lemma nadd_has_value x y : has_value x = true -> finite y = true -> has_value (x +. y)%num = true.
Proof.
  intros Hx Hy. unfold nadd, SFadd.
  destruct x as [[]|[]| |[] ? ?], y as [[]|[]| |[] ? ?]; try done; apply normalize_has_value.
Qed.
Lemma nsub_has_value x y : has_value x = true -> finite y = true -> has_value (x -. y)%num = true.
Proof.
  intros Hx Hy. unfold nsub, SFsub.
  destruct x as [[]|[]| |[] ? ?], y as [[]|[]| |[] ? ?]; try done; apply normalize_has_value.
Qed.
Lemma parseFloat_has_value x : has_value (parseFloat x) = has_value x.
Proof. by destruct x. Qed.
Lemma parseFloat_finite x : finite (parseFloat x) = finite x.
Proof. by destruct x. Qed.
Lemma finite_has_value x : finite x = true -> has_value x = true.
Proof. by destruct x. Qed.
Lemma units_are_finite g n : (0 <= g <= 900)%Z -> small n -> finite (units g n) = true.
Proof.
  intros Hg Hs. destruct (decide (n = 0%Z)) as [->|Hn]; [done|]. by rewrite (units_finite g).
Qed.
