(* ===== verification/NumText.v ===== *)
(** * Numbers in texts

    What the language reads a text as: [s.trim()], [Number(s)] and [parseFloat(s)].
    A text is a string of code units below 256. *)

From Stdlib Require Import Ascii.
From Stdlib Require SpecFloat.
From stdpp Require Import pretty.
From S2P Require Import Prelude Num.

Local Open Scope string_scope.

(** ** White space *)

(** The white space [trim] removes, among the code units below 256. *)
Definition is_space (c : ascii) : bool :=
  let n := N_of_ascii c in ((9 <=? n) && (n <=? 13) || (n =? 32) || (n =? 160))%N.
Fixpoint trim_start (s : string) : string :=
  match s with
  | String c s' => if is_space c then trim_start s' else s
  | "" => ""
  end.
Fixpoint trim_end (s : string) : string :=
  match s with
  | String c s' =>
      match trim_end s' with
      | "" => if is_space c then "" else String c ""
      | t => String c t
      end
  | "" => ""
  end.
Definition trim (s : string) : string := trim_end (trim_start s).

(** ** Digits *)
Definition digit (c : ascii) : option Z :=
  let n := Z.of_N (N_of_ascii c) in
  if ((48 <=? n) && (n <=? 57))%Z then Some (n - 48)%Z else None.
Fixpoint digits (acc : Z) (s : string) : option Z :=
  match s with
  | "" => Some acc
  | String c s' => d ← digit c; digits (acc * 10 + d) s'
  end.
(** The digits at the start of a text: the number they continue, how many there
    are, and the rest. *)
Fixpoint take_digits (acc : Z) (count : nat) (s : string) : Z * nat * string :=
  match s with
  | "" => (acc, count, "")
  | String c s' =>
      match digit c with
      | Some d => take_digits (acc * 10 + d) (S count) s'
      | None => (acc, count, s)
      end
  end.
(** [n * 10^e], rounded once. *)
Definition decimal (n e : Z) : num :=
  if (0 <=? e)%Z then of_Z (n * 10 ^ e)
  else match n with
       | Zpos p => ndiv (SpecFloat.S754_finite false p 0) (SpecFloat.S754_finite false (Z.to_pos (10 ^ (- e))) 0)
       | _ => of_Z 0
       end.
(** The digits of a decimal number at the start of a text, the power of ten of the
    last one, and the rest; [None] when there is no digit. *)
Definition take_decimal (s : string) : option (Z * Z * string) :=
  let '(whole, i, rest) := take_digits 0 0 s in
  let '(n, f, rest) := match rest with
                       | String "." rest' => take_digits whole 0 rest'
                       | _ => (whole, 0, rest)
                       end%nat in
  if decide (i + f = 0)%nat then None else Some (n, - Z.of_nat f, rest)%Z.

(** ** [parseFloat(text)] *)

(** An exponent needs a digit; without one it is not part of the number. *)
Definition exponent_part (s : string) : Z :=
  match s with
  | String ("e" | "E") (String "-" s') => - (take_digits 0 0 s').1.1
  | String ("e" | "E") (String "+" s') | String ("e" | "E") s' => (take_digits 0 0 s').1.1
  | _ => 0
  end%Z.
Definition parse_decimal (s : string) : num :=
  if String.prefix "Infinity" s then SpecFloat.S754_infinity false
  else match take_decimal s with
       | None => NaN
       | Some (n, e, rest) => decimal n (e + exponent_part rest)
       end.
Definition parseFloat_text (s : string) : num :=
  match trim_start s with
  | String "-" s' => nopp (parse_decimal s')
  | String "+" s' => parse_decimal s'
  | s' => parse_decimal s'
  end.

Example parseFloat_texts :
  parseFloat_text " 12.50days" = literal 25 2 /\ parseFloat_text "-.5e1" = of_Z (-5) /\
  parseFloat_text "20" = of_Z 20 /\ parseFloat_text "1.e-2" = literal 1 100 /\ parseFloat_text "." = NaN /\
  parseFloat_text "2e" = of_Z 2 /\ parseFloat_text "ten" = NaN.
Proof. by vm_compute. Qed.

(** ** [Number(text)] *)

(** The digits of a base with letters for those above nine. *)
Definition base_digit (base : Z) (c : ascii) : option Z :=
  let n := Z.of_N (N_of_ascii c) in
  let d := if ((97 <=? n) && (n <=? 122))%Z then (n - 87)%Z
           else if ((65 <=? n) && (n <=? 90))%Z then (n - 55)%Z
           else default base (digit c) in
  if (d <? base)%Z then Some d else None.
Fixpoint base_digits (base acc : Z) (s : string) : option Z :=
  match s with
  | "" => Some acc
  | String c s' => d ← base_digit base c; base_digits base (acc * base + d) s'
  end.
(** The number in a base; a text that has other characters, or none, is none. *)
Definition in_base (base : Z) (s : string) : num :=
  match s with
  | "" => NaN
  | _ => from_option of_Z NaN (base_digits base 0 s)
  end.
(** The exponent that is the whole rest of a number. *)
Definition whole_exponent (s : string) : option Z :=
  let read s := match s with "" => None | _ => digits 0 s end in
  match s with
  | "" => Some 0%Z
  | String ("e" | "E") (String "-" s') => Z.opp <$> read s'
  | String ("e" | "E") (String "+" s') | String ("e" | "E") s' => read s'
  | _ => None
  end.
Definition whole_decimal (s : string) : num :=
  if decide (s = "Infinity") then SpecFloat.S754_infinity false
  else match take_decimal s with
       | None => NaN
       | Some (n, e, rest) => from_option (fun e' => decimal n (e + e')) NaN (whole_exponent rest)
       end.
(** The whole text is a number between white space, or nothing, which is zero;
    only a decimal number has a sign. *)
Definition Number (s : string) : num :=
  match trim s with
  | "" => of_Z 0
  | String "0" (String ("x" | "X") s') => in_base 16 s'
  | String "0" (String ("o" | "O") s') => in_base 8 s'
  | String "0" (String ("b" | "B") s') => in_base 2 s'
  | String "-" s' => nopp (whole_decimal s')
  | String "+" s' => whole_decimal s'
  | s' => whole_decimal s'
  end.

Example Number_texts :
  Number "08" = of_Z 8 /\ Number "" = of_Z 0 /\ Number " 12 " = of_Z 12 /\ Number "1e1" = of_Z 10 /\
  Number "0x1f" = of_Z 31 /\ Number "0b101" = of_Z 5 /\ Number "0.5" = literal 1 2 /\ Number "1." = of_Z 1 /\
  Number "5d" = NaN /\ Number "1e" = NaN /\ Number "+0x1" = NaN /\ Number "." = NaN /\ Number "- 1" = NaN.
Proof. by vm_compute. Qed.

(** A number without its fraction, as a date takes it; [None] for NaN and the
    infinities. *)
Definition to_integer (x : num) : option Z :=
  match x with
  | SpecFloat.S754_zero _ => Some 0%Z
  | SpecFloat.S754_finite s m e =>
      let n := Z.shiftl (Zpos m) e in Some (if s then - n else n)%Z
  | _ => None
  end.

(** ** Numbers printed *)
Lemma pretty_N_go_nonempty x s : s <> "" -> pretty_N_go x s <> "".
Proof.
  revert s. induction (N.lt_wf_0 x) as [x _ IH]. intros s Hs.
  destruct (decide (0 < x)%N); [|by replace x with 0%N by lia].
  rewrite pretty_N_go_step by done. apply IH; [by apply N.div_lt|done].
Qed.
Lemma pretty_N_nonempty (n : N) : pretty n <> "".
Proof.
  unfold pretty, pretty_N. case_decide; [done|]. rewrite pretty_N_go_step by lia. by apply pretty_N_go_nonempty.
Qed.
