(* ===== verification/Domain.v ===== *)
(** * Domain: constants, exceptions and entities

    [src/common/constants/index.js], the four TypeORM entities and the shapes of
    the errors the services throw and inspect.  An enum column is a [varchar]:
    its type has the enum's values and [Other] for any other string, which the
    code's fall-through branches handle. *)

From S2P Require Import Prelude Num.

Module RequestStatus.
Inductive t := PENDING | APPROVED | REJECTED | CANCELLED | Other (s : string).
#[global] Instance t_eq_dec : EqDecision t.
Proof. solve_decision. Defined.
End RequestStatus.

Module HcmSyncStatus.
Inductive t := PENDING | SUCCESS | FAILED | SKIPPED.
#[global] Instance t_eq_dec : EqDecision t.
Proof. solve_decision. Defined.
End HcmSyncStatus.

Module SyncType.
Inductive t := REALTIME | BATCH.
End SyncType.

Module SyncLogStatus.
Inductive t := STARTED | COMPLETED | FAILED | PARTIAL.
#[global] Instance t_eq_dec : EqDecision t.
Proof. solve_decision. Defined.
End SyncLogStatus.

Module CircuitState.
Inductive t := CLOSED | OPEN | HALF_OPEN.
#[global] Instance t_eq_dec : EqDecision t.
Proof. solve_decision. Defined.
End CircuitState.

Module ErrorCodes.
Definition INSUFFICIENT_BALANCE := "INSUFFICIENT_BALANCE".
Definition BALANCE_CONFLICT := "BALANCE_CONFLICT".
Definition OVERLAPPING_REQUEST := "OVERLAPPING_REQUEST".
Definition IDEMPOTENCY_CONFLICT := "IDEMPOTENCY_CONFLICT".
Definition INVALID_STATUS_TRANSITION := "INVALID_STATUS_TRANSITION".
Definition HCM_UNAVAILABLE := "HCM_UNAVAILABLE".
Definition REQUEST_NOT_FOUND := "REQUEST_NOT_FOUND".
Definition BALANCE_NOT_FOUND := "BALANCE_NOT_FOUND".
End ErrorCodes.

(** [VALID_TRANSITIONS]: the property access gives [undefined] for a key that is
    none of the four. *)
Definition VALID_TRANSITIONS (from : RequestStatus.t) : option (list RequestStatus.t) :=
  match from with
  | RequestStatus.PENDING =>
      Some [RequestStatus.APPROVED; RequestStatus.REJECTED; RequestStatus.CANCELLED]
  | RequestStatus.APPROVED => Some []
  | RequestStatus.REJECTED => Some []
  | RequestStatus.CANCELLED => Some []
  | RequestStatus.Other _ => None
  end.

(** The environment variables the process reads at start, already parsed. *)
Class Config := {
  BALANCE_STALE_THRESHOLD_HOURS : Z;
  IDEMPOTENCY_TTL_HOURS : Z;
  HCM_RETRY_MAX_ATTEMPTS : Z;
  HCM_RETRY_BASE_DELAY_MS : Z;
  HCM_CIRCUIT_BREAKER_THRESHOLD : Z;
  HCM_CIRCUIT_BREAKER_RESET_MS : Z;
}.

(** The values used when no variable is set. *)
Definition default_config : Config := {|
  BALANCE_STALE_THRESHOLD_HOURS := 6;
  IDEMPOTENCY_TTL_HOURS := 24;
  HCM_RETRY_MAX_ATTEMPTS := 3;
  HCM_RETRY_BASE_DELAY_MS := 1000;
  HCM_CIRCUIT_BREAKER_THRESHOLD := 5;
  HCM_CIRCUIT_BREAKER_RESET_MS := 30000;
|}.

Definition STALE_BALANCE_THRESHOLD_MS `{Config} : Z := BALANCE_STALE_THRESHOLD_HOURS * 60 * 60 * 1000.
Definition IDEMPOTENCY_TTL_MS `{Config} : Z := IDEMPOTENCY_TTL_HOURS * 60 * 60 * 1000.

(** ** Exceptions *)

(** The properties of a non-HTTP error object the code looks at: [code],
    [driverError.code], [response.status] and [message]. *)
Record error_object := {
  e_code : option string;
  e_driver_code : option string;
  e_response_status : option Z;
  e_message : string;
}.

(** A NestJS exception with its HTTP status and the [error] field of its body
    (the texts shown to the client are left out), any other error object, or no
    error at all. *)
Inductive exn :=
  | HttpException (status : Z) (error : string)
  | ErrorObject (o : error_object)
  | ThrownUndefined.  (** [throw undefined] *)

Definition BadRequestException := HttpException 400.
Definition NotFoundException := HttpException 404.
Definition ConflictException := HttpException 409.
Definition UnprocessableEntityException := HttpException 422.
Definition JsError (message : string) : exn :=
  ErrorObject {| e_code := None; e_driver_code := None; e_response_status := None; e_message := message |}.
Definition DriverError (code message : string) : exn :=
  ErrorObject {| e_code := Some code; e_driver_code := Some code; e_response_status := None;
                 e_message := message |}.

(** [err?.code]: a NestJS exception has no [code]. *)
Definition err_code (e : exn) : option string :=
  match e with ErrorObject o => e_code o | _ => None end.

(** ** Entities

    A field that may be [null] or [undefined] is an [option]; an [id] still to
    be generated is the empty string.  Times are epoch milliseconds. *)
Record EmployeeBalance := {
  b_id : string;
  b_employeeId : string;
  b_locationId : string;
  b_leaveType : string;
  b_totalBalance : num;
  b_availableBalance : num;
  b_pendingBalance : num;
  b_usedBalance : num;
  b_carryOverBalance : num;
  b_hcmTotalBalance : num;
  b_hcmLastSync : option Z;
  b_hcmVersion : option string;
  b_hasDiscrepancy : bool;
  b_discrepancyAmount : option num;
  b_version : Z;
  b_createdAt : Z;
  b_updatedAt : Z;
}.

Record TimeOffRequest := {
  r_id : string;
  r_idempotencyKey : string;
  r_employeeId : string;
  r_locationId : string;
  r_leaveType : string;
  r_startDate : string;
  r_endDate : string;
  r_daysRequested : num;
  r_status : RequestStatus.t;
  r_requestedBy : string;
  r_approvedBy : option string;
  r_approvedAt : option Z;
  r_rejectionReason : option string;
  r_notes : option string;
  r_hcmValidated : bool;
  r_hcmSyncStatus : HcmSyncStatus.t;
  r_hcmSyncAttempts : Z;
  r_hcmLastSyncAt : option Z;
  r_version : Z;
  r_createdAt : Z;
  r_updatedAt : Z;
}.

(** What [_serializeRequest] returns, which is also the cached response body. *)
Record RequestView := {
  v_id : string;
  v_idempotencyKey : string;
  v_employeeId : string;
  v_locationId : string;
  v_leaveType : string;
  v_startDate : string;
  v_endDate : string;
  v_daysRequested : num;
  v_status : RequestStatus.t;
  v_requestedBy : string;
  v_approvedBy : option string;
  v_approvedAt : option Z;
  v_rejectionReason : option string;
  v_notes : option string;
  v_hcmValidated : bool;
  v_hcmSyncStatus : HcmSyncStatus.t;
  v_version : Z;
  v_createdAt : Z;
  v_updatedAt : Z;
}.

Record IdempotencyRecord := {
  i_id : string;
  i_idempotencyKey : string;
  i_employeeId : string;
  i_requestHash : string;
  i_responseStatus : Z;
  i_responseBody : RequestView;
  i_expiresAt : Z;
  i_createdAt : Z;
}.

(** One element of a sync log's [errorDetails]; the run-level failure has no
    balance key. *)
Record SyncError := {
  se_key : option (string * string * string);
  se_error : string;
}.

Record SyncLog := {
  l_id : string;
  l_syncType : SyncType.t;
  l_status : SyncLogStatus.t;
  l_employeeId : option string;
  l_locationId : option string;
  l_recordsProcessed : Z;
  l_recordsUpdated : Z;
  l_recordsFailed : Z;
  l_errorDetails : option (list SyncError);
  l_startedAt : Z;
  l_completedAt : option Z;
  l_createdAt : Z;
}.
