(* ===== verification/Store.v ===== *)
(** * Store: the repository interface

    TypeORM and SQLite are not part of the repository's code.  The services use
    them through a few repository methods ([find], [findOne], [save], [update]
    and their [EntityManager] forms), which are the operations of the class
    [Repo].  [RepoLaws] states what the services rely on: reads are exact, a
    successful [save] stores the row it was given up to the columns TypeORM
    manages, a failed write stores nothing, and unique and [NOT NULL] constraints
    are enforced.

    [MemRepo] is a concrete table in memory that satisfies the laws; the
    witnesses of the development run on it. *)

From S2P Require Import Prelude Num Domain.

(** ** Entities: what the decorators of an entity class declare *)
Class Entity (R : Type) := {
  eid : R -> string;              (** [@PrimaryGeneratedColumn('uuid')] *)
  e_assign : string -> R -> R;    (** the generated identifier *)
  e_bump : R -> R;                (** [@VersionColumn()] on an update *)
  e_erase : R -> R;               (** the row without its managed columns *)
  e_clash : R -> R -> bool;       (** both rows would violate a unique constraint *)
  e_storable : R -> bool;         (** no column that is not [nullable] would be [NULL] *)
}.

(** Rows that differ only in the columns TypeORM manages. *)
Definition esame `{Entity R} (r r' : R) : Prop := e_erase r = e_erase r'.

#[export] Instance esame_equiv `{Entity R} : Equivalence (esame (R := R)).
Proof. unfold esame. split; repeat intro; congruence. Qed.

(** A column that is not managed is the same in both. *)
Lemma esame_field `{Entity R} {A} (f : R -> A) r r' :
  (forall c, f (e_erase c) = f c) -> esame r r' -> f r = f r'.
Proof. unfold esame. intros Hf Hs. rewrite <- (Hf r), <- (Hf r'). by f_equal. Qed.

Class EntityLaws (R : Type) `{Entity R} := {
  eid_assign : forall i r, eid (e_assign i r) = i;
  eid_bump : forall r, eid (e_bump r) = eid r;
  erase_assign : forall i r, e_erase (e_assign i r) = e_erase r;
  erase_bump : forall r, e_erase (e_bump r) = e_erase r;
  clash_erase : forall r q, e_clash (e_erase r) (e_erase q) = e_clash r q;
  clash_sym : forall r q, e_clash r q = e_clash q r;
  storable_erase : forall r, e_storable (e_erase r) = e_storable r;
}.

#[export] Instance clash_proper `{EntityLaws R} :
  Proper (esame ==> esame ==> eq) (e_clash (R := R)).
Proof.
  intros r r' Hr q q' Hq. unfold esame in *.
  by rewrite <- (clash_erase r q), Hr, Hq, clash_erase.
Qed.

#[export] Instance storable_proper `{EntityLaws R} : Proper (esame ==> eq) (e_storable (R := R)).
Proof. intros r r' Hr. unfold esame in Hr. by rewrite <- (storable_erase r), Hr, storable_erase. Qed.

Lemma clash_assign `{EntityLaws R} i (r q : R) : e_clash (e_assign i r) q = e_clash r q.
Proof. apply clash_proper; [|done]. unfold esame. apply erase_assign. Qed.
Lemma clash_bump `{EntityLaws R} (r q : R) : e_clash (e_bump r) q = e_clash r q.
Proof. apply clash_proper; [|done]. unfold esame. apply erase_bump. Qed.

(** ** The repository *)

(** [skip] and [take] of a sorted result. *)
Definition page {A} (take : option nat) (skip : nat) (l : list A) : list A :=
  match take with
  | None => drop skip l
  | Some n => list.take n (drop skip l)
  end.

Class Repo (Tbl : Type -> Type) := {
  r_find : forall {R} `{Entity R}, (R -> bool) -> Tbl R -> list R;
  r_findOne : forall {R} `{Entity R}, (R -> bool) -> Tbl R -> option R;
  r_findBy : forall {R} `{Entity R},
    (R -> bool) -> (R -> R -> bool) -> option nat -> nat -> Tbl R -> list R;
  r_save : forall {R} `{Entity R}, R -> Tbl R -> Tbl R * (exn + R);
  r_update : forall {R} `{Entity R}, string -> (R -> R) -> Tbl R -> Tbl R * (exn + unit);
}.

(** The error of a violated constraint. *)
Definition constraint_error (e : exn) : Prop :=
  exists msg, e = DriverError "SQLITE_CONSTRAINT" msg.

(** An error object of the driver, not an exception of the services. *)
Definition driver_error (e : exn) : Prop := exists o, e = ErrorObject o.

Class RepoLaws (Tbl : Type -> Type) `{Repo Tbl} := {
  rows : forall {R} `{EntityLaws R}, Tbl R -> gmap string R;
  wf : forall {R} `{EntityLaws R}, Tbl R -> Prop;
  rows_id : forall {R} `{EntityLaws R} (t : Tbl R) i r,
    wf t -> rows t !! i = Some r -> eid r = i /\ i <> "";
  rows_unique : forall {R} `{EntityLaws R} (t : Tbl R) i j r q,
    wf t -> rows t !! i = Some r -> rows t !! j = Some q -> e_clash r q = true -> i = j;
  rows_storable : forall {R} `{EntityLaws R} (t : Tbl R) i r,
    wf t -> rows t !! i = Some r -> e_storable r = true;
  find_In : forall {R} `{EntityLaws R} (t : Tbl R) p r,
    wf t -> r ∈ r_find p t <-> rows t !! eid r = Some r /\ p r = true;
  find_NoDup : forall {R} `{EntityLaws R} (t : Tbl R) p, wf t -> NoDup (eid <$> r_find p t);
  findOne_Some : forall {R} `{EntityLaws R} (t : Tbl R) p r,
    wf t -> r_findOne p t = Some r -> rows t !! eid r = Some r /\ p r = true;
  findOne_None : forall {R} `{EntityLaws R} (t : Tbl R) p i r,
    wf t -> r_findOne p t = None -> rows t !! i = Some r -> p r = false;
  findBy_spec : forall {R} `{EntityLaws R} (t : Tbl R) p (ord : R -> R -> bool) take skip,
    wf t -> (forall x y, ord x y = true \/ ord y x = true) ->
    (forall x y z, ord x y = true -> ord y z = true -> ord x z = true) ->
    exists l, l ≡ₚ r_find p t /\ StronglySorted (brel ord) l /\
      r_findBy p ord take skip t = page take skip l;
  save_Ok : forall {R} `{EntityLaws R} (t t' : Tbl R) r r',
    wf t -> r_save r t = (t', inr r') ->
    wf t' /\ esame r r' /\ rows t' = <[eid r' := r']> (rows t) /\
    (if decide (eid r = "") then rows t !! eid r' = None else eid r' = eid r);
  save_Err : forall {R} `{EntityLaws R} (t t' : Tbl R) r e,
    wf t -> r_save r t = (t', inl e) -> wf t' /\ rows t' = rows t /\ driver_error e;
  save_clash : forall {R} `{EntityLaws R} (t : Tbl R) r j q,
    wf t -> rows t !! j = Some q -> e_clash r q = true -> eid r <> j ->
    exists t' e, r_save r t = (t', inl e) /\ constraint_error e;
  save_null : forall {R} `{EntityLaws R} (t : Tbl R) r,
    wf t -> e_storable r = false -> exists t' e, r_save r t = (t', inl e) /\ constraint_error e;
  update_Ok : forall {R} `{EntityLaws R} (t t' : Tbl R) i f,
    wf t -> (forall r, eid (f r) = eid r) -> r_update i f t = (t', inr tt) ->
    wf t' /\
    match rows t !! i with
    | None => rows t' = rows t
    | Some r => exists r', esame (f r) r' /\ eid r' = i /\ rows t' = <[i := r']> (rows t)
    end;
  update_Err : forall {R} `{EntityLaws R} (t t' : Tbl R) i f e,
    wf t -> r_update i f t = (t', inl e) -> wf t' /\ rows t' = rows t /\ driver_error e;
  update_null : forall {R} `{EntityLaws R} (t : Tbl R) i r f,
    wf t -> rows t !! i = Some r -> e_storable (f r) = false ->
    exists t' e, r_update i f t = (t', inl e) /\ constraint_error e;
}.

(** A driver that fails a write only on a constraint. *)
Class ReliableRepo (Tbl : Type -> Type) `{RepoLaws Tbl} := {
  save_total : forall {R} `{EntityLaws R} (t : Tbl R) r,
    wf t -> e_storable r = true ->
    (forall j q, rows t !! j = Some q -> e_clash r q = true -> eid r = j) ->
    exists t' r', r_save r t = (t', inr r');
  update_total : forall {R} `{EntityLaws R} (t : Tbl R) i f,
    wf t -> (forall r, eid (f r) = eid r) ->
    (forall r q, e_clash (f r) q = e_clash r q) ->
    (forall r, rows t !! i = Some r -> e_storable (f r) = true) ->
    exists t', r_update i f t = (t', inr tt);
}.

(** ** A table in memory *)
Section mem.
Context {R : Type} `{EntityLaws R}.
Implicit Types (t : gmap string R) (r q : R).

Definition mem_find (p : R -> bool) t : list R :=
  filter (fun r => p r = true) (snd <$> map_to_list t).
Definition mem_findOne (p : R -> bool) t : option R := head (mem_find p t).
Definition mem_findBy (p : R -> bool) (ord : R -> R -> bool) (take : option nat) (skip : nat) t :
    list R :=
  page take skip (merge_sort (brel ord) (mem_find p t)).

Definition mem_clash (i : string) r t : bool :=
  existsb (fun '(j, q) => e_clash r q && bool_decide (i <> j)) (map_to_list t).

Definition unique_violation : exn := DriverError "SQLITE_CONSTRAINT" "UNIQUE constraint failed".

Definition null_violation : exn := DriverError "SQLITE_CONSTRAINT" "NOT NULL constraint failed".

Definition mem_fresh t : string := fresh ({[ "" ]} ∪ dom t : gset string).

Definition mem_save r t : gmap string R * (exn + R) :=
  if mem_clash (eid r) r t then (t, inl unique_violation)
  else if negb (e_storable r) then (t, inl null_violation)
  else if decide (eid r = "") then
    let r' := e_assign (mem_fresh t) r in (<[eid r' := r']> t, inr r')
  else
    let r' := match t !! eid r with Some _ => e_bump r | None => r end in
    (<[eid r := r']> t, inr r').

Definition mem_update (i : string) (f : R -> R) t : gmap string R * (exn + unit) :=
  match t !! i with
  | None => (t, inr tt)
  | Some r => if mem_clash i (f r) t then (t, inl unique_violation)
              else if negb (e_storable (f r)) then (t, inl null_violation)
              else (<[i := e_bump (f r)]> t, inr tt)
  end.

Definition mem_wf t : Prop :=
  (forall i r, t !! i = Some r -> eid r = i /\ i <> "") /\
  (forall i j r q, t !! i = Some r -> t !! j = Some q -> e_clash r q = true -> i = j) /\
  (forall i r, t !! i = Some r -> e_storable r = true).

Lemma mem_find_In t p r :
  mem_wf t -> r ∈ mem_find p t <-> t !! eid r = Some r /\ p r = true.
Proof.
  intros (Hid & _). unfold mem_find. rewrite list_elem_of_filter, list_elem_of_fmap. split.
  - intros [Hp ((i & r') & -> & Hin)]. apply elem_of_map_to_list in Hin.
    simpl in *. destruct (Hid _ _ Hin) as [<- _]. done.
  - intros [Hl Hp]. split; [done|]. exists (eid r, r). by rewrite elem_of_map_to_list.
Qed.

Lemma mem_find_NoDup t p : mem_wf t -> NoDup (eid <$> mem_find p t).
Proof.
  intros (Hid & _). unfold mem_find.
  assert (Hk : eid <$> (snd <$> map_to_list t) = fst <$> map_to_list t).
  { rewrite <- list_fmap_compose. apply list_fmap_ext. intros k [i r] Hl. simpl.
    apply list_elem_of_lookup_2, elem_of_map_to_list in Hl. by destruct (Hid _ _ Hl). }
  assert (Hnd : NoDup (eid <$> (snd <$> map_to_list t))) by (rewrite Hk; apply NoDup_fst_map_to_list).
  revert Hnd. generalize (snd <$> map_to_list t). intros l.
  induction l as [|r l IH]; intros Hnd; [constructor|].
  rewrite fmap_cons in Hnd. apply NoDup_cons in Hnd as [Hn Hnd]. rewrite filter_cons.
  destruct (decide _); [|auto]. rewrite fmap_cons. apply NoDup_cons. split; [|auto].
  intros (q & Hq & Hin)%list_elem_of_fmap. apply Hn.
  apply list_elem_of_filter in Hin as [_ Hin]. rewrite Hq. by apply list_elem_of_fmap_2.
Qed.

Lemma mem_clash_false i r t :
  mem_clash i r t = false ->
  forall j q, t !! j = Some q -> e_clash r q = true -> i = j.
Proof.
  intros Hc j q Hl Hq. destruct (decide (i = j)) as [|Hn]; [done|].
  assert (mem_clash i r t = true) as Ht; [|congruence].
  apply existsb_exists. exists (j, q). split.
  - by apply list_elem_of_In, elem_of_map_to_list.
  - rewrite Hq. simpl. by apply bool_decide_eq_true_2.
Qed.

Lemma mem_clash_true i r t :
  mem_clash i r t = true -> exists j q, t !! j = Some q /\ e_clash r q = true /\ i <> j.
Proof.
  intros ([j q] & Hin & Hb)%existsb_exists.
  apply list_elem_of_In, elem_of_map_to_list in Hin.
  apply andb_prop in Hb as [? ?%bool_decide_eq_true_1]. eauto.
Qed.

(** Storing a row that clashes with no other row keeps the table well formed. *)
Lemma mem_wf_insert i r t :
  mem_wf t -> eid r = i -> i <> "" -> e_storable r = true ->
  (forall j q, t !! j = Some q -> e_clash r q = true -> i = j) ->
  mem_wf (<[i := r]> t).
Proof.
  intros (Hid & Hu & Hn) Hi Hne Hs Hc. split; [|split].
  - intros j q. rewrite lookup_insert. case_decide; [intros [= <-]; by subst|apply Hid].
  - intros j k q q'. rewrite !lookup_insert. repeat case_decide; simplify_eq; try done.
    + intros [= <-] Hk Hq. eauto.
    + intros Hj [= <-] Hq. rewrite clash_sym in Hq. symmetry. eauto.
    + eauto.
  - intros j q. rewrite lookup_insert. case_decide; [by intros [= <-]|apply Hn].
Qed.

Lemma mem_fresh_spec t : mem_fresh t <> "" /\ t !! mem_fresh t = None.
Proof.
  pose proof (is_fresh ({[ "" ]} ∪ dom t : gset string)) as Hf. fold (mem_fresh t) in Hf.
  split; [set_solver|]. apply not_elem_of_dom. set_solver.
Qed.

Lemma mem_save_Ok t t' r r' :
  mem_wf t -> mem_save r t = (t', inr r') ->
  mem_wf t' /\ esame r r' /\ t' = <[eid r' := r']> t /\
  (if decide (eid r = "") then t !! eid r' = None else eid r' = eid r).
Proof.
  intros Hwf. unfold mem_save. destruct (mem_clash _ _ _) eqn:Ec; [done|].
  destruct (e_storable r) eqn:Es; cbn [negb]; [|done].
  pose proof (mem_clash_false _ _ _ Ec) as Hc. pose proof (mem_fresh_spec t) as [Hf1 Hf2].
  destruct (decide _) as [Hi|Hi].
  - intros [= <- <-]. rewrite !eid_assign. split_and!; try done.
    + apply mem_wf_insert; [done|apply eid_assign|done| |].
      { rewrite <- Es. apply storable_proper. unfold esame. apply erase_assign. }
      intros j q Hj Hq. rewrite clash_assign in Hq.
      pose proof (Hc _ _ Hj Hq). destruct Hwf as [Hid _].
      destruct (Hid _ _ Hj). congruence.
    + unfold esame. by rewrite erase_assign.
  - intros [= <- <-].
    set (r1 := match t !! eid r with Some _ => e_bump r | None => r end).
    assert (esame r r1) by (unfold esame, r1; destruct (t !! eid r); [by rewrite erase_bump|done]).
    assert (Hid1 : eid r1 = eid r) by (unfold r1; destruct (t !! eid r); [by rewrite eid_bump|done]).
    rewrite Hid1. split_and!; try done. apply mem_wf_insert; try done.
    { rewrite <- Es. by apply storable_proper. }
    intros j q Hj Hq. apply (Hc _ _ Hj). by rewrite <- Hq; apply clash_proper.
Qed.

Lemma mem_update_Ok t t' i f :
  mem_wf t -> (forall r, eid (f r) = eid r) -> mem_update i f t = (t', inr tt) ->
  mem_wf t' /\
  match t !! i with
  | None => t' = t
  | Some r => exists r', esame (f r) r' /\ eid r' = i /\ t' = <[i := r']> t
  end.
Proof.
  intros Hwf Hf. unfold mem_update. destruct (t !! i) as [r|] eqn:Hi; [|by intros [= <-]].
  destruct (mem_clash _ _ _) eqn:Ec; [done|]. destruct (e_storable (f r)) eqn:Es; cbn [negb]; [|done].
  intros [= <-]. pose proof Hwf as (Hid & _). destruct (Hid _ _ Hi) as [He Hne].
  assert (Hie : eid (e_bump (f r)) = i) by (by rewrite eid_bump, Hf).
  split.
  - apply mem_wf_insert; try done.
    { rewrite <- Es. apply storable_proper. unfold esame. apply erase_bump. }
    intros j q Hj Hq. rewrite clash_bump in Hq.
    by eapply mem_clash_false.
  - exists (e_bump (f r)). split_and!; [|done|done]. unfold esame. by rewrite erase_bump.
Qed.

Lemma mem_save_total t r :
  mem_wf t -> e_storable r = true -> (forall j q, t !! j = Some q -> e_clash r q = true -> eid r = j) ->
  exists t' r', mem_save r t = (t', inr r').
Proof.
  intros Hwf Hs Hc. unfold mem_save. rewrite Hs. cbn [negb].
  destruct (mem_clash (eid r) r t) eqn:Ec; [|case_decide; eauto].
  apply mem_clash_true in Ec as (j & q & Hl & Hq & Hn). by destruct (Hn (Hc _ _ Hl Hq)).
Qed.

Lemma mem_update_total t i f :
  mem_wf t -> (forall r, eid (f r) = eid r) ->
  (forall r q, e_clash (f r) q = e_clash r q) ->
  (forall r, t !! i = Some r -> e_storable (f r) = true) ->
  exists t', mem_update i f t = (t', inr tt).
Proof.
  intros Hwf Hid Hcl Hs. unfold mem_update. destruct (t !! i) as [r|] eqn:Hi; [|eauto].
  rewrite (Hs r eq_refl). destruct (mem_clash i (f r) t) eqn:Ec; [|eauto].
  apply mem_clash_true in Ec as (j & q & Hl & Hq & Hn). rewrite Hcl in Hq.
  destruct Hwf as (_ & Hu & _). by destruct (Hn (Hu _ _ _ _ Hi Hl Hq)).
Qed.
End mem.

Definition MemTbl : Type -> Type := fun R => gmap string R.

#[export] Instance MemRepo : Repo MemTbl := {|
  r_find := fun R _ => mem_find;
  r_findOne := fun R _ => mem_findOne;
  r_findBy := fun R _ => mem_findBy;
  r_save := fun R _ => mem_save;
  r_update := fun R _ => mem_update;
|}.

#[export] Instance MemRepoLaws : RepoLaws MemTbl.
Proof.
  refine {| rows := fun R _ _ t => t; wf := fun R _ _ t => mem_wf t |}; intros R HR HL t.
  - intros i r [Hid _] Hl. by apply Hid.
  - intros i j r q (_ & Hu & _). apply Hu.
  - intros i r (_ & _ & Hn). apply Hn.
  - intros p r. apply mem_find_In.
  - intros p. apply mem_find_NoDup.
  - intros p r Hwf Hh. apply mem_find_In; [done|]. by apply head_Some_elem_of.
  - intros p i r Hwf Hh Hl. destruct (p r) eqn:Hp; [|done]. exfalso.
    apply head_None in Hh. assert (Hin : r ∈ mem_find p t).
    { apply mem_find_In; [done|]. destruct Hwf as [Hid _]. destruct (Hid _ _ Hl) as [-> _]. done. }
    rewrite Hh in Hin. by apply elem_of_nil in Hin.
  - intros p ord take skip Hwf Htot Htr.
    exists (merge_sort (brel ord) (mem_find p t)). split_and!; [| |done].
    + apply merge_sort_Permutation.
    + apply StronglySorted_merge_sort; [intros x y z; apply Htr|intros x y; apply Htot].
  - intros t' r r'. apply mem_save_Ok.
  - intros t' r e Hwf. cbn. unfold mem_save. destruct (mem_clash _ _ _);
      [|destruct (e_storable r); cbn [negb]; [by case_decide|]];
      intros [= <- <-]; (split_and!; [done..|by eexists]).
  - intros r j q Hwf Hl Hq Hn. cbn. unfold mem_save.
    destruct (mem_clash (eid r) r t) eqn:Ec.
    + exists t, unique_violation. split; [done|]. by eexists.
    + by pose proof (mem_clash_false _ _ _ Ec _ _ Hl Hq).
  - intros r Hwf Hs. cbn. unfold mem_save. rewrite Hs.
    destruct (mem_clash _ _ _); do 2 eexists; (split; [done|by eexists]).
  - intros t' i f. apply mem_update_Ok.
  - intros t' i f e Hwf. cbn. unfold mem_update. destruct (t !! i); [|done].
    destruct (mem_clash _ _ _); [|destruct (e_storable (f _)); [done|]];
      intros [= <- <-]; (split_and!; [done..|by eexists]).
  - intros i r f Hwf Hi Hs. cbn. unfold mem_update. rewrite Hi, Hs.
    destruct (mem_clash _ _ _); do 2 eexists; (split; [done|by eexists]).
Defined.

#[export] Instance MemReliable : ReliableRepo MemTbl.
Proof.
  split; intros R HR HL t.
  - intros r. apply mem_save_total.
  - intros i f. apply mem_update_total.
Qed.
