(* ===== verification/Entities.v ===== *)
(** * Entities: field assignments and declared constraints

    The assignments the services make to a loaded row ([balance.pendingBalance =
    ...]) and, per entity class, what its decorators declare: the generated
    identifier, the managed columns, the unique constraint and which numbers are in
    columns that are not [nullable]; the texts and times of a row are never missing,
    as the types of the records say. *)

From S2P Require Import Prelude Num Domain Store.

(** ** [EmployeeBalance] *)

Definition b_with_managed (i : string) (v c u : Z) (b : EmployeeBalance) : EmployeeBalance :=
  {| b_id := i; b_employeeId := b_employeeId b; b_locationId := b_locationId b;
     b_leaveType := b_leaveType b; b_totalBalance := b_totalBalance b;
     b_availableBalance := b_availableBalance b; b_pendingBalance := b_pendingBalance b;
     b_usedBalance := b_usedBalance b; b_carryOverBalance := b_carryOverBalance b;
     b_hcmTotalBalance := b_hcmTotalBalance b; b_hcmLastSync := b_hcmLastSync b;
     b_hcmVersion := b_hcmVersion b; b_hasDiscrepancy := b_hasDiscrepancy b;
     b_discrepancyAmount := b_discrepancyAmount b;
     b_version := v; b_createdAt := c; b_updatedAt := u |}.

(** Assign [totalBalance], [availableBalance], [pendingBalance], [usedBalance]. *)
Definition b_with_amounts (t a p u : num) (b : EmployeeBalance) : EmployeeBalance :=
  {| b_id := b_id b; b_employeeId := b_employeeId b; b_locationId := b_locationId b;
     b_leaveType := b_leaveType b; b_totalBalance := t;
     b_availableBalance := a; b_pendingBalance := p;
     b_usedBalance := u; b_carryOverBalance := b_carryOverBalance b;
     b_hcmTotalBalance := b_hcmTotalBalance b; b_hcmLastSync := b_hcmLastSync b;
     b_hcmVersion := b_hcmVersion b; b_hasDiscrepancy := b_hasDiscrepancy b;
     b_discrepancyAmount := b_discrepancyAmount b;
     b_version := b_version b; b_createdAt := b_createdAt b; b_updatedAt := b_updatedAt b |}.

Definition b_set_availableBalance (a : num) (b : EmployeeBalance) : EmployeeBalance :=
  b_with_amounts (b_totalBalance b) a (b_pendingBalance b) (b_usedBalance b) b.
Definition b_set_pendingBalance (p : num) (b : EmployeeBalance) : EmployeeBalance :=
  b_with_amounts (b_totalBalance b) (b_availableBalance b) p (b_usedBalance b) b.
Definition b_set_usedBalance (u : num) (b : EmployeeBalance) : EmployeeBalance :=
  b_with_amounts (b_totalBalance b) (b_availableBalance b) (b_pendingBalance b) u b.
Definition b_set_totalBalance (t : num) (b : EmployeeBalance) : EmployeeBalance :=
  b_with_amounts t (b_availableBalance b) (b_pendingBalance b) (b_usedBalance b) b.

(** Assign the HCM columns: [hcmTotalBalance], [hcmLastSync], [hcmVersion],
    [hasDiscrepancy], [discrepancyAmount]. *)
Definition b_with_hcm (t : num) (s : option Z) (v : option string) (d : bool) (da : option num)
    (b : EmployeeBalance) : EmployeeBalance :=
  {| b_id := b_id b; b_employeeId := b_employeeId b; b_locationId := b_locationId b;
     b_leaveType := b_leaveType b; b_totalBalance := b_totalBalance b;
     b_availableBalance := b_availableBalance b; b_pendingBalance := b_pendingBalance b;
     b_usedBalance := b_usedBalance b; b_carryOverBalance := b_carryOverBalance b;
     b_hcmTotalBalance := t; b_hcmLastSync := s;
     b_hcmVersion := v; b_hasDiscrepancy := d; b_discrepancyAmount := da;
     b_version := b_version b; b_createdAt := b_createdAt b; b_updatedAt := b_updatedAt b |}.

(** The key of a balance row, and the unique constraint on it. *)
Definition bkey : Type := (string * string * string).
Definition b_key (b : EmployeeBalance) : bkey := (b_employeeId b, b_locationId b, b_leaveType b).

(** [where: { employeeId, locationId, leaveType }] *)
Definition where_key (employeeId locationId leaveType : string) (b : EmployeeBalance) : bool :=
  bool_decide (b_key b = (employeeId, locationId, leaveType)).

#[export] Instance EmployeeBalance_Entity : Entity EmployeeBalance := {|
  eid := b_id;
  e_assign := fun i b => b_with_managed i 1 (b_createdAt b) (b_updatedAt b) b;
  e_bump := fun b => b_with_managed (b_id b) (b_version b + 1) (b_createdAt b) (b_updatedAt b) b;
  e_erase := b_with_managed "" 0 0 0;
  e_clash := fun b c => bool_decide (b_key b = b_key c);
  e_storable := fun b => forallb has_value [b_totalBalance b; b_availableBalance b; b_pendingBalance b;
    b_usedBalance b; b_carryOverBalance b; b_hcmTotalBalance b];
|}.

#[export] Instance EmployeeBalance_EntityLaws : EntityLaws EmployeeBalance.
Proof. split; try done. intros b c. apply bool_decide_ext. done. Qed.

Definition b_default : EmployeeBalance :=
  {| b_id := ""; b_employeeId := ""; b_locationId := ""; b_leaveType := "";
     b_totalBalance := of_Z 0; b_availableBalance := of_Z 0; b_pendingBalance := of_Z 0;
     b_usedBalance := of_Z 0; b_carryOverBalance := of_Z 0; b_hcmTotalBalance := of_Z 0;
     b_hcmLastSync := None; b_hcmVersion := None; b_hasDiscrepancy := false;
     b_discrepancyAmount := None; b_version := 1; b_createdAt := 0; b_updatedAt := 0 |}.

(** ** [TimeOffRequest] *)

Definition r_with_managed (i : string) (v c u : Z) (r : TimeOffRequest) : TimeOffRequest :=
  {| r_id := i; r_idempotencyKey := r_idempotencyKey r; r_employeeId := r_employeeId r;
     r_locationId := r_locationId r; r_leaveType := r_leaveType r;
     r_startDate := r_startDate r; r_endDate := r_endDate r;
     r_daysRequested := r_daysRequested r; r_status := r_status r;
     r_requestedBy := r_requestedBy r; r_approvedBy := r_approvedBy r;
     r_approvedAt := r_approvedAt r; r_rejectionReason := r_rejectionReason r;
     r_notes := r_notes r; r_hcmValidated := r_hcmValidated r;
     r_hcmSyncStatus := r_hcmSyncStatus r; r_hcmSyncAttempts := r_hcmSyncAttempts r;
     r_hcmLastSyncAt := r_hcmLastSyncAt r;
     r_version := v; r_createdAt := c; r_updatedAt := u |}.

(** Assign [status], [approvedBy], [approvedAt], [rejectionReason]. *)
Definition r_with_decision (s : RequestStatus.t) (by_ : option string) (at_ : option Z)
    (reason : option string) (r : TimeOffRequest) : TimeOffRequest :=
  {| r_id := r_id r; r_idempotencyKey := r_idempotencyKey r; r_employeeId := r_employeeId r;
     r_locationId := r_locationId r; r_leaveType := r_leaveType r;
     r_startDate := r_startDate r; r_endDate := r_endDate r;
     r_daysRequested := r_daysRequested r; r_status := s;
     r_requestedBy := r_requestedBy r; r_approvedBy := by_;
     r_approvedAt := at_; r_rejectionReason := reason;
     r_notes := r_notes r; r_hcmValidated := r_hcmValidated r;
     r_hcmSyncStatus := r_hcmSyncStatus r; r_hcmSyncAttempts := r_hcmSyncAttempts r;
     r_hcmLastSyncAt := r_hcmLastSyncAt r;
     r_version := r_version r; r_createdAt := r_createdAt r; r_updatedAt := r_updatedAt r |}.

(** Assign [hcmSyncStatus], [hcmValidated], [hcmSyncAttempts], [hcmLastSyncAt]. *)
Definition r_with_sync (s : HcmSyncStatus.t) (v : bool) (n : Z) (at_ : option Z)
    (r : TimeOffRequest) : TimeOffRequest :=
  {| r_id := r_id r; r_idempotencyKey := r_idempotencyKey r; r_employeeId := r_employeeId r;
     r_locationId := r_locationId r; r_leaveType := r_leaveType r;
     r_startDate := r_startDate r; r_endDate := r_endDate r;
     r_daysRequested := r_daysRequested r; r_status := r_status r;
     r_requestedBy := r_requestedBy r; r_approvedBy := r_approvedBy r;
     r_approvedAt := r_approvedAt r; r_rejectionReason := r_rejectionReason r;
     r_notes := r_notes r; r_hcmValidated := v;
     r_hcmSyncStatus := s; r_hcmSyncAttempts := n;
     r_hcmLastSyncAt := at_;
     r_version := r_version r; r_createdAt := r_createdAt r; r_updatedAt := r_updatedAt r |}.

Definition r_key (r : TimeOffRequest) : bkey := (r_employeeId r, r_locationId r, r_leaveType r).

#[export] Instance TimeOffRequest_Entity : Entity TimeOffRequest := {|
  eid := r_id;
  e_assign := fun i r => r_with_managed i 1 (r_createdAt r) (r_updatedAt r) r;
  e_bump := fun r => r_with_managed (r_id r) (r_version r + 1) (r_createdAt r) (r_updatedAt r) r;
  e_erase := r_with_managed "" 0 0 0;
  e_clash := fun r q => bool_decide (r_idempotencyKey r = r_idempotencyKey q);
  e_storable := fun r => has_value (r_daysRequested r);
|}.

#[export] Instance TimeOffRequest_EntityLaws : EntityLaws TimeOffRequest.
Proof. split; try done. intros r q. apply bool_decide_ext. done. Qed.

(** ** [IdempotencyRecord] *)

Definition i_with_managed (i : string) (c : Z) (r : IdempotencyRecord) : IdempotencyRecord :=
  {| i_id := i; i_idempotencyKey := i_idempotencyKey r; i_employeeId := i_employeeId r;
     i_requestHash := i_requestHash r; i_responseStatus := i_responseStatus r;
     i_responseBody := i_responseBody r; i_expiresAt := i_expiresAt r; i_createdAt := c |}.

#[export] Instance IdempotencyRecord_Entity : Entity IdempotencyRecord := {|
  eid := i_id;
  e_assign := fun i r => i_with_managed i (i_createdAt r) r;
  e_bump := fun r => r;
  e_erase := i_with_managed "" 0;
  e_clash := fun r q => bool_decide (i_idempotencyKey r = i_idempotencyKey q);
  e_storable := fun _ => true;
|}.

#[export] Instance IdempotencyRecord_EntityLaws : EntityLaws IdempotencyRecord.
Proof. split; try done. intros r q. apply bool_decide_ext. done. Qed.

(** ** [SyncLog] *)

Definition l_with_managed (i : string) (c : Z) (l : SyncLog) : SyncLog :=
  {| l_id := i; l_syncType := l_syncType l; l_status := l_status l;
     l_employeeId := l_employeeId l; l_locationId := l_locationId l;
     l_recordsProcessed := l_recordsProcessed l; l_recordsUpdated := l_recordsUpdated l;
     l_recordsFailed := l_recordsFailed l; l_errorDetails := l_errorDetails l;
     l_startedAt := l_startedAt l; l_completedAt := l_completedAt l; l_createdAt := c |}.

(** Assign the outcome columns of a run. *)
Definition l_with_outcome (s : SyncLogStatus.t) (p u f : Z) (e : option (list SyncError))
    (c : option Z) (l : SyncLog) : SyncLog :=
  {| l_id := l_id l; l_syncType := l_syncType l; l_status := s;
     l_employeeId := l_employeeId l; l_locationId := l_locationId l;
     l_recordsProcessed := p; l_recordsUpdated := u; l_recordsFailed := f;
     l_errorDetails := e; l_startedAt := l_startedAt l; l_completedAt := c;
     l_createdAt := l_createdAt l |}.

#[export] Instance SyncLog_Entity : Entity SyncLog := {|
  eid := l_id;
  e_assign := fun i l => l_with_managed i (l_createdAt l) l;
  e_bump := fun l => l;
  e_erase := l_with_managed "" 0;
  e_clash := fun _ _ => false;
  e_storable := fun _ => true;
|}.

#[export] Instance SyncLog_EntityLaws : EntityLaws SyncLog.
Proof. by split. Qed.
