(* ===== verification/Breaker.v ===== *)
(** * Circuit breaker: [src/common/utils/circuit-breaker.util.js]

    The breaker's fields as a record, its two bookkeeping methods as functions
    on it, and [call] as a computation over any state that holds a breaker and
    can read the clock and let time pass. *)

From stdpp Require Import pretty.
From S2P Require Import Prelude Num Domain.

Record CircuitBreaker := {
  cb_name : string;
  cb_failureThreshold : Z;
  cb_cooldownMs : Z;
  cb_timeout : Z;
  cb_state : CircuitState.t;
  cb_failureCount : Z;
  cb_failures : Z;
  cb_openedAt : option Z;
  cb_nextAttemptAt : option Z;
  cb_successCount : Z;
}.

(** [new CircuitBreaker(fn, opts)], with the options' defaults applied. *)
Definition new_CircuitBreaker (name : string) (failureThreshold resetTimeoutMs timeout : option Z) :
    CircuitBreaker :=
  {| cb_name := if decide (name = "") then "CircuitBreaker" else name;
     cb_failureThreshold := default 5%Z failureThreshold;
     cb_cooldownMs := default 30000%Z resetTimeoutMs;
     cb_timeout := default 10000%Z timeout;
     cb_state := CircuitState.CLOSED;
     cb_failureCount := 0; cb_failures := 0;
     cb_openedAt := None; cb_nextAttemptAt := None; cb_successCount := 0 |}.

Definition cb_set (s : CircuitState.t) (fc : Z) (o n : option Z) (sc : Z) (b : CircuitBreaker) :
    CircuitBreaker :=
  {| cb_name := cb_name b; cb_failureThreshold := cb_failureThreshold b;
     cb_cooldownMs := cb_cooldownMs b; cb_timeout := cb_timeout b;
     cb_state := s; cb_failureCount := fc; cb_failures := fc;
     cb_openedAt := o; cb_nextAttemptAt := n; cb_successCount := sc |}.

(** [_onSuccess()] *)
Definition onSuccess (b : CircuitBreaker) : CircuitBreaker :=
  if decide (cb_state b = CircuitState.HALF_OPEN)
  then cb_set CircuitState.CLOSED 0 None None (cb_successCount b + 1) b
  else cb_set (cb_state b) 0 (cb_openedAt b) (cb_nextAttemptAt b) (cb_successCount b + 1) b.

(** Does one more failure open the breaker? *)
Definition opens (b : CircuitBreaker) : bool :=
  bool_decide (cb_state b = CircuitState.HALF_OPEN) ||
  (cb_failureThreshold b <=? cb_failureCount b + 1)%Z.

(** [_onFailure(err)]; the time [now] is read only when it opens the breaker. *)
Definition onFailure (now : Z) (b : CircuitBreaker) : CircuitBreaker :=
  let count := (cb_failureCount b + 1)%Z in
  if opens b
  then cb_set CircuitState.OPEN count (Some now) (Some (now + cb_cooldownMs b)%Z)
         (cb_successCount b) b
  else cb_set (cb_state b) count (cb_openedAt b) (cb_nextAttemptAt b) (cb_successCount b) b.

(** [reset()] *)
Definition reset (b : CircuitBreaker) : CircuitBreaker :=
  cb_set CircuitState.CLOSED 0 None None (cb_successCount b) b.

(** [this._state = STATE.HALF_OPEN] *)
Definition half_open (b : CircuitBreaker) : CircuitBreaker :=
  cb_set CircuitState.HALF_OPEN (cb_failureCount b) (cb_openedAt b) (cb_nextAttemptAt b)
    (cb_successCount b) b.

(** [Math.ceil(x / 1000)] *)
Definition ceil_seconds (ms : Z) : Z := - ((- ms) / 1000).

Definition CircuitBreakerOpenError (name : string) (cooldownRemainingMs : Z) : exn :=
  ErrorObject {| e_code := Some "CIRCUIT_OPEN"; e_driver_code := None; e_response_status := None;
    e_message := ("CircuitBreaker [" +:+ name +:+ "] is OPEN. Retry in "
                  +:+ pretty (ceil_seconds cooldownRemainingMs) +:+ "s.")%string |}.

Definition timeout_error (b : CircuitBreaker) : exn :=
  JsError ("CircuitBreaker [" +:+ cb_name b +:+ "] call timed out after "
           +:+ pretty (cb_timeout b) +:+ "ms")%string.

(** A time that is [null] or [0] is falsy. *)
Definition truthy_time (t : option Z) : option Z :=
  match t with Some 0%Z => None | _ => t end.

Section call.
Context {St A : Type}.
Context (get : St -> CircuitBreaker) (put : CircuitBreaker -> St -> St).
Context (date_now : M St exn Z) (elapse : Z -> M St exn unit).
(** The protected function: it settles after some time, with a result. *)
Context (fallback : option (exn -> M St exn A)) (fn : M St exn (Z * (exn + A))).

Definition update_breaker (f : CircuitBreaker -> CircuitBreaker) : M St exn unit :=
  modify (fun s => put (f (get s)) s).

(** [_withTimeout(fn)] *)
Definition withTimeout : M St exn A :=
  b ← gets get;
  d ← fn;
  if (d.1 <? cb_timeout b)%Z then
    _ ← elapse d.1;
    match d.2 with inl e => throw e | inr a => mret a end
  else
    _ ← elapse (cb_timeout b);
    throw (timeout_error b).

(** The [try] statement at the end of [call]. *)
Definition guarded : M St exn A :=
  try_catch
    (r ← withTimeout;
     _ ← update_breaker onSuccess;
     mret r)
    (fun err =>
       b ← gets get;
       now ← (if opens b then date_now else mret 0%Z);
       _ ← update_breaker (onFailure now);
       throw err).

(** [remaining] of an open breaker. *)
Definition remaining_cooldown (b : CircuitBreaker) : M St exn Z :=
  now ← date_now;
  since ← match truthy_time (cb_openedAt b) with
          | Some t => mret t
          | None => match truthy_time (cb_nextAttemptAt b) with
                    | Some t => mret (t - cb_cooldownMs b)%Z
                    | None => date_now
                    end
          end;
  mret (cb_cooldownMs b - (now - since))%Z.

Definition call : M St exn A :=
  b ← gets get;
  if decide (cb_state b = CircuitState.OPEN) then
    remaining ← remaining_cooldown b;
    if (0 <? remaining)%Z then
      let err := CircuitBreakerOpenError (cb_name b) remaining in
      match fallback with
      | Some f => f err
      | None => throw err
      end
    else
      _ ← update_breaker half_open;
      guarded
  else guarded.
End call.

(** [getStatus()], without the rendering of the time. *)
Definition getStatus (b : CircuitBreaker) : string * CircuitState.t * Z * option Z :=
  (cb_name b, cb_state b, cb_failureCount b, truthy_time (cb_nextAttemptAt b)).

(** [toJSON()] *)
Definition cb_toJSON (b : CircuitBreaker) : string * CircuitState.t * Z * option Z :=
  (cb_name b, cb_state b, cb_failureCount b, cb_openedAt b).

(** ** The breaker as a state machine *)

(** The fields agree with the state: a closed breaker has fewer failures in a
    row than its threshold, an open or half-open one knows when it opened. *)
Definition breaker_ok (b : CircuitBreaker) : Prop :=
  (1 <= cb_failureThreshold b)%Z /\ (0 <= cb_failureCount b)%Z /\
  cb_failures b = cb_failureCount b /\
  match cb_state b with
  | CircuitState.CLOSED => (cb_failureCount b < cb_failureThreshold b)%Z /\
      cb_openedAt b = None /\ cb_nextAttemptAt b = None
  | _ => exists t, cb_openedAt b = Some t /\ cb_nextAttemptAt b = Some (t + cb_cooldownMs b)%Z
  end.

(** The options given to the constructor. *)
Definition cb_options (b : CircuitBreaker) : string * Z * Z * Z :=
  (cb_name b, cb_failureThreshold b, cb_cooldownMs b, cb_timeout b).

Lemma onSuccess_ok b :
  cb_state b <> CircuitState.OPEN -> breaker_ok b ->
  breaker_ok (onSuccess b) /\ cb_state (onSuccess b) = CircuitState.CLOSED /\
  cb_failureCount (onSuccess b) = 0%Z /\ cb_options (onSuccess b) = cb_options b.
Proof.
  intros Hs (Ht & Hc & Hf & Hb). unfold onSuccess, breaker_ok.
  destruct (decide (cb_state b = CircuitState.HALF_OPEN)) as [E|E]; simpl.
  - split_and!; try done; lia.
  - destruct (cb_state b); try done. destruct Hb as (? & ? & ?). split_and!; try done; lia.
Qed.

Lemma onFailure_ok now b :
  cb_state b <> CircuitState.OPEN -> breaker_ok b ->
  breaker_ok (onFailure now b) /\ cb_options (onFailure now b) = cb_options b /\
  cb_failureCount (onFailure now b) = (cb_failureCount b + 1)%Z /\
  if opens b then cb_state (onFailure now b) = CircuitState.OPEN /\
                  cb_openedAt (onFailure now b) = Some now
  else cb_state (onFailure now b) = CircuitState.CLOSED.
Proof.
  intros Hs (Ht & Hc & Hf & Hb). unfold onFailure, breaker_ok.
  destruct (opens b) eqn:Ho; simpl.
  - split_and!; try done; [lia|]. by exists now.
  - unfold opens in Ho. apply orb_false_iff in Ho as [Ho Ho'].
    apply bool_decide_eq_false in Ho. apply Z.leb_gt in Ho'.
    destruct (cb_state b); try done. destruct Hb as (? & ? & ?). split_and!; try done; lia.
Qed.

Section machine.
Context {St A : Type} (get : St -> CircuitBreaker) (put : CircuitBreaker -> St -> St).
Context (date_now : M St exn Z) (elapse : Z -> M St exn unit).
Context (fallback : option (exn -> M St exn A)) (fn : M St exn (Z * (exn + A))).
Context (get_put : forall b s, get (put b s) = b).
Context (date_now_reads : forall s, exists s' now, date_now s = (s', inr now) /\ get s' = get s).
Context (elapse_keeps : forall ms s, exists s', elapse ms s = (s', inr tt) /\ get s' = get s).
Context (fn_keeps : forall s, exists s' d, fn s = (s', inr d) /\ get s' = get s).
Context (fallback_keeps : forall f err s, fallback = Some f -> get (fst (f err s)) = get s).
Abbreviation call := (call get put date_now elapse fallback fn).
Abbreviation guarded := (guarded get put date_now elapse fn).

Lemma withTimeout_keeps s : get (fst (withTimeout get elapse fn s)) = get s.
Proof.
  unfold withTimeout, mbind, M_bind, gets. destruct (fn_keeps s) as (s1 & [d o] & -> & Hg).
  destruct (_ <? _)%Z; cbn [fst snd].
  - destruct (elapse_keeps d s1) as (s2 & -> & Hg'). rewrite <- Hg, <- Hg'. by destruct o.
  - destruct (elapse_keeps (cb_timeout (get s)) s1) as (s2 & -> & Hg'). by rewrite <- Hg, <- Hg'.
Qed.

Lemma guarded_cases s s' r :
  guarded s = (s', r) ->
  match r with
  | inr _ => get s' = onSuccess (get s)
  | inl _ => exists now, get s' = onFailure now (get s)
  end.
Proof.
  unfold guarded, try_catch, mbind, M_bind, update_breaker, modify, gets.
  pose proof (withTimeout_keeps s) as Hk.
  destruct (withTimeout get elapse fn s) as [s1 [e|a]]; cbn [fst] in Hk.
  - destruct (opens (get s1)).
    + destruct (date_now_reads s1) as (s2 & now & -> & Hs2). intros [= <- <-].
      exists now. by rewrite get_put, Hs2, Hk.
    + intros [= <- <-]. exists 0%Z. by rewrite get_put, Hk.
  - intros [= <- <-]. by rewrite get_put, Hk.
Qed.

(** The cooldown of a breaker that opened at [t]. *)
Lemma remaining_cooldown_spec s t :
  cb_openedAt (get s) = Some t -> t <> 0%Z ->
  exists s1 now, date_now s = (s1, inr now) /\ get s1 = get s /\
    remaining_cooldown date_now (get s) s = (s1, inr (cb_cooldownMs (get s) - (now - t))%Z).
Proof.
  intros Ho Ht. destruct (date_now_reads s) as (s1 & now & Hd & Hg). exists s1, now.
  split_and!; [done..|]. unfold remaining_cooldown, mbind, M_bind. rewrite Hd, Ho.
  by destruct t.
Qed.

Lemma remaining_cooldown_keeps s b :
  exists s1 ms, remaining_cooldown date_now b s = (s1, inr ms) /\ get s1 = get s.
Proof.
  unfold remaining_cooldown, mbind, M_bind. destruct (date_now_reads s) as (s1 & now & -> & Hg).
  destruct (truthy_time (cb_openedAt b)); [by do 2 eexists|].
  destruct (truthy_time (cb_nextAttemptAt b)); [by do 2 eexists|].
  destruct (date_now_reads s1) as (s2 & now' & -> & Hg'). do 2 eexists. split; [done|]. congruence.
Qed.

(** A call of the breaker keeps its state well formed and its options as
    they were, and a breaker is half open only while its trial call runs: after
    a call it is closed with no failure counted if the call returned, and
    otherwise open or closed below its threshold. *)
Theorem call_breaker_ok s s' r :
  breaker_ok (get s) -> cb_state (get s) <> CircuitState.HALF_OPEN -> call s = (s', r) ->
  breaker_ok (get s') /\ cb_options (get s') = cb_options (get s) /\
  cb_state (get s') <> CircuitState.HALF_OPEN.
Proof.
  intros Hok Hs. unfold call, mbind, M_bind, gets.
  destruct (decide (cb_state (get s) = CircuitState.OPEN)) as [Ho|Ho].
  - destruct (remaining_cooldown_keeps s (get s)) as (s1 & ms & -> & Hg).
    destruct (_ <? _)%Z.
    + destruct fallback as [f|] eqn:Hf.
      * intros Hc.
        pose proof (fallback_keeps f (CircuitBreakerOpenError (cb_name (get s)) ms) s1 eq_refl) as Hk.
        rewrite Hc in Hk.
        cbn in Hk. by rewrite Hk, Hg.
      * intros [= <- <-]. by rewrite Hg.
    + unfold update_breaker, modify. rewrite Hg. set (s2 := put _ s1).
      assert (Hg2 : get s2 = half_open (get s)) by apply get_put.
      assert (Hok2 : breaker_ok (get s2)).
      { rewrite Hg2. destruct Hok as (? & ? & ? & Hb). rewrite Ho in Hb. by split_and!. }
      assert (Hno : cb_state (get s2) <> CircuitState.OPEN) by by rewrite Hg2.
      intros Hc. apply guarded_cases in Hc. destruct r as [e|a].
      * destruct Hc as [now Hc]. rewrite Hc.
        destruct (onFailure_ok now (get s2) Hno Hok2) as (? & -> & _ & Hst).
        split_and!; [done|by rewrite Hg2|].
        by destruct (opens (get s2)); [destruct Hst as [-> _]|rewrite Hst].
      * rewrite Hc. destruct (onSuccess_ok (get s2) Hno Hok2) as (? & -> & _ & ->).
        split_and!; [done|by rewrite Hg2|done].
  - intros Hc. apply guarded_cases in Hc. destruct r as [e|a].
    + destruct Hc as [now Hc]. rewrite Hc.
      destruct (onFailure_ok now (get s) Ho Hok) as (? & -> & _ & Hst).
      split_and!; [done..|].
      by destruct (opens (get s)); [destruct Hst as [-> _]|rewrite Hst].
    + rewrite Hc. by destruct (onSuccess_ok (get s) Ho Hok) as (? & -> & _ & ->).
Qed.

(** An open breaker fails fast: until its cooldown is over, a call reads the
    clock once and ends in the fallback or in the open error with the time that
    remains, whatever the protected function is; the function is not called. *)
Theorem call_fails_fast s s1 now t :
  cb_state (get s) = CircuitState.OPEN -> cb_openedAt (get s) = Some t -> t <> 0%Z ->
  date_now s = (s1, inr now) -> (now - t < cb_cooldownMs (get s))%Z ->
  let err := CircuitBreakerOpenError (cb_name (get s)) (cb_cooldownMs (get s) - (now - t)) in
  call s = match fallback with Some f => f err s1 | None => (s1, inl err) end.
Proof.
  clear fallback_keeps.
  intros Hs Ho Ht Hd Hc. destruct (remaining_cooldown_spec s t Ho Ht) as (s2 & now' & Hd' & _ & Hr).
  rewrite Hd in Hd'. injection Hd' as <- <-.
  unfold call, mbind, M_bind, gets. rewrite decide_True, Hr by done.
  assert ((0 <? cb_cooldownMs (get s) - (now - t))%Z = true) as -> by (apply Z.ltb_lt; lia).
  by destruct fallback.
Qed.

(** After the cooldown one call is let through, and its outcome decides: a
    result closes the breaker and forgets the failures, an error opens it again
    from that moment. *)
Theorem call_half_open s s1 now t s' r :
  breaker_ok (get s) ->
  cb_state (get s) = CircuitState.OPEN -> cb_openedAt (get s) = Some t -> t <> 0%Z ->
  date_now s = (s1, inr now) -> (cb_cooldownMs (get s) <= now - t)%Z ->
  call s = (s', r) ->
  match r with
  | inr _ => cb_state (get s') = CircuitState.CLOSED /\ cb_failureCount (get s') = 0%Z
  | inl _ => cb_state (get s') = CircuitState.OPEN /\
      exists now', cb_openedAt (get s') = Some now'
  end.
Proof.
  intros Hok Hs Ho Ht Hd Hc. destruct (remaining_cooldown_spec s t Ho Ht) as (s2 & now' & Hd' & Hg & Hr).
  rewrite Hd in Hd'. injection Hd' as <- <-.
  unfold call, mbind, M_bind, gets. rewrite decide_True, Hr by done.
  assert ((0 <? cb_cooldownMs (get s) - (now - t))%Z = false) as -> by (apply Z.ltb_ge; lia).
  unfold update_breaker, modify. rewrite Hg. set (s3 := put _ s1).
  assert (Hg3 : get s3 = half_open (get s)) by apply get_put.
  intros Hcall. apply guarded_cases in Hcall. rewrite Hg3 in Hcall. destruct r as [e|a].
  - destruct Hcall as [n ->]. unfold onFailure, opens. simpl. split; [done|by exists n].
  - by rewrite Hcall.
Qed.


Section failing.
Context (fails : forall s, exists s' d e, fn s = (s', inr (d, inl e))).



End failing.

End machine.

(** ** The machine on a small state: a breaker and a clock *)
Definition tiny_now : M (CircuitBreaker * Z) exn Z := fun s => (s, inr s.2).
Definition tiny_wait (ms : Z) : M (CircuitBreaker * Z) exn unit := fun s => ((s.1, s.2 + ms)%Z, inr tt).
Definition tiny_fail : M (CircuitBreaker * Z) exn (Z * (exn + unit)) :=
  fun s => (s, inr (20%Z, inl (JsError "down"))).
Definition tiny_put (b : CircuitBreaker) (s : CircuitBreaker * Z) : CircuitBreaker * Z := (b, s.2).
Definition tiny_breaker : CircuitBreaker := new_CircuitBreaker "HCM" (Some 2%Z) None None.

Lemma call_breaker_ok_witness :
  breaker_ok (fst (fst (call fst tiny_put tiny_now tiny_wait None tiny_fail (tiny_breaker, 7%Z)))).
Proof.
  apply (call_breaker_ok fst tiny_put tiny_now tiny_wait None tiny_fail ltac:(done)
    ltac:(by do 2 eexists) ltac:(by eexists) ltac:(by do 2 eexists) ltac:(done) (tiny_breaker, 7%Z) _
    (snd (call fst tiny_put tiny_now tiny_wait None tiny_fail (tiny_breaker, 7%Z)))); try done.
Defined.


Lemma call_fails_fast_witness :
  let b := onFailure 7 (onFailure 5 tiny_breaker) in
  call fst tiny_put tiny_now tiny_wait None tiny_fail (b, 1007%Z)
  = ((b, 1007%Z), inl (CircuitBreakerOpenError "HCM" 29000)).
Proof.
  intros b.
  rewrite (call_fails_fast fst tiny_put tiny_now tiny_wait None tiny_fail ltac:(by do 2 eexists)
    (b, 1007%Z) (b, 1007%Z) 1007 7) by done. done.
Defined.

Lemma call_half_open_witness :
  let b := onFailure 7 (onFailure 5 tiny_breaker) in
  let s' := fst (call fst tiny_put tiny_now tiny_wait None tiny_fail (b, 40000%Z)) in
  cb_state (fst s') = CircuitState.OPEN.
Proof.
  intros b s'.
  destruct (call fst tiny_put tiny_now tiny_wait None tiny_fail (b, 40000%Z)) as [v r] eqn:Hc.
  pose proof (call_half_open fst tiny_put tiny_now tiny_wait None tiny_fail ltac:(done)
    ltac:(by do 2 eexists) ltac:(by eexists) ltac:(by do 2 eexists) (b, 40000%Z) (b, 40000%Z) 40000 7 v r) as H.
  destruct r as [e|a]; [|vm_compute in Hc; discriminate].
  subst s'. apply H; try done. vm_compute. split_and!; try done. by eexists.
Defined.
