(* ===== verification/Retry.v ===== *)
(** * Retry: [src/common/utils/retry.util.js]

    [withRetry] over any computation, with its exponential delay and jitter, and
    the relation [tries] that says how often the function was called. *)

From S2P Require Import Prelude Num Domain.

(** [isRetryable(error)] *)
Definition isRetryable (error : exn) : bool :=
  match error with
  | ErrorObject o =>
      if decide (e_code o = Some "CIRCUIT_OPEN" \/ e_code o = Some "CIRCUIT_HALF_OPEN") then false
      else match e_response_status o with
           | Some status =>
               if ((status =? 429) || (status =? 408))%Z%bool then true
               else negb ((400 <=? status) && (status <? 500))%Z%bool
           | None => true
           end
  | _ => true
  end.

Record retry_options := {
  maxAttempts : Z;
  baseDelayMs : Z;
  maxDelayMs : Z;
  jitter : bool;
}.

(** [Math.random()] is [r / 2^53] for an integer [0 <= r < 2^53]; the product is
    taken without its rounding and truncated to whole milliseconds, as a timer
    does. *)
Definition jittered (capped r : Z) : Z := (capped * (2 ^ 53 + r)) / 2 ^ 54.

Definition capped_delay (o : retry_options) (attempt : Z) : Z :=
  Z.min (baseDelayMs o * 2 ^ (attempt - 1)) (maxDelayMs o).

(** [error.code] of a thrown [undefined]. *)
Definition read_code_error : exn := JsError "Cannot read properties of undefined (reading 'code')".

Section withRetry.
Context {St A : Type}.
Context (random : M St exn Z) (sleep : Z -> M St exn unit).
Context (o : retry_options) (fn : Z -> M St exn A).

(** The wait before the attempt that follows [attempt]. *)
Definition backoff (attempt : Z) : M St exn unit :=
  let cappedDelay := capped_delay o attempt in
  actualDelay ← (if jitter o then r ← random; mret (jittered cappedDelay r)
                 else mret cappedDelay);
  sleep actualDelay.

(** The [for] loop at [attempt], with [left] attempts left. *)
Fixpoint retry_loop (left : nat) (attempt : Z) (lastError : exn) : M St exn A :=
  match left with
  | O => throw lastError
  | S left' =>
      try_catch (fn attempt) (fun error =>
        if (attempt =? maxAttempts o)%Z then throw error
        else
          match error with
          | ThrownUndefined => throw read_code_error
          | _ =>
              if negb (isRetryable error) then throw error
              else _ ← backoff attempt; retry_loop left' (attempt + 1) error
          end)
  end.

Definition withRetry : M St exn A := retry_loop (Z.to_nat (maxAttempts o)) 1 ThrownUndefined.

(** ** What a call of [withRetry] amounts to

    [tries attempt s n s' r]: from state [s], [n] calls of [fn], the first of them
    with number [attempt], end in [s'] with [r].  Every call but the last failed
    with a retryable error and was followed by its wait. *)
Inductive tries : Z -> St -> nat -> St -> exn + A -> Prop :=
  | tries_return attempt s s' a :
      fn attempt s = (s', inr a) -> tries attempt s 1 s' (inr a)
  | tries_give_up attempt s s' e :
      fn attempt s = (s', inl e) -> attempt = maxAttempts o \/ isRetryable e = false ->
      tries attempt s 1 s' (inl e)
  | tries_again attempt s s1 s2 e n s' r :
      fn attempt s = (s1, inl e) -> attempt <> maxAttempts o -> isRetryable e = true ->
      backoff attempt s1 = (s2, inr tt) -> tries (attempt + 1) s2 n s' r ->
      tries attempt s (S n) s' r.

(** An error that is thrown is one of the function's. *)
Lemma tries_error (P : exn -> Prop) attempt s n s' e :
  (forall k s s' e, fn k s = (s', inl e) -> P e) -> tries attempt s n s' (inl e) -> P e.
Proof.
  intros HP Ht. remember (inl e) as r eqn:Hr. induction Ht; simplify_eq; eauto.
Qed.

(** A result is one of the function's. *)
Lemma tries_result (P : A -> Prop) attempt s n s' a :
  (forall k s s' a, fn k s = (s', inr a) -> P a) -> tries attempt s n s' (inr a) -> P a.
Proof.
  intros HP Ht. remember (inr a) as r eqn:Hr. induction Ht; simplify_eq; eauto.
Qed.

Context (backoff_total : forall k s, exists s', backoff k s = (s', inr tt)).
Context (fn_throws : forall k s s' e, fn k s = (s', inl e) -> e <> ThrownUndefined).

Lemma retry_loop_tries left attempt last s s' r :
  (1 <= left)%nat -> (attempt + Z.of_nat left = maxAttempts o + 1)%Z ->
  retry_loop left attempt last s = (s', r) ->
  exists n, (1 <= n <= left)%nat /\ tries attempt s n s' r.
Proof.
  revert attempt last s. induction left as [|left IH]; intros attempt last s Hl Ha; [lia|].
  cbn [retry_loop]. unfold try_catch. destruct (fn attempt s) as [s1 [e|a]] eqn:Hf.
  - pose proof (fn_throws _ _ _ _ Hf) as Hu. destruct (Z.eqb_spec attempt (maxAttempts o)) as [Hm|Hm].
    { intros [= <- <-]. exists 1%nat. split; [lia|]. apply tries_give_up; auto. }
    destruct (isRetryable e) eqn:He.
    + intros Hr. destruct (backoff_total attempt s1) as [s2 Hb].
      assert (Hr' : retry_loop left (attempt + 1) e s2 = (s', r)).
      { cbn [negb] in Hr. destruct e; try done; by rewrite (bind_ok _ _ _ _ _ Hb) in Hr. }
      apply IH in Hr' as (n & Hn & Ht); [|lia..].
      exists (S n). split; [lia|]. by eapply tries_again.
    + intros Hr. exists 1%nat. split; [lia|].
      destruct e; try done; injection Hr as <- <-; apply tries_give_up; auto.
  - intros [= <- <-]. exists 1%nat. split; [lia|]. by apply tries_return.
Qed.

(** C37. [withRetry] calls the function between one and [maxAttempts] times, once
    more after every retryable failure but the last, and returns the first
    result or throws the last error. *)
Theorem withRetry_tries s s' r :
  (1 <= maxAttempts o)%Z -> withRetry s = (s', r) ->
  exists n, (1 <= Z.of_nat n <= maxAttempts o)%Z /\ tries 1 s n s' r.
Proof.
  intros Hm Hr. apply retry_loop_tries in Hr as (n & Hn & Ht); [|lia..].
  exists n. split; [lia|done].
Qed.
End withRetry.

(** Every wait is at most the configured maximum, and with jitter at least
    half of the exponential delay (less the truncation). *)
Theorem jittered_bounds o attempt r :
  (0 <= baseDelayMs o)%Z -> (0 <= maxDelayMs o)%Z -> (1 <= attempt)%Z -> (0 <= r < 2 ^ 53)%Z ->
  (0 <= capped_delay o attempt <= maxDelayMs o)%Z /\
  (capped_delay o attempt / 2 <= jittered (capped_delay o attempt) r <= capped_delay o attempt)%Z.
Proof.
  intros Hb Hm Ha Hr. unfold capped_delay. set (d := (baseDelayMs o * 2 ^ (attempt - 1))%Z).
  assert (0 <= d)%Z by (apply Z.mul_nonneg_nonneg; [done|]; apply Z.pow_nonneg; lia).
  set (c := Z.min d (maxDelayMs o)). assert (0 <= c <= maxDelayMs o)%Z by lia.
  split; [done|]. unfold jittered. split.
  - rewrite <- (Z.div_mul_cancel_r c 2 (2 ^ 53)) by lia.
    change (2 * 2 ^ 53)%Z with (2 ^ 54)%Z. apply Z.div_le_mono; [lia|]. nia.
  - apply Z.div_le_upper_bound; [lia|]. change (2 ^ 54)%Z with (2 * 2 ^ 53)%Z. nia.
Qed.

Lemma jittered_bounds_witness :
  let o := {| maxAttempts := 3; baseDelayMs := 1000; maxDelayMs := 10000; jitter := true |} in
  (jittered (capped_delay o 2) 5 <= 2000)%Z.
Proof.
  intros o. destruct (jittered_bounds o 2 5) as [_ [_ H]]; [done..|]. exact H.
Defined.

(** A function that fails twice, on a state that counts the calls. *)
Definition third_time (k : Z) : M Z exn Z :=
  fun s => if (s <? 2)%Z then ((s + 1)%Z, inl (JsError "unavailable")) else (s, inr 42%Z).

Lemma withRetry_tries_witness :
  let o := {| maxAttempts := 3; baseDelayMs := 1000; maxDelayMs := 10000; jitter := true |} in
  exists n, (1 <= Z.of_nat n <= 3)%Z /\
    tries (gets (fun _ => 0%Z)) (fun _ => mret tt) o third_time 1 0%Z n 2%Z (inr 42%Z).
Proof.
  intros o. apply (withRetry_tries (gets (fun _ => 0%Z)) (fun _ => mret tt) o third_time).
  - intros k s. by exists s.
  - intros k s s' e. unfold third_time. case_match; [|done]. intros [=]. by subst.
  - done.
  - vm_compute. done.
Defined.
