(* ===== verification/World.v ===== *)
(** * World: the state the services share

    One Node process: the database, the clock, the callbacks queued by
    [setImmediate], the HCM circuit breaker, the in-process create locks and the
    batch flag.  What the process does not decide (how much time passes, what
    HCM answers, what [Math.random] returns, whether the driver fails) comes
    from the classes [Env] and [TxManager]. *)

From S2P Require Import Prelude Num Domain Store Entities Breaker.

(** ** The HCM HTTP interface *)
Inductive HcmAction := APPROVE | REJECT.

Inductive HttpRequest :=
  | GetBalance (employeeId locationId leaveType : string)
  | PostValidate (employeeId locationId leaveType : string) (daysRequested : num)
  | PutBalance (employeeId locationId leaveType : string) (daysRequested : num)
      (action : HcmAction) (referenceId : string)
  | GetBatchSync (locationId : option string).

(** One element of a batch payload, [totalBalance] already read by [parseFloat]
    ([NaN] when it is missing). *)
Record HcmRecord := {
  h_employeeId : string;
  h_locationId : string;
  h_leaveType : string;
  h_totalBalance : num;
  h_version : option string;
}.

(** The JSON body of a response: [null], an array of balance records, or a value
    of which only the [valid] and [success] properties are read ([None] when
    such a property is absent or not a boolean). *)
Inductive HcmData :=
  | HNull
  | HArray (records : list HcmRecord)
  | HValue (valid success : option bool).

(** ** Environment *)
Class Env := {
  env_delay : nat -> N;      (** milliseconds that pass before an event *)
  env_random : nat -> N;     (** [Math.random()], in units of [2^-53] *)
  env_http : nat -> HttpRequest -> N * (error_object + HcmData);
                             (** how long HCM takes and how the call settles; the
                                 HTTP client rejects with error objects only *)
}.

(** ** The shared state *)
Record Db (Tbl : Type -> Type) := {
  balances : Tbl EmployeeBalance;
  requests : Tbl TimeOffRequest;
  idempotency : Tbl IdempotencyRecord;
  syncLogs : Tbl SyncLog;
}.
Arguments balances {Tbl} _.
Arguments requests {Tbl} _.
Arguments idempotency {Tbl} _.
Arguments syncLogs {Tbl} _.

(** A callback queued by [setImmediate]. *)
Inductive Task :=
  | NotifyHcm (requestId employeeId locationId leaveType : string) (daysRequested : num)
  | NotifyApproval (request : TimeOffRequest) (requestId : string)
  | RunBatchSync.

Record World (Tbl : Type -> Type) := {
  w_db : Db Tbl;
  w_now : Z;                             (** epoch milliseconds *)
  w_tick : nat;                          (** events so far *)
  w_immediates : list Task;              (** in the order they were queued *)
  w_breaker : CircuitBreaker;            (** [HcmService.circuitBreaker] *)
  w_createLocks : gmap string nat;       (** [TimeOffService._createLocks] *)
  w_promises : nat;                      (** gates created so far *)
  w_batchRunning : bool;                 (** [HcmSyncService._batchRunning] *)
}.
Arguments w_db {Tbl} _.
Arguments w_now {Tbl} _.
Arguments w_tick {Tbl} _.
Arguments w_immediates {Tbl} _.
Arguments w_breaker {Tbl} _.
Arguments w_createLocks {Tbl} _.
Arguments w_promises {Tbl} _.
Arguments w_batchRunning {Tbl} _.

Section world.
Context {Tbl : Type -> Type}.
Abbreviation World := (World Tbl).

Definition set_db (d : Db Tbl) (w : World) : World :=
  {| w_db := d; w_now := w_now w; w_tick := w_tick w; w_immediates := w_immediates w;
     w_breaker := w_breaker w; w_createLocks := w_createLocks w; w_promises := w_promises w;
     w_batchRunning := w_batchRunning w |}.
Definition set_clock (n : Z) (t : nat) (w : World) : World :=
  {| w_db := w_db w; w_now := n; w_tick := t; w_immediates := w_immediates w;
     w_breaker := w_breaker w; w_createLocks := w_createLocks w; w_promises := w_promises w;
     w_batchRunning := w_batchRunning w |}.
Definition set_immediates (q : list Task) (w : World) : World :=
  {| w_db := w_db w; w_now := w_now w; w_tick := w_tick w; w_immediates := q;
     w_breaker := w_breaker w; w_createLocks := w_createLocks w; w_promises := w_promises w;
     w_batchRunning := w_batchRunning w |}.
Definition set_breaker (b : CircuitBreaker) (w : World) : World :=
  {| w_db := w_db w; w_now := w_now w; w_tick := w_tick w; w_immediates := w_immediates w;
     w_breaker := b; w_createLocks := w_createLocks w; w_promises := w_promises w;
     w_batchRunning := w_batchRunning w |}.
Definition set_createLocks (l : gmap string nat) (n : nat) (w : World) : World :=
  {| w_db := w_db w; w_now := w_now w; w_tick := w_tick w; w_immediates := w_immediates w;
     w_breaker := w_breaker w; w_createLocks := l; w_promises := n;
     w_batchRunning := w_batchRunning w |}.
Definition set_batchRunning (b : bool) (w : World) : World :=
  {| w_db := w_db w; w_now := w_now w; w_tick := w_tick w; w_immediates := w_immediates w;
     w_breaker := w_breaker w; w_createLocks := w_createLocks w; w_promises := w_promises w;
     w_batchRunning := b |}.

Definition set_balances (t : Tbl EmployeeBalance) (d : Db Tbl) : Db Tbl :=
  {| balances := t; requests := requests d; idempotency := idempotency d; syncLogs := syncLogs d |}.
Definition set_requests (t : Tbl TimeOffRequest) (d : Db Tbl) : Db Tbl :=
  {| balances := balances d; requests := t; idempotency := idempotency d; syncLogs := syncLogs d |}.
Definition set_idempotency (t : Tbl IdempotencyRecord) (d : Db Tbl) : Db Tbl :=
  {| balances := balances d; requests := requests d; idempotency := t; syncLogs := syncLogs d |}.
Definition set_syncLogs (t : Tbl SyncLog) (d : Db Tbl) : Db Tbl :=
  {| balances := balances d; requests := requests d; idempotency := idempotency d; syncLogs := t |}.

(** [setImmediate(callback)] *)
Definition setImmediate (t : Task) : M World exn unit :=
  modify (fun w => set_immediates (w_immediates w ++ [t]) w).

Section clock.
Context `{Env}.

Definition pass (ms : Z) (w : World) : World :=
  set_clock (w_now w + Z.max 0 ms + Z.of_N (env_delay (w_tick w))) (S (w_tick w)) w.

(** [Date.now()] / [new Date()]: some time has passed since the last event. *)
Definition date_now : M World exn Z := fun w => let w' := pass 0 w in (w', inr (w_now w')).
(** A timer of [ms] milliseconds. *)
Definition sleep (ms : Z) : M World exn unit := modify (pass ms).
(** [Math.random()] *)
Definition random : M World exn Z := fun w =>
  (set_clock (w_now w) (S (w_tick w)) w, inr (Z.of_N (env_random (w_tick w)) mod 2 ^ 53)%Z).
(** [httpClient.request(config)]: when and how the call settles. *)
Definition http_request (config : HttpRequest) : M World exn (Z * (exn + HcmData)) := fun w =>
  let '(d, r) := env_http (w_tick w) config in
  (set_clock (w_now w) (S (w_tick w)) w,
   inr (Z.of_N d, match r with inl o => inl (ErrorObject o) | inr a => inr a end)).
End clock.

(** ** Table operations lifted to the world *)
Section tables.
Context `{Repo Tbl} {R : Type} `{Entity R}.
Context (get : Db Tbl -> Tbl R) (put : Tbl R -> Db Tbl -> Db Tbl).

Definition t_findOne (where_ : R -> bool) : M World exn (option R) :=
  gets (fun w => r_findOne where_ (get (w_db w))).
Definition t_find (where_ : R -> bool) : M World exn (list R) :=
  gets (fun w => r_find where_ (get (w_db w))).
Definition t_findBy (where_ : R -> bool) (order : R -> R -> bool) (take : option nat)
    (skip : nat) : M World exn (list R) :=
  gets (fun w => r_findBy where_ order take skip (get (w_db w))).
Definition t_save (r : R) : M World exn R := fun w =>
  let '(t', res) := r_save r (get (w_db w)) in (set_db (put t' (w_db w)) w, res).
Definition t_update (i : string) (patch : R -> R) : M World exn unit := fun w =>
  let '(t', res) := r_update i patch (get (w_db w)) in (set_db (put t' (w_db w)) w, res).
End tables.
End world.

Abbreviation findOne_balance := (t_findOne balances).
Abbreviation find_balances := (t_find balances).
Abbreviation findBy_balances := (t_findBy balances).
Abbreviation save_balance := (t_save balances set_balances).
Abbreviation update_balance := (t_update balances set_balances).
Abbreviation findOne_request := (t_findOne requests).
Abbreviation find_requests := (t_find requests).
Abbreviation findBy_requests := (t_findBy requests).
Abbreviation save_request := (t_save requests set_requests).
Abbreviation update_request := (t_update requests set_requests).
Abbreviation findOne_idempotency := (t_findOne idempotency).
Abbreviation save_idempotency := (t_save idempotency set_idempotency).
Abbreviation save_syncLog := (t_save syncLogs set_syncLogs).
Abbreviation update_syncLog := (t_update syncLogs set_syncLogs).
Abbreviation findBy_syncLogs := (t_findBy syncLogs).

(** ** Transactions

    [dataSource.transaction(cb)] is TypeORM's: it begins a transaction, runs the
    callback, commits when it returns and rolls back and rethrows when it
    throws.  [BEGIN] and [COMMIT] can fail with a driver error.  Only the
    database is rolled back: the clock and the queued callbacks are not. *)
(** The same state at a possibly later time. *)
Definition later {Tbl} (w w' : World Tbl) : Prop :=
  exists n t, w' = set_clock n t w /\ (w_now w <= n)%Z.

Class TxManager (Tbl : Type -> Type) := {
  transaction : forall {A}, M (World Tbl) exn A -> M (World Tbl) exn A;
}.

Class TxLaws (Tbl : Type -> Type) `{TxManager Tbl} := {
  transaction_spec : forall {A} (body : M (World Tbl) exn A) w,
    exists w0, later w w0 /\
    ((exists e, driver_error e /\ transaction body w = (w0, inl e)) \/
     match body w0 with
     | (w1, inl e) => transaction body w = (set_db (w_db w) w1, inl e)
     | (w1, inr a) =>
         transaction body w = (w1, inr a) \/
         exists e, driver_error e /\ transaction body w = (set_db (w_db w) w1, inl e)
     end)
}.

(** A driver that neither fails to begin nor to commit. *)
Class ReliableTx (Tbl : Type -> Type) `{TxManager Tbl} := {
  transaction_reliable : forall {A} (body : M (World Tbl) exn A) w,
    exists w0, later w w0 /\
    match body w0 with
    | (w1, inl e) => transaction body w = (set_db (w_db w) w1, inl e)
    | (w1, inr a) => transaction body w = (w1, inr a)
    end
}.

(** A transaction manager whose [BEGIN] fails when [fault] says so. *)
Definition FaultyTx (Tbl : Type -> Type) (fault : nat -> option error_object) : TxManager Tbl := {|
  transaction := fun A body w =>
    let w0 := set_clock (w_now w) (S (w_tick w)) w in
    match fault (w_tick w) with
    | Some o => (w0, inl (ErrorObject o))
    | None => match body w0 with
              | (w1, inl e) => (set_db (w_db w) w1, inl e)
              | (w1, inr a) => (w1, inr a)
              end
    end
|}.

Lemma FaultyTx_laws Tbl fault : TxLaws Tbl (H := FaultyTx Tbl fault).
Proof.
  split. intros A body w. exists (set_clock (w_now w) (S (w_tick w)) w). split.
  - do 2 eexists. split; [done|lia].
  - simpl. destruct (fault (w_tick w)) as [o|].
    + left. exists (ErrorObject o). split; [by eexists|done].
    + right. destruct (body _) as [w1 [e|a]]; [done|by left].
Qed.

Definition MemTx : TxManager MemTbl := FaultyTx MemTbl (fun _ => None).
#[export] Instance MemTx_laws : TxLaws MemTbl (H := MemTx).
Proof. apply FaultyTx_laws. Qed.
#[export] Instance MemTx_reliable : ReliableTx MemTbl (H := MemTx).
Proof.
  split. intros A body w. exists (set_clock (w_now w) (S (w_tick w)) w). split.
  - do 2 eexists. split; [done|lia].
  - simpl. by destruct (body _) as [w1 [e|a]].
Qed.

(** ** Frames *)

(** [w'] is [w] but for the database and the clock, which did not go back. *)
Definition db_step {Tbl} (w w' : World Tbl) : Prop :=
  exists d n t, w' = set_db d (set_clock n t w) /\ (w_now w <= n)%Z.

#[export] Instance db_step_preorder {Tbl} : PreOrder (db_step (Tbl := Tbl)).
Proof.
  split.
  - intros w. exists (w_db w), (w_now w), (w_tick w). split; [by destruct w|lia].
  - intros w ? ? (d & n & t & -> & Hn) (d' & n' & t' & -> & Hn').
    exists d', n', t'. split; [done|]. simpl in Hn'. lia.
Qed.

#[export] Instance later_preorder {Tbl} : PreOrder (later (Tbl := Tbl)).
Proof.
  split.
  - intros w. exists (w_now w), (w_tick w). split; [by destruct w|lia].
  - intros w ? ? (n & t & -> & Hn) (n' & t' & -> & Hn').
    exists n', t'. split; [done|]. simpl in Hn'. lia.
Qed.

Lemma later_db {Tbl} (w w' : World Tbl) : later w w' -> w_db w' = w_db w.
Proof. by intros (n & t & -> & _). Qed.
Lemma later_db_step {Tbl} (w w' : World Tbl) : later w w' -> db_step w w'.
Proof. intros (n & t & -> & Hn). by exists (w_db w), n, t. Qed.
Lemma set_db_step {Tbl} d (w : World Tbl) : db_step w (set_db d w).
Proof. exists d, (w_now w), (w_tick w). split; [by destruct w|lia]. Qed.
Lemma pass_later {Tbl} `{Env} ms (w : World Tbl) : later w (pass ms w).
Proof. unfold pass. eexists _, _. split; [done|]. lia. Qed.
Lemma db_step_now {Tbl} (w w' : World Tbl) : db_step w w' -> (w_now w <= w_now w')%Z.
Proof. by intros (d & n & t & -> & Hn). Qed.
Lemma db_step_immediates {Tbl} (w w' : World Tbl) :
  db_step w w' -> w_immediates w' = w_immediates w.
Proof. by intros (d & n & t & -> & Hn). Qed.

#[export] Hint Resolve later_db_step set_db_step pass_later : effects.

(** The elementary steps. *)
Section elementary.
Context {Tbl : Type -> Type} `{Repo Tbl}.

Lemma date_now_stays `{Env} : stays db_step (date_now (Tbl := Tbl)).
Proof. intros w. apply later_db_step, pass_later. Qed.
Lemma t_save_stays {R} `{Entity R} (get : Db Tbl -> Tbl R) put (r : R) :
  stays db_step (t_save get put r).
Proof. intros w. unfold t_save. destruct (r_save _ _) as [t res]. apply set_db_step. Qed.
Lemma t_update_stays {R} `{Entity R} (get : Db Tbl -> Tbl R) put i f :
  stays db_step (t_update get put i f).
Proof. intros w. unfold t_update. destruct (r_update _ _ _) as [t res]. apply set_db_step. Qed.
Lemma t_findOne_stays {R} `{Entity R} (get : Db Tbl -> Tbl R) p : stays db_step (t_findOne get p).
Proof. apply stays_gets, _. Qed.
Lemma t_find_stays {R} `{Entity R} (get : Db Tbl -> Tbl R) p : stays db_step (t_find get p).
Proof. apply stays_gets, _. Qed.
End elementary.
Lemma date_now_later {Tbl} `{Env} : stays later (date_now (Tbl := Tbl)).
Proof. intros w. apply pass_later. Qed.
Lemma sleep_later {Tbl} `{Env} ms : stays later (sleep (Tbl := Tbl) ms).
Proof. intros w. apply pass_later. Qed.
#[export] Hint Resolve date_now_later sleep_later : effects.
#[export] Hint Resolve date_now_stays t_save_stays t_update_stays t_findOne_stays
  t_find_stays : effects.

(** A transaction that ran: when it returned, its body did; when it threw, the
    database is the one it began with, and either nothing else happened (it
    did not begin), or the body threw, or the commit failed. *)
Lemma transaction_cases {Tbl A} `{TxLaws Tbl} (body : M (World Tbl) exn A) w w' r :
  transaction body w = (w', r) ->
  exists w0, later w w0 /\
    match r with
    | inr a => body w0 = (w', inr a)
    | inl e => w_db w' = w_db w /\
        ((driver_error e /\ w' = w0) \/
         exists w1, w' = set_db (w_db w) w1 /\
           (body w0 = (w1, inl e) \/ driver_error e /\ exists a, body w0 = (w1, inr a)))
    end.
Proof.
  intros Ht. destruct (transaction_spec body w) as (w0 & Hl & Hs). exists w0. split; [done|].
  rewrite Ht in Hs. destruct Hs as [(e & He & [= -> ->])|Hs].
  { split; [by apply later_db|]. by left. }
  destruct (body w0) as [w1 [e|a]] eqn:Hb.
  - injection Hs as -> ->. split; [done|]. right. exists w1. auto.
  - destruct Hs as [[= -> ->]|(e & He & [= -> ->])]; [done|]. split; [done|].
    right. exists w1. split; [done|]. right. eauto.
Qed.

