(* ===== verification/Dates.v ===== *)
(** * Dates: [src/common/utils/date.util.js]

    Dates travel as strings.  A component is read by [Number], a day number is
    computed by [Date.UTC], and every comparison is a comparison of JavaScript
    time values, where NaN ([None] here) is neither smaller nor larger than
    anything.  Time values are integers of at most 8.64e15, which binary64 holds
    exactly, so they are [Z]. *)

From Stdlib Require Import Ascii.
From S2P Require Import Prelude Num NumText Domain World.

Local Open Scope Z_scope.

(** ** Strings *)

(** [s.split(sep)] for a one-character separator. *)
Fixpoint split (sep : ascii) (s : string) : list string :=
  match s with
  | "" => [""]
  | String c s' =>
      match split sep s' with
      | w :: ws => if Ascii.eqb c sep then "" :: w :: ws else String c w :: ws
      | [] => [""]
      end
  end.

(** ** Time values *)
Definition msPerDay : Z := 86400000.

Definition leap (y : Z) : bool :=
  (y mod 4 =? 0) && (negb (y mod 100 =? 0) || (y mod 400 =? 0)).

Definition DayFromYear (y : Z) : Z :=
  365 * (y - 1970) + (y - 1969) / 4 - (y - 1901) / 100 + (y - 1601) / 400.

(** Days before month [m] (from 0) in a year. *)
Definition month_offset (is_leap : bool) (m : Z) : Z :=
  let o := match m with
           | 0 => 0 | 1 => 31 | 2 => 59 | 3 => 90 | 4 => 120 | 5 => 151 | 6 => 181
           | 7 => 212 | 8 => 243 | 9 => 273 | 10 => 304 | _ => 334
           end in
  if is_leap && (2 <=? m) then o + 1 else o.

Definition MakeDay (year month date : Z) : Z :=
  let ym := year + month / 12 in
  DayFromYear ym + month_offset (leap ym) (month mod 12) + date - 1.

Definition TimeClip (t : Z) : option Z :=
  if Z.abs t <=? 8640000000000000 then Some t else None.

(** [Date.UTC(year, month, date)]; [None] is NaN. *)
Definition Date_UTC (year month date : option Z) : option Z :=
  y ← year; m ← month; d ← date;
  let yr := if (0 <=? y) && (y <=? 99) then 1900 + y else y in
  TimeClip (MakeDay yr m d * msPerDay).

(** [a <= b], [a < b] and [a >= b] on time values. *)
Definition tv_le (a b : option Z) : bool :=
  match a, b with Some x, Some y => x <=? y | _, _ => false end.
Definition tv_lt (a b : option Z) : bool :=
  match a, b with Some x, Some y => x <? y | _, _ => false end.

(** [getUTCFullYear], [getUTCMonth], [getUTCDate] of a time value. *)
Definition Day (t : Z) : Z := t / msPerDay.
Definition YearFromDay (d : Z) : Z :=
  let y := 1970 + d * 400 / 146097 in
  if d <? DayFromYear y then y - 1
  else if DayFromYear (y + 1) <=? d then y + 1 else y.
Definition MonthFromDay (d : Z) : Z :=
  let y := YearFromDay d in
  let r := d - DayFromYear y in
  let before m := month_offset (leap y) m <=? r in
  Z.of_nat (length (filter (fun m => before m = true) [1; 2; 3; 4; 5; 6; 7; 8; 9; 10; 11])).
Definition DateFromDay (d : Z) : Z :=
  let y := YearFromDay d in
  d - DayFromYear y - month_offset (leap y) (MonthFromDay d) + 1.

(** ** The functions of the module *)

(** [s.split('-').map(Number)] destructured into year, month and day; a missing
    part is [undefined], which counts as NaN. *)
Definition date_parts (s : string) : num * num * num :=
  let parts := Number <$> split "-" s in
  (default NaN (parts !! 0%nat), default NaN (parts !! 1%nat), default NaN (parts !! 2%nat)).

(** [Date.UTC(year, month - 1, day)] of a date string. *)
Definition utc_of (s : string) : option Z :=
  let '(y, m, d) := date_parts s in
  Date_UTC (to_integer y) (to_integer (m -. of_Z 1)%num) (to_integer d).

Example utc_of_texts :
  utc_of "2026-01-10" = Some 1768003200000 /\ utc_of "2026-1e0- 10 " = Some 1768003200000 /\
  utc_of "2026-0x1-10.9" = Some 1768003200000 /\ utc_of "2026-05" = None /\ utc_of "2026-May-10" = None.
Proof. by vm_compute. Qed.

(** [Math.round] of the quotient [a / b]. *)
Definition round_div (a b : Z) : Z := (2 * a + b) / (2 * b).

Definition calculateDaysRequested (startDate endDate : string) : num :=
  match utc_of startDate, utc_of endDate with
  | Some start, Some end_ =>
      let diffMs := end_ - start in
      let days := round_div diffMs (1000 * 60 * 60 * 24) + 1 in
      of_Z (Z.max days 1)
  | _, _ => NaN
  end.

Definition isNotInPast_at (now : Z) (dateStr : string) : bool :=
  let targetDate := utc_of dateStr in
  let d := Day now in
  let today := Date_UTC (Some (YearFromDay d)) (Some (MonthFromDay d)) (Some (DateFromDay d)) in
  tv_le today targetDate.

Definition datesOverlap (start1 end1 start2 end2 : string) : bool :=
  tv_le (utc_of start1) (utc_of end2) && tv_le (utc_of start2) (utc_of end1).

Definition isStale_at (now : Z) (timestamp : option Z) (thresholdMs : Z) : bool :=
  match timestamp with
  | None => true
  | Some t => thresholdMs <? now - t
  end.

(** The functions read the clock. *)
Section clock.
Context {Tbl : Type -> Type} `{Env}.
Definition isNotInPast (dateStr : string) : M (World Tbl) exn bool :=
  now ← date_now; mret (isNotInPast_at now dateStr).
Definition isStale (timestamp : option Z) (thresholdMs : Z) : M (World Tbl) exn bool :=
  match timestamp with
  | None => mret true
  | Some _ => now ← date_now; mret (isStale_at now timestamp thresholdMs)
  end.
End clock.

(** ** [new Date(s + 'T00:00:00Z')]

    The format [YYYY-MM-DDTHH:mm:ssZ] is parsed by the language; a string that
    does not have it, or not a legal day of a month, is parsed in a way the
    language leaves to the engine. *)
Class Engine := { engine_date_parse : string -> option Z }.

Definition days_in_month (y m : Z) : Z :=
  MakeDay y (m + 1) 1 - MakeDay y m 1.

(** A string of exactly [n] digits. *)
Definition digits_n (n : nat) (s : string) : option Z :=
  if decide (String.length s = n) then digits 0 s else None.

(** The time value of a legal [YYYY-MM-DD]. *)
Definition iso_date (s : string) : option Z :=
  match split "-" s with
  | [ys; ms; ds] =>
      y ← digits_n 4 ys; m ← digits_n 2 ms; d ← digits_n 2 ds;
      if (1 <=? m) && (m <=? 12) && (1 <=? d) && (d <=? days_in_month y (m - 1))
      then TimeClip (MakeDay y (m - 1) d * msPerDay) else None
  | _ => None
  end.

Definition Date_midnight `{Engine} (s : string) : option Z :=
  match iso_date s with
  | Some t => Some t
  | None => engine_date_parse (s +:+ "T00:00:00Z")
  end.

(** ** What the functions mean in days *)

Lemma utc_of_midnight s t :
  utc_of s = Some t -> t = Day t * msPerDay /\ Z.abs t <= 8640000000000000.
Proof.
  unfold utc_of, Date_UTC. destruct (date_parts s) as [[y m] d].
  destruct (to_integer y) as [yi|], (to_integer (m -. of_Z 1)%num) as [mi|], (to_integer d) as [di|]; try done.
  cbn [mbind option_bind]. unfold TimeClip.
  destruct (Z.leb_spec (Z.abs (MakeDay (if (0 <=? yi) && (yi <=? 99) then 1900 + yi else yi) mi di * msPerDay))
    8640000000000000) as [Hb|]; [|done].
  intros [= <-]. split; [|done]. unfold Day. by rewrite Z.div_mul.
Qed.

(** The day a date string names. *)
Definition day_of (s : string) : option Z := Day <$> utc_of s.

Lemma day_of_utc s d :
  day_of s = Some d -> utc_of s = Some (d * msPerDay) /\ Z.abs d <= 100000000.
Proof.
  unfold day_of. destruct (utc_of s) as [t|] eqn:Ht; [|done]. intros [= <-].
  destruct (utc_of_midnight _ _ Ht) as [Hm Hb]. split; [congruence|].
  unfold msPerDay in *. lia.
Qed.

Lemma round_div_exact k b : 0 < b -> round_div (k * b) b = k.
Proof.
  intros Hb. unfold round_div. replace (2 * (k * b) + b) with (b + k * (2 * b)) by lia.
  rewrite Z.div_add, Z.div_small by lia. lia.
Qed.

Lemma calculateDaysRequested_days s e a b :
  day_of s = Some a -> day_of e = Some b ->
  calculateDaysRequested s e = of_Z (Z.max (b - a + 1) 1).
Proof.
  intros Ha Hb. apply day_of_utc in Ha as [Ha _], Hb as [Hb _].
  unfold calculateDaysRequested. rewrite Ha, Hb. change (1000 * 60 * 60 * 24) with msPerDay.
  rewrite <- Z.mul_sub_distr_r, round_div_exact by done. done.
Qed.

Lemma datesOverlap_days s1 e1 s2 e2 a1 b1 a2 b2 :
  day_of s1 = Some a1 -> day_of e1 = Some b1 -> day_of s2 = Some a2 -> day_of e2 = Some b2 ->
  datesOverlap s1 e1 s2 e2 = (a1 <=? b2) && (a2 <=? b1).
Proof.
  intros H1 H2 H3 H4. apply day_of_utc in H1 as [H1 _], H2 as [H2 _], H3 as [H3 _], H4 as [H4 _].
  unfold datesOverlap. rewrite H1, H2, H3, H4. unfold tv_le, msPerDay.
  f_equal; apply eq_iff_eq_true; rewrite !Z.leb_le; lia.
Qed.

Lemma datesOverlap_sym s1 e1 s2 e2 : datesOverlap s1 e1 s2 e2 = datesOverlap s2 e2 s1 e1.
Proof. unfold datesOverlap. apply andb_comm. Qed.

(** The parts of a day give the day back. *)
Lemma MakeDay_parts d : MakeDay (YearFromDay d) (MonthFromDay d) (DateFromDay d) = d.
Proof.
  unfold MakeDay. assert (Hm : 0 <= MonthFromDay d <= 11).
  { unfold MonthFromDay. cbv zeta. split; [lia|]. apply (Nat2Z.inj_le _ 11), length_filter. }
  rewrite Z.div_small, Z.mod_small by lia. rewrite Z.add_0_r.
  unfold DateFromDay. lia.
Qed.

Lemma YearFromDay_recent d : 0 <= d -> 1969 <= YearFromDay d.
Proof.
  intros Hd. unfold YearFromDay. assert (0 <= d * 400 / 146097) by (apply Z.div_pos; lia).
  repeat case_match; lia.
Qed.

Lemma isNotInPast_days now s d :
  0 <= now <= 8640000000000000 -> day_of s = Some d -> isNotInPast_at now s = (Day now <=? d).
Proof.
  intros Hn Hs. apply day_of_utc in Hs as [Hs _]. unfold isNotInPast_at. rewrite Hs.
  assert (0 <= Day now) by (apply Z.div_pos; unfold msPerDay; lia).
  pose proof (YearFromDay_recent (Day now) ltac:(done)) as Hy.
  unfold Date_UTC. cbn [mbind option_bind].
  assert ((0 <=? YearFromDay (Day now)) && (YearFromDay (Day now) <=? 99) = false) as ->.
  { apply andb_false_iff. right. apply Z.leb_gt. lia. }
  rewrite MakeDay_parts. unfold TimeClip.
  assert (Hle : Day now * msPerDay <= now).
  { unfold Day. rewrite Z.mul_comm. apply Z.mul_div_le. done. }
  assert ((Z.abs (Day now * msPerDay) <=? 8640000000000000) = true) as ->.
  { apply Z.leb_le. unfold msPerDay in *. lia. }
  unfold tv_le, msPerDay. apply eq_iff_eq_true. rewrite !Z.leb_le. lia.
Qed.

(** The length of a request is the number of its days, both ends included: the
    day counts [a] to [b] of two dates give [b - a + 1]; a range that ends
    before it starts counts as one day. *)
Theorem calculateDaysRequested_inclusive s e a b :
  day_of s = Some a -> day_of e = Some b ->
  calculateDaysRequested s e =
    of_Z (if b <? a then 1 else Z.of_nat (length (seqZ a (b - a + 1)))).
Proof.
  intros Ha Hb. rewrite (calculateDaysRequested_days _ _ _ _ Ha Hb). f_equal.
  rewrite length_seqZ. case_match eqn:E; [apply Z.ltb_lt in E|apply Z.ltb_ge in E]; lia.
Qed.

(** Two ranges of dates overlap exactly when they share a day. *)
Theorem datesOverlap_shared_day s1 e1 s2 e2 a1 b1 a2 b2 :
  day_of s1 = Some a1 -> day_of e1 = Some b1 -> day_of s2 = Some a2 -> day_of e2 = Some b2 ->
  a1 <= b1 -> a2 <= b2 ->
  datesOverlap s1 e1 s2 e2 = true <-> exists d, a1 <= d <= b1 /\ a2 <= d <= b2.
Proof.
  intros H1 H2 H3 H4 Hr1 Hr2. rewrite (datesOverlap_days _ _ _ _ _ _ _ _ H1 H2 H3 H4).
  rewrite andb_true_iff, !Z.leb_le. split; [|intros (d & ? & ?); lia].
  intros [? ?]. exists (Z.max a1 a2). lia.
Qed.

(** A date is not in the past exactly when its day is today or later, in UTC. *)
Theorem isNotInPast_today now s d :
  0 <= now <= 8640000000000000 -> day_of s = Some d ->
  isNotInPast_at now s = true <-> now / 86400000 <= d.
Proof. intros Hn Hs. rewrite (isNotInPast_days _ _ _ Hn Hs). apply Z.leb_le. Qed.

(** A date that [Number] cannot read counts as nothing: the length is NaN, and
    the range overlaps no other. *)
Lemma NaN_dates s e s2 e2 :
  utc_of e = None ->
  calculateDaysRequested s e = NaN /\ datesOverlap s e s2 e2 = false.
Proof.
  intros He. unfold calculateDaysRequested, datesOverlap. rewrite He. split.
  - by destruct (utc_of s).
  - rewrite andb_false_iff. right. by destruct (utc_of s2).
Qed.

Lemma calculateDaysRequested_inclusive_witness :
  calculateDaysRequested "2028-02-28" "2028-03-01" = of_Z 3.
Proof.
  apply (calculateDaysRequested_inclusive "2028-02-28" "2028-03-01" 21242 21244); vm_compute; done.
Defined.

Lemma datesOverlap_shared_day_witness :
  exists d, 20484 <= d <= 20488 /\ 20488 <= d <= 20490.
Proof.
  apply (datesOverlap_shared_day "2026-01-31" "2026-02-04" "2026-02-04" "2026-02-06"); vm_compute; done.
Defined.

Lemma isNotInPast_today_witness : 1768003200000 / 86400000 <= 20463.
Proof. apply (isNotInPast_today 1768003200000 "2026-01-10"); vm_compute; done. Defined.
