(* ===== verification/Calendar.v ===== *)
(** * Working days: [date.util.js] and [date-range-validator.util.js]

    Both under [src/common/utils].  The two loops walk from a date to another one
    day at a time; here they are shown to count what they mean to count. *)

From Stdlib Require Import Strings.Ascii.
From S2P Require Import Prelude Num Domain World Dates.

Local Open Scope Z_scope.

(** [getUTCDay()] of a day. *)
Definition weekday (d : Z) : Z := (d + 4) mod 7.

(** The last [n] digits of a number. *)
Fixpoint padded (n : nat) (z : Z) (acc : string) : string :=
  match n with
  | O => acc
  | S n => padded n (z / 10) (String (ascii_of_N (Z.to_N (48 + z mod 10))) acc)
  end.
(** [toISOString().slice(0, 10)] of a day: a year outside 0 to 9999 has a sign and
    six digits, and the cut falls inside the month. *)
Definition iso_day (d : Z) : string :=
  let y := YearFromDay d in
  let year := if (0 <=? y) && (y <=? 9999) then padded 4 y ""
              else (if y <? 0 then "-" else "+") +:+ padded 6 (Z.abs y) "" in
  String.substring 0 10
    (year +:+ "-" +:+ padded 2 (MonthFromDay d + 1) "" +:+ "-" +:+ padded 2 (DateFromDay d) "").

(** Whether the loops count a day. *)
Definition counted (weekendDays : list Z) (holidays : list string) (d : Z) : bool :=
  negb (bool_decide (weekday d ∈ weekendDays)) && negb (bool_decide (iso_day d ∈ holidays)).

(** The loop: [while (current <= end)]; every turn adds a day, so one turn more
    than the days between are enough. *)
Fixpoint count_loop (fuel : nat) (count_day : Z -> bool) (current end_ count : Z) : Z :=
  match fuel with
  | O => count
  | S fuel =>
      if current <=? end_ then
        count_loop fuel count_day (current + msPerDay) end_
          (if count_day (Day current) then count + 1 else count)
      else count
  end.
Definition turns (current end_ : Z) : nat := Z.to_nat ((end_ - current) / msPerDay + 2).

(** [calculateWorkingDays(startDate, endDate, weekendDays, holidays)]; with an
    invalid date no comparison holds and the loop does not start. *)
Definition calculateWorkingDays (startDate endDate : string) (weekendDays : option (list Z))
    (holidays : option (list string)) : Z :=
  match utc_of startDate, utc_of endDate with
  | Some current, Some end_ =>
      count_loop (turns current end_) (counted (default [0; 6] weekendDays) (default [] holidays))
        current end_ 0
  | _, _ => 0
  end.

(** ** [DateRangeValidator] *)
Section validator.
Context `{Engine}.

(** [new Date(s)], for a legal date without a time; other texts are left to the
    engine. *)
Definition Date_parse (s : string) : option Z :=
  match iso_date s with Some t => Some t | None => engine_date_parse s end.

Record range := { range_start : string; range_end : string }.

(** [isOverlap(rangeA, rangeB)] *)
Definition isOverlap (rangeA rangeB : range) : exn + bool :=
  match Date_parse (range_start rangeA), Date_parse (range_end rangeA),
        Date_parse (range_start rangeB), Date_parse (range_end rangeB) with
  | Some startA, Some endA, Some startB, Some endB => inr ((startA <=? endB) && (startB <=? endA))
  | _, _, _, _ => inl (JsError "Invalid date format provided for overlap calculation")
  end.

(** [holidays.map((h) => new Date(h).toISOString().slice(0, 10))] *)
Fixpoint holiday_set (holidays : list string) : exn + list string :=
  match holidays with
  | [] => inr []
  | h :: hs =>
      match Date_parse h with
      | None => inl (JsError "Invalid time value")
      | Some t => match holiday_set hs with inl e => inl e | inr ds => inr (iso_day (Day t) :: ds) end
      end
  end.

(** [countBusinessDays(startDate, endDate, holidays)] *)
Definition countBusinessDays (startDate endDate : string) (holidays : list string) : exn + Z :=
  let current := Date_parse startDate in
  let end_ := Date_parse endDate in
  if tv_lt end_ current then inr 0
  else
    match holiday_set holidays with
    | inl e => inl e
    | inr hs =>
        match current, end_ with
        | Some c, Some e => inr (count_loop (turns c e) (counted [0; 6] hs) c e 0)
        | _, _ => inr 0
        end
    end.
End validator.

(** ** What the loops count *)

(** The number of days from [a] to [b] that satisfy [P]. *)
Definition days_where (P : Z -> bool) (a b : Z) : Z :=
  Z.of_nat (length (filter (fun d => P d = true) (seqZ a (b - a + 1)))).

Lemma days_where_step P a b :
  a <= b -> days_where P a b = (if P a then 1 else 0) + days_where P (a + 1) b.
Proof.
  intros Hab. unfold days_where. rewrite (seqZ_cons a) by lia.
  replace (Z.succ a) with (a + 1) by lia. replace (Z.pred (b - a + 1)) with (b - (a + 1) + 1) by lia.
  rewrite filter_cons. destruct (P a); [rewrite decide_True by done; cbn [length]; lia|].
  by rewrite decide_False.
Qed.
Lemma days_where_none P a b : b < a -> days_where P a b = 0.
Proof. intros Hab. unfold days_where. by rewrite seqZ_nil by lia. Qed.
Lemma days_where_all a b : a <= b + 1 -> days_where (fun _ => true) a b = b - a + 1.
Proof.
  intros Hab. unfold days_where. rewrite list_filter_all by done. rewrite length_seqZ. lia.
Qed.
Lemma days_where_le P a b : 0 <= days_where P a b <= Z.max 0 (b - a + 1).
Proof.
  unfold days_where. pose proof (length_filter (fun d => P d = true) (seqZ a (b - a + 1))) as Hl.
  rewrite length_seqZ in Hl. lia.
Qed.

(** The loop from the time [s] of a day, with the same time on the last day. *)
Lemma count_loop_days P : forall fuel a s b n,
  0 <= s < msPerDay -> b - a + 1 < Z.of_nat fuel ->
  count_loop fuel P (a * msPerDay + s) (b * msPerDay + s) n = n + days_where P a b.
Proof.
  induction fuel as [|fuel IH]; intros a s b n Hs Hf; [rewrite days_where_none by lia; cbn; lia|].
  cbn [count_loop]. unfold msPerDay in *. destruct (Z.leb_spec (a * 86400000 + s) (b * 86400000 + s)).
  - assert (Hd : Day (a * 86400000 + s) = a).
    { unfold Day, msPerDay. rewrite Z.div_add_l by lia. rewrite Z.div_small by lia. lia. }
    rewrite Hd. replace (a * 86400000 + s + 86400000) with ((a + 1) * 86400000 + s) by lia.
    rewrite IH by lia. rewrite (days_where_step P a b) by lia. destruct (P a); lia.
  - rewrite days_where_none by lia. lia.
Qed.

(** C38. [calculateWorkingDays] terminates with the number of days from the start to
    the end, both included, that are neither on a weekend day nor a holiday: with
    no weekend and no holidays these are the calendar days a request is charged
    for, and in general never more. *)
Theorem working_days_counted s e a b weekendDays holidays :
  day_of s = Some a -> day_of e = Some b ->
  calculateWorkingDays s e weekendDays holidays =
    days_where (counted (default [0; 6] weekendDays) (default [] holidays)) a b /\
  (a <= b ->
     of_Z (calculateWorkingDays s e (Some []) (Some [])) = calculateDaysRequested s e /\
     calculateWorkingDays s e weekendDays holidays <= calculateWorkingDays s e (Some []) (Some [])).
Proof.
  intros Ha Hb. assert (Hc : forall w h, calculateWorkingDays s e w h =
    days_where (counted (default [0; 6] w) (default [] h)) a b).
  { intros w h. unfold calculateWorkingDays. destruct (day_of_utc _ _ Ha) as [-> _], (day_of_utc _ _ Hb) as [-> _].
    pose proof (count_loop_days (counted (default [0; 6] w) (default [] h))
      (turns (a * msPerDay) (b * msPerDay)) a 0 b 0) as Hl.
    rewrite !Z.add_0_r, Z.add_0_l in Hl. apply Hl; [done|]. unfold turns.
    rewrite <- Z.mul_sub_distr_r, Z.div_mul by done. lia. }
  split; [apply Hc|]. intros Hab. rewrite !Hc. cbn [default from_option id].
  assert (Hall : days_where (counted [] []) a b = b - a + 1) by by apply days_where_all; lia.
  split.
  - rewrite Hall. by rewrite (calculateDaysRequested_days s e a b Ha Hb), Z.max_l by lia.
  - pose proof (days_where_le (counted (default [0; 6] weekendDays) (default [] holidays)) a b). lia.
Qed.

Lemma working_days_counted_witness :
  calculateWorkingDays "2026-01-01" "2026-01-11" None (Some ["2026-01-01"]) = 6 /\
  calculateWorkingDays "2026-01-01" "2026-01-11" None (Some ["2026-01-01"]) <=
    calculateWorkingDays "2026-01-01" "2026-01-11" (Some []) (Some []).
Proof.
  split; [vm_compute; reflexivity|].
  destruct (working_days_counted "2026-01-01" "2026-01-11" 20454 20464 None (Some ["2026-01-01"])) as [_ H];
    [vm_compute; reflexivity..|]. apply H. lia.
Defined.
