(* ===== verification/Balance.v ===== *)
(** * BalanceService: [src/modules/balance/balance.service.js]

    Each method as a computation on the world.  The methods that take a
    [manager] run inside the caller's transaction; the lock mode they pass to
    [findOne] does not change what is read. *)

From S2P Require Import Prelude Num Domain Store Entities World Dates.

(** [_serialize(balance)] *)
Record BalanceView := {
  bv_id : string;
  bv_employeeId : string;
  bv_locationId : string;
  bv_leaveType : string;
  bv_totalBalance : num;
  bv_availableBalance : num;
  bv_pendingBalance : num;
  bv_usedBalance : num;
  bv_carryOverBalance : num;
  bv_hcmLastSync : option Z;
  bv_hcmVersion : option string;
  bv_hasDiscrepancy : bool;
  bv_discrepancyAmount : option num;
  bv_stale : bool;
  bv_version : Z;
  bv_updatedAt : Z;
}.

(** [{ totalBalance, version }] of the real-time endpoint. *)
Record HcmBalance := { hb_totalBalance : num; hb_version : option string }.

(** [s || null] *)
Definition or_null (s : option string) : option string :=
  match s with Some "" => None | _ => s end.

(** [_getWriteLock(manager)]: the lock mode of the reads in a transaction, from the
    type of the manager's connection or else of the data source. *)
Definition getWriteLock (managerType dataSourceType : option string) : option string :=
  let dbType := match or_null managerType with None => dataSourceType | t => t end in
  if decide (dbType = Some "sqlite"%string) then None else Some "pessimistic_write"%string.

Section service.
Context {Tbl : Type -> Type} `{Repo Tbl} `{Env} `{Config}.
Abbreviation M A := (M (World Tbl) exn A).

Definition serialize (balance : EmployeeBalance) : M BalanceView :=
  stale ← isStale (b_hcmLastSync balance) STALE_BALANCE_THRESHOLD_MS;
  mret {|
    bv_id := b_id balance;
    bv_employeeId := b_employeeId balance;
    bv_locationId := b_locationId balance;
    bv_leaveType := b_leaveType balance;
    bv_totalBalance := parseFloat (b_totalBalance balance);
    bv_availableBalance := parseFloat (b_availableBalance balance);
    bv_pendingBalance := parseFloat (b_pendingBalance balance);
    bv_usedBalance := parseFloat (b_usedBalance balance);
    bv_carryOverBalance :=
      (if num_truthy (b_carryOverBalance balance)
       then parseFloat (b_carryOverBalance balance) else of_Z 0);
    bv_hcmLastSync := b_hcmLastSync balance;
    bv_hcmVersion := b_hcmVersion balance;
    bv_hasDiscrepancy := b_hasDiscrepancy balance;
    bv_discrepancyAmount :=
      (d ← b_discrepancyAmount balance; if num_truthy d then Some (parseFloat d) else None);
    bv_stale := stale;
    bv_version := b_version balance;
    bv_updatedAt := b_updatedAt balance;
  |}.

Definition getBalance (employeeId locationId leaveType : string) : M BalanceView :=
  balance ← findOne_balance (where_key employeeId locationId leaveType);
  match balance with
  | None => throw (NotFoundException ErrorCodes.BALANCE_NOT_FOUND)
  | Some balance => serialize balance
  end.

(** [where: { employeeId, locationId }] *)
Definition where_employee (employeeId locationId : string) (b : EmployeeBalance) : bool :=
  bool_decide (b_employeeId b = employeeId) && bool_decide (b_locationId b = locationId).

Definition getBalancesForEmployee (employeeId locationId : string) : M (list BalanceView) :=
  balances ← findBy_balances (where_employee employeeId locationId)
               (fun b c => String.leb (b_leaveType b) (b_leaveType c)) None 0;
  mapM serialize balances.

Definition atomicDeduct (employeeId locationId leaveType : string) (days : num) :
    M EmployeeBalance :=
  balance ← findOne_balance (where_key employeeId locationId leaveType);
  match balance with
  | None => throw (NotFoundException ErrorCodes.BALANCE_NOT_FOUND)
  | Some balance =>
      let available := parseFloat (b_availableBalance balance) in
      let daysNum := parseFloat days in
      if (available <. daysNum)%num then
        throw (UnprocessableEntityException ErrorCodes.INSUFFICIENT_BALANCE)
      else
        let balance := b_set_availableBalance
                         (parseFloat (b_availableBalance balance) -. daysNum)%num balance in
        let balance := b_set_pendingBalance
                         (parseFloat (b_pendingBalance balance) +. daysNum)%num balance in
        save_balance balance
  end.

Definition releaseFromPending (employeeId locationId leaveType : string) (days : num) : M unit :=
  let daysNum := parseFloat days in
  balance ← findOne_balance (where_key employeeId locationId leaveType);
  match balance with
  | None => throw (NotFoundException ErrorCodes.BALANCE_NOT_FOUND)
  | Some balance =>
      let pending := parseFloat (b_pendingBalance balance) in
      if (pending <. daysNum)%num then
        throw (ConflictException ErrorCodes.BALANCE_CONFLICT)
      else
        let balance := b_set_pendingBalance (pending -. daysNum)%num balance in
        let balance := b_set_availableBalance
                         (parseFloat (b_availableBalance balance) +. daysNum)%num balance in
        _ ← save_balance balance;
        mret tt
  end.

Definition finalizeUsed (employeeId locationId leaveType : string) (days : num) : M unit :=
  let daysNum := parseFloat days in
  balance ← findOne_balance (where_key employeeId locationId leaveType);
  match balance with
  | None => throw (NotFoundException ErrorCodes.BALANCE_NOT_FOUND)
  | Some balance =>
      let pending := parseFloat (b_pendingBalance balance) in
      if (pending <. daysNum)%num then
        throw (ConflictException ErrorCodes.BALANCE_CONFLICT)
      else
        let balance := b_set_pendingBalance (pending -. daysNum)%num balance in
        let balance := b_set_usedBalance
                         (parseFloat (b_usedBalance balance) +. daysNum)%num balance in
        _ ← save_balance balance;
        mret tt
  end.

(** [balanceRepository.create({...})] of [upsertBalance]. *)
Definition new_balance (employeeId locationId leaveType : string) (total : num)
    (hcmLastSync : Z) (hcmVersion : option string) : EmployeeBalance :=
  {| b_id := ""; b_employeeId := employeeId; b_locationId := locationId;
     b_leaveType := leaveType; b_totalBalance := total; b_availableBalance := total;
     b_pendingBalance := of_Z 0; b_usedBalance := of_Z 0;
     b_carryOverBalance := b_carryOverBalance b_default; b_hcmTotalBalance := total;
     b_hcmLastSync := Some hcmLastSync; b_hcmVersion := hcmVersion;
     b_hasDiscrepancy := b_hasDiscrepancy b_default;
     b_discrepancyAmount := b_discrepancyAmount b_default;
     b_version := b_version b_default; b_createdAt := hcmLastSync; b_updatedAt := hcmLastSync |}.

Definition upsertBalance (employeeId locationId leaveType : string) (totalBalance : num) :
    M BalanceView :=
  existing ← findOne_balance (where_key employeeId locationId leaveType);
  match existing with
  | Some existing => serialize existing
  | None =>
      let total := parseFloat totalBalance in
      now ← date_now;
      saved ← save_balance (new_balance employeeId locationId leaveType total now None);
      serialize saved
  end.

Definition applyHcmRealTimeUpdate (employeeId locationId leaveType : string)
    (hcmData : HcmBalance) : M (option EmployeeBalance) :=
  balance ← findOne_balance (where_key employeeId locationId leaveType);
  match balance with
  | None => mret None
  | Some balance =>
      let localTotal := (parseFloat (b_usedBalance balance)
                         +. parseFloat (b_pendingBalance balance)
                         +. parseFloat (b_availableBalance balance))%num in
      let hcmTotal := parseFloat (hb_totalBalance hcmData) in
      let drift := (hcmTotal -. localTotal)%num in
      let '(balance, hasDiscrepancy, discrepancyAmount) :=
        if (literal 1 1000 <. drift)%num then
          (b_set_totalBalance hcmTotal
             (b_set_availableBalance (parseFloat (b_availableBalance balance) +. drift)%num balance),
           false, None)
        else if (drift <. nopp (literal 1 1000))%num then
          (balance, true, Some (nabs drift))
        else (balance, false, None) in
      now ← date_now;
      saved ← save_balance (b_with_hcm hcmTotal (Some now) (or_null (hb_version hcmData))
                              hasDiscrepancy discrepancyAmount balance);
      mret (Some saved)
  end.

Definition isBalanceStale (employeeId locationId leaveType : string) : M bool :=
  balance ← findOne_balance (where_key employeeId locationId leaveType);
  match balance with
  | None => mret true
  | Some balance => isStale (b_hcmLastSync balance) STALE_BALANCE_THRESHOLD_MS
  end.
End service.
