(* ===== verification/Hash.v ===== *)
(** * Payload hashing: [src/common/utils/hash.util.js]

    [hashObject] sorts the keys of a JSON value at every level, serializes it and
    hashes the text.  SHA-256 is Node's; sorting and serializing are modelled.
    Objects are association lists in enumeration order (the DTO's keys are
    identifiers, so none is reordered as an array index). *)

From Stdlib Require Import Ascii.
From stdpp Require Import pretty.
From S2P Require Import Prelude.

#[warnings="-register-all"]
Inductive Json :=
  | JUndefined
  | JNull
  | JBool (b : bool)
  | JInt (n : Z)
  | JString (s : string)
  | JArray (xs : list Json)
  | JObject (fields : list (string * Json)).

Class Crypto := { sha256_hex : string -> string }.

(** Order of [Array.prototype.sort] on strings of ASCII characters. *)
Definition key_leb {A} (x y : string * A) : bool := String.leb x.1 y.1.

Fixpoint insert_field {A} (x : string * A) (l : list (string * A)) : list (string * A) :=
  match l with
  | [] => [x]
  | y :: l' => if key_leb x y then x :: l else y :: insert_field x l'
  end.

(** [Object.keys(obj).sort()], with the value of each key. *)
Definition sort_fields {A} (l : list (string * A)) : list (string * A) :=
  foldr insert_field [] l.

(** [sortObjectKeys(obj)] *)
Fixpoint sortObjectKeys (j : Json) : Json :=
  match j with
  | JArray xs => JArray (map sortObjectKeys xs)
  | JObject fs => JObject (sort_fields (map (fun '(k, v) => (k, sortObjectKeys v)) fs))
  | _ => j
  end.

(** [JSON.stringify]'s quoting of a character. *)
Definition hex_digit (n : N) : ascii :=
  ascii_of_N (if (n <? 10)%N then 48 + n else 87 + n)%N.
Definition quote_char (c : ascii) : string :=
  let n := N_of_ascii c in
  if (n =? 34)%N then "\" +:+ String c ""
  else if (n =? 92)%N then "\\"
  else if (n =? 8)%N then "\b"
  else if (n =? 9)%N then "\t"
  else if (n =? 10)%N then "\n"
  else if (n =? 12)%N then "\f"
  else if (n =? 13)%N then "\r"
  else if (n <? 32)%N then
    "\u00" +:+ String (hex_digit (n / 16)) (String (hex_digit (n mod 16)) "")
  else String c "".
Fixpoint quote_body (s : string) : string :=
  match s with
  | "" => ""
  | String c s' => quote_char c +:+ quote_body s'
  end.
Definition dquote : string := String (ascii_of_N 34) "".
Definition quote (s : string) : string := dquote +:+ quote_body s +:+ dquote.

Fixpoint join (sep : string) (l : list string) : string :=
  match l with
  | [] => ""
  | [x] => x
  | x :: l' => x +:+ sep +:+ join sep l'
  end.

(** [JSON.stringify(j)]: [undefined] is dropped from an object and is [null] in
    an array. *)
Fixpoint stringify (j : Json) : string :=
  match j with
  | JUndefined => ""
  | JNull => "null"
  | JBool b => if b then "true" else "false"
  | JInt n => pretty n
  | JString s => quote s
  | JArray xs =>
      "[" +:+ join "," (map (fun x => match x with JUndefined => "null" | _ => stringify x end) xs)
      +:+ "]"
  | JObject fs =>
      "{" +:+ join "," (omap (fun x => x)
        (map (fun '(k, v) => match v with
                             | JUndefined => None
                             | _ => Some (quote k +:+ ":" +:+ stringify v)
                             end) fs)) +:+ "}"
  end.

(** [hashObject(obj)] *)
Definition hashObject `{Crypto} (obj : Json) : string := sha256_hex (stringify (sortObjectKeys obj)).

Example stringify_sorted :
  stringify (sortObjectKeys (JObject [("b", JInt 1); ("a", JString "x"); ("c", JUndefined)]))
  = "{" +:+ quote "a" +:+ ":" +:+ quote "x" +:+ "," +:+ quote "b" +:+ ":1}".
Proof. vm_compute. reflexivity. Qed.

(** ** The hash does not depend on the order of keys *)

Lemma string_leb_trans s1 s2 s3 :
  String.leb s1 s2 = true -> String.leb s2 s3 = true -> String.leb s1 s3 = true.
Proof.
  unfold String.leb. revert s2 s3. induction s1 as [|a s1 IH]; intros [|b s2] [|c s3]; simpl; try done.
  unfold Ascii.compare.
  destruct (N.compare_spec (N_of_ascii a) (N_of_ascii b)) as [E1|L1|L1],
    (N.compare_spec (N_of_ascii b) (N_of_ascii c)) as [E2|L2|L2],
    (N.compare_spec (N_of_ascii a) (N_of_ascii c)) as [E3|L3|L3]; try done; try lia; apply IH.
Qed.

Lemma insert_field_comm {A} (x y : string * A) l :
  x.1 <> y.1 -> insert_field x (insert_field y l) = insert_field y (insert_field x l).
Proof.
  intros Hne. unfold key_leb in *.
  assert (Hxy : String.leb x.1 y.1 = negb (String.leb y.1 x.1)).
  { destruct (String.leb x.1 y.1) eqn:E1, (String.leb y.1 x.1) eqn:E2; try done.
    - by destruct Hne; apply String.leb_antisym.
    - destruct (String.leb_total x.1 y.1); congruence. }
  induction l as [|z l IH]; simpl; unfold key_leb; [by rewrite Hxy; destruct (String.leb y.1 x.1)|].
  destruct (String.leb y.1 z.1) eqn:Eyz, (String.leb x.1 z.1) eqn:Exz; simpl; unfold key_leb;
    rewrite ?Eyz, ?Exz, ?Hxy.
  - by destruct (String.leb y.1 x.1).
  - destruct (String.leb y.1 x.1) eqn:E; [done|]. simpl in *.
    rewrite (string_leb_trans x.1 y.1 z.1) in Exz; done.
  - destruct (String.leb y.1 x.1) eqn:E; [|done].
    rewrite (string_leb_trans y.1 x.1 z.1) in Eyz; done.
  - by rewrite IH.
Qed.

(** Two JSON values that differ only in the order in which their objects, at any
    depth, list their keys. *)
Inductive reordered : Json -> Json -> Prop :=
  | reordered_refl j : reordered j j
  | reordered_trans j1 j2 j3 : reordered j1 j2 -> reordered j2 j3 -> reordered j1 j3
  | reordered_swap fs1 x y fs2 : x.1 <> y.1 ->
      reordered (JObject (fs1 ++ x :: y :: fs2)) (JObject (fs1 ++ y :: x :: fs2))
  | reordered_field fs1 k v v' fs2 : reordered v v' ->
      reordered (JObject (fs1 ++ (k, v) :: fs2)) (JObject (fs1 ++ (k, v') :: fs2))
  | reordered_item xs1 v v' xs2 : reordered v v' ->
      reordered (JArray (xs1 ++ v :: xs2)) (JArray (xs1 ++ v' :: xs2)).

Lemma sortObjectKeys_reordered j j' : reordered j j' -> sortObjectKeys j = sortObjectKeys j'.
Proof.
  induction 1 as [|j1 j2 j3 _ IH1 _ IH2|fs1 [kx x] [ky y] fs2 Hne|fs1 k v v' fs2 _ IH|xs1 v v' xs2 _ IH].
  - done.
  - by rewrite IH1.
  - cbn [sortObjectKeys]. f_equal. rewrite !map_app. cbn [map].
    unfold sort_fields. rewrite !foldr_app. cbn [foldr]. f_equal. by apply insert_field_comm.
  - cbn [sortObjectKeys]. f_equal. rewrite !map_app. cbn [map]. by rewrite IH.
  - cbn [sortObjectKeys]. f_equal. rewrite !map_app. cbn [map]. by rewrite IH.
Qed.

(** C40. The hash of a payload does not depend on the order in which its keys, or
    those of the objects in it, were inserted. *)
Theorem hashObject_reordered `{Crypto} j j' : reordered j j' -> hashObject j = hashObject j'.
Proof. intros Hr. unfold hashObject. by rewrite (sortObjectKeys_reordered _ _ Hr). Qed.

Lemma hashObject_reordered_witness :
  @hashObject {| sha256_hex := fun s => s |} (JObject [("b", JInt 1); ("a", JNull)]) =
  @hashObject {| sha256_hex := fun s => s |} (JObject [("a", JNull); ("b", JInt 1)]).
Proof. apply hashObject_reordered. apply (reordered_swap [] ("b", JInt 1) ("a", JNull) []). done. Defined.
