(* ===== verification/PriorityQueue.v ===== *)
(** * Priority queue: [src/common/utils/priority-queue.util.js]

    The heap is a list updated by index, with the class's own sifting.  The
    second part proves it against its specification: a list of entries kept in
    order of priority and, among equal priorities, of insertion. *)

From S2P Require Import Prelude Num Domain.

(** [PriorityQueueEntry] *)
Record entry (V : Type) := {
  priority : num;
  value : V;
  insertSeq : Z;
}.
Arguments priority {V} _.
Arguments value {V} _.
Arguments insertSeq {V} _.
Arguments Build_entry {V} _ _ _.

(** The fields of the class.  [comparator] is the constructor's option, which
    compares values. *)
Record PriorityQueue (V : Type) := {
  pq_heap : list (entry V);
  pq_maxSize : num;
  pq_seq : Z;
  pq_comparator : option (V -> V -> num);
}.
Arguments pq_heap {V} _.
Arguments pq_maxSize {V} _.
Arguments pq_seq {V} _.
Arguments pq_comparator {V} _.

Definition Infinity : num := SpecFloat.S754_infinity false.

Section queue.
Context {V : Type}.
Implicit Types (q : PriorityQueue V) (e : entry V) (h : list (entry V)).

Definition new_PriorityQueue (maxSize : option num) (comparator : option (V -> V -> num)) :
    PriorityQueue V :=
  {| pq_heap := []; pq_maxSize := default Infinity maxSize; pq_seq := 0;
     pq_comparator := comparator |}.

Definition set_heap h q : PriorityQueue V :=
  {| pq_heap := h; pq_maxSize := pq_maxSize q; pq_seq := pq_seq q;
     pq_comparator := pq_comparator q |}.
Definition next_seq q : PriorityQueue V :=
  {| pq_heap := pq_heap q; pq_maxSize := pq_maxSize q; pq_seq := pq_seq q + 1;
     pq_comparator := pq_comparator q |}.

(** [(a, b) => a.priority - b.priority || a.insertSeq - b.insertSeq] *)
Definition by_priority (a b : entry V) : num :=
  let d := (priority a -. priority b)%num in
  if num_truthy d then d else (of_Z (insertSeq a) -. of_Z (insertSeq b))%num.

(** [this._comparator] *)
Definition comparator (c : option (V -> V -> num)) (a b : entry V) : num :=
  match c with
  | Some f => f (value a) (value b)
  | None => by_priority a b
  end.

(** [comparator(a, b) < 0] *)
Definition less (cmp : entry V -> entry V -> num) (a b : entry V) : bool :=
  (cmp a b <. of_Z 0)%num.

(** [(idx - 1) >> 1] *)
Definition parent (idx : nat) : nat := Nat.div2 (idx - 1).

(** [[h[i], h[j]] = [h[j], h[i]]] *)
Definition swap (i j : nat) h : list (entry V) :=
  match h !! i, h !! j with
  | Some x, Some y => <[j := x]> (<[i := y]> h)
  | _, _ => h
  end.

(** [comparator(h[i], h[j]) < 0]; the code compares positions of the heap only. *)
Definition less_at (cmp : entry V -> entry V -> num) h (i j : nat) : bool :=
  match h !! i, h !! j with
  | Some x, Some y => less cmp x y
  | _, _ => false
  end.

(** [_siftUp(idx)]: the index at least halves, so [idx] turns are enough. *)
Fixpoint siftUp (cmp : entry V -> entry V -> num) (fuel idx : nat) h : list (entry V) :=
  match fuel with
  | O => h
  | S fuel =>
      if (0 <? idx)%nat then
        let p := parent idx in
        if less_at cmp h idx p then siftUp cmp fuel p (swap idx p h) else h
      else h
  end.

(** The child of [_siftDown] the entry at [idx] is exchanged with. *)
Definition smallest (cmp : entry V -> entry V -> num) h (idx : nat) : nat :=
  let n := length h in
  let left := (2 * idx + 1)%nat in
  let right := (2 * idx + 2)%nat in
  let s := idx in
  let s := if (left <? n)%nat && less_at cmp h left s then left else s in
  let s := if (right <? n)%nat && less_at cmp h right s then right else s in
  s.

(** [_siftDown(idx)]: the index grows, so [length h] turns are enough. *)
Fixpoint siftDown (cmp : entry V -> entry V -> num) (fuel idx : nat) h : list (entry V) :=
  match fuel with
  | O => h
  | S fuel =>
      let s := smallest cmp h idx in
      if (s =? idx)%nat then h else siftDown cmp fuel s (swap idx s h)
  end.

(** [_buildHeap()]: [i] entries from the middle down to the root. *)
Fixpoint build_from (cmp : entry V -> entry V -> num) (i : nat) h : list (entry V) :=
  match i with
  | O => h
  | S i => build_from cmp i (siftDown cmp (length h) i h)
  end.
Definition buildHeap (cmp : entry V -> entry V -> num) h : list (entry V) :=
  build_from cmp (Nat.div2 (length h)) h.

(** [comparator(h[i], h[maxIdx]) > 0] *)
Definition greater_at (cmp : entry V -> entry V -> num) h (i j : nat) : bool :=
  match h !! i, h !! j with
  | Some x, Some y => (of_Z 0 <. cmp x y)%num
  | _, _ => false
  end.

(** [_findMaxIndex()] *)
Definition findMaxIndex (cmp : entry V -> entry V -> num) h : nat :=
  let start := Nat.div2 (length h) in
  foldl (fun maxIdx i => if greater_at cmp h i maxIdx then i else maxIdx) start
    (seq (S start) (length h - S start)).

Definition pq_size q : nat := length (pq_heap q).
Definition isEmpty q : bool := (length (pq_heap q) =? 0)%nat.

(** [this._heap.push(entry); this._siftUp(this._heap.length - 1)] *)
Definition push (cmp : entry V -> entry V -> num) e h : list (entry V) :=
  let h := h ++ [e] in siftUp cmp (length h) (length h - 1) h.

(** [enqueue(value, priority)]: the entry it evicted.  With [maxSize] below one
    there is no worst entry to compare with, and reading a field of it throws. *)
Definition enqueue (v : V) (p : num) q : PriorityQueue V * (exn + option (entry V)) :=
  let cmp := comparator (pq_comparator q) in
  let e := {| priority := p; value := v; insertSeq := pq_seq q |} in
  let q := next_seq q in
  let h := pq_heap q in
  if (pq_maxSize q <=. of_Z (Z.of_nat (length h)))%num then
    let worstIdx := findMaxIndex cmp h in
    match h !! worstIdx with
    | None =>
        let field := match pq_comparator q with Some _ => "value" | None => "priority" end in
        (q, inl (JsError ("Cannot read properties of undefined (reading '" +:+ field +:+ "')")))
    | Some worst =>
        if (of_Z 0 <=. cmp e worst)%num then (q, inr None)
        else
          let h := buildHeap cmp (delete worstIdx h) in
          (set_heap (push cmp e h) q, inr (Some worst))
    end
  else (set_heap (push cmp e h) q, inr None).

(** [dequeue()] *)
Definition dequeue q : PriorityQueue V * option V :=
  let cmp := comparator (pq_comparator q) in
  match pq_heap q with
  | [] => (q, None)
  | [e] => (set_heap [] q, Some (value e))
  | min :: rest =>
      let h := default min (last rest) :: removelast rest in
      (set_heap (siftDown cmp (length h) 0 h) q, Some (value min))
  end.

Definition peek q : option V := value <$> head (pq_heap q).
Definition peekPriority q : option num := priority <$> head (pq_heap q).

(** [drain()]: every turn removes one entry. *)
Fixpoint drain_loop (fuel : nat) q (result : list V) : PriorityQueue V * list V :=
  match fuel with
  | O => (q, result)
  | S fuel =>
      match dequeue q with
      | (q, Some v) => drain_loop fuel q (result ++ [v])
      | (q, None) => (q, result)
      end
  end.
Definition drain q : PriorityQueue V * list V := drain_loop (length (pq_heap q)) q [].

(** [removeWhere(predicate)] *)
Definition removeWhere (predicate : V -> bool) q : PriorityQueue V * nat :=
  let before := length (pq_heap q) in
  let h := filter (fun e => predicate (value e) = false) (pq_heap q) in
  let h := buildHeap (comparator (pq_comparator q)) h in
  (set_heap h q, (before - length h)%nat).

(** [metrics()] *)
Definition metrics q : nat * num * option num :=
  (length (pq_heap q), pq_maxSize q, peekPriority q).
End queue.

(** ** The heap

    For comparators that agree in sign with a rank on the entries the queue
    holds. *)
Lemma parent_spec c : (0 < c)%nat -> c = (2 * parent c + 1)%nat \/ c = (2 * parent c + 2)%nat.
Proof.
  intros Hc. unfold parent. pose proof (Nat.div2_odd (c - 1)) as H.
  destruct (Nat.odd (c - 1)); simpl in H; lia.
Qed.
Lemma parent_lt c : (0 < c)%nat -> (parent c < c)%nat.
Proof. intros Hc. pose proof (parent_spec c Hc). lia. Qed.

Lemma swap_lookup {V} (h : list (entry V)) i j x y k :
  h !! i = Some x -> h !! j = Some y -> i <> j ->
  swap i j h !! k = if decide (k = j) then Some x else if decide (k = i) then Some y else h !! k.
Proof.
  intros Hi Hj Hij. unfold swap. rewrite Hi, Hj.
  pose proof (lookup_lt_Some _ _ _ Hi). pose proof (lookup_lt_Some _ _ _ Hj).
  destruct (decide (k = j)) as [->|Hkj].
  { rewrite list_lookup_insert_eq; [done|by rewrite length_insert]. }
  rewrite list_lookup_insert_ne by done. destruct (decide (k = i)) as [->|Hki].
  - by rewrite list_lookup_insert_eq.
  - by rewrite list_lookup_insert_ne.
Qed.

Lemma swap_Permutation {V} (h : list (entry V)) i j : swap i j h ≡ₚ h.
Proof.
  unfold swap. destruct (h !! i) as [x|] eqn:Hi; [|done].
  destruct (h !! j) as [y|] eqn:Hj; [|done]. by apply Permutation_insert_swap.
Qed.

Section heap.
Context {V : Type} (cmp : entry V -> entry V -> num) (valid : entry V -> Prop) (rank : entry V -> Z).
Context (less_rank : forall a b, valid a -> valid b -> (cmp a b <. of_Z 0)%num = (rank a <? rank b)%Z).
Context (greater_rank : forall a b, valid a -> valid b -> (of_Z 0 <. cmp a b)%num = (rank b <? rank a)%Z).
Implicit Types (h : list (entry V)).

(** The heap order on the edges below [lo]. *)
Definition heap_from (lo : nat) h : Prop := forall c x y,
  (0 < c)%nat -> (lo <= parent c)%nat -> h !! parent c = Some x -> h !! c = Some y ->
  (rank x <= rank y)%Z.

(** The same but for the edges out of [idx], as in [siftDown]. *)
Definition heap_below (lo idx : nat) h : Prop :=
  (forall c x y, (0 < c)%nat -> (lo <= parent c)%nat -> parent c <> idx ->
     h !! parent c = Some x -> h !! c = Some y -> (rank x <= rank y)%Z) /\
  (forall c x y, (0 < c)%nat -> (0 < idx)%nat -> parent c = idx -> (lo <= parent idx)%nat ->
     h !! parent idx = Some x -> h !! c = Some y -> (rank x <= rank y)%Z).

(** The same but for the edge into [idx], as in [siftUp]. *)
Definition heap_above (idx : nat) h : Prop :=
  (forall c x y, (0 < c)%nat -> c <> idx ->
     h !! parent c = Some x -> h !! c = Some y -> (rank x <= rank y)%Z) /\
  (forall c x y, (0 < c)%nat -> (0 < idx)%nat -> parent c = idx ->
     h !! parent idx = Some x -> h !! c = Some y -> (rank x <= rank y)%Z).

Lemma less_at_rank h i j x y :
  Forall valid h -> h !! i = Some x -> h !! j = Some y -> less_at cmp h i j = (rank x <? rank y)%Z.
Proof.
  intros Hv Hi Hj. unfold less_at, less. rewrite Hi, Hj.
  apply less_rank; eapply Forall_lookup_1; eauto.
Qed.

Lemma swap_valid i j h : Forall valid h -> Forall valid (swap i j h).
Proof. by rewrite swap_Permutation. Qed.

Lemma smallest_spec h idx x :
  Forall valid h -> h !! idx = Some x ->
  exists y, h !! smallest cmp h idx = Some y /\ (rank y <= rank x)%Z /\
    (smallest cmp h idx = idx \/ (idx < smallest cmp h idx)%nat /\ parent (smallest cmp h idx) = idx) /\
    (forall c z, (0 < c)%nat -> parent c = idx -> h !! c = Some z -> (rank y <= rank z)%Z).
Proof.
  intros Hv Hx. unfold smallest. cbv zeta.
  assert (Hl : parent (2 * idx + 1) = idx) by (pose proof (parent_spec (2 * idx + 1)); lia).
  assert (Hr : parent (2 * idx + 2) = idx) by (pose proof (parent_spec (2 * idx + 2)); lia).
  set (l := (2 * idx + 1)%nat) in *. set (r := (2 * idx + 2)%nat) in *.
  assert (Hc : forall c, (0 < c)%nat -> parent c = idx -> c = l \/ c = r).
  { intros c Hc Hp. pose proof (parent_spec c Hc). lia. }
  set (s := if (l <? length h)%nat && less_at cmp h l idx then l else idx).
  assert (Hs : exists y, h !! s = Some y /\ (rank y <= rank x)%Z /\ (s = idx \/ s = l) /\
                 forall z, h !! l = Some z -> (rank y <= rank z)%Z).
  { subst s. destruct (h !! l) as [z|] eqn:Hz.
    - pose proof (lookup_lt_Some _ _ _ Hz). destruct (Nat.ltb_spec l (length h)); [|lia].
      rewrite (less_at_rank h l idx z x) by done. cbn [andb]. destruct (Z.ltb_spec (rank z) (rank x)).
      + exists z. rewrite Hz. repeat split; [lia|auto|]. intros ? [= ->]. lia.
      + exists x. rewrite Hx. repeat split; [lia|auto|]. intros ? [= ->]. lia.
    - unfold less_at. rewrite Hz, andb_false_r. exists x. by repeat split; [|lia|auto|]. }
  clearbody s. destruct Hs as (y & Hy & Hyx & Hsl & Hyl).
  destruct (h !! r) as [z|] eqn:Hz.
  - pose proof (lookup_lt_Some _ _ _ Hz). destruct (Nat.ltb_spec r (length h)); [|lia].
    rewrite (less_at_rank h r s z y) by done. cbn [andb]. destruct (Z.ltb_spec (rank z) (rank y)).
    + exists z. repeat split; [done|lia|right; split; [lia|done]|].
      intros c u Hc0 Hp Hu. destruct (Hc c Hc0 Hp) as [->| ->]; [|simplify_eq; lia].
      specialize (Hyl u Hu). lia.
    + exists y. repeat split; [done|lia|destruct Hsl as [->| ->]; [by left|right; split; [lia|done]]|].
      intros c u Hc0 Hp Hu. destruct (Hc c Hc0 Hp) as [->| ->]; [auto|simplify_eq; lia].
  - unfold less_at. rewrite Hz, andb_false_r.
    exists y. repeat split; [done|lia|destruct Hsl as [->| ->]; [by left|right; split; [lia|done]]|].
    intros c u Hc0 Hp Hu. destruct (Hc c Hc0 Hp) as [->| ->]; [auto|congruence].
Qed.

Lemma siftDown_Permutation fuel idx h : siftDown cmp fuel idx h ≡ₚ h.
Proof.
  revert idx h. induction fuel as [|fuel IH]; intros idx h; [done|]. cbn [siftDown].
  case_match; [done|]. by rewrite IH, swap_Permutation.
Qed.

(** One turn of [siftDown] moves the hole in the order one level down. *)
Lemma heap_below_swap lo idx s h x y :
  h !! idx = Some x -> h !! s = Some y -> (rank y <= rank x)%Z ->
  (idx < s)%nat -> parent s = idx -> (lo <= idx)%nat ->
  (forall c z, (0 < c)%nat -> parent c = idx -> h !! c = Some z -> (rank y <= rank z)%Z) ->
  heap_below lo idx h -> heap_below lo s (swap idx s h).
Proof.
  intros Hx Hy Hyx Hs Hp Hlo Hmin [He Hg].
  assert (Hsw : forall k, swap idx s h !! k =
            if decide (k = s) then Some x else if decide (k = idx) then Some y else h !! k)
    by (intros k; apply swap_lookup; [done..|lia]).
  split; intros c u v Hc; rewrite !Hsw.
  - intros Hl Hps. pose proof (parent_lt c Hc).
    destruct (decide (parent c = s)); [done|].
    destruct (decide (parent c = idx)) as [Hpi|Hpi].
    + intros [= <-]. destruct (decide (c = s)); [by intros [= <-]|].
      destruct (decide (c = idx)); [lia|]. by apply Hmin.
    + destruct (decide (c = s)); [congruence|]. destruct (decide (c = idx)) as [->|].
      * intros Hu [= <-]. by apply (Hg s u y); [lia|lia|..].
      * by apply He.
  - intros _ Hps Hl. rewrite Hp. pose proof (parent_lt c Hc).
    destruct (decide (idx = s)); [lia|]. destruct (decide (idx = idx)); [|done].
    destruct (decide (c = s)); [lia|]. destruct (decide (c = idx)); [lia|].
    intros [= <-] Hv. apply (He c y v); [done|lia|lia|by rewrite Hps|done].
Qed.

Lemma siftDown_heap lo fuel idx h :
  Forall valid h -> (length h <= idx + fuel)%nat -> (lo <= idx)%nat ->
  heap_below lo idx h -> heap_from lo (siftDown cmp fuel idx h).
Proof.
  revert idx h. induction fuel as [|fuel IH]; intros idx h Hv Hf Hlo Hb.
  { intros c x y Hc Hl Hx. apply lookup_lt_Some in Hx as Hlt. apply (proj1 Hb c x y); [done|done| |done]. intros E. cbn in Hlt. lia. }
  cbn [siftDown]. destruct (h !! idx) as [x|] eqn:Hx.
  - destruct (smallest_spec h idx x Hv Hx) as (y & Hy & Hyx & Hs & Hmin).
    destruct (Nat.eqb_spec (smallest cmp h idx) idx) as [E|E].
    + intros c u v Hc Hl Hu Hc'. destruct (decide (parent c = idx)) as [Hp|Hp].
      * rewrite Hp, Hx in Hu. rewrite E, Hx in Hy. simplify_eq. by apply (Hmin c v).
      * by apply (proj1 Hb c u v).
    + destruct Hs as [Hs|[Hlt Hp]]; [done|]. apply IH.
      * by apply swap_valid.
      * rewrite swap_Permutation. lia.
      * lia.
      * by eapply heap_below_swap.
  - assert (Hn : smallest cmp h idx = idx).
    { apply lookup_ge_None in Hx. unfold smallest. cbv zeta.
      destruct (Nat.ltb_spec (2 * idx + 1) (length h)); [lia|].
      destruct (Nat.ltb_spec (2 * idx + 2) (length h)); [lia|]. done. }
    rewrite Hn, Nat.eqb_refl. intros c u v Hc Hl Hu. apply (proj1 Hb c u v); [done|done| |done]. congruence.
Qed.

Lemma heap_above_swap idx h x y :
  (0 < idx)%nat -> h !! idx = Some x -> h !! parent idx = Some y -> (rank x < rank y)%Z ->
  heap_above idx h -> heap_above (parent idx) (swap idx (parent idx) h).
Proof.
  intros Hi Hx Hy Hxy [He Hg]. pose proof (parent_lt idx Hi).
  assert (Hsw : forall k, swap idx (parent idx) h !! k =
            if decide (k = parent idx) then Some x else if decide (k = idx) then Some y else h !! k)
    by (intros k; apply swap_lookup; [done..|lia]).
  split; intros c u v Hc; rewrite !Hsw; pose proof (parent_lt c Hc).
  - intros Hcp. destruct (decide (c = parent idx)); [done|].
    destruct (decide (c = idx)) as [->|].
    + destruct (decide (parent idx = parent idx)); [|done]. intros [= <-] [= <-]. lia.
    + destruct (decide (parent c = parent idx)) as [Hp|].
      { intros [= <-] Hv. assert (rank y <= rank v)%Z; [|lia]. apply (He c); [done..| |done].
        by rewrite Hp. }
      destruct (decide (parent c = idx)) as [Hp|]; [|by apply He].
      intros [= <-]. by apply (Hg c y v).
  - intros Hp Hcp. pose proof (parent_lt (parent idx) Hp).
    destruct (decide (parent (parent idx) = parent idx)); [lia|].
    destruct (decide (parent (parent idx) = idx)); [lia|].
    destruct (decide (c = parent idx)); [lia|].
    intros Hu. assert (Huy : (rank u <= rank y)%Z) by (apply (He (parent idx)); [done|lia|done|done]).
    destruct (decide (c = idx)); [intros [= <-]; lia|].
    intros Hv. assert (rank y <= rank v)%Z; [|lia]. apply (He c); [done..| |done]. by rewrite Hcp.
Qed.

Lemma siftUp_Permutation fuel idx h : siftUp cmp fuel idx h ≡ₚ h.
Proof.
  revert idx h. induction fuel as [|fuel IH]; intros idx h; [done|]. cbn [siftUp].
  repeat case_match; [|done..]. by rewrite IH, swap_Permutation.
Qed.

Lemma siftUp_heap fuel idx h :
  Forall valid h -> (idx <= fuel)%nat -> (idx < length h)%nat -> heap_above idx h ->
  heap_from 0 (siftUp cmp fuel idx h).
Proof.
  revert idx h. induction fuel as [|fuel IH]; intros idx h Hv Hf Hlt Hab.
  { intros c x y Hc _. apply (proj1 Hab); lia. }
  cbn [siftUp]. destruct (Nat.ltb_spec 0 idx) as [Hi|Hi];
    [|intros c x y Hc _; apply (proj1 Hab); lia].
  pose proof (parent_lt idx Hi). cbv zeta.
  destruct (lookup_lt_is_Some_2 h idx Hlt) as [x Hx].
  destruct (lookup_lt_is_Some_2 h (parent idx)) as [y Hy]; [lia|].
  rewrite (less_at_rank h idx (parent idx) x y) by done.
  destruct (Z.ltb_spec (rank x) (rank y)).
  - apply IH; [by apply swap_valid|lia|rewrite swap_Permutation; lia|by eapply heap_above_swap].
  - intros c u v Hc _. destruct (decide (c = idx)) as [->|]; [|by apply (proj1 Hab)].
    rewrite Hx, Hy. intros [= <-] [= <-]. lia.
Qed.

Lemma push_Permutation e h : push cmp e h ≡ₚ e :: h.
Proof. unfold push. by rewrite siftUp_Permutation, Permutation_app_comm. Qed.

Lemma push_heap e h :
  valid e -> Forall valid h -> heap_from 0 h -> heap_from 0 (push cmp e h).
Proof.
  intros He Hv Hh. unfold push. rewrite length_app. cbn [length]. apply siftUp_heap.
  - by apply Forall_app_2; [|constructor].
  - lia.
  - rewrite length_app. cbn [length]. lia.
  - split; intros c x y Hc H.
    + intros Hx Hy. apply lookup_lt_Some in Hy as Hlt. rewrite length_app in Hlt. cbn [length] in Hlt.
      pose proof (parent_lt c Hc). rewrite lookup_app_l in Hx, Hy by lia. eapply (Hh c); eauto. lia.
    + intros Hp _ Hy. apply lookup_lt_Some in Hy. rewrite length_app in Hy. cbn [length] in Hy.
      pose proof (parent_lt c Hc). lia.
Qed.

Lemma build_from_Permutation i h : build_from cmp i h ≡ₚ h.
Proof.
  revert h. induction i as [|i IH]; intros h; [done|]. cbn [build_from].
  by rewrite IH, siftDown_Permutation.
Qed.

Lemma build_from_heap i h : Forall valid h -> heap_from i h -> heap_from 0 (build_from cmp i h).
Proof.
  revert h. induction i as [|i IH]; intros h Hv Hh; [done|]. cbn [build_from]. apply IH.
  - by rewrite siftDown_Permutation.
  - apply siftDown_heap; [done|lia|lia|]. split; intros c x y Hc.
    + intros Hl Hp. apply Hh; [done|lia].
    + intros Hi Hp Hl. pose proof (parent_lt i Hi). lia.
Qed.

Lemma buildHeap_Permutation h : buildHeap cmp h ≡ₚ h.
Proof. apply build_from_Permutation. Qed.
Lemma buildHeap_heap h : Forall valid h -> heap_from 0 (buildHeap cmp h).
Proof.
  intros Hv. apply build_from_heap; [done|]. intros c x y Hc Hl _ Hy.
  apply lookup_lt_Some in Hy. pose proof (parent_spec c Hc).
  pose proof (Nat.div2_odd (length h)). destruct (Nat.odd (length h)); simpl in *; lia.
Qed.

(** The root is a least entry. *)
Lemma root_least h m i x :
  heap_from 0 h -> h !! 0%nat = Some m -> h !! i = Some x -> (rank m <= rank x)%Z.
Proof.
  intros Hh Hm. revert x. induction (lt_wf i) as [i _ IH]. intros x Hx.
  destruct (decide (i = 0%nat)) as [->|Hi]; [simplify_eq; lia|].
  pose proof (parent_lt i ltac:(lia)). apply lookup_lt_Some in Hx as Hlt.
  destruct (lookup_lt_is_Some_2 h (parent i)) as [y Hy]; [lia|].
  specialize (IH (parent i) ltac:(lia) y Hy). assert (rank y <= rank x)%Z; [|lia].
  apply (Hh i); [lia|lia|done|done].
Qed.

(** [_findMaxIndex] looks at the leaves only: the greatest entry is one of them. *)
Lemma leaf_above h i x :
  heap_from 0 h -> h !! i = Some x ->
  exists j y, (Nat.div2 (length h) <= j)%nat /\ h !! j = Some y /\ (rank x <= rank y)%Z.
Proof.
  intros Hh. remember (length h - i)%nat as d eqn:Hd. revert i x Hd.
  induction (lt_wf d) as [d _ IH]. intros i x -> Hx.
  destruct (decide (Nat.div2 (length h) <= i)%nat) as [Hle|Hnle]; [by exists i, x|].
  pose proof (Nat.div2_odd (length h)) as Ho. destruct (Nat.odd (length h)); cbn [Nat.b2n] in Ho.
  all: destruct (lookup_lt_is_Some_2 h (2 * i + 1)) as [y Hy]; [lia|].
  all: assert (Hp : parent (2 * i + 1) = i) by (pose proof (parent_spec (2 * i + 1)); lia).
  all: destruct (IH (length h - (2 * i + 1))%nat ltac:(lia) (2 * i + 1)%nat y eq_refl Hy)
    as (j & z & Hj & Hz & Hyz); exists j, z; repeat split; [done..|].
  all: assert (rank x <= rank y)%Z; [|lia]; apply (Hh (2 * i + 1)%nat); [lia|lia|by rewrite Hp|done].
Qed.

Lemma max_fold h k idxs m x :
  Forall valid h -> h !! m = Some x -> (forall i, i ∈ idxs -> (i < length h)%nat) ->
  k = foldl (fun maxIdx i => if greater_at cmp h i maxIdx then i else maxIdx) m idxs ->
  exists y, h !! k = Some y /\ (rank x <= rank y)%Z /\
    forall i z, i ∈ idxs -> h !! i = Some z -> (rank z <= rank y)%Z.
Proof.
  intros Hv. revert m x. induction idxs as [|j idxs IH]; intros m x Hm Hr Hk.
  { cbn in Hk. subst. exists x. repeat split; [done|lia|]. intros i z Hi. by apply elem_of_nil in Hi. }
  cbn [foldl] in Hk. destruct (lookup_lt_is_Some_2 h j) as [u Hu]; [apply Hr; left|].
  assert (Hg : greater_at cmp h j m = (rank x <? rank u)%Z).
  { unfold greater_at. rewrite Hu, Hm. apply greater_rank; eapply Forall_lookup_1; eauto. }
  rewrite Hg in Hk. assert (Hr' : forall i, i ∈ idxs -> (i < length h)%nat) by (intros i Hi; apply Hr; by right).
  destruct (Z.ltb_spec (rank x) (rank u)).
  - destruct (IH j u Hu Hr' Hk) as (y & Hy & Huy & Hall). exists y. repeat split; [done|lia|].
    intros i z [->|Hi]%elem_of_cons Hz; [simplify_eq; lia|eauto].
  - destruct (IH m x Hm Hr' Hk) as (y & Hy & Huy & Hall). exists y. repeat split; [done|lia|].
    intros i z [->|Hi]%elem_of_cons Hz; [simplify_eq; lia|eauto].
Qed.

Lemma findMaxIndex_greatest h :
  Forall valid h -> heap_from 0 h -> h <> [] ->
  exists y, h !! findMaxIndex cmp h = Some y /\ Forall (fun x => (rank x <= rank y)%Z) h.
Proof.
  intros Hv Hh Hne. assert (Hl : (0 < length h)%nat) by (destruct h; [done|cbn; lia]).
  assert (Hd : (Nat.div2 (length h) < length h)%nat) by (by apply Nat.lt_div2).
  destruct (lookup_lt_is_Some_2 h (Nat.div2 (length h))) as [x Hx]; [done|].
  destruct (max_fold h (findMaxIndex cmp h) (seq (S (Nat.div2 (length h))) (length h - S (Nat.div2 (length h))))
              (Nat.div2 (length h)) x Hv Hx) as (y & Hy & Hxy & Hall);
    [intros i Hi; apply elem_of_seq in Hi; lia|done|].
  exists y. split; [done|]. apply Forall_lookup_2. intros i z Hz.
  destruct (leaf_above h i z Hh Hz) as (j & u & Hj & Hu & Hzu).
  destruct (decide (j = Nat.div2 (length h))) as [->|]; [simplify_eq; lia|].
  assert (rank u <= rank y)%Z; [|lia]. apply (Hall j); [|done].
  apply lookup_lt_Some in Hu. apply elem_of_seq. lia.
Qed.
End heap.
