(* ===== verification/QueueSpec.v ===== *)
(** * QueueSpec: the priority queue against its specification

    The specification is a list of values with integer priorities, most urgent
    first.  A new value goes behind those of the same priority; at capacity a
    value no more urgent than the last is dropped, and otherwise the last gives
    way.  Every operation of [PriorityQueue] with its default comparator
    simulates it. *)

From S2P Require Import Prelude Num Domain PriorityQueue.

Local Open Scope Z_scope.

Section spec.
Context {V : Type}.
Implicit Types (l : list (Z * V)).

Fixpoint insert_by (p : Z) (v : V) l : list (Z * V) :=
  match l with
  | [] => [(p, v)]
  | x :: l' => if p <? x.1 then (p, v) :: l else x :: insert_by p v l'
  end.

(** [cap] is [None] without a [maxSize]. *)
Definition full (cap : option Z) l : bool :=
  match cap with Some m => m <=? Z.of_nat (length l) | None => false end.

Inductive queue_op :=
  | Enqueue (v : V) (p : Z)
  | Dequeue
  | RemoveWhere (predicate : V -> bool)
  | Drain
  | Peek.

Inductive answer :=
  | Evicted (e : option (Z * V))
  | Value (v : option V)
  | Removed (n : nat)
  | Values (vs : list V)
  | Threw (e : exn).

Definition spec_step (cap : option Z) (op : queue_op) l : list (Z * V) * answer :=
  match op with
  | Enqueue v p =>
      if full cap l then
        match last l with
        | Some worst =>
            if worst.1 <=? p then (l, Evicted None)
            else (insert_by p v (removelast l), Evicted (Some worst))
        | None => (l, Evicted None)
        end
      else (insert_by p v l, Evicted None)
  | Dequeue => (tail l, Value (snd <$> head l))
  | RemoveWhere predicate =>
      let l' := filter (fun x => predicate x.2 = false) l in
      (l', Removed (length l - length l'))
  | Drain => ([], Values (snd <$> l))
  | Peek => (l, Value (snd <$> head l))
  end.

(** The class on the same operations. *)
Definition view (e : entry V) : Z * V := (ticks 0 (priority e), value e).
Definition queue_step (op : queue_op) (q : PriorityQueue V) : PriorityQueue V * answer :=
  match op with
  | Enqueue v p =>
      match enqueue v (of_Z p) q with
      | (q', inr e) => (q', Evicted (view <$> e))
      | (q', inl e) => (q', Threw e)
      end
  | Dequeue => let '(q', v) := dequeue q in (q', Value v)
  | RemoveWhere predicate => let '(q', n) := removeWhere predicate q in (q', Removed n)
  | Drain => let '(q', vs) := drain q in (q', Values vs)
  | Peek => (q, Value (peek q))
  end.

(** ** The default comparator *)
Definition bound : Z := 2 ^ 51.
Definition numbered (e : entry V) : Prop :=
  0 <= insertSeq e < bound /\ exists n, Z.abs n < bound /\ priority e = units 0 n.
Definition rank (e : entry V) : Z := ticks 0 (priority e) * bound + insertSeq e.

Lemma units_of_Z n : of_Z n = units 0 n.
Proof. reflexivity. Qed.

Lemma small_bound n : Z.abs n <= 2 * bound -> small n.
Proof. unfold small, bound. lia. Qed.

Ltac small_by := first [done | lia | apply small_bound; lia].

(** The difference [by_priority] computes, as an integer. *)
Lemma by_priority_units a b n m :
  numbered a -> numbered b -> Z.abs n < bound -> Z.abs m < bound ->
  priority a = units 0 n -> priority b = units 0 m ->
  by_priority a b = units 0 (if n =? m then insertSeq a - insertSeq b else n - m).
Proof.
  intros [Ha _] [Hb _] Hn Hm Ea Eb. unfold by_priority. rewrite Ea, Eb, (units_of_Z (insertSeq a)), (units_of_Z (insertSeq b)).
  rewrite !units_sub by small_by.
  cbv zeta. rewrite units_truthy by small_by.
  destruct (Z.eqb_spec n m) as [->|]; [by rewrite Z.sub_diag|].
  destruct (Z.eqb_spec (n - m) 0); [lia|done].
Qed.

Lemma by_priority_sign a b :
  numbered a -> numbered b ->
  exists d, Z.abs d <= 2 * bound /\ by_priority a b = units 0 d /\
    (d < 0 <-> rank a < rank b) /\ (0 < d <-> rank b < rank a).
Proof.
  intros Ha Hb. destruct (proj2 Ha) as (n & Hn & En). destruct (proj2 Hb) as (m & Hm & Em).
  eexists. split; [|split; [by apply (by_priority_units a b n m)|]].
  - destruct Ha as [? _], Hb as [? _]. destruct (Z.eqb_spec n m); lia.
  - destruct Ha as [Ha _], Hb as [Hb _]. unfold rank. rewrite En, Em.
    rewrite !ticks_units by small_by.
    destruct (Z.eqb_spec n m) as [->|]; [lia|]. unfold bound in *. nia.
Qed.

Lemma by_priority_less a b :
  numbered a -> numbered b -> (by_priority a b <. of_Z 0)%num = (rank a <? rank b).
Proof.
  intros Ha Hb. destruct (by_priority_sign a b Ha Hb) as (d & Hd & -> & Hl & _).
  rewrite (units_of_Z 0), units_ltb by small_by.
  destruct (Z.ltb_spec d 0), (Z.ltb_spec (rank a) (rank b)); lia.
Qed.
Lemma by_priority_greater a b :
  numbered a -> numbered b -> (of_Z 0 <. by_priority a b)%num = (rank b <? rank a).
Proof.
  intros Ha Hb. destruct (by_priority_sign a b Ha Hb) as (d & Hd & -> & _ & Hg).
  rewrite (units_of_Z 0), units_ltb by small_by.
  destruct (Z.ltb_spec 0 d), (Z.ltb_spec (rank b) (rank a)); lia.
Qed.
Lemma by_priority_at_least a b :
  numbered a -> numbered b -> (of_Z 0 <=. by_priority a b)%num = (rank b <=? rank a).
Proof.
  intros Ha Hb. destruct (by_priority_sign a b Ha Hb) as (d & Hd & -> & Hl & _).
  rewrite (units_of_Z 0), units_leb by small_by.
  destruct (Z.leb_spec 0 d), (Z.leb_spec (rank b) (rank a)); lia.
Qed.

(** ** The abstraction *)

(** The entries of the heap in order. *)
Definition before (a b : entry V) : Prop := rank a < rank b.
Definition in_order (h es : list (entry V)) : Prop := es ≡ₚ h /\ StronglySorted before es.

Definition max_size (cap : option Z) : num :=
  match cap with Some m => of_Z m | None => Infinity end.

(** [represents cap q l]: the queue is well formed and holds [l]. *)
Record represents (cap : option Z) (q : PriorityQueue V) (l : list (Z * V)) : Prop := {
  rep_comparator : pq_comparator q = None;
  rep_maxSize : pq_maxSize q = max_size cap;
  rep_cap : forall m, cap = Some m -> 1 <= m < bound;
  rep_seq : Z.of_nat (length (pq_heap q)) <= pq_seq q < bound;
  rep_entries : Forall (fun e => numbered e /\ insertSeq e < pq_seq q) (pq_heap q);
  rep_heap : heap_from rank 0 (pq_heap q);
  rep_order : exists es, in_order (pq_heap q) es /\ view <$> es = l;
}.

Lemma rep_numbered cap q l : represents cap q l -> Forall numbered (pq_heap q).
Proof. intros Hr. eapply Forall_impl; [apply (rep_entries _ _ _ Hr)|]. by intros e []. Qed.

Lemma in_order_unique h es e e' :
  in_order h es -> e ∈ h -> e' ∈ h -> rank e = rank e' -> e = e'.
Proof.
  intros [Hp Hs] He He'. rewrite <- Hp in He, He'. clear Hp.
  induction Hs as [|x es Hs IH Hx]; [by apply elem_of_nil in He|]. rewrite Forall_forall in Hx.
  apply elem_of_cons in He as [->|He], He' as [->|He']; [done|..].
  - specialize (Hx _ He'). unfold before in Hx. lia.
  - specialize (Hx _ He). unfold before in Hx. lia.
  - auto.
Qed.

(** The position of a new entry. *)
Fixpoint insert_entry (e : entry V) (es : list (entry V)) : list (entry V) :=
  match es with
  | [] => [e]
  | x :: es' => if rank e <? rank x then e :: es else x :: insert_entry e es'
  end.

Lemma insert_entry_Permutation e es : insert_entry e es ≡ₚ e :: es.
Proof.
  induction es as [|x es IH]; [done|]. cbn [insert_entry]. case_match; [done|].
  rewrite IH. apply Permutation_swap.
Qed.

Lemma insert_entry_sorted e es :
  StronglySorted before es -> (forall x, x ∈ es -> rank x <> rank e) ->
  StronglySorted before (insert_entry e es).
Proof.
  intros Hs. induction Hs as [|x es Hs IH Hx]; intros Hne; [by repeat constructor|].
  cbn [insert_entry]. destruct (Z.ltb_spec (rank e) (rank x)).
  - constructor; [by constructor|]. constructor; [done|].
    eapply Forall_impl; [exact Hx|]. unfold before. intros y; cbn. lia.
  - constructor; [apply IH; intros y Hy; apply Hne; by right|].
    rewrite insert_entry_Permutation. constructor; [|done].
    specialize (Hne x ltac:(left)). unfold before. lia.
Qed.

Definition new_entry (v : V) (p seq : Z) : entry V :=
  {| priority := of_Z p; value := v; insertSeq := seq |}.

Lemma new_entry_numbered v p s : Z.abs p < bound -> 0 <= s < bound -> numbered (new_entry v p s).
Proof. intros Hp Hs. split; [done|]. by exists p. Qed.

Lemma numbered_view e n : numbered e -> view e = (n, value e) -> Z.abs n < bound.
Proof.
  intros [_ (m & Hm & Em)]. unfold view. rewrite Em, ticks_units by small_by. by intros [= <-].
Qed.

(** A new entry comes after those of its priority, being the youngest. *)
Lemma new_entry_before v p s e :
  Z.abs p < bound -> 0 <= s < bound -> numbered e -> insertSeq e < s ->
  (rank (new_entry v p s) <? rank e) = (p <? (view e).1) /\
  (rank e <=? rank (new_entry v p s)) = ((view e).1 <=? p) /\ rank e <> rank (new_entry v p s).
Proof.
  intros Hp Hs [He (m & Hm & Em)] Hlt. unfold rank, view. cbn [priority insertSeq new_entry fst].
  rewrite Em, (units_of_Z p), !ticks_units by small_by. unfold bound in *.
  destruct (Z.ltb_spec p m), (Z.leb_spec m p); lia.
Qed.

Lemma insert_entry_view v p s es :
  Z.abs p < bound -> 0 <= s < bound -> Forall (fun e => numbered e /\ insertSeq e < s) es ->
  view <$> insert_entry (new_entry v p s) es = insert_by p v (view <$> es).
Proof.
  intros Hp Hs Hes. assert (Hv : view (new_entry v p s) = (p, v)).
  { unfold view. cbn [priority value new_entry]. by rewrite (units_of_Z p), ticks_units by small_by. }
  induction Hes as [|x es [Hn Hx] Hes IH].
  { cbn [insert_entry fmap list_fmap insert_by]. by rewrite Hv. }
  cbn [insert_entry]. destruct (new_entry_before v p s x Hp Hs Hn Hx) as (Hb & _).
  rewrite Hb. cbn [fmap list_fmap insert_by]. destruct (p <? (view x).1).
  - cbn [fmap list_fmap]. by rewrite Hv.
  - cbn [fmap list_fmap]. f_equal. exact IH.
Qed.

(** Whether the queue is at capacity. *)
Lemma full_spec cap q l :
  represents cap q l ->
  (pq_maxSize q <=. of_Z (Z.of_nat (length (pq_heap q))))%num = full cap l.
Proof.
  intros Hr. destruct (rep_order _ _ _ Hr) as (es & [Hp _] & <-).
  rewrite (rep_maxSize _ _ _ Hr). pose proof (rep_seq _ _ _ Hr).
  unfold full, max_size. destruct cap as [m|].
  - pose proof (rep_cap _ _ _ Hr m eq_refl). rewrite length_fmap, Hp.
    rewrite (units_of_Z m), (units_of_Z (Z.of_nat _)). by rewrite units_leb by small_by.
  - rewrite (units_of_Z (Z.of_nat _)). destruct (decide (Z.of_nat (length (pq_heap q)) = 0)) as [E|E].
    + by rewrite E.
    + rewrite units_finite by small_by. done.
Qed.

(** The invariant of a changed heap, from its entries in order. *)
Lemma represents_heap cap q l h es seq :
  represents cap q l -> heap_from rank 0 h -> in_order h es ->
  Forall (fun e => numbered e /\ insertSeq e < seq) h -> Z.of_nat (length h) <= seq < bound ->
  represents cap
    {| pq_heap := h; pq_maxSize := pq_maxSize q; pq_seq := seq; pq_comparator := pq_comparator q |}
    (view <$> es).
Proof. intros Hr Hh Ho Hf Hs. destruct Hr. by split; [..|exists es]. Qed.

Lemma heap_bound h s s' :
  s <= s' -> Forall (fun e : entry V => numbered e /\ insertSeq e < s) h ->
  Forall (fun e => numbered e /\ insertSeq e < s') h.
Proof. intros Hs Hf. eapply Forall_impl; [exact Hf|]. intros e []. split; [done|lia]. Qed.

(** ** The operations *)

Definition admissible (op : queue_op) (q : PriorityQueue V) : Prop :=
  match op with Enqueue _ p => Z.abs p < bound /\ pq_seq q + 1 < bound | _ => True end.

Lemma push_represents cap q l v p h es :
  represents cap q l -> admissible (Enqueue v p) q ->
  Forall (fun e => numbered e /\ insertSeq e < pq_seq q) h ->
  heap_from rank 0 h -> in_order h es -> Z.of_nat (length h) <= pq_seq q ->
  represents cap (set_heap (push by_priority (new_entry v p (pq_seq q)) h) (next_seq q))
    (insert_by p v (view <$> es)).
Proof.
  intros Hr [Hp Hs] Hf Hh [Hes Hst] Hl. pose proof (rep_seq _ _ _ Hr) as Hseq.
  rewrite <- (insert_entry_view v p (pq_seq q)); [|lia|lia|by rewrite Hes].
  set (e := new_entry v p (pq_seq q)). assert (He : numbered e) by (apply new_entry_numbered; lia).
  assert (Hpp : push by_priority e h ≡ₚ e :: h) by apply push_Permutation.
  unfold set_heap, next_seq. cbn [pq_maxSize pq_seq pq_comparator].
  eapply represents_heap; [done|..|rewrite Hpp; cbn [length]; lia].
  - apply (push_heap by_priority numbered rank by_priority_less); [done| |done].
    eapply Forall_impl; [exact Hf|]. by intros x [].
  - split; [by rewrite insert_entry_Permutation, Hpp, Hes|].
    apply insert_entry_sorted; [done|]. intros x Hx. rewrite Hes in Hx.
    rewrite Forall_forall in Hf. destruct (Hf x Hx) as [Hn Hlt].
    apply (new_entry_before v p (pq_seq q) x); [lia..|done|done].
  - rewrite Hpp. constructor; [split; [done|cbn; lia]|]. by eapply heap_bound; [|done]; lia.
Qed.

(** The greatest entry, as [_findMaxIndex] finds it, is the last in order. *)
Lemma in_order_last h es e :
  in_order h es -> e ∈ h -> Forall (fun x => rank x <= rank e) h ->
  exists es', es = es' ++ [e].
Proof.
  intros Ho He Hmax. destruct Ho as [Hp Hs]. destruct es as [|w es' _] using rev_ind.
  { rewrite <- Hp in He. by apply elem_of_nil in He. }
  exists es'. f_equal. f_equal. assert (Hw : w ∈ h) by (rewrite <- Hp; set_solver).
  apply (in_order_unique h (es' ++ [w])); [done..|].
  rewrite Forall_forall in Hmax. specialize (Hmax w Hw).
  rewrite <- Hp in He. apply elem_of_app in He as [He|He%list_elem_of_singleton]; [|by subst].
  assert (before e w); [|unfold before in *; lia].
  eapply StronglySorted_app_1_elem_of; [exact Hs|done|by apply list_elem_of_singleton].
Qed.

Lemma filter_sorted (P : entry V -> Prop) `{forall x, Decision (P x)} es :
  StronglySorted before es -> StronglySorted before (filter P es).
Proof.
  induction 1 as [|x es Hs IH Hx]; [constructor|]. rewrite filter_cons. case_decide; [|done].
  constructor; [done|]. rewrite Forall_forall in *. intros y [_ Hy]%list_elem_of_filter. auto.
Qed.

Lemma filter_view (predicate : V -> bool) (es : list (entry V)) :
  filter (fun x => predicate x.2 = false) (view <$> es)
  = view <$> filter (fun e => predicate (value e) = false) es.
Proof.
  induction es as [|x es IH]; [done|]. cbn [fmap list_fmap]. rewrite !filter_cons. cbn [view snd].
  case_decide; cbn [fmap list_fmap]; by rewrite <- IH.
Qed.

Definition simulates (cap : option Z) (op : queue_op) (q : PriorityQueue V) (l : list (Z * V)) : Prop :=
  represents cap (fst (queue_step op q)) (fst (spec_step cap op l)) /\
  snd (queue_step op q) = snd (spec_step cap op l).

(** The entries of a full queue, the last of which [findMaxIndex] finds. *)
Lemma full_worst cap q l :
  represents cap q l -> full cap l = true ->
  exists es w, in_order (pq_heap q) (es ++ [w]) /\ l = (view <$> es) ++ [view w] /\
    pq_heap q !! findMaxIndex by_priority (pq_heap q) = Some w /\
    numbered w /\ insertSeq w < pq_seq q.
Proof.
  intros Hr Hc. destruct (rep_order _ _ _ Hr) as (es & Ho & El).
  destruct (findMaxIndex_greatest by_priority numbered rank by_priority_greater (pq_heap q)) as (w & Hw & Hmax);
    [by eapply rep_numbered|by apply (rep_heap _ _ _ Hr)| |].
  { intros E. unfold full in Hc. destruct cap as [m|]; [|done].
    pose proof (rep_cap _ _ _ Hr m eq_refl). destruct Ho as [Hper _]. rewrite E in Hper.
    apply Permutation_nil_r in Hper. subst. apply Z.leb_le in Hc. cbn in Hc. lia. }
  assert (Hin : w ∈ pq_heap q) by by eapply list_elem_of_lookup_2.
  destruct (in_order_last _ _ _ Ho Hin Hmax) as [es' ->].
  exists es', w. split; [done|]. split; [by rewrite <- El, fmap_app|]. split; [done|].
  exact (Forall_lookup_1 _ _ _ _ (rep_entries _ _ _ Hr) Hw).
Qed.

Lemma enqueue_full cap q l v p :
  represents cap q l -> admissible (Enqueue v p) q -> full cap l = true ->
  simulates cap (Enqueue v p) q l.
Proof.
  intros Hr Ha Hc. pose proof Ha as [Hp Hs].
  pose proof (rep_seq _ _ _ Hr) as Hseq. pose proof (rep_entries _ _ _ Hr) as Hf.
  destruct (full_worst _ _ _ Hr Hc) as (es & w & Ho & -> & Hw & Hnw & Hws).
  destruct (new_entry_before v p (pq_seq q) w) as (_ & Hle & _); [lia..|done|done|].
  unfold simulates, queue_step, enqueue, spec_step. cbv zeta. cbn [pq_heap pq_maxSize next_seq pq_comparator].
  rewrite (rep_comparator _ _ _ Hr), (full_spec _ _ _ Hr), Hc. change (comparator None) with (@by_priority V).
  fold (new_entry v p (pq_seq q)). rewrite Hw, last_snoc, removelast_last.
  rewrite by_priority_at_least, Hle by (done || apply new_entry_numbered; lia).
  destruct ((view w).1 <=? p).
  { split; [|done]. replace ((view <$> es) ++ [view w]) with (view <$> (es ++ [w])) by by rewrite fmap_app.
    eapply represents_heap; [done|by apply (rep_heap _ _ _ Hr)|done|by eapply heap_bound; [|done]; lia|lia]. }
  split; [|done]. cbn [fst]. pose proof (delete_Permutation _ _ _ Hw) as Hd.
  pose proof (buildHeap_Permutation by_priority (delete (findMaxIndex by_priority (pq_heap q)) (pq_heap q))) as Hh.
  apply Permutation_length in Hd as Hlen. cbn [length] in Hlen.
  destruct Ho as [Hper Hst]. rewrite Hd in Hper, Hf. rewrite Permutation_app_comm in Hper.
  apply Permutation_cons_inv in Hper. apply Forall_cons in Hf as [_ Hf].
  eapply push_represents; [done|done|by rewrite Hh| | |rewrite Hh; lia].
  - apply (buildHeap_heap by_priority numbered rank by_priority_less).
    eapply Forall_impl; [exact Hf|]. by intros x [].
  - split; [by rewrite Hh|by apply StronglySorted_app_1_l in Hst].
Qed.

Lemma enqueue_simulates cap q l v p :
  represents cap q l -> admissible (Enqueue v p) q -> simulates cap (Enqueue v p) q l.
Proof.
  intros Hr Ha. destruct (full cap l) eqn:Hc; [by apply enqueue_full|].
  destruct (rep_order _ _ _ Hr) as (es & Ho & <-).
  unfold simulates, queue_step, enqueue, spec_step. cbv zeta. cbn [pq_heap pq_maxSize next_seq pq_comparator].
  rewrite (rep_comparator _ _ _ Hr), (full_spec _ _ _ Hr), Hc. split; [|done]. change (comparator None) with (@by_priority V). cbn [fst].
  pose proof (rep_seq _ _ _ Hr). eapply push_represents; [done|done| | |done|lia].
  - apply (rep_entries _ _ _ Hr).
  - apply (rep_heap _ _ _ Hr).
Qed.

(** The root, being least, is the first in order. *)
Lemma in_order_head h es e :
  in_order h es -> e ∈ h -> Forall (fun x => rank e <= rank x) h -> exists es', es = e :: es'.
Proof.
  intros [Hp Hs] He Hmin. destruct Hs as [|x es Hs Hx].
  { rewrite <- Hp in He. by apply elem_of_nil in He. }
  exists es. f_equal. rewrite <- Hp in He. apply elem_of_cons in He as [->|He]; [done|].
  rewrite Forall_forall in Hx, Hmin. specialize (Hx e He). unfold before in Hx.
  specialize (Hmin x). rewrite <- Hp in Hmin. specialize (Hmin ltac:(left)). lia.
Qed.

Lemma root_first cap q l m rest :
  represents cap q l -> pq_heap q = m :: rest ->
  exists es, l = view m :: (view <$> es) /\ in_order rest es.
Proof.
  intros Hr E. destruct (rep_order _ _ _ Hr) as (es & Ho & <-). pose proof (rep_heap _ _ _ Hr) as Hh.
  rewrite E in Ho, Hh. destruct (in_order_head _ _ m Ho) as [es' ->]; [left| |].
  - apply Forall_lookup_2. intros i x Hx. by eapply root_least.
  - exists es'. split; [done|]. destruct Ho as [Hp Hs].
    split; [by apply Permutation_cons_inv in Hp|by inversion Hs].
Qed.

(** [dequeue] moves the last entry to the root and lets it sink. *)
Lemma sift_last_heap m r z :
  Forall numbered (m :: r ++ [z]) -> heap_from rank 0 (m :: r ++ [z]) ->
  heap_from rank 0 (siftDown by_priority (length (z :: r)) 0 (z :: r)).
Proof.
  intros Hn Hh. apply (siftDown_heap by_priority numbered rank by_priority_less); [|lia|lia|].
  - apply Forall_cons in Hn as [_ Hn]. by rewrite Permutation_app_comm in Hn.
  - split; [|lia]. intros c x y Hc _ Hp. destruct c as [|c]; [lia|].
    destruct (parent (S c)) as [|k] eqn:Ek; [done|]. cbn [lookup list_lookup].
    intros Hx Hy. apply (Hh (S c)); [lia|lia| |]; [rewrite Ek|]; by apply lookup_app_l_Some.
Qed.

Lemma dequeue_simulates cap q l : represents cap q l -> simulates cap Dequeue q l.
Proof.
  intros Hr. pose proof (rep_numbered _ _ _ Hr) as Hn. pose proof (rep_heap _ _ _ Hr) as Hh.
  pose proof (rep_seq _ _ _ Hr) as Hs. pose proof (rep_entries _ _ _ Hr) as Hf.
  unfold simulates, queue_step, dequeue, spec_step. rewrite (rep_comparator _ _ _ Hr). change (comparator None) with (@by_priority V).
  destruct (pq_heap q) as [|m rest] eqn:Eh.
  { destruct (rep_order _ _ _ Hr) as (es & [Hp _] & <-). rewrite Eh in Hp.
    apply Permutation_nil_r in Hp. by subst. }
  destruct (root_first _ _ _ _ _ Hr Eh) as (es & -> & Ho). cbn [tail head fmap option_fmap option_map].
  apply Forall_cons in Hf as [_ Hf]. cbn [length] in Hs.
  destruct rest as [|y rest'] eqn:Er; [|rewrite <- Er in *].
  - split; [|done]. cbn [fst]. eapply represents_heap; [done| |done|done|cbn; lia].
    intros c x y _ _ Hx. done.
  - destruct rest as [|z r _] using rev_ind; [done|]. clear y rest' Er. rewrite last_snoc, removelast_last.
    split; [|done]. cbn [fst default from_option].
    assert (Hp : siftDown by_priority (length (z :: r)) 0 (z :: r) ≡ₚ r ++ [z])
      by (rewrite siftDown_Permutation; apply Permutation_cons_append).
    eapply represents_heap; [done|by eapply sift_last_heap| |by rewrite Hp|rewrite Hp; lia].
    destruct Ho as [Ho Hst]. split; [by rewrite Hp|done].
Qed.

Lemma removeWhere_simulates cap q l predicate :
  represents cap q l -> simulates cap (RemoveWhere predicate) q l.
Proof.
  intros Hr. pose proof (rep_numbered _ _ _ Hr) as Hn. pose proof (rep_seq _ _ _ Hr) as Hs.
  pose proof (rep_entries _ _ _ Hr) as Hf. destruct (rep_order _ _ _ Hr) as (es & [Hp Hst] & <-).
  unfold simulates, queue_step, removeWhere, spec_step. rewrite (rep_comparator _ _ _ Hr).
  change (comparator None) with (@by_priority V). cbv zeta. rewrite filter_view.
  set (h := filter (fun e => predicate (value e) = false) (pq_heap q)).
  pose proof (buildHeap_Permutation by_priority h) as Hh.
  assert (Hfp : filter (fun e => predicate (value e) = false) es ≡ₚ h) by (unfold h; by rewrite Hp).
  assert (Hsub : h ⊆ pq_heap q) by (intros x Hx; by apply list_elem_of_filter in Hx as [_ Hx]).
  pose proof (length_filter (fun e => predicate (value e) = false) (pq_heap q)) as Hl. fold h in Hl.
  split; cbn [fst snd].
  - eapply represents_heap; [done| | | |rewrite Hh; lia].
    + apply (buildHeap_heap by_priority numbered rank by_priority_less).
      rewrite Forall_forall in *. auto.
    + split; [by rewrite Hh|by apply filter_sorted].
    + rewrite Hh. rewrite Forall_forall in *. auto.
  - f_equal. rewrite !length_fmap, Hfp, Hh, Hp. done.
Qed.

Lemma drain_simulates cap q l : represents cap q l -> simulates cap Drain q l.
Proof.
  intros Hr. assert (Hd : forall q acc l, represents cap q l ->
    represents cap (fst (drain_loop (length (pq_heap q)) q acc)) [] /\
    snd (drain_loop (length (pq_heap q)) q acc) = acc ++ (snd <$> l)).
  { clear q l Hr. intros q acc l Hr. remember (length (pq_heap q)) as n eqn:En. revert q acc l Hr En.
    induction n as [|n IH]; intros q acc l Hr En.
    - destruct (rep_order _ _ _ Hr) as (es & [Hp _] & <-). apply Permutation_length in Hp.
      rewrite <- En in Hp. destruct es; [|done]. split; [exact Hr|]. cbn. by rewrite app_nil_r.
    - destruct (pq_heap q) as [|m rest] eqn:Eh; [done|].
      destruct (root_first _ _ _ _ _ Hr Eh) as (es & -> & [Hp _]).
      destruct (dequeue_simulates _ _ _ Hr) as [Hr' Ha]. cbn [drain_loop].
      unfold queue_step in Hr', Ha. destruct (dequeue q) as [q' v]. cbn in Hr', Ha. simplify_eq.
      destruct (IH q' (acc ++ [value m]) _ Hr') as [H1 H2].
      { destruct (rep_order _ _ _ Hr') as (es' & [Hp' _] & E). apply (f_equal length) in E.
        rewrite !length_fmap, Hp', Hp in E. cbn in En. lia. }
      split; [done|]. rewrite H2. by rewrite <- app_assoc. }
  unfold simulates, queue_step, drain, spec_step.
  specialize (Hd q [] l Hr) as [H1 H2]. destruct (drain_loop (length (pq_heap q)) q []) as [q' vs].
  cbn in *. by subst.
Qed.

(** C22. Every operation of a priority queue simulates the specification: a queue
    that holds a list answers as the list does and then holds what the list
    becomes.  Values leave in order of priority and, among equal priorities, in
    the order they came in; a full queue keeps its most urgent values. *)
Theorem queue_refines cap q l op :
  represents cap q l -> admissible op q ->
  represents cap (fst (queue_step op q)) (fst (spec_step cap op l)) /\
  snd (queue_step op q) = snd (spec_step cap op l).
Proof.
  destruct op as [v p| |predicate| |]; intros Hr Ha.
  - by apply enqueue_simulates.
  - by apply dequeue_simulates.
  - by apply removeWhere_simulates.
  - by apply drain_simulates.
  - split; [done|]. cbn. f_equal. unfold peek. destruct (pq_heap q) as [|m rest] eqn:Eh.
    + destruct (rep_order _ _ _ Hr) as (es & [Hp _] & <-). rewrite Eh in Hp.
      apply Permutation_nil_r in Hp. by subst.
    + by destruct (root_first _ _ _ _ _ Hr Eh) as (es & -> & _).
Qed.

Lemma new_queue_represents cap :
  (forall m, cap = Some m -> 1 <= m < bound) ->
  represents cap (new_PriorityQueue (of_Z <$> cap) None) [].
Proof.
  intros Hc. split; cbn; [done|by destruct cap|done|by vm_compute|constructor|done|].
  exists []. split; [split; [done|constructor]|done].
Qed.
End spec.

(** A queue of capacity two that holds [b] (priority 3) and [a] (priority 5). *)
Definition two : PriorityQueue string :=
  fst (queue_step (Enqueue "b" 3) (fst (queue_step (Enqueue "a" 5)
    (new_PriorityQueue (of_Z <$> Some 2) None)))).

Lemma queue_refines_witness :
  (represents (Some 2) (fst (queue_step (Enqueue "c" 3) two)) [(3, "b"); (3, "c")] /\
   snd (queue_step (Enqueue "c" 3) two) = Evicted (Some (5, "a"))) /\
  snd (queue_step Drain two) = Values ["b"; "a"].
Proof.
  assert (H2 : represents (Some 2) two [(3, "b"); (5, "a")]).
  { pose proof (new_queue_represents (V := string) (Some 2)) as H0.
    destruct (enqueue_simulates (Some 2) _ _ "a" 5 (H0 ltac:(by intros ? [= <-]))) as [H1 _];
      [by vm_compute|].
    destruct (enqueue_simulates (Some 2) _ _ "b" 3 H1) as [H2 _]; [by vm_compute|]. exact H2. }
  split.
  - apply (queue_refines (Some 2) two [(3, "b"); (5, "a")] (Enqueue "c" 3)); [exact H2|by vm_compute].
  - apply (queue_refines (Some 2) two [(3, "b"); (5, "a")] Drain); [exact H2|done].
Defined.

(** With a [maxSize] of zero the first value is not dropped: reading the worst
    entry of the empty heap throws. *)
Example zero_capacity_throws :
  snd (queue_step (Enqueue "a" 5) (new_PriorityQueue (Some (of_Z 0)) None)) =
  Threw (JsError "Cannot read properties of undefined (reading 'priority')").
Proof. vm_compute. reflexivity. Qed.
