(* ===== verification/CreateLock.v ===== *)
(** * CreateLock: the waiting of [_withCreateLock]

    [src/modules/timeoff/timeoff.service.js], lines 688 to 707.  [TimeOff] runs a
    creation to its end; here calls interleave.  A call reads the promise the
    table holds for its key ([previous]), stores a promise of its own ([next]:
    [previous], then the gate the call opens when it ends) and waits for
    [previous].  The promises form a chain per key, and the theorems say that the
    chain is a fair lock: one call of a key runs at a time, in the order of the
    calls, none waits for ever, and the table ends empty. *)

From S2P Require Import Prelude.

(** What a call is doing: awaiting [previous], inside [fn], or past its [finally]
    block, which opened the gate. *)
Inductive phase := Waiting | Running | Done.
#[export] Instance phase_eq_dec : EqDecision phase.
Proof. solve_decision. Defined.

(** A call, numbered by its place in the list of calls; [previous] is the number
    of the call whose [next] it awaits, [None] for [Promise.resolve()]. *)
Record lock_call := { lockKey : string; previous : option nat; doing : phase }.

Record LockState := {
  calls : list lock_call;
  createLocks : gmap string nat;   (* [this._createLocks], by call number *)
}.

Definition set_phase (p : phase) (c : lock_call) : lock_call :=
  {| lockKey := lockKey c; previous := previous c; doing := p |}.

(** Whether the [next] of call [i] is fulfilled: its [previous] is, and its gate
    is open.  A [previous] has a smaller number, so [S i] turns are enough. *)
Fixpoint settled_within (fuel : nat) (cs : list lock_call) (i : nat) : bool :=
  match fuel with
  | O => false
  | S fuel =>
      match cs !! i with
      | Some c =>
          bool_decide (doing c = Done) &&
          match previous c with Some p => settled_within fuel cs p | None => true end
      | None => false
      end
  end.
Definition settled (cs : list lock_call) (i : nat) : bool := settled_within (S i) cs i.
Definition previous_settled (cs : list lock_call) (c : lock_call) : bool :=
  match previous c with Some p => settled cs p | None => true end.

(** The synchronous part of a call: up to [await previous]. *)
Definition enqueue_call (key : string) (s : LockState) : LockState :=
  {| calls := calls s ++ [{| lockKey := key; previous := createLocks s !! key; doing := Waiting |}];
     createLocks := <[key := length (calls s)]> (createLocks s) |}.

(** [await previous] is over. *)
Definition enter (i : nat) (s : LockState) : LockState :=
  {| calls := alter (set_phase Running) i (calls s); createLocks := createLocks s |}.

(** The [finally] block. *)
Definition leave (i : nat) (key : string) (s : LockState) : LockState :=
  {| calls := alter (set_phase Done) i (calls s);
     createLocks := if decide (createLocks s !! key = Some i)
                    then delete key (createLocks s) else createLocks s |}.

Definition no_calls : LockState := {| calls := []; createLocks := ∅ |}.

(** One step of the process; [fn] ends when it ends, by a return or a throw. *)
Inductive moves (s : LockState) : LockState -> Prop :=
  | moves_enter i c :
      calls s !! i = Some c -> doing c = Waiting -> previous_settled (calls s) c = true ->
      moves s (enter i s)
  | moves_leave i c :
      calls s !! i = Some c -> doing c = Running -> moves s (leave i (lockKey c) s).
Inductive lock_step (s : LockState) : LockState -> Prop :=
  | step_call key : lock_step s (enqueue_call key s)
  | step_moves s' : moves s s' -> lock_step s s'.

(** ** The chain *)

(** Every earlier call of the key is over. *)
Definition all_before (cs : list lock_call) (key : string) (i : nat) : Prop :=
  forall j c, (j < i)%nat -> cs !! j = Some c -> lockKey c = key -> doing c = Done.

Record chained (s : LockState) : Prop := {
  (** A call awaits the latest earlier call of its key, or none was left. *)
  ch_previous : forall i c p, calls s !! i = Some c -> previous c = Some p ->
    (p < i)%nat /\ (exists cp, calls s !! p = Some cp /\ lockKey cp = lockKey c) /\
    forall j cj, (p < j < i)%nat -> calls s !! j = Some cj -> lockKey cj <> lockKey c;
  ch_first : forall i c, calls s !! i = Some c -> previous c = None ->
    all_before (calls s) (lockKey c) i;
  (** A call that runs or has run was the next in turn. *)
  ch_turn : forall i c, calls s !! i = Some c -> doing c <> Waiting ->
    all_before (calls s) (lockKey c) i;
  (** The table holds the last call of a key until it is over. *)
  ch_last : forall key i, createLocks s !! key = Some i ->
    (exists c, calls s !! i = Some c /\ lockKey c = key /\ doing c <> Done) /\
    forall j cj, (i < j)%nat -> calls s !! j = Some cj -> lockKey cj <> key;
  ch_none : forall key, createLocks s !! key = None ->
    all_before (calls s) key (length (calls s));
}.

Lemma chained_no_calls : chained no_calls.
Proof. by split; intros; simplify_map_eq. Qed.

Lemma lookup_snoc_cases {A} (l : list A) x i y :
  (l ++ [x]) !! i = Some y -> l !! i = Some y \/ i = length l /\ y = x.
Proof.
  intros [H|[Hl H]]%lookup_app_Some; [by left|]. right.
  apply list_lookup_singleton_Some in H as [? <-]. split; [lia|done].
Qed.

Lemma all_before_snoc cs c key i :
  (i <= length cs)%nat -> all_before cs key i -> all_before (cs ++ [c]) key i.
Proof.
  intros Hi Hb j x Hj Hx Hk. apply (Hb j); [done| |done]. by rewrite lookup_app_l in Hx by lia.
Qed.

Implicit Types (cs : list lock_call) (i j : nat).

Lemma alter_lookup cs p i j x :
  alter (set_phase p) i cs !! j = Some x ->
  exists x0, cs !! j = Some x0 /\ lockKey x = lockKey x0 /\ previous x = previous x0 /\
    doing x = if decide (j = i) then p else doing x0.
Proof.
  intros Hx. destruct (decide (j = i)) as [->|Hj].
  - rewrite list_lookup_alter_eq in Hx. destruct (cs !! i) as [x0|]; [|done].
    exists x0. by injection Hx as <-.
  - rewrite list_lookup_alter_ne in Hx by done. by exists x.
Qed.

Lemma alter_lookup_key cs p i j c :
  cs !! j = Some c -> exists c', alter (set_phase p) i cs !! j = Some c' /\
    lockKey c' = lockKey c /\ doing c' = if decide (j = i) then p else doing c.
Proof.
  intros Hc. case_decide as Hj; [subst|].
  - rewrite list_lookup_alter_eq, Hc. by eexists.
  - rewrite list_lookup_alter_ne by done. by exists c.
Qed.

(** A call that is not over comes after none that waits for it. *)
Lemma all_before_alter cs p i c key k :
  cs !! i = Some c -> p = Done \/ doing c <> Done ->
  all_before cs key k -> all_before (alter (set_phase p) i cs) key k.
Proof.
  intros Hc Hp Hb j x Hj Hx Hk. destruct (alter_lookup _ _ _ _ _ Hx) as (x0 & Hx0 & Ek & _ & ->).
  rewrite Ek in Hk. pose proof (Hb j x0 Hj Hx0 Hk).
  case_decide; [|done]. subst. destruct Hp; [done|]. by simplify_eq.
Qed.

Lemma settled_done cs i c : settled cs i = true -> cs !! i = Some c -> doing c = Done.
Proof.
  unfold settled. cbn [settled_within]. intros Hs Hc. rewrite Hc in Hs.
  by apply andb_true_iff in Hs as [Hd%bool_decide_eq_true _].
Qed.

(** A call whose [previous] is fulfilled is next in turn. *)
Lemma previous_settled_turn s i c :
  chained s -> calls s !! i = Some c -> previous_settled (calls s) c = true ->
  all_before (calls s) (lockKey c) i.
Proof.
  intros Hch Hc Hp. unfold previous_settled in Hp. destruct (previous c) as [p|] eqn:Ep.
  - destruct (ch_previous s Hch i c p Hc Ep) as (Hpi & (cp & Hcp & Ek) & Hbetween).
    pose proof (settled_done _ _ _ Hp Hcp) as Hd. intros j x Hj Hx Hk.
    destruct (decide (j = p)) as [->|]; [by simplify_eq|].
    destruct (decide (j < p)%nat).
    + apply (ch_turn s Hch p cp Hcp ltac:(by rewrite Hd) j x); [done..|]. congruence.
    + destruct (Hbetween j x); [lia|done|done].
  - by apply (ch_first s Hch).
Qed.

Lemma enqueue_call_chained key s : chained s -> chained (enqueue_call key s).
Proof.
  intros [H1 H2 H3 H4 H5]. split; cbn [enqueue_call calls createLocks].
  - intros i c p [Hc|[-> ->]]%lookup_snoc_cases Hp.
    + pose proof (lookup_lt_Some _ _ _ Hc). destruct (H1 i c p Hc Hp) as (Hpi & (cp & Hcp & Ek) & Hb).
      split; [done|]. split; [exists cp; split; [by apply lookup_app_l_Some|done]|].
      intros j cj Hj [Hcj|[-> ->]]%lookup_snoc_cases; [by apply (Hb j)|lia].
    + destruct (H4 key p Hp) as ((cp & Hcp & Ek & _) & Hlater). cbn [lockKey].
      split; [by eapply lookup_lt_Some|]. split; [exists cp; split; [by apply lookup_app_l_Some|done]|].
      intros j cj Hj [Hcj|[-> ->]]%lookup_snoc_cases; [apply (Hlater j); [lia|done]|lia].
  - intros i c [Hc|[-> ->]]%lookup_snoc_cases Hp.
    + apply lookup_lt_Some in Hc as Hl. apply all_before_snoc; [lia|]. by apply H2.
    + apply all_before_snoc; [lia|]. by apply H5.
  - intros i c [Hc|[-> ->]]%lookup_snoc_cases Hp; [|done].
    apply lookup_lt_Some in Hc as Hl. apply all_before_snoc; [lia|]. by apply H3.
  - intros key' i Hi. destruct (decide (key' = key)) as [->|Hk].
    + rewrite lookup_insert_eq in Hi. injection Hi as <-. split.
      { eexists. split; [by apply list_lookup_middle|done]. }
      intros j cj Hj Hcj. apply lookup_lt_Some in Hcj. rewrite length_app in Hcj. cbn in Hcj. lia.
    + rewrite lookup_insert_ne in Hi by done. destruct (H4 key' i Hi) as ((c & Hc & Ek & Hd) & Hlater).
      split; [exists c; split; [by apply lookup_app_l_Some|done]|].
      intros j cj Hj [Hcj|[-> ->]]%lookup_snoc_cases; [by apply (Hlater j)|done].
  - intros key' Hn. destruct (decide (key' = key)) as [->|Hk]; [by rewrite lookup_insert_eq in Hn|].
    rewrite lookup_insert_ne in Hn by done. intros j c Hj [Hc|[-> ->]]%lookup_snoc_cases Ek; [|done].
    apply (H5 key' Hn j c); [by eapply lookup_lt_Some|done|done].
Qed.

(** A change of the phase of a call that is not over, in turn, keeps the chain;
    [leave] also takes the call out of the table. *)
Lemma alter_chained s i c p (t : gmap string nat) :
  chained s -> calls s !! i = Some c -> doing c <> Done -> p <> Waiting ->
  all_before (calls s) (lockKey c) i ->
  (forall key j, t !! key = Some j -> createLocks s !! key = Some j /\
     (key = lockKey c -> j = i -> p <> Done)) ->
  (forall key, t !! key = None -> createLocks s !! key = None \/
     key = lockKey c /\ p = Done /\ createLocks s !! key = Some i) ->
  chained {| calls := alter (set_phase p) i (calls s); createLocks := t |}.
Proof.
  intros [H1 H2 H3 H4 H5] Hc Hd Hp Hturn Ht Hn.
  assert (Hab : forall key k, all_before (calls s) key k ->
            all_before (alter (set_phase p) i (calls s)) key k)
    by (intros key k; apply (all_before_alter _ _ _ c); auto).
  split; cbn [calls createLocks].
  - intros j x q Hx Hq. destruct (alter_lookup _ _ _ _ _ Hx) as (x0 & Hx0 & Ek & Ep & _).
    rewrite Ep in Hq. destruct (H1 j x0 q Hx0 Hq) as (Hqj & (cq & Hcq & Eq) & Hb).
    split; [done|]. rewrite Ek. split.
    + destruct (alter_lookup_key (calls s) p i q cq Hcq) as (cq' & Hcq' & Eq' & _).
      exists cq'. split; [done|congruence].
    + intros k y Hk Hy. destruct (alter_lookup _ _ _ _ _ Hy) as (y0 & Hy0 & -> & _). by apply (Hb k).
  - intros j x Hx Hq. destruct (alter_lookup _ _ _ _ _ Hx) as (x0 & Hx0 & Ek & Ep & _).
    rewrite Ek. apply Hab, H2; [done|congruence].
  - intros j x Hx Hw. destruct (alter_lookup _ _ _ _ _ Hx) as (x0 & Hx0 & Ek & _ & Ed).
    rewrite Ek. apply Hab. case_decide; [subst; by simplify_eq|]. apply H3; [done|congruence].
  - intros key j Hj. destruct (Ht key j Hj) as [Hj' Hpd].
    destruct (H4 key j Hj') as ((x & Hx & Ek & Hdx) & Hlater). split.
    + destruct (alter_lookup_key (calls s) p i j x Hx) as (x' & Hx' & Ex' & Ed').
      exists x'. split; [done|]. split; [congruence|]. rewrite Ed'. case_decide as E; [|done].
      subst j. simplify_eq. by apply Hpd.
    + intros k y Hk Hy. destruct (alter_lookup _ _ _ _ _ Hy) as (y0 & Hy0 & -> & _). by apply (Hlater k).
  - intros key Hk. rewrite length_alter. destruct (Hn key Hk) as [Hk'|(-> & -> & Hi)]; [by apply Hab, H5|].
    destruct (H4 _ _ Hi) as [_ Hlater]. intros j x Hj Hx Ek.
    destruct (alter_lookup _ _ _ _ _ Hx) as (x0 & Hx0 & Ek' & _ & ->). case_decide as E; [done|].
    destruct (decide (j < i)%nat); [apply (Hturn j); [done|done|congruence]|].
    destruct (Hlater j x0); [lia|done|congruence].
Qed.

Lemma moves_chained s s' : chained s -> moves s s' -> chained s'.
Proof.
  intros Hch [i c Hc Hd Hp|i c Hc Hd].
  - apply (alter_chained s i c); [done|done|by rewrite Hd|done|by apply previous_settled_turn|done|by left].
  - apply (alter_chained s i c); [done|done|by rewrite Hd|done| | |].
    + apply (ch_turn s Hch); [done|by rewrite Hd].
    + intros key j. case_decide as E.
      * intros [Hk Hj]%lookup_delete_Some. by split; [|intros ->].
      * intros Hj. split; [done|]. intros -> ->. done.
    + intros key. case_decide as E; [|by left]. intros [<-|Hk]%lookup_delete_None; [by right|by left].
Qed.

Lemma lock_step_chained s s' : chained s -> lock_step s s' -> chained s'.
Proof. intros Hch [key|s'' Hm]; [by apply enqueue_call_chained|by eapply moves_chained]. Qed.

Lemma reachable_chained s : rtc lock_step no_calls s -> chained s.
Proof.
  intros Hr. assert (Hi : forall a b, rtc lock_step a b -> chained a -> chained b).
  { induction 1; eauto using lock_step_chained. }
  by eapply Hi, chained_no_calls.
Qed.

(** C23. The create lock is exclusive and fair: in every interleaving, when a call
    for a key runs or has run, every earlier call for that key is over; so two
    calls for one key never run together and they run in the order of the calls. *)
Theorem create_lock_fair s i j ci cj :
  rtc lock_step no_calls s -> calls s !! i = Some ci -> calls s !! j = Some cj ->
  lockKey ci = lockKey cj -> (i < j)%nat -> doing cj <> Waiting -> doing ci = Done.
Proof.
  intros Hr%reachable_chained Hi Hj Hk Hij Hd. by apply (ch_turn s Hr j cj Hj Hd i).
Qed.

(** ** Progress *)

(** The moves the calls still have to make. *)
Definition to_do (c : lock_call) : nat :=
  match doing c with Waiting => 2 | Running => 1 | Done => 0 end.
Definition work (s : LockState) : nat := sum_list_with to_do (calls s).

Lemma sum_alter cs p i c :
  cs !! i = Some c ->
  (sum_list_with to_do (alter (set_phase p) i cs) + to_do c =
   sum_list_with to_do cs + to_do (set_phase p c))%nat.
Proof.
  revert i. induction cs as [|x cs IH]; intros [|i] Hi; [done|done| |].
  - injection Hi as ->. cbn [alter list_alter sum_list_with]. lia.
  - specialize (IH i Hi). change (alter ?f (S i) (x :: cs)) with (x :: alter f i cs).
    cbn [sum_list_with]. lia.
Qed.

Lemma moves_work s s' : moves s s' -> (work s' < work s)%nat.
Proof.
  intros [i c Hc Hd _|i c Hc Hd]; unfold work; cbn [enter leave calls].
  - pose proof (sum_alter (calls s) Running i c Hc) as H.
    assert (to_do c = 2%nat) by (unfold to_do; by rewrite Hd).
    assert (to_do (set_phase Running c) = 1%nat) by done. lia.
  - pose proof (sum_alter (calls s) Done i c Hc) as H.
    assert (to_do c = 1%nat) by (unfold to_do; by rewrite Hd).
    assert (to_do (set_phase Done c) = 0%nat) by done. lia.
Qed.

(** Below a call before which all are over, every promise is fulfilled. *)
Lemma all_done_settled s i :
  chained s -> (forall j c, (j < i)%nat -> calls s !! j = Some c -> doing c = Done) ->
  forall fuel p c, (p < i)%nat -> (p < fuel)%nat -> calls s !! p = Some c ->
  settled_within fuel (calls s) p = true.
Proof.
  intros Hch Hall. induction fuel as [|fuel IH]; intros p c Hp Hf Hc; [lia|].
  cbn [settled_within]. rewrite Hc, bool_decide_true by by apply (Hall p). cbn [andb].
  destruct (previous c) as [q|] eqn:Eq; [|done].
  destruct (ch_previous s Hch p c q Hc Eq) as (Hq & (cq & Hcq & _) & _). apply (IH q cq); [lia|lia|done].
Qed.

(** The first call that is not over need not wait. *)
Lemma first_ready s i c :
  chained s -> calls s !! i = Some c ->
  (forall j x, (j < i)%nat -> calls s !! j = Some x -> doing x = Done) ->
  previous_settled (calls s) c = true.
Proof.
  intros Hch Hc Hall. unfold previous_settled. destruct (previous c) as [p|] eqn:Ep; [|done].
  destruct (ch_previous s Hch i c p Hc Ep) as (Hp & (cp & Hcp & _) & _).
  apply (all_done_settled s i Hch Hall _ p cp); [done|lia|done].
Qed.

Lemma first_moves s i c :
  chained s -> calls s !! i = Some c -> doing c <> Done ->
  (forall j x, (j < i)%nat -> calls s !! j = Some x -> doing x = Done) -> exists s', moves s s'.
Proof.
  intros Hch Hc Hd Hall. destruct (doing c) eqn:E; [|by eexists; eapply moves_leave|done].
  eexists. apply (moves_enter s i c); [done|done|by eapply first_ready].
Qed.

Lemma first_open cs :
  Forall (fun c => doing c = Done) cs \/
  exists i c, cs !! i = Some c /\ doing c <> Done /\
    forall j x, (j < i)%nat -> cs !! j = Some x -> doing x = Done.
Proof.
  induction cs as [|c cs IH]; [by left|]. destruct (decide (doing c = Done)) as [Hc|Hc].
  - destruct IH as [IH|(i & x & Hx & Hd & Hb)]; [left; by constructor|].
    right. exists (S i), x. repeat split; [done..|]. intros [|j] y Hj Hy; [by injection Hy as <-|].
    apply (Hb j); [lia|done].
  - right. exists 0%nat, c. repeat split; [done..|]. intros j y Hj. lia.
Qed.

(** No call waits for ever: each move of a call uses up work, so a process in
    which every [fn] ends makes finitely many moves, and when none is left every
    call is over and the table of locks is empty. *)
Theorem create_lock_live s :
  rtc lock_step no_calls s ->
  (forall s', moves s s' -> (work s' < work s)%nat) /\
  ((exists s', moves s s') \/
   Forall (fun c => doing c = Done) (calls s) /\ createLocks s = ∅).
Proof.
  intros Hr%reachable_chained. split; [apply moves_work|].
  destruct (first_open (calls s)) as [Hall|(i & c & Hc & Hd & Hb)]; [|left; by eapply first_moves].
  right. split; [done|]. apply map_empty. intros key. destruct (createLocks s !! key) as [i|] eqn:Hi; [|done].
  destruct (ch_last s Hr key i Hi) as [(c & Hc & _ & Hd) _].
  destruct Hd. by apply (Forall_lookup_1 _ _ _ _ Hall Hc).
Qed.

(** Two calls for one key; the first has run and the second is running. *)
Definition second_runs : LockState :=
  enter 1 (leave 0 "e1:nyc" (enter 0 (enqueue_call "e1:nyc" (enqueue_call "e1:nyc" no_calls)))).

Lemma second_runs_reachable : rtc lock_step no_calls second_runs.
Proof.
  eapply rtc_l; [apply (step_call _ "e1:nyc")|]. eapply rtc_l; [apply (step_call _ "e1:nyc")|].
  eapply rtc_l; [apply step_moves; by eapply (moves_enter _ 0)|].
  eapply rtc_l; [apply step_moves; by eapply (moves_leave _ 0)|].
  eapply rtc_l; [apply step_moves; by eapply (moves_enter _ 1)|]. apply rtc_refl.
Qed.

Lemma create_lock_fair_witness :
  let ci := {| lockKey := "e1:nyc"; previous := None; doing := Done |} in
  calls second_runs !! 0%nat = Some ci /\ doing ci = Done.
Proof.
  intros ci. split; [reflexivity|].
  apply (create_lock_fair second_runs 0 1 ci {| lockKey := "e1:nyc"; previous := Some 0%nat; doing := Running |});
    [exact second_runs_reachable|reflexivity|reflexivity|reflexivity|lia|done].
Defined.

Lemma create_lock_live_witness :
  work second_runs = 1%nat /\
  ((exists s', moves second_runs s') \/
   Forall (fun c => doing c = Done) (calls second_runs) /\ createLocks second_runs = ∅).
Proof. split; [reflexivity|]. apply (create_lock_live second_runs second_runs_reachable). Defined.
