(* ===== verification/JsMap.v ===== *)
(** * JavaScript maps

    A [Map] enumerates its keys in the order they were first set.  Setting a key
    it has keeps the place; deleting and setting again moves it to the end.  A
    [for (... of map)] loop runs on the live map: it sees what is added meanwhile
    and skips what is deleted.  Rows carry the stamp of their insertion, and an
    iterator is the stamp it has reached.  A [Set] is a map to [unit]. *)

From S2P Require Import Prelude.

Record jsmap (K V : Type) := { rows : list (nat * (K * V)); next_stamp : nat }.
Arguments rows {K V} _.
Arguments next_stamp {K V} _.
Arguments Build_jsmap {K V} _ _.

Section jsmap.
Context {K V : Type} `{EqDecision K}.
Implicit Types (m : jsmap K V) (k : K) (v : V) (l : list (nat * (K * V))).

Definition jm_empty : jsmap K V := {| rows := []; next_stamp := 0 |}.
Definition row_key (r : nat * (K * V)) : K := r.2.1.
Definition row_value (r : nat * (K * V)) : V := r.2.2.

Fixpoint find_row k l : option V :=
  match l with
  | [] => None
  | r :: l' => if decide (row_key r = k) then Some (row_value r) else find_row k l'
  end.
(** [m.get(k)], [m.has(k)] *)
Definition jm_get k m : option V := find_row k (rows m).
Definition jm_has k m : bool := match jm_get k m with Some _ => true | None => false end.

Fixpoint replace_row k v l : list (nat * (K * V)) :=
  match l with
  | [] => []
  | r :: l' => if decide (row_key r = k) then (r.1, (k, v)) :: l' else r :: replace_row k v l'
  end.
(** [m.set(k, v)] *)
Definition jm_set k v m : jsmap K V :=
  match jm_get k m with
  | Some _ => {| rows := replace_row k v (rows m); next_stamp := next_stamp m |}
  | None => {| rows := rows m ++ [(next_stamp m, (k, v))]; next_stamp := S (next_stamp m) |}
  end.

(** [m.delete(k)], whose value is [m.has(k)] *)
Definition jm_delete k m : jsmap K V :=
  {| rows := filter (fun r => row_key r <> k) (rows m); next_stamp := next_stamp m |}.
(** [m.clear()] *)
Definition jm_clear m : jsmap K V := {| rows := []; next_stamp := next_stamp m |}.
(** [m.size], [m.keys()], [m.values()] *)
Definition jm_size m : nat := length (rows m).
Definition jm_keys m : list K := row_key <$> rows m.
Definition jm_values m : list V := row_value <$> rows m.

(** The row an iterator at [from] visits next. *)
Fixpoint next_row (from : nat) l : option (nat * (K * V)) :=
  match l with
  | [] => None
  | r :: l' => if (from <=? r.1)%nat then Some r else next_row from l'
  end.
Definition jm_next (from : nat) m : option (nat * (K * V)) := next_row from (rows m).

(** ** Well-formed maps *)
Record jm_wf m : Prop := {
  wf_keys : NoDup (jm_keys m);
  wf_stamps : StronglySorted (fun r r' : nat * (K * V) => r.1 < r'.1)%nat (rows m);
  wf_next : Forall (fun r => r.1 < next_stamp m)%nat (rows m);
}.

Lemma jm_empty_wf : jm_wf jm_empty.
Proof. split; constructor. Qed.
Lemma jm_clear_wf m : jm_wf (jm_clear m).
Proof. split; constructor. Qed.

Lemma find_row_Some k v l : find_row k l = Some v -> exists s, (s, (k, v)) ∈ l.
Proof.
  induction l as [|[s [k' v']] l IH]; [done|]. cbn [find_row row_key row_value fst snd].
  case_decide; [intros [= <-]; subst; exists s; left|].
  intros [s' Hs]%IH. exists s'. by right.
Qed.
Lemma find_row_None k l : find_row k l = None <-> k ∉ (row_key <$> l).
Proof.
  induction l as [|r l IH]; [split; [intros _ []%elem_of_nil|done]|]. cbn [find_row fmap list_fmap].
  rewrite not_elem_of_cons. case_decide as E.
  - split; [done|]. by intros [[] _].
  - rewrite IH. split; [by split; [congruence|]|by intros [_ H]].
Qed.
Lemma find_row_In k v l s :
  NoDup (row_key <$> l) -> (s, (k, v)) ∈ l -> find_row k l = Some v.
Proof.
  induction l as [|r l IH]; [by intros _ []%elem_of_nil|]. cbn [fmap list_fmap find_row].
  intros [Hr Hn]%NoDup_cons [<-|Hin]%elem_of_cons.
  - cbn [row_key row_value fst snd]. by rewrite decide_True.
  - rewrite decide_False; [by apply IH|]. intros <-. apply Hr.
    apply list_elem_of_fmap. eexists. split; [|exact Hin]. done.
Qed.

Lemma replace_row_keys k v l : row_key <$> replace_row k v l = row_key <$> l.
Proof.
  induction l as [|r l IH]; [done|]. cbn [replace_row]. case_decide as E; cbn [fmap list_fmap].
  - by rewrite <- E.
  - by rewrite IH.
Qed.
Lemma replace_row_stamps k v l : fst <$> replace_row k v l = fst <$> l.
Proof.
  induction l as [|r l IH]; [done|]. cbn [replace_row]. case_decide; cbn [fmap list_fmap]; [done|].
  by rewrite IH.
Qed.
Lemma replace_row_id k v l : k ∉ (row_key <$> l) -> replace_row k v l = l.
Proof.
  induction l as [|r l IH]; [done|]. cbn [replace_row fmap list_fmap]. intros [Hk Hl]%not_elem_of_cons.
  rewrite decide_False by done. by rewrite IH.
Qed.
Lemma replace_row_app k v l l' s u :
  k ∉ (row_key <$> l) -> replace_row k v (l ++ (s, (k, u)) :: l') = l ++ (s, (k, v)) :: l'.
Proof.
  induction l as [|r l IH]; intros Hk.
  - cbn [app replace_row row_key fst snd]. by rewrite decide_True.
  - cbn [fmap list_fmap] in Hk. apply not_elem_of_cons in Hk as [Hr Hl].
    cbn [app replace_row]. rewrite decide_False by done. by rewrite IH.
Qed.

(** The stamps as a list of their own: what their order depends on. *)
Lemma sorted_stamps l :
  StronglySorted (fun r r' : nat * (K * V) => r.1 < r'.1)%nat l <-> StronglySorted lt (fst <$> l).
Proof.
  induction l as [|r l IH]; [split; constructor|]. cbn [fmap list_fmap].
  split; intros Hs; inversion Hs as [|? ? Hl Hr]; subst; (constructor; [by apply IH|]).
  - by rewrite Forall_fmap.
  - by rewrite Forall_fmap in Hr.
Qed.

Lemma stamps_below n l :
  Forall (fun r : nat * (K * V) => r.1 < n)%nat l <-> Forall (fun s => s < n)%nat (fst <$> l).
Proof. by rewrite Forall_fmap. Qed.

Lemma jm_set_wf k v m : jm_wf m -> jm_wf (jm_set k v m).
Proof.
  intros [Hk Hs Hn]. unfold jm_set. destruct (jm_get k m) eqn:E.
  - split; cbn [rows next_stamp].
    + unfold jm_keys. cbn [rows]. by rewrite replace_row_keys.
    + apply sorted_stamps. rewrite replace_row_stamps. by apply sorted_stamps.
    + apply stamps_below. rewrite replace_row_stamps. by apply stamps_below.
  - apply find_row_None in E. split; cbn [rows next_stamp].
    + unfold jm_keys. cbn [rows]. rewrite fmap_app. apply NoDup_app. split; [done|].
      split; [|apply NoDup_singleton]. intros x Hx ->%list_elem_of_singleton. done.
    + apply StronglySorted_app_2; [|done|repeat constructor].
      intros r r' Hr ->%list_elem_of_singleton. rewrite Forall_forall in Hn. by apply Hn.
    + apply Forall_app_2; [|repeat constructor]. eapply Forall_impl; [exact Hn|]. cbn. lia.
Qed.

Lemma filter_rows_wf (P : nat * (K * V) -> Prop) `{forall r, Decision (P r)} m :
  jm_wf m -> jm_wf {| rows := filter P (rows m); next_stamp := next_stamp m |}.
Proof.
  intros [Hk Hs Hn]. split; unfold jm_keys; cbn [rows next_stamp].
  - unfold jm_keys in Hk. eapply sublist_NoDup; [exact Hk|]. by apply fmap_sublist, sublist_filter.
  - clear Hk Hn. induction Hs as [|r l Hs IH Hr]; [constructor|]. rewrite filter_cons.
    case_decide; [|done]. constructor; [done|]. rewrite Forall_forall in *.
    intros r' [_ Hr']%list_elem_of_filter. auto.
  - rewrite Forall_forall in *. intros r [_ Hr]%list_elem_of_filter. auto.
Qed.
Lemma jm_delete_wf k m : jm_wf m -> jm_wf (jm_delete k m).
Proof. apply filter_rows_wf. Qed.

(** ** Lookup *)
Lemma jm_get_set_eq k v m : jm_get k (jm_set k v m) = Some v.
Proof.
  unfold jm_set. destruct (jm_get k m) as [u|] eqn:E; unfold jm_get in *; cbn [rows].
  - revert E. generalize (rows m) as l. induction l as [|r l IH]; [done|]. cbn [find_row replace_row].
    case_decide as Hr; cbn [find_row row_key row_value fst snd].
    + by rewrite decide_True.
    + intros Hf. rewrite decide_False by done. auto.
  - revert E. generalize (rows m) as l. induction l as [|r l IH]; cbn [app find_row].
    + cbn [row_key row_value fst snd]. by rewrite decide_True.
    + case_decide; [done|]. auto.
Qed.
Lemma jm_get_set_ne k k' v m : k <> k' -> jm_get k' (jm_set k v m) = jm_get k' m.
Proof.
  intros Hne. unfold jm_set. destruct (jm_get k m); unfold jm_get; cbn [rows].
  - generalize (rows m) as l. induction l as [|r l IH]; [done|]. cbn [replace_row].
    case_decide as Hr; cbn [find_row row_key row_value fst snd].
    + rewrite !decide_False by congruence. done.
    + case_decide; [done|]. auto.
  - generalize (rows m) as l. induction l as [|r l IH]; cbn [app find_row row_key row_value fst snd].
    + by rewrite decide_False.
    + case_decide; auto.
Qed.
Lemma jm_get_delete_eq k m : jm_get k (jm_delete k m) = None.
Proof.
  apply find_row_None. cbn [rows jm_delete]. intros (r & -> & [Hr _]%list_elem_of_filter)%list_elem_of_fmap.
  done.
Qed.
Lemma jm_get_delete_ne k k' m : k <> k' -> jm_get k' (jm_delete k m) = jm_get k' m.
Proof.
  intros Hne. unfold jm_get. cbn [rows jm_delete]. generalize (rows m) as l.
  induction l as [|r l IH]; [done|]. rewrite filter_cons. case_decide as Hr; cbn [find_row].
  - case_decide; auto.
  - rewrite (decide_False (P := row_key r = k')); [auto|]. congruence.
Qed.
(** ** Iteration and deletion around a row *)
Lemma next_row_app from l l' :
  Forall (fun x : nat * (K * V) => x.1 < from)%nat l -> next_row from (l ++ l') = next_row from l'.
Proof.
  induction 1 as [|x l Hx Hl IH]; [done|]. cbn [app next_row].
  destruct (Nat.leb_spec from x.1); [lia|done].
Qed.

Lemma delete_row_app l l' x :
  NoDup (row_key <$> l ++ x :: l') ->
  filter (fun y : nat * (K * V) => row_key y <> row_key x) (l ++ x :: l') = l ++ l'.
Proof.
  rewrite fmap_app. cbn [fmap list_fmap]. intros (Hl & Hd & [Hx Hl']%NoDup_cons)%NoDup_app.
  rewrite filter_app, filter_cons, decide_False by (intros H; by apply H). f_equal.
  - apply list_filter_all. intros y Hy E. apply (Hd (row_key y)); [by apply list_elem_of_fmap_2|]. rewrite E. left.
  - apply list_filter_all. intros y Hy E. apply Hx. rewrite <- E. by apply list_elem_of_fmap_2.
Qed.
End jsmap.
