(* ===== verification/DeadLetter.v ===== *)
(** * Dead-letter queue: [src/common/utils/dead-letter-queue.util.js]

    The queue is a JavaScript map of records over any state that holds it, can
    read the clock and draw random numbers.  [redriveEligible] iterates over the
    live map while it awaits the processor. *)

From S2P Require Import Prelude Num Domain JsMap.

Record dlq_error := { x_category : string; x_message : string; x_timestamp : Z }.

Record dlq_record (P : Type) := {
  q_id : string;
  q_channel : string;
  q_payload : P;
  q_attempts : Z;
  q_initialError : dlq_error;
  q_lastError : dlq_error;
  q_createdAt : Z;
  q_updatedAt : Z;
  q_isPoison : bool;
  q_nextRetryAt : Z;
  q_redriveCount : Z;
}.
Arguments q_id {P} _.
Arguments q_channel {P} _.
Arguments q_payload {P} _.
Arguments q_attempts {P} _.
Arguments q_initialError {P} _.
Arguments q_lastError {P} _.
Arguments q_createdAt {P} _.
Arguments q_updatedAt {P} _.
Arguments q_isPoison {P} _.
Arguments q_nextRetryAt {P} _.
Arguments q_redriveCount {P} _.

Record DeadLetterQueue (P : Type) := {
  dlq_maxRetries : Z;
  dlq_baseBackoffMs : Z;
  dlq_maxBackoffMs : Z;
  dlq_maxCapacity : Z;
  messages : jsmap string (dlq_record P);
  errorTaxonomy : jsmap string Z;
  totalEnqueued : Z;
  totalRedriven : Z;
  totalEvicted : Z;
}.
Arguments dlq_maxRetries {P} _.
Arguments dlq_baseBackoffMs {P} _.
Arguments dlq_maxBackoffMs {P} _.
Arguments dlq_maxCapacity {P} _.
Arguments messages {P} _.
Arguments errorTaxonomy {P} _.
Arguments totalEnqueued {P} _.
Arguments totalRedriven {P} _.
Arguments totalEvicted {P} _.

(** [options.n || d] *)
Definition or_number (n : option Z) (d : Z) : Z :=
  match n with None | Some 0%Z => d | Some n => n end.
(** [s || d] *)
Definition or_string (s : option string) (d : string) : string :=
  match s with None | Some "" => d | Some s => s end.

(** What [enqueue] reads of the error it is given: its [code], [name] and
    [message], and [String(error)]. *)
Record failure := {
  f_code : option string;
  f_name : option string;
  f_message : option string;
  f_text : string;
}.
Definition errorCategory (error : option failure) : string :=
  match error with
  | None => "UNKNOWN_ERROR"
  | Some e => or_string (f_code e) (or_string (f_name e) "UNKNOWN_ERROR")
  end.
Definition errorMessage (error : option failure) : string :=
  match error with
  | None => "Unspecified error"
  | Some e => or_string (f_message e) (f_text e)
  end.

Section records.
Context {P : Type}.
Implicit Types (q : DeadLetterQueue P) (r : dlq_record P) (m : jsmap string (dlq_record P)).

Definition new_DeadLetterQueue (maxRetries baseBackoffMs maxBackoffMs maxCapacity : option Z) :
    DeadLetterQueue P :=
  {| dlq_maxRetries := or_number maxRetries 3; dlq_baseBackoffMs := or_number baseBackoffMs 100;
     dlq_maxBackoffMs := or_number maxBackoffMs 5000; dlq_maxCapacity := or_number maxCapacity 1000;
     messages := jm_empty; errorTaxonomy := jm_empty;
     totalEnqueued := 0; totalRedriven := 0; totalEvicted := 0 |}.

(** Assignments to the fields that change. *)
Definition q_with m (taxonomy : jsmap string Z) (enqueued redriven evicted : Z) q : DeadLetterQueue P :=
  {| dlq_maxRetries := dlq_maxRetries q; dlq_baseBackoffMs := dlq_baseBackoffMs q;
     dlq_maxBackoffMs := dlq_maxBackoffMs q; dlq_maxCapacity := dlq_maxCapacity q;
     messages := m; errorTaxonomy := taxonomy;
     totalEnqueued := enqueued; totalRedriven := redriven; totalEvicted := evicted |}.

(** The record of a message that failed again. *)
Definition failed_again (maxRetries : Z) (err : dlq_error) (nextRetryAt : Z) r : dlq_record P :=
  let attempts := (q_attempts r + 1)%Z in
  {| q_id := q_id r; q_channel := q_channel r; q_payload := q_payload r; q_attempts := attempts;
     q_initialError := q_initialError r; q_lastError := err; q_createdAt := q_createdAt r;
     q_updatedAt := x_timestamp err; q_isPoison := (maxRetries <=? attempts)%Z;
     q_nextRetryAt := nextRetryAt; q_redriveCount := q_redriveCount r |}.

(** The record of a new message. *)
Definition failed_first (maxRetries : Z) (id channel : string) (payload : P) (err : dlq_error)
    (nextRetryAt : Z) : dlq_record P :=
  {| q_id := id; q_channel := channel; q_payload := payload; q_attempts := 1;
     q_initialError := err; q_lastError := err; q_createdAt := x_timestamp err;
     q_updatedAt := x_timestamp err; q_isPoison := (maxRetries <=? 1)%Z;
     q_nextRetryAt := nextRetryAt; q_redriveCount := 0 |}.

(** The eviction before a new message: at capacity the oldest goes, and is
    counted. *)
Definition evict_oldest (maxCapacity : Z) m : jsmap string (dlq_record P) * Z :=
  if (maxCapacity <=? Z.of_nat (jm_size m))%Z then
    (match head (jm_keys m) with Some oldestKey => jm_delete oldestKey m | None => m end, 1%Z)
  else (m, 0%Z).

(** [this._errorTaxonomy.set(c, (this._errorTaxonomy.get(c) || 0) + 1)] *)
Definition count_error (c : string) (t : jsmap string Z) : jsmap string Z :=
  jm_set c (default 0%Z (jm_get c t) + 1)%Z t.

(** [canRetry(id, now)] *)
Definition eligible (now : Z) r : bool := negb (q_isPoison r) && (q_nextRetryAt r <=? now)%Z.
Definition canRetry (id : string) (now : Z) q : bool :=
  match jm_get id (messages q) with
  | None => false
  | Some record => eligible now record
  end.

(** [get(id)], [delete(id)] and [clear()] *)
Definition dlq_get (id : string) q : option (dlq_record P) := jm_get id (messages q).
Definition dlq_delete (id : string) q : DeadLetterQueue P * bool :=
  (q_with (jm_delete id (messages q)) (errorTaxonomy q) (totalEnqueued q) (totalRedriven q)
     (totalEvicted q) q, jm_has id (messages q)).
Definition dlq_clear q : DeadLetterQueue P :=
  q_with (jm_clear (messages q)) (jm_clear (errorTaxonomy q)) (totalEnqueued q) (totalRedriven q)
    (totalEvicted q) q.

(** [getStats()] *)
Record dlq_stats := {
  st_size : nat;
  st_poisonCount : nat;
  st_totalEnqueued : Z;
  st_totalRedriven : Z;
  st_totalEvicted : Z;
  st_oldestMessageAgeMs : Z;
  st_errorTaxonomy : list (string * Z);
}.
(** [oldestTimestamp], [None] for [Infinity]. *)
Definition oldest (o : option Z) r : option Z :=
  match o with
  | Some t => if (q_createdAt r <? t)%Z then Some (q_createdAt r) else o
  | None => Some (q_createdAt r)
  end.
Definition getStats (now : Z) q : dlq_stats :=
  let records := jm_values (messages q) in
  {| st_size := jm_size (messages q);
     st_poisonCount := length (filter (fun r => q_isPoison r = true) records);
     st_totalEnqueued := totalEnqueued q; st_totalRedriven := totalRedriven q;
     st_totalEvicted := totalEvicted q;
     st_oldestMessageAgeMs :=
       match foldl oldest None records with Some t => now - t | None => 0 end;
     st_errorTaxonomy := snd <$> rows (errorTaxonomy q) |}.

(** [_calculateNextRetry(attempt)] at the time [now], for [Math.random()] being
    [r / 2^53]. *)
Definition retry_delay (baseBackoffMs maxBackoffMs attempt r : Z) : Z :=
  let factor := (2 ^ Z.min attempt 10)%Z in
  let delay := Z.min (baseBackoffMs * factor) maxBackoffMs in
  let jitter := nmul (nmul (of_Z delay) (literal 2 10)) (dyadic r (-53)) in
  Math_floor (of_Z delay +. jitter)%num.
End records.

Definition TypeError (message : string) : exn := JsError message.

Section queue.
Context {St P : Type}.
Context (get : St -> DeadLetterQueue P) (put : DeadLetterQueue P -> St -> St).
Context (date_now random : M St exn Z).
Context (failure_of : exn -> option failure).
Context (processor : P -> string -> M St exn unit).

Definition update_queue (f : DeadLetterQueue P -> DeadLetterQueue P) : M St exn unit :=
  modify (fun s => put (f (get s)) s).

Definition calculateNextRetry (attempt : Z) : M St exn Z :=
  q ← gets get;
  r ← random;
  now ← date_now;
  mret (now + retry_delay (dlq_baseBackoffMs q) (dlq_maxBackoffMs q) attempt r)%Z.

(** [enqueue({ id, channel, payload, error })] *)
Definition dlq_enqueue (id channel : string) (payload : P) (error : option failure) :
    M St exn (dlq_record P) :=
  if decide (id = "") then throw (TypeError "Message ID must be a non-empty string")
  else if decide (channel = "") then throw (TypeError "Channel must be a non-empty string")
  else
    now ← date_now;
    q ← gets get;
    let err := {| x_category := errorCategory error; x_message := errorMessage error;
                  x_timestamp := now |} in
    record ←
      match jm_get id (messages q) with
      | Some record =>
          nextRetryAt ← calculateNextRetry (q_attempts record + 1);
          let record := failed_again (dlq_maxRetries q) err nextRetryAt record in
          _ ← update_queue (fun q =>
                q_with (jm_set id record (messages q)) (errorTaxonomy q) (totalEnqueued q)
                  (totalRedriven q) (totalEvicted q) q);
          mret record
      | None =>
          let '(m, n) := evict_oldest (dlq_maxCapacity q) (messages q) in
          _ ← update_queue (fun q =>
                q_with m (errorTaxonomy q) (totalEnqueued q) (totalRedriven q)
                  (totalEvicted q + n) q);
          nextRetryAt ← calculateNextRetry 1;
          let record := failed_first (dlq_maxRetries q) id channel payload err nextRetryAt in
          _ ← update_queue (fun q =>
                q_with (jm_set id record (messages q)) (errorTaxonomy q) (totalEnqueued q)
                  (totalRedriven q) (totalEvicted q) q);
          mret record
      end;
    _ ← update_queue (fun q =>
          q_with (messages q) (count_error (errorCategory error) (errorTaxonomy q))
            (totalEnqueued q + 1) (totalRedriven q) (totalEvicted q) q);
    mret record.

(** [redrive(id, processor)] *)
Definition redrive (id : string) : M St exn bool :=
  q ← gets get;
  match jm_get id (messages q) with
  | None => mret false
  | Some record =>
      try_catch
        (_ ← processor (q_payload record) (q_channel record);
         _ ← update_queue (fun q =>
               q_with (jm_delete id (messages q)) (errorTaxonomy q) (totalEnqueued q)
                 (totalRedriven q + 1) (totalEvicted q) q);
         mret true)
        (fun err =>
           _ ← dlq_enqueue (q_id record) (q_channel record) (q_payload record) (failure_of err);
           mret false)
  end.

(** The loop of [redriveEligible], from the rows stamped [from] on; [None] when
    [fuel] turns were not enough. *)
Fixpoint redrive_loop (fuel from : nat) (now : Z) (succeeded failed : nat) :
    M St exn (option (nat * nat)) :=
  match fuel with
  | O => mret None
  | S fuel =>
      q ← gets get;
      match jm_next from (messages q) with
      | None => mret (Some (succeeded, failed))
      | Some (stamp, (id, _)) =>
          if canRetry id now q then
            ok ← redrive id;
            if ok : bool then redrive_loop fuel (S stamp) now (S succeeded) failed
            else redrive_loop fuel (S stamp) now succeeded (S failed)
          else redrive_loop fuel (S stamp) now succeeded failed
      end
  end.
Definition redriveEligible (fuel : nat) : M St exn (option (nat * nat)) :=
  now ← date_now;
  redrive_loop fuel 0 now 0 0.
End queue.
