(* ===== verification/DeadLetterFacts.v ===== *)
(** * DeadLetterFacts: what the dead-letter queue guarantees

    The invariant of the queue (capacity, distinct identifiers, the poison flag)
    under every operation, and what a pass of [redriveEligible] does. *)

From S2P Require Import Prelude Num Domain JsMap DeadLetter.

Local Open Scope Z_scope.

Section invariant.
Context {P : Type}.
Implicit Types (q : DeadLetterQueue P) (r : dlq_record P) (m : jsmap string (dlq_record P)).

Record record_ok (maxRetries : Z) (id : string) r : Prop := {
  ok_id : q_id r = id;
  ok_id_nonempty : id <> "";
  ok_channel : q_channel r <> "";
  ok_attempts : 1 <= q_attempts r;
  ok_poison : q_isPoison r = (maxRetries <=? q_attempts r);
  ok_redriveCount : q_redriveCount r = 0;
}.

Record dlq_ok q : Prop := {
  ok_messages : jm_wf (messages q);
  ok_records : Forall (fun x => record_ok (dlq_maxRetries q) (row_key x) (row_value x)) (rows (messages q));
  ok_capacity : Z.of_nat (jm_size (messages q)) <= Z.max 1 (dlq_maxCapacity q);
}.

(** The settings do not change. *)
Definition settings q : Z * Z * Z * Z :=
  (dlq_maxRetries q, dlq_baseBackoffMs q, dlq_maxBackoffMs q, dlq_maxCapacity q).

Lemma new_queue_ok a b c d : dlq_ok (new_DeadLetterQueue a b c d).
Proof. split; [apply jm_empty_wf|constructor|cbn; lia]. Qed.

(** A change of the messages that keeps the invariant. *)
Lemma q_with_ok m t e d v q :
  jm_wf m ->
  Forall (fun x => record_ok (dlq_maxRetries q) (row_key x) (row_value x)) (rows m) ->
  Z.of_nat (jm_size m) <= Z.max 1 (dlq_maxCapacity q) ->
  dlq_ok (q_with m t e d v q) /\ settings (q_with m t e d v q) = settings q.
Proof. intros Hm Hr Hc. split; [by split|done]. Qed.

Lemma delete_smaller m id : (jm_size (jm_delete id m) <= jm_size m)%nat.
Proof. apply length_filter. Qed.

Lemma delete_records (Q : nat * (string * dlq_record P) -> Prop) m id :
  Forall Q (rows m) -> Forall Q (rows (jm_delete id m)).
Proof. rewrite !Forall_forall. intros Hq r [_ Hr]%list_elem_of_filter. auto. Qed.

Lemma dlq_delete_ok id q :
  dlq_ok q -> dlq_ok (fst (dlq_delete id q)) /\ settings (fst (dlq_delete id q)) = settings q.
Proof.
  intros [Hm Hr Hc]. apply q_with_ok; [by apply jm_delete_wf|by apply delete_records|].
  pose proof (delete_smaller (messages q) id). lia.
Qed.

Lemma dlq_clear_ok q : dlq_ok q -> dlq_ok (dlq_clear q) /\ settings (dlq_clear q) = settings q.
Proof. intros [Hm Hr Hc]. apply q_with_ok; [apply jm_clear_wf|constructor|cbn; lia]. Qed.

(** The queue after [enqueue] at the time [t], for a next retry at [next]. *)
Definition dlq_failure (error : option failure) (t : Z) : dlq_error :=
  {| x_category := errorCategory error; x_message := errorMessage error; x_timestamp := t |}.
Definition failed_record (id channel : string) (payload : P) (err : dlq_error) (next : Z) q : dlq_record P :=
  match jm_get id (messages q) with
  | Some r => failed_again (dlq_maxRetries q) err next r
  | None => failed_first (dlq_maxRetries q) id channel payload err next
  end.
Definition room_for (id : string) q : jsmap string (dlq_record P) * Z :=
  match jm_get id (messages q) with
  | Some _ => (messages q, 0)
  | None => evict_oldest (dlq_maxCapacity q) (messages q)
  end.
Definition enqueued (id channel : string) (payload : P) (error : option failure) (t next : Z) q :
    DeadLetterQueue P :=
  let r := failed_record id channel payload (dlq_failure error t) next q in
  q_with (jm_set id r (fst (room_for id q))) (count_error (errorCategory error) (errorTaxonomy q))
    (totalEnqueued q + 1) (totalRedriven q) (totalEvicted q + snd (room_for id q)) q.

Lemma failed_record_ok id channel payload err next q :
  dlq_ok q -> id <> "" -> channel <> "" ->
  record_ok (dlq_maxRetries q) id (failed_record id channel payload err next q).
Proof.
  intros [_ Hr _] Hi Hc. unfold failed_record. destruct (jm_get id (messages q)) as [r|] eqn:E.
  - apply find_row_Some in E as [s Hs]. rewrite Forall_forall in Hr. destruct (Hr _ Hs). cbn in *.
    split; cbn; [done..|lia|done|done].
  - by split; cbn.
Qed.

Lemma evict_oldest_ok (Q : nat * (string * dlq_record P) -> Prop) c m :
  jm_wf m -> Forall Q (rows m) -> Z.of_nat (jm_size m) <= Z.max 1 c ->
  jm_wf (fst (evict_oldest c m)) /\ Forall Q (rows (fst (evict_oldest c m))) /\
  Z.of_nat (jm_size (fst (evict_oldest c m))) + 1 <= Z.max 1 c.
Proof.
  intros Hm Hr Hc. unfold evict_oldest. destruct (Z.leb_spec c (Z.of_nat (jm_size m))); cbn [fst].
  - unfold jm_keys, jm_size in *. destruct (rows m) as [|x l] eqn:E; cbn [fmap list_fmap head].
    + rewrite E. split; [done|]. split; [done|]. cbn. lia.
    + split; [by apply jm_delete_wf|]. split.
      * apply delete_records. by rewrite E.
      * cbn [rows jm_delete]. rewrite E, filter_cons, decide_False by (intros H'; by apply H').
        pose proof (length_filter (fun y : nat * (string * dlq_record P) => row_key y <> row_key x) l). cbn [length] in Hc. lia.
  - split; [done|]. split; [done|lia].
Qed.

Lemma jm_set_records (Q : nat * (string * dlq_record P) -> Prop) id r m :
  (forall s, Q (s, (id, r))) -> Forall Q (rows m) -> Forall Q (rows (jm_set id r m)).
Proof.
  intros Hq Hm. unfold jm_set. destruct (jm_get id m); cbn [rows].
  - induction Hm as [|x l Hx Hl IH]; [constructor|]. cbn [replace_row]. case_decide; by constructor.
  - apply Forall_app_2; [done|by repeat constructor].
Qed.

Lemma enqueued_ok id channel payload error t next q :
  dlq_ok q -> id <> "" -> channel <> "" ->
  dlq_ok (enqueued id channel payload error t next q) /\
  settings (enqueued id channel payload error t next q) = settings q.
Proof.
  intros Hq Hi Hc. pose proof (failed_record_ok id channel payload (dlq_failure error t) next q Hq Hi Hc) as Hr.
  destruct Hq as [Hm Hrs Hcap]. unfold enqueued. set (r := failed_record _ _ _ _ _ _) in *.
  unfold room_for. destruct (jm_get id (messages q)) eqn:E; cbn [fst].
  - apply q_with_ok; [by apply jm_set_wf|by apply jm_set_records|]. unfold jm_set. rewrite E.
    unfold jm_size. cbn [rows]. rewrite <- (length_fmap fst), replace_row_stamps, length_fmap. exact Hcap.
  - destruct (evict_oldest_ok _ _ _ Hm Hrs Hcap) as (Hm' & Hrs' & Hcap').
    apply q_with_ok; [by apply jm_set_wf|by apply jm_set_records|].
    unfold jm_set. destruct (jm_get id (fst (evict_oldest (dlq_maxCapacity q) (messages q)))).
    + unfold jm_size in *. cbn [rows]. rewrite <- (length_fmap fst), replace_row_stamps, length_fmap. lia.
    + unfold jm_size in *. cbn [rows]. rewrite length_app. cbn [length]. lia.
Qed.
End invariant.

Section operations.
Context {St P : Type}.
Context (get : St -> DeadLetterQueue P) (put : DeadLetterQueue P -> St -> St).
Context (date_now random : M St exn Z) (failure_of : exn -> option failure).
Context (get_put : forall q s, get (put q s) = q).
Context (date_now_returns : forall s, exists s' t, date_now s = (s', inr t) /\ get s' = get s).
Context (random_returns : forall s, exists s' r, random s = (s', inr r) /\ get s' = get s).
Implicit Types (s : St) (r : dlq_record P).

Abbreviation enqueue := (dlq_enqueue get put date_now random).

Lemma update_queue_eq f s :
  exists s', update_queue get put f s = (s', inr tt) /\ get s' = f (get s).
Proof. eexists. split; [reflexivity|]. by rewrite get_put. Qed.

Lemma calculateNextRetry_eq attempt s :
  exists s' next, calculateNextRetry get date_now random attempt s = (s', inr next) /\ get s' = get s.
Proof.
  unfold calculateNextRetry. rewrite (bind_ok (gets get) _ s s (get s)) by done.
  destruct (random_returns s) as (s1 & r & E1 & G1). rewrite (bind_ok _ _ _ _ _ E1).
  destruct (date_now_returns s1) as (s2 & t & E2 & G2). rewrite (bind_ok _ _ _ _ _ E2).
  do 2 eexists. split; [reflexivity|congruence].
Qed.

(** The part of [enqueue] that makes the record and stores it. *)
Lemma enqueue_eq id channel payload error s :
  id <> "" -> channel <> "" ->
  exists s' t next, enqueue id channel payload error s =
      (s', inr (failed_record id channel payload (dlq_failure error t) next (get s))) /\
    get s' = enqueued id channel payload error t next (get s).
Proof.
  intros Hi Hc. unfold dlq_enqueue. rewrite !decide_False by done.
  destruct (date_now_returns s) as (s1 & t & E1 & G1). rewrite (bind_ok _ _ _ _ _ E1).
  rewrite (bind_ok (gets get) _ s1 s1 (get s1)) by done. rewrite G1. cbv zeta.
  unfold failed_record, enqueued, room_for, failed_record. fold (dlq_failure error t).
  destruct (jm_get id (messages (get s))) as [r|] eqn:E.
  - rewrite bind_assoc. destruct (calculateNextRetry_eq (q_attempts r + 1) s1) as (s2 & next & E2 & G2).
    rewrite (bind_ok _ _ _ _ _ E2), bind_assoc.
    edestruct (update_queue_eq) as (s3 & E3 & G3). rewrite (bind_ok _ _ _ _ _ E3).
    rewrite bind_ret_l. edestruct (update_queue_eq) as (s4 & E4 & G4). rewrite (bind_ok _ _ _ _ _ E4).
    exists s4, t, next. split; [reflexivity|]. rewrite G4, G3, G2, G1. unfold q_with. cbn. by rewrite Z.add_0_r.
  - destruct (evict_oldest (dlq_maxCapacity (get s)) (messages (get s))) as [m n] eqn:Ee.
    rewrite bind_assoc. edestruct (update_queue_eq) as (s2 & E2 & G2). rewrite (bind_ok _ _ _ _ _ E2).
    rewrite bind_assoc. destruct (calculateNextRetry_eq 1 s2) as (s3 & next & E3 & G3).
    rewrite (bind_ok _ _ _ _ _ E3), bind_assoc.
    edestruct (update_queue_eq) as (s4 & E4 & G4). rewrite (bind_ok _ _ _ _ _ E4).
    rewrite bind_ret_l. edestruct (update_queue_eq) as (s5 & E5 & G5). rewrite (bind_ok _ _ _ _ _ E5).
    exists s5, t, next. split; [reflexivity|]. rewrite G5, G4, G3, G2, G1. by unfold q_with.
Qed.

(** ** The invariant *)

(** What every computation on the queue keeps. *)
Definition keeps_dlq s s' : Prop :=
  settings (get s') = settings (get s) /\ (dlq_ok (get s) -> dlq_ok (get s')).
#[local] Instance keeps_dlq_preorder : PreOrder keeps_dlq.
Proof.
  split; [by intros s|]. intros s1 s2 s3 [E1 H1] [E2 H2]. split; [congruence|auto].
Qed.

Lemma keeps_dlq_get s s' : get s' = get s -> keeps_dlq s s'.
Proof. intros E. unfold keeps_dlq. by rewrite E. Qed.

Lemma enqueue_keeps id channel payload error : stays keeps_dlq (enqueue id channel payload error).
Proof.
  intros s. destruct (decide (id = "")) as [Hi|Hi].
  { unfold dlq_enqueue. by rewrite decide_True. }
  destruct (decide (channel = "")) as [Hc|Hc].
  { unfold dlq_enqueue. by rewrite decide_False, decide_True. }
  destruct (enqueue_eq id channel payload error s Hi Hc) as (s' & t & next & -> & G).
  unfold keeps_dlq. cbn [fst]. rewrite G. split; [done|]. intros Hq. by apply enqueued_ok.
Qed.

Section with_processor.
Context (processor : P -> string -> M St exn unit).

Lemma redrive_keeps id :
  (forall p c, stays keeps_dlq (processor p c)) ->
  stays keeps_dlq (redrive get put date_now random failure_of processor id).
Proof.
  intros Hp. unfold redrive. apply stays_bind; [apply _|apply stays_gets, _|]. intros q.
  destruct (jm_get id (messages q)) as [r|]; [|apply stays_ret, _].
  apply stays_catch; [apply _| |].
  - apply stays_bind; [apply _|apply Hp|]. intros _. apply stays_bind; [apply _| |intros _; apply stays_ret, _].
    intros s. unfold update_queue, modify, keeps_dlq. cbn [fst]. rewrite get_put.
    split; [done|]. intros [Hm Hr Hc]. apply q_with_ok; [by apply jm_delete_wf|by apply delete_records|].
    pose proof (delete_smaller (messages (get s)) id). lia.
  - intros e. apply stays_bind; [apply _|apply enqueue_keeps|]. intros _. apply stays_ret, _.
Qed.

Lemma redrive_loop_keeps fuel from now a b :
  (forall p c, stays keeps_dlq (processor p c)) ->
  stays keeps_dlq (redrive_loop get put date_now random failure_of processor fuel from now a b).
Proof.
  intros Hp. revert from a b. induction fuel as [|fuel IH]; intros from a b; [apply stays_ret, _|].
  cbn [redrive_loop]. apply stays_bind; [apply _|apply stays_gets, _|]. intros q.
  destruct (jm_next from (messages q)) as [[stamp [id r]]|]; [|apply stays_ret, _].
  destruct (canRetry id now q); [|apply IH].
  apply stays_bind; [apply _|by apply redrive_keeps|]. intros [|]; apply IH.
Qed.

(** C27. Whatever is done with a dead-letter queue, also by a processor that uses it
    while it is called, the queue stays within its capacity, holds every message
    once under its own identifier, and flags as poison exactly the messages that
    have failed [maxRetries] times. *)
Theorem dlq_invariant fuel s id channel payload error :
  (forall p c, stays keeps_dlq (processor p c)) -> dlq_ok (get s) ->
  dlq_ok (get (fst (enqueue id channel payload error s))) /\
  dlq_ok (get (fst (redrive get put date_now random failure_of processor id s))) /\
  dlq_ok (get (fst (redriveEligible get put date_now random failure_of processor fuel s))) /\
  dlq_ok (fst (dlq_delete id (get s))) /\ dlq_ok (dlq_clear (get s)).
Proof.
  intros Hp Hq. split_and!.
  - by apply enqueue_keeps.
  - by apply redrive_keeps.
  - assert (Hk : stays keeps_dlq (redriveEligible get put date_now random failure_of processor fuel));
      [|by apply Hk].
    apply stays_bind; [apply _| |intros t; by apply redrive_loop_keeps].
    intros s0. destruct (date_now_returns s0) as (s1 & t & -> & G). by apply keeps_dlq_get.
  - by apply dlq_delete_ok.
  - by apply dlq_clear_ok.
Qed.
End with_processor.

(** ** A pass over the queue *)
Section pass.
Context (processor : P -> string -> M St exn unit).
(** The processor does not use the queue. *)
Context (processor_frame : forall p c s, get (fst (processor p c s)) = get s).

(** The queue when the message [id] was processed. *)
Definition removed (id : string) (q : DeadLetterQueue P) : DeadLetterQueue P :=
  q_with (jm_delete id (messages q)) (errorTaxonomy q) (totalEnqueued q) (totalRedriven q + 1)
    (totalEvicted q) q.

(** [redriven now s rs rs' a b s']: a pass at the time [now] over the records [rs]
    that starts in the state [s] leaves the records [rs'] and ends in [s'], with
    [a] messages processed and [b] failed.  The processor is called for the
    eligible ones, one after the other: one it returns for leaves the queue, one it
    throws for is enqueued again with that error; nothing else happens between its
    calls, and the others stay. *)
Inductive redriven (now : Z) : St -> list (dlq_record P) -> list (dlq_record P) -> nat -> nat -> St -> Prop :=
  | redriven_nil s : redriven now s [] [] 0 0 s
  | redriven_skip s r rs rs' a b s' :
      eligible now r = false -> redriven now s rs rs' a b s' ->
      redriven now s (r :: rs) (r :: rs') a b s'
  | redriven_success s s1 r rs rs' a b s' :
      eligible now r = true -> processor (q_payload r) (q_channel r) s = (s1, inr tt) ->
      redriven now (put (removed (q_id r) (get s1)) s1) rs rs' a b s' ->
      redriven now s (r :: rs) rs' (S a) b s'
  | redriven_failure s s1 s2 r rs rs' a b s' e t next :
      eligible now r = true -> processor (q_payload r) (q_channel r) s = (s1, inl e) ->
      let again := failed_again (dlq_maxRetries (get s)) (dlq_failure (failure_of e) t) next r in
      enqueue (q_id r) (q_channel r) (q_payload r) (failure_of e) s1 = (s2, inr again) ->
      redriven now s2 rs rs' a b s' ->
      redriven now s (r :: rs) (again :: rs') a (S b) s'.

Abbreviation row := (nat * (string * dlq_record P))%type.
Implicit Types (l : list row).

(** One turn of the loop on an eligible record. *)
Lemma redrive_turn s l l' st id r :
  dlq_ok (get s) -> rows (messages (get s)) = l ++ (st, (id, r)) :: l' ->
  q_id r = id /\
  exists s1 o s2, processor (q_payload r) (q_channel r) s = (s1, o) /\
    dlq_maxRetries (get s2) = dlq_maxRetries (get s) /\ dlq_ok (get s2) /\
    match o with
    | inr _ => s2 = put (removed id (get s1)) s1 /\
        redrive get put date_now random failure_of processor id s = (s2, inr true) /\
        rows (messages (get s2)) = l ++ l'
    | inl e => exists t next,
        let again := failed_again (dlq_maxRetries (get s)) (dlq_failure (failure_of e) t) next r in
        enqueue id (q_channel r) (q_payload r) (failure_of e) s1 = (s2, inr again) /\
        redrive get put date_now random failure_of processor id s = (s2, inr false) /\
        rows (messages (get s2)) = l ++ (st, (id, again)) :: l'
    end.
Proof.
  intros Hq El. pose proof Hq as [Hm Hr Hcap]. assert (Hrow : record_ok (dlq_maxRetries (get s)) id r).
  { rewrite El in Hr. apply Forall_app in Hr as [_ [Hr _]%Forall_cons]. exact Hr. }
  assert (Hnd : NoDup (row_key <$> l ++ (st, (id, r)) :: l')) by (rewrite <- El; apply Hm).
  assert (Hid : id ∉ (row_key <$> l)).
  { intros Hin. rewrite fmap_app in Hnd. apply NoDup_app in Hnd as (_ & Hd & _). apply (Hd _ Hin). left. }
  assert (Hg : jm_get id (messages (get s)) = Some r).
  { unfold jm_get. rewrite El. apply (find_row_In id r _ st Hnd). set_solver. }
  destruct Hrow as [Ei Hne Hch _ _ _]. split; [done|].
  unfold redrive. rewrite (bind_ok (gets get) _ s s (get s)), Hg by done. unfold try_catch.
  pose proof (processor_frame (q_payload r) (q_channel r) s) as Hf.
  destruct (processor (q_payload r) (q_channel r) s) as [s1 [e|[]]] eqn:Ep; cbn [fst] in Hf.
  - exists s1, (inl e). rewrite (bind_err _ _ _ _ _ Ep).
    destruct (enqueue_eq id (q_channel r) (q_payload r) (failure_of e) s1) as (s2 & t & next & E2 & G2); [done..|].
    destruct (enqueued_ok id (q_channel r) (q_payload r) (failure_of e) t next (get s)) as [Hok _]; [done..|].
    rewrite Hf in G2. exists s2. rewrite G2. split; [done|]. split; [done|]. split; [done|].
    exists t, next. cbv zeta. rewrite Ei, (bind_ok _ _ _ _ _ E2). unfold failed_record in E2. rewrite Hf, Hg in E2.
    split; [done|]. split; [done|]. unfold enqueued, failed_record, room_for. rewrite Hg.
    cbn [messages q_with fst]. unfold jm_set. rewrite Hg. cbn [rows]. rewrite El. by apply replace_row_app.
  - exists s1, (inr tt), (put (removed id (get s1)) s1). rewrite (bind_ok _ _ _ _ _ Ep), get_put, Hf.
    split; [done|]. split; [done|]. split.
    + apply q_with_ok; [by apply jm_delete_wf|by apply delete_records|].
      pose proof (delete_smaller (messages (get s)) id). lia.
    + split; [done|]. split; [unfold update_queue, modify, mbind, M_bind; by rewrite Hf|].
      cbn [messages removed q_with rows jm_delete]. rewrite El. by apply (delete_row_app l l' (st, (id, r))).
Qed.

Lemma redrive_loop_pass now l' : forall l fuel from a b s,
  dlq_ok (get s) -> rows (messages (get s)) = l ++ l' ->
  Forall (fun x : row => x.1 < from)%nat l -> Forall (fun x : row => from <= x.1)%nat l' ->
  (length l' < fuel)%nat ->
  exists s' a' b' k, redrive_loop get put date_now random failure_of processor fuel from now a b s
      = (s', inr (Some (a + a', b + b')%nat)) /\
    rows (messages (get s')) = l ++ k /\
    redriven now s (row_value <$> l') (row_value <$> k) a' b' s'.
Proof.
  induction l' as [|[st [id r]] l' IH]; intros l fuel from a b s Hq El Hl Hl' Hf.
  { destruct fuel as [|fuel]; [cbn in Hf; lia|]. exists s, 0%nat, 0%nat, []. cbn [redrive_loop].
    rewrite (bind_ok (gets get) _ s s (get s)) by done. unfold jm_next. rewrite El, next_row_app by done.
    cbn [next_row]. rewrite !Nat.add_0_r. split; [done|]. split; [done|constructor]. }
  destruct fuel as [|fuel]; [cbn in Hf; lia|]. cbn [redrive_loop].
  apply Forall_cons in Hl' as [Hst Hl']. cbn [fst] in Hst.
  rewrite (bind_ok (gets get) _ s s (get s)) by done. unfold jm_next.
  rewrite El, next_row_app by done. cbn [next_row fst].
  destruct (Nat.leb_spec from st); [|lia].
  pose proof (ok_messages _ Hq) as Hm.
  assert (Hl'' : Forall (fun x : row => S st <= x.1)%nat l').
  { pose proof (wf_stamps _ Hm) as Hs. rewrite El in Hs. apply StronglySorted_app_1_r in Hs.
    by inversion Hs. }
  assert (Hl2 : Forall (fun x : row => x.1 < S st)%nat l).
  { eapply Forall_impl; [exact Hl|]. cbn. lia. }
  assert (Hg : jm_get id (messages (get s)) = Some r).
  { unfold jm_get. rewrite El. apply (find_row_In id r _ st); [rewrite <- El; apply Hm|]. set_solver. }
  unfold canRetry. rewrite Hg. cbn [length] in Hf. destruct (eligible now r) eqn:Ee.
  - destruct (redrive_turn s l l' st id r Hq El) as (Ei & s1 & [e|[]] & s2 & Ep & Hmr & Hq2 & Hturn).
    + destruct Hturn as (t & next & E2 & E1 & Hrows). rewrite (bind_ok _ _ _ _ _ E1).
      set (again := failed_again _ _ _ _) in *.
      destruct (IH (l ++ [(st, (id, again))]) fuel (S st) a (S b) s2 Hq2) as (s' & a' & b' & k & -> & Hk & Hp);
        [by rewrite <- app_assoc|by apply Forall_app_2; [|repeat constructor]|done|lia|].
      exists s', a', (S b'), ((st, (id, again)) :: k).
      rewrite Nat.add_succ_comm, Hk, <- app_assoc. split; [done|]. split; [done|]. subst id.
      by apply (redriven_failure now s s1 s2 r _ _ _ _ _ e t next).
    + destruct Hturn as (-> & E1 & Hrows). rewrite (bind_ok _ _ _ _ _ E1).
      destruct (IH l fuel (S st) (S a) b _ Hq2 Hrows Hl2 Hl'' ltac:(lia)) as (s' & a' & b' & k & -> & Hk & Hp).
      exists s', (S a'), b', k. rewrite Nat.add_succ_comm. split; [done|]. split; [done|]. subst id.
      by apply (redriven_success now s s1).
  - destruct (IH (l ++ [(st, (id, r))]) fuel (S st) a b s Hq) as (s' & a' & b' & k & -> & Hk & Hp);
      [by rewrite <- app_assoc|by apply Forall_app_2; [|repeat constructor]|done|lia|].
    exists s', a', b', ((st, (id, r)) :: k). rewrite Hk, <- app_assoc. split; [done|]. split; [done|].
    by apply redriven_skip.
Qed.

(** C26. A pass of [redriveEligible] with a processor that does not use the queue
    ends.  It calls the processor once for every message that is neither poison nor
    waiting for its backoff, in the order of the queue and for no other message; a
    message the processor returns for is removed, one it throws for has failed once
    more, with the error that was thrown; all the others stay as they were and in
    their order.  It returns how many messages were removed and how many failed. *)
Theorem redrive_pass fuel s :
  dlq_ok (get s) -> (jm_size (messages (get s)) < fuel)%nat ->
  exists s1 s' now a b, date_now s = (s1, inr now) /\
    redriveEligible get put date_now random failure_of processor fuel s = (s', inr (Some (a, b))) /\
    redriven now s1 (jm_values (messages (get s))) (jm_values (messages (get s'))) a b s' /\
    (a + b = length (filter (fun r => eligible now r = true) (jm_values (messages (get s)))))%nat.
Proof.
  intros Hq Hf. unfold redriveEligible. destruct (date_now_returns s) as (s1 & now & E1 & G1).
  rewrite (bind_ok _ _ _ _ _ E1).
  destruct (redrive_loop_pass now (rows (messages (get s1))) [] fuel 0 0 0 s1) as (s' & a & b & k & E & Hk & Hp);
    [by rewrite G1|done|constructor|by apply Forall_forall; lia|by rewrite G1|].
  exists s1, s', now, a, b. split; [done|]. split; [done|]. unfold jm_values. rewrite Hk. rewrite G1 in Hp. split; [done|].
  clear -Hp. induction Hp as [|? ? ? ? ? ? ? He|? ? ? ? ? ? ? ? He|? ? ? ? ? ? ? ? ? ? ? ? He]; [done|..];
    rewrite filter_cons, He; cbn [length]; [by rewrite decide_False|rewrite decide_True by done; cbn; lia..].
Qed.
End pass.
End operations.

(** ** A queue at work

    The state is a queue and the time; the processor rejects the payload 0. *)
Definition Desk : Type := DeadLetterQueue nat * Z.
Definition desk_put (q : DeadLetterQueue nat) (s : Desk) : Desk := (q, snd s).
Definition desk_time : M Desk exn Z := gets snd.
Definition desk_random : M Desk exn Z := gets (fun _ => 0).
Definition desk_failure (e : exn) : option failure := None.
Definition desk_processor (payload : nat) (channel : string) : M Desk exn unit :=
  match payload with O => throw (JsError "rejected") | _ => mret tt end.

Definition desk_enqueue (id : string) (payload : nat) (s : Desk) : Desk :=
  fst (dlq_enqueue fst desk_put desk_time desk_random id "leave" payload None s).

(** Two messages at time 0, seen at time 1000. *)
Definition desk : Desk :=
  (fst (desk_enqueue "m2" 1 (desk_enqueue "m1" 0 (new_DeadLetterQueue None None None None, 0))), 1000).

Lemma desk_reads {A} (f : Desk -> A) s :
  exists s' a, (gets f : M Desk exn A) s = (s', inr a) /\ fst s' = fst s.
Proof. by do 2 eexists. Qed.

Lemma desk_ok : dlq_ok (fst desk).
Proof.
  assert (H : forall id p (s : Desk), dlq_ok (fst s) -> dlq_ok (fst (desk_enqueue id p s))).
  { intros id p s. apply (enqueue_keeps fst desk_put); [done|intros; apply desk_reads..]. }
  unfold desk. cbn [fst]. do 2 apply H. apply new_queue_ok.
Qed.

Lemma dlq_invariant_witness :
  dlq_ok (fst (fst (redriveEligible fst desk_put desk_time desk_random desk_failure desk_processor 3 desk))).
Proof.
  apply (dlq_invariant fst desk_put desk_time desk_random desk_failure (fun _ _ => eq_refl)
    (desk_reads snd) (desk_reads (fun _ => 0)) desk_processor 3 desk "m3" "leave" 1%nat None).
  - intros [|p] c s; by apply keeps_dlq_get.
  - apply desk_ok.
Defined.

(** The message with the payload 0 stays with two attempts, the other leaves. *)
Lemma redrive_pass_witness :
  exists s' now a b,
    redriveEligible fst desk_put desk_time desk_random desk_failure desk_processor 3 desk
      = (s', inr (Some (a, b))) /\ (a + b)%nat = 2%nat /\
    redriven fst desk_put desk_time desk_random desk_failure desk_processor now desk
      (jm_values (messages (fst desk))) (jm_values (messages (fst s'))) a b s' /\
    q_attempts <$> jm_values (messages (fst s')) = [2].
Proof.
  destruct (redrive_pass fst desk_put desk_time desk_random desk_failure (fun _ _ => eq_refl)
    (desk_reads snd) (desk_reads (fun _ => 0)) desk_processor) with (fuel := 3%nat) (s := desk)
    as (s1 & s' & now & a & b & Et & E & Hp & Hn).
  - by intros [|p] c s.
  - apply desk_ok.
  - vm_compute. lia.
  - injection Et as <- <-. exists s', 1000, a, b. split; [exact E|]. split; [exact Hn|]. split; [exact Hp|].
    vm_compute in E. injection E as <- _ _. vm_compute. reflexivity.
Defined.
