(* ===== verification/Limiters.v ===== *)
(** * Limiters: [rate-limiter.util.js] and [token-bucket-limiter.util.js]

    Both under [src/common/utils].  A method that reads the clock takes the time
    as its argument. *)

From S2P Require Import Prelude Num DeadLetter.

Local Open Scope Z_scope.

(** ** [RateLimiter] *)
Record RateLimiter := {
  rl_windowMs : Z;
  rl_maxRequests : Z;
  hits : gmap string (list Z);
}.

Definition new_RateLimiter (windowMs maxRequests : option Z) : RateLimiter :=
  {| rl_windowMs := or_number windowMs 60000; rl_maxRequests := or_number maxRequests 100; hits := ∅ |}.

Record rate_result := {
  allowed : bool;
  remaining : Z;
  resetTimeMs : option Z;   (* [None] is NaN *)
  total : nat;
}.

Definition set_hits (key : string) (timestamps : list Z) (rl : RateLimiter) : RateLimiter :=
  {| rl_windowMs := rl_windowMs rl; rl_maxRequests := rl_maxRequests rl;
     hits := <[key := timestamps]> (hits rl) |}.

(** [check(key)] *)
Definition check (now : Z) (key : string) (rl : RateLimiter) : RateLimiter * rate_result :=
  let windowStart := now - rl_windowMs rl in
  let timestamps := default [] (hits rl !! key) in
  let timestamps := filter (fun t => windowStart < t) timestamps in
  if rl_maxRequests rl <=? Z.of_nat (length timestamps) then
    (set_hits key timestamps rl,
     {| allowed := false; remaining := 0;
        resetTimeMs := (fun oldest => oldest + rl_windowMs rl) <$> head timestamps;
        total := length timestamps |})
  else
    let timestamps := timestamps ++ [now] in
    (set_hits key timestamps rl,
     {| allowed := true; remaining := Z.max 0 (rl_maxRequests rl - Z.of_nat (length timestamps));
        resetTimeMs := (fun oldest => oldest + rl_windowMs rl) <$> head timestamps;
        total := length timestamps |}).

(** [reset(key)] and [clear()] *)
Definition rate_reset (key : string) (rl : RateLimiter) : RateLimiter :=
  {| rl_windowMs := rl_windowMs rl; rl_maxRequests := rl_maxRequests rl; hits := delete key (hits rl) |}.
Definition rate_clear (rl : RateLimiter) : RateLimiter :=
  {| rl_windowMs := rl_windowMs rl; rl_maxRequests := rl_maxRequests rl; hits := ∅ |}.

(** A sequence of checks, and what each was answered. *)
Definition verdict : Type := Z * string * bool.
Fixpoint checks (l : list (Z * string)) (rl : RateLimiter) : list verdict :=
  match l with
  | [] => []
  | (now, key) :: l' =>
      let '(rl', r) := check now key rl in (now, key, allowed r) :: checks l' rl'
  end.

(** The times at which [key] was let through. *)
Definition passed (key : string) (vs : list verdict) : list Z :=
  omap (fun v : verdict => if decide (v.1.2 = key) then if v.2 then Some v.1.1 else None else None) vs.
(** How many of them lie in the window [(x, x + w]]. *)
Definition in_window (x w : Z) (ts : list Z) : nat := length (filter (fun t => x < t <= x + w) ts).

(** The limiter knows the passed times [ts] of [key] up to the time [now]: it has
    all of them that a window ending at [now] or later can contain. *)
Record tracks (key : string) (now : Z) (rl : RateLimiter) (ts : list Z) : Prop := {
  tr_split : exists old, ts = old ++ default [] (hits rl !! key) /\
    Forall (fun t => t <= now - rl_windowMs rl) old;
  tr_past : Forall (fun t => t <= now) ts;
  tr_sorted : Sorted Z.le ts;
  tr_bound : forall x, Z.of_nat (in_window x (rl_windowMs rl) ts) <= rl_maxRequests rl;
}.

(** The recent part of a sorted list is its end. *)
Lemma recent_suffix a ts :
  Sorted Z.le ts -> exists old, ts = old ++ filter (fun t => a < t) ts /\ Forall (fun t => t <= a) old.
Proof.
  intros Hs. apply Sorted_StronglySorted in Hs; [|intros ???; lia].
  induction Hs as [|t ts Hs IH Ht]; [by exists []|]. rewrite filter_cons. case_decide as Ha.
  - exists []. split; [|done]. cbn [app]. f_equal. symmetry. apply list_filter_all.
    rewrite Forall_forall in Ht. intros u Hu. specialize (Ht u Hu). lia.
  - destruct IH as (old & E & Ho). exists (t :: old). cbn [app]. split; [by f_equal|].
    constructor; [lia|done].
Qed.

Lemma in_window_app x w ts ts' : in_window x w (ts ++ ts') = (in_window x w ts + in_window x w ts')%nat.
Proof. unfold in_window. by rewrite filter_app, length_app. Qed.
Lemma in_window_le x w ts : (in_window x w ts <= length ts)%nat.
Proof. apply length_filter. Qed.
Lemma in_window_old x w ts : Forall (fun t => t <= x) ts -> in_window x w ts = 0%nat.
Proof.
  intros Ho. unfold in_window. induction Ho as [|t ts Ht Ho IH]; [done|].
  rewrite filter_cons, decide_False by lia. exact IH.
Qed.

Lemma tracks_new key now rl :
  hits rl = ∅ -> 0 <= rl_maxRequests rl -> tracks key now rl [].
Proof.
  intros He Hm. split; [|constructor|constructor|by intros x].
  exists []. by rewrite He, lookup_empty.
Qed.

Lemma check_settings now key rl :
  rl_windowMs (check now key rl).1 = rl_windowMs rl /\ rl_maxRequests (check now key rl).1 = rl_maxRequests rl.
Proof. unfold check. by case_match. Qed.

(** A check of another key. *)
Lemma check_other now key key' t rl ts :
  key <> key' -> tracks key t rl ts -> t <= now -> tracks key now (check now key' rl).1 ts.
Proof.
  intros Hne [(old & E & Ho) Hp Hs Hb] Ht. destruct (check_settings now key' rl) as [Ew Em].
  assert (Eh : hits (check now key' rl).1 !! key = hits rl !! key).
  { unfold check. case_match; cbn; by rewrite lookup_insert_ne. }
  split; rewrite ?Ew, ?Em, ?Eh; [|by eapply Forall_impl; [exact Hp|cbn; lia]|done|done].
  exists old. split; [done|]. eapply Forall_impl; [exact Ho|]. cbn. lia.
Qed.

(** A check of the key. *)
Lemma check_same now key t rl ts :
  0 < rl_windowMs rl -> tracks key t rl ts -> t <= now ->
  tracks key now (check now key rl).1 (if allowed (check now key rl).2 then ts ++ [now] else ts).
Proof.
  intros Hw [(old & E & Ho) Hp Hs Hb] Ht. set (h := default [] (hits rl !! key)) in *.
  assert (Hsh : Sorted Z.le h).
  { apply StronglySorted_Sorted. apply Sorted_StronglySorted in Hs; [|intros ???; lia].
    rewrite E in Hs. by apply StronglySorted_app_1_r in Hs. }
  destruct (recent_suffix (now - rl_windowMs rl) h Hsh) as (dropped & Eh & Hd).
  set (recent := filter (fun u => now - rl_windowMs rl < u) h) in *.
  assert (Hold : Forall (fun u => u <= now - rl_windowMs rl) (old ++ dropped)).
  { apply Forall_app_2; [|done]. eapply Forall_impl; [exact Ho|]. cbn. lia. }
  assert (Ets : ts = (old ++ dropped) ++ recent) by by rewrite <- app_assoc, <- Eh.
  assert (Hp' : Forall (fun u => u <= now) ts) by (eapply Forall_impl; [exact Hp|cbn; lia]).
  unfold check. fold h. fold recent. destruct (Z.leb_spec (rl_maxRequests rl) (Z.of_nat (length recent)));
    cbn [fst snd allowed].
  - split; cbn [set_hits hits rl_windowMs rl_maxRequests]; [|done..].
    rewrite lookup_insert_eq. by exists (old ++ dropped).
  - split; cbn [set_hits hits rl_windowMs rl_maxRequests].
    + rewrite lookup_insert_eq. exists (old ++ dropped). by rewrite Ets, <- !app_assoc.
    + apply Forall_app_2; [done|by constructor].
    + apply StronglySorted_Sorted. apply Sorted_StronglySorted in Hs; [|intros ???; lia].
      apply StronglySorted_app_2; [|done|repeat constructor].
      intros a b Ha ->%list_elem_of_singleton. rewrite Forall_forall in Hp'. auto.
    + intros x. specialize (Hb x). rewrite in_window_app. destruct (decide (x < now <= x + rl_windowMs rl)).
      * rewrite Ets, in_window_app, (in_window_old x _ (old ++ dropped)).
        { pose proof (in_window_le x (rl_windowMs rl) recent). pose proof (in_window_le x (rl_windowMs rl) [now]).
          cbn [length] in *. lia. }
        eapply Forall_impl; [exact Hold|]. cbn. lia.
      * unfold in_window at 2. rewrite filter_cons, decide_False by done. cbn. lia.
Qed.

Lemma checks_tracks key l : forall t rl ts,
  0 < rl_windowMs rl -> tracks key t rl ts -> Sorted Z.le (t :: (fst <$> l)) ->
  forall x, Z.of_nat (in_window x (rl_windowMs rl) (ts ++ passed key (checks l rl))) <= rl_maxRequests rl.
Proof.
  induction l as [|[now k] l IH]; intros t rl ts Hw Ht Hs x.
  { cbn. rewrite app_nil_r. by apply (tr_bound _ _ _ _ Ht). }
  cbn [fmap list_fmap fst] in Hs. apply Sorted_inv in Hs as [Hs Hhd]. apply HdRel_inv in Hhd.
  cbn [checks]. pose proof (check_settings now k rl) as [Ew Em].
  destruct (check now k rl) as [rl' r] eqn:E. cbn [fst] in Ew, Em.
  unfold passed. cbn [omap list_omap fst snd]. fold (passed key (checks l rl')).
  rewrite <- Ew, <- Em. destruct (decide (k = key)) as [->|Hk].
  - pose proof (check_same now key t rl ts Hw Ht Hhd) as H. rewrite E in H. cbn [fst snd] in H.
    destruct (allowed r); [|by apply (IH now); [lia|..]].
    specialize (IH now rl' (ts ++ [now]) ltac:(lia) H Hs x). by rewrite <- app_assoc in IH.
  - assert (key <> k) as Hk' by congruence. pose proof (check_other now key k t rl ts Hk' Ht Hhd) as H.
    rewrite E in H. by apply (IH now); [lia|..].
Qed.

(** C29. However the checks of all clients interleave, a client is let through at
    most [maxRequests] times in any window of [windowMs] milliseconds. *)
Theorem rate_limit_window windowMs maxRequests l key x :
  0 < or_number windowMs 60000 -> 0 <= or_number maxRequests 100 -> Sorted Z.le (fst <$> l) ->
  Z.of_nat (in_window x (or_number windowMs 60000)
    (passed key (checks l (new_RateLimiter windowMs maxRequests)))) <= or_number maxRequests 100.
Proof.
  intros Hw Hm Hs. set (rl := new_RateLimiter windowMs maxRequests).
  destruct l as [|[now k] l]; [cbn; lia|].
  apply (checks_tracks key ((now, k) :: l) now rl []); [done|by apply tracks_new|].
  constructor; [done|]. constructor. done.
Qed.

Lemma rate_limit_window_witness :
  let l := [(0, "ip"); (10, "ip"); (20, "other"); (60, "ip"); (101, "ip")] in
  passed "ip" (checks l (new_RateLimiter (Some 100) (Some 2))) = [0; 10; 101] /\
  Z.of_nat (in_window 1 100 (passed "ip" (checks l (new_RateLimiter (Some 100) (Some 2))))) <= 2.
Proof.
  intros l. split; [reflexivity|].
  apply (rate_limit_window (Some 100) (Some 2) l "ip" 1); [done|done|].
  repeat constructor; done.
Defined.

(** ** [TokenBucketLimiter] *)
Record TokenBucketLimiter := {
  capacity : num;
  refillRatePerSec : num;
  tokens : num;
  lastRefill : Z;
}.

(** [options.n || d] of a number. *)
Definition or_num (n : option num) (d : num) : num :=
  match n with Some x => if num_truthy x then x else d | None => d end.

Definition new_TokenBucketLimiter (now : Z) (cap rate : option num) : TokenBucketLimiter :=
  {| capacity := or_num cap (of_Z 10); refillRatePerSec := or_num rate (of_Z 5);
     tokens := or_num cap (of_Z 10); lastRefill := now |}.

(** [Math.min(x, y)] *)
Definition Math_min (x y : num) : num :=
  if (x <. y)%num then x
  else if (y <. x)%num then y
  else if neqb x y then
    match x, y with
    | SpecFloat.S754_zero true, _ | _, SpecFloat.S754_zero true => SpecFloat.S754_zero true
    | _, _ => x
    end
  else NaN.

(** [_refill()] *)
Definition refill (now : Z) (b : TokenBucketLimiter) : TokenBucketLimiter :=
  let elapsedSeconds := ndiv (of_Z (now - lastRefill b)) (of_Z 1000) in
  {| capacity := capacity b; refillRatePerSec := refillRatePerSec b;
     tokens := Math_min (capacity b) (tokens b +. nmul elapsedSeconds (refillRatePerSec b))%num;
     lastRefill := now |}.

(** [tryConsume(tokens)] *)
Definition tryConsume (now : Z) (n : num) (b : TokenBucketLimiter) : TokenBucketLimiter * bool :=
  let b := refill now b in
  if (n <=. tokens b)%num then
    ({| capacity := capacity b; refillRatePerSec := refillRatePerSec b;
        tokens := (tokens b -. n)%num; lastRefill := lastRefill b |}, true)
  else (b, false).

(** [Number(x.toFixed(k))] of a finite number below [1e21]: the multiple of
    [10^-k] nearest to [x], of two the one further from zero, read back. *)
Definition toFixed (k : Z) (x : num) : num :=
  match x with
  | SpecFloat.S754_finite s m e =>
      let n := if 0 <=? e then Zpos m * 2 ^ e * 10 ^ k
               else (Zpos m * 10 ^ k * 2 + 2 ^ (- e)) / (2 * 2 ^ (- e)) in
      ndiv (of_Z (if s then - n else n)) (of_Z (10 ^ k))
  | _ => x
  end.

(** [getAvailableTokens()] *)
Definition getAvailableTokens (now : Z) (b : TokenBucketLimiter) : TokenBucketLimiter * num :=
  let b := refill now b in (b, toFixed 2 (tokens b)).

Lemma nltb_irrefl (x : num) : (x <. x)%num = false.
Proof.
  destruct x as [[]|[]| |[] m e]; try done; unfold nltb, SpecFloat.SFltb; cbn;
    by rewrite Z.compare_refl, Pos.compare_cont_refl.
Qed.

(** A bucket never holds more than its capacity, however long it was idle. *)
Lemma refill_capped now b : (capacity b <. tokens (refill now b))%num = false.
Proof.
  unfold refill. cbn [tokens]. generalize (tokens b +. nmul (ndiv (of_Z (now - lastRefill b)) (of_Z 1000)) (refillRatePerSec b))%num as y.
  generalize (capacity b) as c. intros c y. unfold Math_min.
  destruct (c <. y)%num eqn:E; [apply nltb_irrefl|]. destruct (y <. c)%num; [done|].
  destruct (neqb c y) eqn:Eq; [|by destruct c as [[]|[]| |[]]].
  destruct c as [[]|[]| |[] m e], y as [[]|[]| |[] m' e']; try done; apply nltb_irrefl.
Qed.
