(* ===== verification/Leases.v ===== *)
(** * Leases: locks, idempotency keys and shared requests

    [lock.util.js], [idempotency.util.js] and [request-deduplication.util.js]
    under [src/common/utils]: three in-memory tables whose entries hold a key
    until a time.  A method that reads the clock takes the times it reads as
    arguments; a fresh uuid is an argument too. *)

From S2P Require Import Prelude Num Domain Hash DeadLetter.

Local Open Scope Z_scope.

(** ** [LockManager] *)
Record lease := { lk_token : string; lk_expiresAt : Z }.
Abbreviation LockManager := (gmap string lease).

Record lock_result := {
  acquired : bool;
  lr_token : option string;
  lr_key : string;
  lr_expiresAt : option Z;
}.

(** [acquireLock(resourceKey, ttlMs)], with [token] from [uuidv4()] *)
Definition acquireLock (now : Z) (token resourceKey : string) (ttlMs : Z) (m : LockManager) :
    LockManager * lock_result :=
  let refused := (m, {| acquired := false; lr_token := None; lr_key := resourceKey; lr_expiresAt := None |}) in
  let granted :=
    let expiresAt := now + ttlMs in
    (<[resourceKey := {| lk_token := token; lk_expiresAt := expiresAt |}]> m,
     {| acquired := true; lr_token := Some token; lr_key := resourceKey; lr_expiresAt := Some expiresAt |}) in
  match m !! resourceKey with
  | Some existing => if now <? lk_expiresAt existing then refused else granted
  | None => granted
  end.

(** [releaseLock(resourceKey, token)] *)
Definition releaseLock (resourceKey token : string) (m : LockManager) : LockManager * bool :=
  match m !! resourceKey with
  | None => (m, false)
  | Some existing =>
      if decide (lk_token existing = token) then (delete resourceKey m, true) else (m, false)
  end.

(** [isLocked(resourceKey)] *)
Definition isLocked (now : Z) (resourceKey : string) (m : LockManager) : LockManager * bool :=
  match m !! resourceKey with
  | None => (m, false)
  | Some existing =>
      if lk_expiresAt existing <=? now then (delete resourceKey m, false) else (m, true)
  end.

(** [reset()] *)
Definition reset_locks (m : LockManager) : LockManager := ∅.

Definition RESOURCE_LOCKED (resourceKey : string) : exn :=
  ErrorObject {| e_code := Some "RESOURCE_LOCKED"; e_driver_code := None; e_response_status := None;
    e_message := ("Resource " +:+ resourceKey +:+ " is locked by another operation")%string |}.

(** [withLock(resourceKey, ttlMs, fn)] over a state that holds the table. *)
Section withLock.
Context {St A : Type} (get : St -> LockManager) (put : LockManager -> St -> St).
Context (date_now : M St exn Z) (uuidv4 : M St exn string).

Definition withLock (resourceKey : string) (ttlMs : Z) (fn : M St exn A) : M St exn A :=
  now ← date_now;
  token ← uuidv4;
  m ← gets get;
  let '(m', lock) := acquireLock now token resourceKey ttlMs m in
  _ ← modify (put m');
  if negb (acquired lock) then throw (RESOURCE_LOCKED resourceKey)
  else try_finally fn (fun s => put (releaseLock resourceKey token (get s)).1 s).
End withLock.

(** Sequences of calls by any number of clients. *)
Inductive lock_op :=
  | Acquire (now : Z) (token key : string) (ttlMs : Z)
  | Release (key token : string)
  | IsLocked (now : Z) (key : string)
  | ResetLocks.
Definition lock_op_run (o : lock_op) (m : LockManager) : LockManager :=
  match o with
  | Acquire now token key ttl => (acquireLock now token key ttl m).1
  | Release key token => (releaseLock key token m).1
  | IsLocked now key => (isLocked now key m).1
  | ResetLocks => reset_locks m
  end.
Definition lock_run (l : list lock_op) (m : LockManager) : LockManager := foldl (fun m o => lock_op_run o m) m l.

(** A call that does not end the lease of [key] by [token]: it comes before the
    lease expires and is not its release. *)
Definition within (key token : string) (expiresAt : Z) (o : lock_op) : Prop :=
  match o with
  | Acquire now _ _ _ | IsLocked now _ => now < expiresAt
  | Release k t => ~ (k = key /\ t = token)
  | ResetLocks => False
  end.

Lemma within_holds key token e o m :
  m !! key = Some {| lk_token := token; lk_expiresAt := e |} -> within key token e o ->
  lock_op_run o m !! key = Some {| lk_token := token; lk_expiresAt := e |}.
Proof.
  intros Hm. destruct o as [now t k ttl|k t|now k|]; cbn [within lock_op_run]; intros Hw; [..|done].
  - unfold acquireLock. cbv zeta. destruct (decide (k = key)) as [->|Hk].
    + rewrite Hm. cbn [lk_expiresAt]. destruct (Z.ltb_spec now e); [done|lia].
    + destruct (m !! k) as [x|]; [destruct (now <? lk_expiresAt x); [done|]|]; cbn [fst]; by rewrite lookup_insert_ne.
  - unfold releaseLock. destruct (decide (k = key)) as [->|Hk].
    + rewrite Hm. cbn [lk_token]. case_decide; [by destruct Hw|done].
    + destruct (m !! k); [case_decide|]; cbn [fst]; rewrite ?lookup_delete_ne; done.
  - unfold isLocked. destruct (decide (k = key)) as [->|Hk].
    + rewrite Hm. cbn [lk_expiresAt]. destruct (Z.leb_spec e now); [lia|done].
    + destruct (m !! k) as [x|]; [destruct (lk_expiresAt x <=? now)|]; cbn [fst]; rewrite ?lookup_delete_ne; done.
Qed.

Lemma within_run key token e l m :
  m !! key = Some {| lk_token := token; lk_expiresAt := e |} -> Forall (within key token e) l ->
  lock_run l m !! key = Some {| lk_token := token; lk_expiresAt := e |}.
Proof.
  intros Hm Hl. revert m Hm. induction Hl as [|o l Ho Hl IH]; intros m Hm; [done|].
  apply IH. by apply within_holds.
Qed.

Lemma acquired_holds now token key ttl m :
  acquired (acquireLock now token key ttl m).2 = true ->
  (acquireLock now token key ttl m).1 !! key = Some {| lk_token := token; lk_expiresAt := now + ttl |}.
Proof. unfold acquireLock. repeat case_match; cbn; try done; by rewrite lookup_insert_eq. Qed.

(** C30. A lock is exclusive: once it is acquired, every attempt to acquire it again
    fails until it expires or its holder releases it, whatever the other clients
    call meanwhile; and its holder can still release it then. *)
Theorem lock_exclusive now token key ttl m l :
  acquired (acquireLock now token key ttl m).2 = true ->
  Forall (within key token (now + ttl)) l ->
  let m' := lock_run l (acquireLock now token key ttl m).1 in
  (forall t token' ttl', t < now + ttl -> acquired (acquireLock t token' key ttl' m').2 = false) /\
  (forall t, t < now + ttl -> (isLocked t key m').2 = true) /\
  (releaseLock key token m').2 = true /\ (releaseLock key token m').1 !! key = None.
Proof.
  intros Ha Hl m'. pose proof (within_run _ _ _ _ _ (acquired_holds _ _ _ _ _ Ha) Hl) as Hm. fold m' in Hm.
  split_and!.
  - intros t token' ttl' Ht. unfold acquireLock. rewrite Hm. cbn [lk_expiresAt].
    by destruct (Z.ltb_spec t (now + ttl)); [|lia].
  - intros t Ht. unfold isLocked. rewrite Hm. cbn [lk_expiresAt]. by destruct (Z.leb_spec (now + ttl) t); [lia|].
  - unfold releaseLock. rewrite Hm. cbn [lk_token]. by rewrite decide_True.
  - unfold releaseLock. rewrite Hm. cbn [lk_token]. rewrite decide_True by done. apply lookup_delete_eq.
Qed.

Lemma lock_exclusive_witness :
  let l := [Acquire 20 "b" "k" 100; Release "k" "b"; IsLocked 30 "k"; Acquire 40 "c" "other" 5] in
  let m' := lock_run l (acquireLock 10 "a" "k" 100 ∅).1 in
  acquired (acquireLock 50 "d" "k" 100 m').2 = false /\ (releaseLock "k" "a" m').2 = true.
Proof.
  intros l m'. destruct (lock_exclusive 10 "a" "k" 100 ∅ l) as (H1 & _ & H2 & _).
  - reflexivity.
  - repeat constructor; cbn; try lia; intros [_ H]; discriminate H.
  - split; [|exact H2]. apply (H1 50 "d" 100). reflexivity.
Defined.

(** [withLock] on a key that is held throws without calling the function. *)
Lemma withLock_held {St A} (get : St -> LockManager) put date_now uuidv4 key ttl (fn : M St exn A) s s1 s2 now token e :
  date_now s = (s1, inr now) -> uuidv4 s1 = (s2, inr token) ->
  get s2 !! key = Some e -> now < lk_expiresAt e ->
  withLock get put date_now uuidv4 key ttl fn s = (put (get s2) s2, inl (RESOURCE_LOCKED key)).
Proof.
  intros E1 E2 He Hn. unfold withLock. rewrite (bind_ok _ _ _ _ _ E1), (bind_ok _ _ _ _ _ E2).
  rewrite (bind_ok (gets get) _ s2 s2 (get s2)) by done. unfold acquireLock. rewrite He.
  destruct (Z.ltb_spec now (lk_expiresAt e)); [done|lia].
Qed.

(** ** [IdempotencyManager] *)
Section idempotency_manager.
Context `{Crypto} {Resp : Type}.

(** [state], with the response of a completed request. *)
Record idem_entry := {
  ie_completed : option Resp;   (* [None] while ['IN_FLIGHT'] *)
  ie_fingerprint : string;
  ie_expiresAt : Z;
}.
Record IdempotencyManager := { im_ttlMs : Z; im_store : gmap string idem_entry }.

Definition new_IdempotencyManager (ttlMs : option Z) : IdempotencyManager :=
  {| im_ttlMs := or_number ttlMs 86400000; im_store := ∅ |}.
Definition set_store (s : gmap string idem_entry) (m : IdempotencyManager) : IdempotencyManager :=
  {| im_ttlMs := im_ttlMs m; im_store := s |}.

(** A request payload: a string, or any other value. *)
Inductive payload := Text (s : string) | Value (j : Json).
(** [payload || {}] *)
Definition or_empty (j : Json) : Json :=
  match j with JUndefined | JNull | JBool false | JInt 0 => JObject [] | _ => j end.
(** [generateFingerprint(payload)] *)
Definition generateFingerprint (p : payload) : string :=
  sha256_hex (match p with Text s => s | Value j => stringify (or_empty j) end).

(** [_cleanup()] *)
Definition cleanup (now : Z) (m : IdempotencyManager) : IdempotencyManager :=
  set_store (filter (fun kv => now < ie_expiresAt kv.2) (im_store m)) m.

Inductive begin_status := NEW | IN_FLIGHT | COMPLETED (response : Resp).

(** [begin(key, payload)]; it reads the clock at [now], and [_cleanup] at [now']. *)
Definition begin (now now' : Z) (key : string) (p : payload) (m : IdempotencyManager) :
    IdempotencyManager * (exn + begin_status) :=
  if decide (key = "") then (m, inl (TypeError "Idempotency key must be a non-empty string"))
  else
    let m := cleanup now' m in
    let fingerprint := generateFingerprint p in
    match im_store m !! key with
    | Some existing =>
        if decide (ie_fingerprint existing = fingerprint) then
          match ie_completed existing with
          | None => (m, inr IN_FLIGHT)
          | Some response => (m, inr (COMPLETED response))
          end
        else (m, inl (JsError "Idempotency key reused with different request payload"))
    | None =>
        (set_store (<[key := {| ie_completed := None; ie_fingerprint := fingerprint;
                               ie_expiresAt := now + im_ttlMs m |}]> (im_store m)) m, inr NEW)
    end.

(** [complete(key, response)] and [remove(key)] *)
Definition complete (key : string) (response : Resp) (m : IdempotencyManager) : IdempotencyManager :=
  match im_store m !! key with
  | None => m
  | Some existing =>
      set_store (<[key := {| ie_completed := Some response; ie_fingerprint := ie_fingerprint existing;
                            ie_expiresAt := ie_expiresAt existing |}]> (im_store m)) m
  end.
Definition remove (key : string) (m : IdempotencyManager) : IdempotencyManager :=
  set_store (delete key (im_store m)) m.

Inductive idem_op :=
  | Begin (now now' : Z) (key : string) (p : payload)
  | Complete (key : string) (response : Resp)
  | Remove (key : string).
Definition idem_op_run (o : idem_op) (m : IdempotencyManager) : IdempotencyManager :=
  match o with
  | Begin now now' key p => (begin now now' key p m).1
  | Complete key response => complete key response m
  | Remove key => remove key m
  end.
Definition idem_run (l : list idem_op) (m : IdempotencyManager) : IdempotencyManager :=
  foldl (fun m o => idem_op_run o m) m l.

(** A call before [expiresAt] that does not remove [key]. *)
Definition idem_within (key : string) (expiresAt : Z) (o : idem_op) : Prop :=
  match o with
  | Begin _ now' _ _ => now' < expiresAt
  | Complete _ _ => True
  | Remove k => k <> key
  end.
(** The response [key] has after a call. *)
Definition answered (key : string) (r : option Resp) (o : idem_op) : option Resp :=
  match o with
  | Complete k response => if decide (k = key) then Some response else r
  | _ => r
  end.

Lemma cleanup_lookup now m key e :
  im_store m !! key = Some e -> now < ie_expiresAt e -> im_store (cleanup now m) !! key = Some e.
Proof. intros Hm He. cbn [cleanup set_store im_store]. by apply map_lookup_filter_Some. Qed.

Lemma idem_op_holds key fp e r o m :
  im_store m !! key = Some {| ie_completed := r; ie_fingerprint := fp; ie_expiresAt := e |} ->
  idem_within key e o ->
  im_store (idem_op_run o m) !! key =
    Some {| ie_completed := answered key r o; ie_fingerprint := fp; ie_expiresAt := e |}.
Proof.
  intros Hm. destruct o as [now now' k p|k response|k]; cbn [idem_within idem_op_run answered]; intros Hw.
  - unfold begin. case_decide; [done|]. pose proof (cleanup_lookup now' m key _ Hm Hw) as Hc.
    destruct (decide (k = key)) as [->|Hk]; [rewrite Hc; by repeat case_match|].
    repeat case_match; cbn [fst set_store im_store]; try done. by rewrite lookup_insert_ne.
  - unfold complete. case_decide as Hk; [subst; rewrite Hm; cbn [set_store im_store]; by rewrite lookup_insert_eq|].
    case_match; [|done]. cbn [set_store im_store]. by rewrite lookup_insert_ne.
  - cbn [remove set_store im_store]. by rewrite lookup_delete_ne.
Qed.

Lemma idem_run_holds key fp e l : forall r m,
  im_store m !! key = Some {| ie_completed := r; ie_fingerprint := fp; ie_expiresAt := e |} ->
  Forall (idem_within key e) l ->
  im_store (idem_run l m) !! key =
    Some {| ie_completed := foldl (answered key) r l; ie_fingerprint := fp; ie_expiresAt := e |}.
Proof.
  induction l as [|o l IH]; intros r m Hm Hl; [done|]. apply Forall_cons in Hl as [Ho Hl].
  cbn [idem_run foldl]. apply IH; [|done]. by apply idem_op_holds.
Qed.

(** A key is processed once: after [begin] answered NEW, every [begin] with the
    key before it expires is told that the request is in flight or, once it is
    completed, the stored response, and a different payload is refused. *)
Theorem begin_once now now' key p m l t t' p' :
  (begin now now' key p m).2 = inr NEW ->
  Forall (idem_within key (now + im_ttlMs m)) l -> t' < now + im_ttlMs m ->
  (begin t t' key p' (idem_run l (begin now now' key p m).1)).2 =
    (if decide (generateFingerprint p' = generateFingerprint p) then
       inr (match foldl (answered key) None l with
            | None => IN_FLIGHT
            | Some response => COMPLETED response
            end)
     else inl (JsError "Idempotency key reused with different request payload")).
Proof.
  intros Hn Hl Ht. assert (Hk : key <> "").
  { intros ->. unfold begin in Hn. by rewrite decide_True in Hn. }
  assert (Hm : im_store (begin now now' key p m).1 !! key =
            Some {| ie_completed := None; ie_fingerprint := generateFingerprint p; ie_expiresAt := now + im_ttlMs m |}).
  { unfold begin in *. rewrite decide_False in * by done. repeat case_match; try done.
    cbn [fst set_store im_store]. by rewrite lookup_insert_eq. }
  pose proof (idem_run_holds _ _ _ l _ _ Hm Hl) as Hr. apply (cleanup_lookup t') in Hr; [|done].
  clear Hn Hm. revert Hr. generalize (idem_run l (begin now now' key p m).1) as m1. intros m1 Hr.
  unfold begin. rewrite decide_False, Hr by done. cbn [ie_fingerprint ie_completed].
  destruct (decide (generateFingerprint p = _)) as [E|E].
  - rewrite decide_True by done. by destruct (foldl (answered key) None l).
  - rewrite decide_False by congruence. done.
Qed.
End idempotency_manager.

Lemma begin_once_witness :
  let c := {| sha256_hex := fun s => s |} in
  let m : IdempotencyManager (Resp := nat) := new_IdempotencyManager (Some 100) in
  let l := [Complete "k" 7%nat; Begin 20 20 "other" (Text "q")] in
  (@begin c nat 30 30 "k" (Text "p") (idem_run l (begin 10 10 "k" (Text "p") m).1)).2 = inr (COMPLETED 7%nat).
Proof.
  intros c m l. rewrite (begin_once 10 10 "k" (Text "p") m l 30 30 (Text "p")); [reflexivity|reflexivity| |reflexivity].
  repeat constructor.
Defined.

(** ** [RequestDeduplicator]

    A call either starts its task, whose promise it puts in the cache, or shares
    the promise of an earlier call.  Promises are numbered. *)
Record cached_request := { cr_promise : nat; cr_expiresAt : Z }.
Record RequestDeduplicator := {
  rd_ttlMs : Z;
  rd_cache : gmap string cached_request;
  rd_started : nat;   (* promises made so far *)
}.
Definition new_RequestDeduplicator (ttlMs : option Z) : RequestDeduplicator :=
  {| rd_ttlMs := or_number ttlMs 60000; rd_cache := ∅; rd_started := 0 |}.

Inductive dedup_result := Shared (promise : nat) | Started (promise : nat).

(** [execute(key, taskFn)] up to its first [await]; it reads the clock at [now],
    and at [now'] for the entry it stores. *)
Definition execute (now now' : Z) (key : string) (d : RequestDeduplicator) :
    RequestDeduplicator * dedup_result :=
  let n := rd_started d in
  let start cache :=
    ({| rd_ttlMs := rd_ttlMs d;
        rd_cache := <[key := {| cr_promise := n; cr_expiresAt := now' + rd_ttlMs d |}]> cache;
        rd_started := S n |}, Started n) in
  if decide (key = "") then
    ({| rd_ttlMs := rd_ttlMs d; rd_cache := rd_cache d; rd_started := S n |}, Started n)
  else
    match rd_cache d !! key with
    | Some existing =>
        if now <? cr_expiresAt existing then (d, Shared (cr_promise existing))
        else start (delete key (rd_cache d))
    | None => start (rd_cache d)
    end.

(** The [catch] block of the call that started a task which failed. *)
Definition task_failed (key : string) (d : RequestDeduplicator) : RequestDeduplicator :=
  if decide (key = "") then d
  else {| rd_ttlMs := rd_ttlMs d; rd_cache := delete key (rd_cache d); rd_started := rd_started d |}.

(** [clear()] *)
Definition clear_requests (d : RequestDeduplicator) : RequestDeduplicator :=
  {| rd_ttlMs := rd_ttlMs d; rd_cache := ∅; rd_started := rd_started d |}.

(** Until it expires, the promise of a key is shared by every call. *)
Lemma execute_shares now now' key d t t' :
  key <> "" -> (exists n, (execute now now' key d).2 = Started n) -> t < now' + rd_ttlMs d ->
  (execute t t' key (execute now now' key d).1).2 = Shared (rd_started d).
Proof.
  intros Hk [n Hs] Ht. unfold execute in Hs |- *. rewrite (decide_False (P := key = "")) in Hs by done.
  rewrite !(decide_False (P := key = "")) by done. cbv zeta in Hs |- *.
  destruct (rd_cache d !! key) as [x|]; [destruct (now <? cr_expiresAt x); [done|]|];
    cbn [fst rd_cache]; rewrite lookup_insert_eq; cbn [cr_expiresAt cr_promise];
    by destruct (Z.ltb_spec t (now' + rd_ttlMs d)); [|lia].
Qed.

(** A task that fails after its entry expired takes the entry of the task started
    since out of the cache, and the third call starts the request once more. *)
Example late_failure_evicts_the_next :
  let d0 := new_RequestDeduplicator (Some 100) in
  let d1 := (execute 0 0 "k" d0).1 in
  let d2 := (execute 150 150 "k" d1).1 in
  (execute 160 160 "k" d2).2 = Shared 1 /\
  (execute 160 160 "k" (task_failed "k" d2)).2 = Started 2.
Proof. by vm_compute. Qed.
