(* ===== verification/Traceparent.v ===== *)
(** * Trace context: [src/common/utils/traceparent.util.js]

    A header is a string of code units below 256, as Node reads headers.  Random
    bytes are arguments. *)

From Stdlib Require Import Strings.Ascii Strings.Byte.
From S2P Require Import Prelude Num NumText Domain Dates.

Local Open Scope string_scope.

Definition VERSION : string := "00".
Definition SAMPLED_FLAG : string := "01".
Definition NOT_SAMPLED_FLAG : string := "00".

Record parsed := {
  tp_version : string;
  tp_traceId : string;
  tp_parentId : string;
  tp_sampled : bool;
}.

(** A digit of [0-9a-f]. *)
Definition hex_value (c : ascii) : option N :=
  let n := N_of_ascii c in
  if ((48 <=? n) && (n <=? 57))%N then Some (n - 48)%N
  else if ((97 <=? n) && (n <=? 102))%N then Some (n - 87)%N
  else None.
Fixpoint all_hex (s : string) : bool :=
  match s with
  | String c s' => (match hex_value c with Some _ => true | None => false end) && all_hex s'
  | "" => true
  end.
(** [/^[0-9a-f]{n}$/.test(s)] *)
Definition hex_string (n : nat) (s : string) : bool := (String.length s =? n)%nat && all_hex s.
(** [parseInt(s, 16)] of such a string. *)
Fixpoint parse_hex (acc : N) (s : string) : N :=
  match s with
  | String c s' => parse_hex (16 * acc + default 0%N (hex_value c)) s'
  | "" => acc
  end.
(** ['0'.repeat(n)] *)
Fixpoint zeros (n : nat) : string := match n with O => "" | S n => String "0" (zeros n) end.

(** [parseTraceparent(headerValue)] *)
Definition parseTraceparent (headerValue : option string) : option parsed :=
  match headerValue with
  | None | Some "" => None
  | Some h =>
      match split "-" (trim h) with
      | [version; traceId; parentId; flags] =>
          if negb (hex_string 2 version) then None
          else if decide (version = "ff") then None
          else if negb (hex_string 32 traceId) then None
          else if decide (traceId = zeros 32) then None
          else if negb (hex_string 16 parentId) then None
          else if decide (parentId = zeros 16) then None
          else if negb (hex_string 2 flags) then None
          else Some {| tp_version := version; tp_traceId := traceId; tp_parentId := parentId;
                       tp_sampled := N.odd (parse_hex 0 flags) |}
      | _ => None
      end
  end.

(** [bytes.toString('hex')] *)
Definition hex_char (n : N) : ascii := ascii_of_N (if (n <? 10)%N then 48 + n else 87 + n).
Fixpoint to_hex (bytes : list byte) : string :=
  match bytes with
  | [] => ""
  | b :: bs => String (hex_char (Byte.to_N b / 16)) (String (hex_char (Byte.to_N b mod 16)) (to_hex bs))
  end.

Definition flag (sampled : bool) : string := if sampled then SAMPLED_FLAG else NOT_SAMPLED_FLAG.
(** [`${a}-${b}-${c}-${d}`] *)
Definition header (a b c d : string) : string := a ++ "-" ++ b ++ "-" ++ c ++ "-" ++ d.

(** [generateTraceparent(sampled)], with its 16 and 8 random bytes. *)
Definition generateTraceparent (trace parent : list byte) (sampled : option bool) : string :=
  header VERSION (to_hex trace) (to_hex parent) (flag (default true sampled)).

(** [continueTrace(incomingTraceparent, sampled)] *)
Definition continueTrace (trace parent : list byte) (incoming : option string) (sampled : option bool) : string :=
  match parseTraceparent incoming with
  | None => generateTraceparent trace parent (Some (default true sampled))
  | Some p => header VERSION (tp_traceId p) (to_hex parent) (flag (default (tp_sampled p) sampled))
  end.

Record span := { sp_traceId : string; sp_spanId : string; sp_sampled : bool; sp_fresh : bool }.
(** [extractSpanContext(headerValue)] *)
Definition extractSpanContext (trace parent : list byte) (headerValue : option string) : exn + span :=
  match parseTraceparent headerValue with
  | None =>
      match parseTraceparent (Some (generateTraceparent trace parent None)) with
      | Some p => inr {| sp_traceId := tp_traceId p; sp_spanId := tp_parentId p; sp_sampled := true; sp_fresh := true |}
      | None => inl (JsError "Cannot read properties of null (reading 'traceId')")
      end
  | Some p => inr {| sp_traceId := tp_traceId p; sp_spanId := tp_parentId p;
                     sp_sampled := tp_sampled p; sp_fresh := false |}
  end.

(** ** Printing and parsing *)

Lemma hex_char_value n : (n < 16)%N -> hex_value (hex_char n) = Some n.
Proof.
  intros Hn. assert (H : In n (map N.of_nat (seq 0 16))).
  { apply in_map_iff. exists (N.to_nat n). split; [lia|]. apply in_seq. lia. }
  cbn in H. repeat destruct H as [<-|H]; [reflexivity..|done].
Qed.

Lemma to_hex_hex bs : hex_string (2 * length bs) (to_hex bs) = true.
Proof.
  unfold hex_string. apply andb_true_iff. split.
  - apply Nat.eqb_eq. induction bs as [|b bs IH]; [done|]. cbn [to_hex String.length length]. lia.
  - induction bs as [|b bs IH]; [done|]. pose proof (Byte.to_N_bounded b).
    cbn [to_hex all_hex]. rewrite !hex_char_value; [exact IH|apply N.mod_lt; lia|].
    apply N.Div0.div_lt_upper_bound. lia.
Qed.

(** A hexadecimal string has no dash and no white space. *)
Fixpoint clean (s : string) : bool :=
  match s with
  | String c s' => negb (Ascii.eqb c "-") && negb (is_space c) && clean s'
  | "" => true
  end.
Lemma hex_clean s : all_hex s = true -> clean s = true.
Proof.
  induction s as [|c s IH]; [done|]. cbn [all_hex clean]. intros [Hc Hs]%andb_true_iff.
  rewrite (IH Hs), andb_true_r. destruct (Ascii.eqb_spec c "-") as [->|]; [done|]. cbn [negb andb].
  assert (Hr : (48 <= N_of_ascii c <= 57 \/ 97 <= N_of_ascii c <= 102)%N).
  { unfold hex_value in Hc. cbv zeta in Hc.
    destruct (N.leb_spec 48 (N_of_ascii c)), (N.leb_spec (N_of_ascii c) 57); [by left|cbn [andb] in Hc..].
    all: destruct (N.leb_spec 97 (N_of_ascii c)), (N.leb_spec (N_of_ascii c) 102); [by right|done..]. }
  unfold is_space. cbv zeta. apply negb_true_iff.
  destruct (N.leb_spec 9 (N_of_ascii c)), (N.leb_spec (N_of_ascii c) 13),
    (N.eqb_spec (N_of_ascii c) 32), (N.eqb_spec (N_of_ascii c) 160); try done; lia.
Qed.

Lemma split_not_nil c s : split c s <> [].
Proof. destruct s as [|d s]; [done|]. cbn [split]. destruct (split c s); [done|]. by case_match. Qed.

Lemma split_clean a s : clean a = true -> split "-" (a ++ String "-" s) = a :: split "-" s.
Proof.
  induction a as [|c a IH]; cbn [clean].
  - intros _. pose proof (split_not_nil "-" s). simpl. destruct (split "-" s); [done|reflexivity].
  - intros [[Hd _]%andb_true_iff Ha]%andb_true_iff. change (String c a ++ String "-" s) with (String c (a ++ String "-" s)). cbn [split]. rewrite (IH Ha).
    apply negb_true_iff in Hd. by rewrite Hd.
Qed.

Lemma split_last a : clean a = true -> split "-" a = [a].
Proof.
  induction a as [|c a IH]; [done|]. cbn [clean]. intros [[Hd _]%andb_true_iff Ha]%andb_true_iff.
  cbn [split]. rewrite (IH Ha). apply negb_true_iff in Hd. by rewrite Hd.
Qed.

Lemma split_header a b c d :
  clean a = true -> clean b = true -> clean c = true -> clean d = true ->
  split "-" (header a b c d) = [a; b; c; d].
Proof.
  intros Ha Hb Hc Hd. unfold header.
  change ("-" ++ b ++ "-" ++ c ++ "-" ++ d)
    with (String "-" (b ++ String "-" (c ++ String "-" d))).
  by rewrite !split_clean, split_last.
Qed.

(** [trim] of a text without white space. *)
Fixpoint no_space (s : string) : bool :=
  match s with String c s' => negb (is_space c) && no_space s' | "" => true end.
Lemma clean_no_space s : clean s = true -> no_space s = true.
Proof.
  induction s as [|c s IH]; [done|]. cbn [clean no_space].
  intros [[_ Hc]%andb_true_iff Hs]%andb_true_iff. by rewrite Hc, IH.
Qed.
Lemma no_space_app s t : no_space (s ++ t) = no_space s && no_space t.
Proof. induction s as [|c s IH]; [done|]. change (String c s ++ t) with (String c (s ++ t)). cbn [no_space]. by rewrite IH, andb_assoc. Qed.
Lemma trim_no_space s : no_space s = true -> trim s = s.
Proof.
  intros Hs. unfold trim. assert (He : forall s, no_space s = true -> trim_end s = s).
  { clear s Hs. induction s as [|c s IH]; [done|]. cbn [no_space trim_end].
    intros [Hc Hs]%andb_true_iff. rewrite (IH Hs). apply negb_true_iff in Hc. rewrite Hc. by destruct s. }
  destruct s as [|c s]; [done|]. cbn [trim_start]. cbn [no_space] in Hs.
  pose proof Hs as [Hc _]%andb_true_iff. apply negb_true_iff in Hc. rewrite Hc. by apply He.
Qed.

Lemma hex_string_clean n s : hex_string n s = true -> clean s = true.
Proof. intros [_ H]%andb_true_iff. by apply hex_clean. Qed.

(** A header of well-formed parts parses to them. *)
Lemma parse_header v t p f :
  hex_string 2 v = true -> v <> "ff" -> hex_string 32 t = true -> t <> zeros 32 ->
  hex_string 16 p = true -> p <> zeros 16 -> hex_string 2 f = true ->
  parseTraceparent (Some (header v t p f)) =
    Some {| tp_version := v; tp_traceId := t; tp_parentId := p; tp_sampled := N.odd (parse_hex 0 f) |}.
Proof.
  intros Hv Hv' Ht Ht' Hp Hp' Hf. unfold parseTraceparent.
  assert (Hc : forall n s, hex_string n s = true -> no_space s = true)
    by (intros n s Hs; by eapply clean_no_space, hex_string_clean).
  assert (Htr : trim (header v t p f) = header v t p f).
  { apply trim_no_space. unfold header. rewrite !no_space_app. cbn [no_space].
    by rewrite (Hc _ _ Hv), (Hc _ _ Ht), (Hc _ _ Hp), (Hc _ _ Hf). }
  rewrite Htr, split_header by (eapply hex_string_clean; eassumption).
  rewrite Hv, Ht, Hp, Hf, !decide_False by done. by destruct v.
Qed.

(** What is parsed is well formed, and the header is its text up to white space
    at the ends. *)
Definition parsed_ok (p : parsed) : Prop :=
  hex_string 2 (tp_version p) = true /\ tp_version p <> "ff" /\
  hex_string 32 (tp_traceId p) = true /\ tp_traceId p <> zeros 32 /\
  hex_string 16 (tp_parentId p) = true /\ tp_parentId p <> zeros 16.

Lemma parse_ok h p : parseTraceparent h = Some p -> parsed_ok p.
Proof.
  unfold parseTraceparent. destruct h as [[|c h]|]; [done| |done].
  destruct (split "-" (trim (String c h))) as [|v [|t [|pa [|f [|]]]]]; try done.
  destruct (hex_string 2 v) eqn:Hv; [|done]. cbn [negb]. case_decide; [done|].
  destruct (hex_string 32 t) eqn:Ht; [|done]. cbn [negb]. case_decide; [done|].
  destruct (hex_string 16 pa) eqn:Hp; [|done]. cbn [negb]. case_decide; [done|].
  destruct (hex_string 2 f); [|done]. by intros [= <-].
Qed.

(** Random bytes that are not all zero make an identifier that is not. *)
Lemma hex_char_zero n : (n < 16)%N -> hex_char n = "0"%char -> n = 0%N.
Proof. intros Hn E. pose proof (hex_char_value n Hn) as H. rewrite E in H. by injection H. Qed.
Lemma to_hex_zeros bs : to_hex bs = zeros (2 * length bs) -> Forall (fun b => b = x00) bs.
Proof.
  induction bs as [|b bs IH]; [constructor|]. pose proof (Byte.to_N_bounded b).
  replace (2 * length (b :: bs))%nat with (S (S (2 * length bs))) by (cbn; lia).
  cbn [to_hex zeros]. intros [= E1 E2 E3].
  apply hex_char_zero in E1; [|apply N.Div0.div_lt_upper_bound; lia].
  apply hex_char_zero in E2; [|apply N.mod_lt; lia]. constructor; [|by apply IH].
  assert (E : Byte.to_N b = 0%N).
  { pose proof (N.div_mod (Byte.to_N b) 16). lia. }
  assert (Byte.of_N (Byte.to_N b) = Some x00) as Hb by by rewrite E.
  rewrite Byte.of_to_N in Hb. by injection Hb.
Qed.

(** An identifier of [n] random bytes, not all zero. *)
Definition random_id (n : nat) (bs : list byte) : Prop :=
  length bs = n /\ ~ Forall (fun b => b = x00) bs.

Lemma random_id_hex n bs :
  random_id n bs -> hex_string (2 * n) (to_hex bs) = true /\ to_hex bs <> zeros (2 * n).
Proof. intros [<- Hz]. split; [apply to_hex_hex|]. by intros E%to_hex_zeros. Qed.

Lemma flag_parsed s : hex_string 2 (flag s) = true /\ N.odd (parse_hex 0 (flag s)) = s.
Proof. by destruct s. Qed.

(** C31. Headers round-trip: a generated header parses to the identifiers and the
    flag it was made of, and a continued trace keeps the incoming trace id, carries
    the new span id and the flag that was asked for or else the incoming one. *)
Theorem traceparent_roundtrip trace parent sampled incoming :
  random_id 16 trace -> random_id 8 parent ->
  parseTraceparent (Some (generateTraceparent trace parent sampled)) =
    Some {| tp_version := "00"; tp_traceId := to_hex trace; tp_parentId := to_hex parent;
            tp_sampled := default true sampled |} /\
  (forall p, parseTraceparent incoming = Some p ->
    parseTraceparent (Some (continueTrace trace parent incoming sampled)) =
      Some {| tp_version := "00"; tp_traceId := tp_traceId p; tp_parentId := to_hex parent;
              tp_sampled := default (tp_sampled p) sampled |}).
Proof.
  intros [Ht Ht']%random_id_hex [Hp Hp']%random_id_hex. split.
  - unfold generateTraceparent. destruct (flag_parsed (default true sampled)) as [Hf Ef].
    rewrite parse_header by done. by rewrite Ef.
  - intros p Hi. unfold continueTrace. rewrite Hi. apply parse_ok in Hi as (_ & _ & Hti & Hti' & _ & _).
    destruct (flag_parsed (default (tp_sampled p) sampled)) as [Hf Ef].
    rewrite parse_header by done. by rewrite Ef.
Qed.

Lemma traceparent_roundtrip_witness :
  let trace := repeat x4b 16 in let parent := repeat x0f 8 in
  let incoming := Some " 00-4bf92f3577b34da6a3ce929d0e0e4736-00f067aa0ba902b7-00 " in
  parseTraceparent (Some (continueTrace trace parent incoming None)) =
    Some {| tp_version := "00"; tp_traceId := "4bf92f3577b34da6a3ce929d0e0e4736";
            tp_parentId := "0f0f0f0f0f0f0f0f"; tp_sampled := false |}.
Proof.
  intros trace parent incoming. destruct (traceparent_roundtrip trace parent None incoming) as [_ H].
  - split; [reflexivity|]. intros Hf. apply Forall_cons in Hf as [Hf _]. discriminate Hf.
  - split; [reflexivity|]. intros Hf. apply Forall_cons in Hf as [Hf _]. discriminate Hf.
  - rewrite (H {| tp_version := "00"; tp_traceId := "4bf92f3577b34da6a3ce929d0e0e4736";
                  tp_parentId := "00f067aa0ba902b7"; tp_sampled := false |}); vm_compute; reflexivity.
Defined.
