(* ===== verification/JsonText.v ===== *)
(** * The text of JSON values determines them

    [JSON.stringify] ([stringify] of [Hash]) loses nothing but what it leaves out
    on purpose: a field that is [undefined] and the difference between [undefined]
    and [null] in an array.  [serialized] is the value without these, and
    [stringify_inj] reads it back from the text, whatever follows the text. *)

From Stdlib Require Import Strings.Ascii.
From stdpp Require Import pretty.
From S2P Require Import Prelude NumText Hash.

(** ** Induction over values and the values in them *)
Section nested.
Variable P : Json -> Prop.
Hypothesis H_undefined : P JUndefined.
Hypothesis H_null : P JNull.
Hypothesis H_bool : forall b, P (JBool b).
Hypothesis H_int : forall n, P (JInt n).
Hypothesis H_string : forall s, P (JString s).
Hypothesis H_array : forall xs, Forall P xs -> P (JArray xs).
Hypothesis H_object : forall fs, Forall (fun kv => P kv.2) fs -> P (JObject fs).

Fixpoint json_nested (j : Json) : P j :=
  match j with
  | JUndefined => H_undefined
  | JNull => H_null
  | JBool b => H_bool b
  | JInt n => H_int n
  | JString s => H_string s
  | JArray xs => H_array xs
      ((fix go xs := match xs return Forall P xs with
                     | [] => Forall_nil_2 _
                     | x :: xs => Forall_cons_2 _ x xs (json_nested x) (go xs)
                     end) xs)
  | JObject fs => H_object fs
      ((fix go fs := match fs return Forall (fun kv => P kv.2) fs with
                     | [] => Forall_nil_2 _
                     | kv :: fs => Forall_cons_2 _ kv fs (json_nested kv.2) (go fs)
                     end) fs)
  end.
End nested.

(** ** What is left of a value in its text *)
Definition present (kv : string * Json) : option (string * Json) :=
  match kv.2 with JUndefined => None | _ => Some kv end.
Definition item (j : Json) : Json := match j with JUndefined => JNull | _ => j end.

Fixpoint serialized (j : Json) : Json :=
  match j with
  | JArray xs => JArray (map (fun x => item (serialized x)) xs)
  | JObject fs => JObject (omap (fun x => x)
      (map (fun '(k, v) => present (k, serialized v)) fs))
  | _ => j
  end.

Lemma serialized_undefined j : serialized j = JUndefined <-> j = JUndefined.
Proof. by destruct j. Qed.

(** ** Strings *)
Lemma app_assoc_string (a b c : string) : (a +:+ b) +:+ c = a +:+ (b +:+ c).
Proof. induction a as [|x a IH]; [done|].
  change (String x ((a +:+ b) +:+ c) = String x (a +:+ (b +:+ c))). by rewrite IH.
Qed.
Lemma string_app_inj (p x y : string) : p +:+ x = p +:+ y -> x = y.
Proof. induction p as [|c p IH]; [done|]. intros [= E]. by apply IH. Qed.

(** The first character of a quoted text and the rest of the text. *)
Definition hex_digit_value (c : ascii) : N :=
  let n := N_of_ascii c in if (n <? 58)%N then (n - 48)%N else (n - 87)%N.
Definition unescape (s : string) : option (ascii * string) :=
  match s with
  | String "\" (String c r) =>
      if Ascii.eqb c "b" then Some (ascii_of_N 8, r)
      else if Ascii.eqb c "t" then Some (ascii_of_N 9, r)
      else if Ascii.eqb c "n" then Some (ascii_of_N 10, r)
      else if Ascii.eqb c "f" then Some (ascii_of_N 12, r)
      else if Ascii.eqb c "r" then Some (ascii_of_N 13, r)
      else if Ascii.eqb c "u" then
        match r with
        | String _ (String _ (String a (String b r))) =>
            Some (ascii_of_N (16 * hex_digit_value a + hex_digit_value b), r)
        | _ => None
        end
      else Some (c, r)
  | String c r => Some (c, r)
  | "" => None
  end.

Lemma unescape_quote c s : unescape (quote_char c +:+ s) = Some (c, s).
Proof. destruct c as [[] [] [] [] [] [] [] []]; reflexivity. Qed.
Lemma quote_char_not_quote c s t : quote_char c +:+ s <> dquote +:+ t.
Proof. destruct c as [[] [] [] [] [] [] [] []]; discriminate. Qed.

Lemma quote_body_inj s s' t t' :
  quote_body s +:+ (dquote +:+ t) = quote_body s' +:+ (dquote +:+ t') -> s = s' /\ t = t'.
Proof.
  revert s'. induction s as [|c s IH]; intros [|c' s']; cbn [quote_body]; rewrite ?app_assoc_string.
  - intros E. split; [done|]. by injection E.
  - intros E. symmetry in E. by apply quote_char_not_quote in E.
  - intros E. by apply quote_char_not_quote in E.
  - intros E. apply (f_equal unescape) in E. rewrite !unescape_quote in E. injection E as <- E.
    apply IH in E as [<- <-]. done.
Qed.
Lemma quote_inj s s' t t' : quote s +:+ t = quote s' +:+ t' -> s = s' /\ t = t'.
Proof.
  unfold quote. rewrite !app_assoc_string. intros E. injection E as E. by apply quote_body_inj in E.
Qed.

(** ** Numbers end where their digits end *)
Definition number_char (c : ascii) : bool :=
  Ascii.eqb c "-" || ((48 <=? N_of_ascii c) && (N_of_ascii c <=? 57))%N.
Fixpoint numeric (s : string) : bool :=
  match s with String c s' => number_char c && numeric s' | "" => true end.
(** A text that does not go on with a number. *)
Definition stops (t : string) : bool :=
  match t with String c _ => negb (number_char c) | "" => true end.

Lemma numeric_inj a b x y :
  numeric a = true -> numeric b = true -> stops x = true -> stops y = true ->
  a +:+ x = b +:+ y -> a = b /\ x = y.
Proof.
  revert b. induction a as [|d a IH]; intros [|d' b]; cbn [numeric].
  - by intros _ _ _ _ E; split.
  - intros _ [Hd _]%andb_true_iff Hx _ E. change (x = String d' (b +:+ y)) in E.
    rewrite E in Hx. cbn in Hx. by rewrite Hd in Hx.
  - intros [Hd _]%andb_true_iff _ _ Hy E. change (String d (a +:+ x) = y) in E.
    rewrite <- E in Hy. cbn in Hy. by rewrite Hd in Hy.
  - intros [_ Ha]%andb_true_iff [_ Hb]%andb_true_iff Hx Hy [= <- E]. by destruct (IH b Ha Hb Hx Hy E) as [<- <-].
Qed.

Lemma pretty_N_numeric x s : numeric s = true -> numeric (pretty_N_go x s) = true.
Proof.
  revert s. induction (N.lt_wf_0 x) as [x _ IH]. intros s Hs.
  destruct (decide (0 < x)%N); [|by replace x with 0%N by lia].
  rewrite pretty_N_go_step by done. apply IH; [by apply N.div_lt|]. cbn [numeric]. rewrite Hs, andb_true_r.
  unfold pretty_N_char. by repeat case_match.
Qed.
Lemma pretty_numeric (z : Z) : numeric (pretty z) = true.
Proof.
  destruct z as [|p|p]; [done|..]; unfold pretty, pretty_Z, pretty, pretty_positive, pretty, pretty_N;
    (case_decide; [done|]); simpl; by apply pretty_N_numeric.
Qed.
Lemma pretty_inj_text (z z' : Z) x y :
  stops x = true -> stops y = true -> pretty z +:+ x = pretty z' +:+ y -> z = z' /\ x = y.
Proof.
  intros Hx Hy [E E']%numeric_inj; [|by try apply pretty_numeric..]. split; [by apply (inj pretty)|done].
Qed.
Lemma pretty_nonempty (z : Z) : pretty z <> "".
Proof.
  destruct z as [|p|p]; [done| |done]. unfold pretty, pretty_Z, pretty, pretty_positive, pretty, pretty_N.
  case_decide; [done|]. rewrite pretty_N_go_step by lia. by apply pretty_N_go_nonempty.
Qed.
Lemma pretty_head (z : Z) : exists c s, pretty z = String c s /\ number_char c = true.
Proof.
  pose proof (pretty_numeric z) as Hn. pose proof (pretty_nonempty z) as He.
  destruct (pretty z) as [|c s]; [done|]. exists c, s. split; [done|]. by apply andb_true_iff in Hn as [Hn _].
Qed.

(** ** Lists of texts between commas *)

(** The text [f x], for [x] in [D], shows [n x] and where it ends. *)
Definition shows {A B} (D : A -> Prop) (f : A -> string) (n : A -> B) (x : A) : Prop :=
  forall y t t', D y -> stops t = true -> stops t' = true -> f x +:+ t = f y +:+ t' -> n x = n y /\ t = t'.

Lemma join_cons x l : join "," (x :: l) = x +:+ match l with [] => "" | _ => "," +:+ join "," l end.
Proof.
  destruct l; [|done]. cbn [join]. induction x as [|c x IH]; [done|].
  change (String c x = String c (x +:+ "")). by rewrite <- IH.
Qed.

Lemma join_shows {A B} (D : A -> Prop) (f : A -> string) (n : A -> B) (c : ascii) xs ys t t' :
  c <> ","%char -> number_char c = false -> (forall x s s', D x -> f x +:+ s <> String c s') ->
  Forall D xs -> Forall (shows D f n) xs -> Forall D ys ->
  join "," (map f xs) +:+ String c t = join "," (map f ys) +:+ String c t' -> map n xs = map n ys /\ t = t'.
Proof.
  intros Hc Hn Hf Hxs Hs Hys.
  assert (Hst : forall (l : list string) u,
    stops (match l with [] => "" | _ => "," +:+ join "," l end +:+ String c u) = true).
  { intros [|??] u; [|done]. change (negb (number_char c) = true). by rewrite Hn. }
  revert ys Hxs Hys. induction Hs as [|x xs Hx _ IH]; intros [|y ys] Hxs Hys.
  - by intros [= ->].
  - cbn [map]. rewrite join_cons, app_assoc_string. intros E. symmetry in E. apply Forall_cons in Hys as [Hy _].
    by apply Hf in E.
  - cbn [map]. rewrite join_cons, app_assoc_string. intros E. apply Forall_cons in Hxs as [Hx' _]. by apply Hf in E.
  - apply Forall_cons in Hxs as [_ Hxs], Hys as [Hy Hys]. cbn [map]. rewrite !join_cons, !app_assoc_string.
    intros E. apply Hx in E as [-> E]; [|done|by apply Hst..].
    specialize (IH ys Hxs Hys). destruct xs as [|x' xs], ys as [|y' ys]; cbn [map] in *.
    + by injection E as ->.
    + by injection E as ->.
    + by injection E as <-.
    + rewrite !app_assoc_string in E. apply (string_app_inj ",") in E. by apply IH in E as [-> ->].
Qed.

(** ** [JSON.stringify] is injective up to what it leaves out *)
Definition defined (j : Json) : Prop := j <> JUndefined.
Definition array_item (x : Json) : string := match x with JUndefined => "null" | _ => stringify x end.
Definition field (k v : string) : string := quote k +:+ ":" +:+ v.
Definition object_field (kv : string * Json) : string := field kv.1 (stringify kv.2).
Definition fields_of (fs : list (string * Json)) : list (string * Json) := omap present fs.

Lemma stringify_array xs : stringify (JArray xs) = "[" +:+ join "," (map array_item xs) +:+ "]".
Proof. done. Qed.
Lemma stringify_object fs : stringify (JObject fs) = "{" +:+ join "," (map object_field (fields_of fs)) +:+ "}".
Proof.
  cbn [stringify]. do 2 f_equal. f_equal. unfold fields_of. induction fs as [|[k v] fs IH]; [done|].
  destruct v; cbn; by rewrite <- ?IH.
Qed.
Lemma serialized_object fs :
  serialized (JObject fs) = JObject (map (fun kv => (kv.1, serialized kv.2)) (fields_of fs)).
Proof.
  cbn [serialized]. f_equal. unfold fields_of. induction fs as [|[k v] fs IH]; [done|].
  destruct v; cbn; by rewrite <- ?IH.
Qed.
Lemma fields_defined fs : Forall (fun kv => defined kv.2) (fields_of fs).
Proof.
  apply Forall_forall. intros [k v] [[k' v'] [_ Hp]]%list_elem_of_omap. by destruct v'; cbn in Hp; simplify_eq.
Qed.

(** Texts of different kinds of values begin with different characters. *)
Inductive opens : Json -> ascii -> Prop :=
  | opens_null : opens JNull "n"
  | opens_true : opens (JBool true) "t"
  | opens_false : opens (JBool false) "f"
  | opens_int n c : number_char c = true -> opens (JInt n) c
  | opens_string s : opens (JString s) (ascii_of_N 34)
  | opens_array xs : opens (JArray xs) "["
  | opens_object fs : opens (JObject fs) "{".

Lemma stringify_opens j : defined j -> exists c s, stringify j = String c s /\ opens j c.
Proof.
  destruct j as [| |[]|n|s|xs|fs]; intros Hj; [done|..]; try by eexists _, _; split; [done|constructor].
  destruct (pretty_head n) as (c & s & E & Hc). exists c, s. by split; [|constructor].
Qed.

Lemma array_item_shows j : item (serialized j) = serialized (item j) /\ array_item j = stringify (item j) /\
  defined (item j).
Proof. by destruct j. Qed.

Lemma never_closes c s s' j : c = "]"%char \/ c = "}"%char -> defined j -> stringify j +:+ s <> String c s'.
Proof.
  intros Hc Hj. destruct (stringify_opens j Hj) as (d & u & -> & Hd). change (String d (u +:+ s) <> String c s').
  intros [= -> _]. destruct Hc as [-> | ->]; inversion Hd; subst; done.
Qed.

Lemma items_defined xs : Forall defined (map item xs).
Proof. apply Forall_map, Forall_forall. intros x _. apply array_item_shows. Qed.

Lemma null_shows : shows defined stringify serialized JNull.
Proof.
  intros j t t' Hj _ _ E. destruct (stringify_opens j Hj) as (c & u & E' & Ho).
  destruct Ho as [| | |n' c Hc| | |]; try discriminate E; [by apply string_app_inj in E|].
  rewrite E' in E. injection E as <- _. discriminate Hc.
Qed.

Lemma field_shows k v : shows defined stringify serialized v ->
  shows (fun kv => defined kv.2) object_field (fun kv => (kv.1, serialized kv.2)) (k, v).
Proof.
  intros Hs [k' v'] t t' Hv Ht Ht' E. unfold object_field, field in E. cbn [fst snd] in *.
  rewrite !app_assoc_string in E. apply quote_inj in E as [-> E]. apply string_app_inj in E.
  by apply Hs in E as [-> ->].
Qed.

(** The text of a value shows the value, and where it ends. *)
Lemma stringify_inj j : defined j -> shows defined stringify serialized j.
Proof.
  induction j as [| |b|n|s|xs IH|fs IH] using json_nested; intros Hj j' t t' Hj' Ht Ht' E; [done|..];
    try destruct b; destruct (stringify_opens j' Hj') as (c & u & E' & Ho); destruct Ho as [| | |n' c Hc|s'|xs'|fs'];
    try discriminate E;
    try (rewrite E' in E; destruct (pretty_head n) as (d & v & Ed & Hd); cbn [stringify] in E; rewrite Ed in E;
         injection E as -> _; discriminate Hd);
    try (rewrite E' in E; injection E as <- _; discriminate Hc).
  all: clear E'.
  all: try by apply string_app_inj in E.
  - apply pretty_inj_text in E as [-> ->]; done.
  - apply quote_inj in E as [-> ->]. done.
  - rewrite !stringify_array, !app_assoc_string in E. apply string_app_inj in E. cbn [serialized].
    rewrite !(map_ext array_item (fun j => stringify (item j))) in E by (intros x; apply array_item_shows).
    rewrite !(map_ext (fun j => item (serialized j)) (fun j => serialized (item j))) by (intros x; apply array_item_shows).
    rewrite <- !(map_map item stringify) in E. rewrite <- !(map_map item serialized).
    apply (join_shows defined _ serialized) in E as [-> ->]; [done|done|done| | | |].
    + intros x t1 t2. apply never_closes. by left.
    + by apply items_defined.
    + apply Forall_map. apply (Forall_impl _ _ _ IH). intros [] Hx; try by apply Hx. apply null_shows.
    + by apply items_defined.
  - rewrite !stringify_object, !app_assoc_string in E. apply string_app_inj in E. rewrite !serialized_object.
    eapply (join_shows (fun kv => defined kv.2) _ (fun kv => (kv.1, serialized kv.2))) in E as [-> ->];
      [done|done|done| |apply fields_defined| |apply fields_defined].
    + intros [k v] t1 t2 _. done.
    + unfold fields_of. apply Forall_forall. intros [k v] ([k' v'] & Hin & Hp)%list_elem_of_omap.
      assert (Hv : defined v /\ v' = v) by (destruct v'; cbn in Hp; by simplify_eq). destruct Hv as [Hv ->].
      apply field_shows. rewrite Forall_forall in IH. by apply (IH _ Hin).
Qed.
