(* ===== verification/AuditTrail.v ===== *)
(** * Audit trails: [audit-logger.util.js] and [audit-hash.util.js]

    Both under [src/common/utils]: lists of records chained by SHA-256, which is a
    parameter. *)

From S2P Require Import Prelude Num Domain Hash JsonText DeadLetter.

Local Open Scope Z_scope.

(** ** [AuditLedger] *)
Record audit_entry := {
  a_index : Z;
  a_previousHash : string;
  a_timestamp : Z;
  a_employeeId : string;
  a_mutation : Json;
  a_reason : string;
  a_hash : string;
}.

Definition GENESIS_HASH : string :=
  Eval cbv in String.concat "" (repeat "0" 64).

(** The text [hashEntry] digests. *)
Definition entry_text (e : audit_entry) : string :=
  stringify (JObject [("index", JInt (a_index e)); ("previousHash", JString (a_previousHash e));
    ("timestamp", JInt (a_timestamp e)); ("employeeId", JString (a_employeeId e));
    ("mutation", a_mutation e); ("reason", JString (a_reason e))]).

Section ledger.
Context `{Crypto}.

(** [hashEntry(entry)] *)
Definition hashEntry (e : audit_entry) : string := sha256_hex (entry_text e).

(** [append(employeeId, mutation, reason)] *)
Definition append (now : Z) (employeeId : string) (mutation : Json) (reason : option string)
    (chain : list audit_entry) : list audit_entry * (exn + audit_entry) :=
  if decide (employeeId = "") then (chain, inl (TypeError "employeeId must be a non-empty string"))
  else
    let entry hash :=
      {| a_index := Z.of_nat (length chain);
         a_previousHash := match last chain with Some e => a_hash e | None => GENESIS_HASH end;
         a_timestamp := now; a_employeeId := employeeId; a_mutation := mutation;
         a_reason := or_string reason "UNSPECIFIED"; a_hash := hash |} in
    let entry := entry (hashEntry (entry "")) in
    (chain ++ [entry], inr entry).

(** [verifyIntegrity()], with the hash the next entry has to point to. *)
Fixpoint verify_from (expectedPrev : string) (chain : list audit_entry) : bool :=
  match chain with
  | [] => true
  | entry :: chain' =>
      if decide (a_previousHash entry = expectedPrev) then
        if decide (a_hash entry = hashEntry entry) then verify_from (a_hash entry) chain' else false
      else false
  end.
Definition verifyIntegrity (chain : list audit_entry) : bool := verify_from GENESIS_HASH chain.

(** The hash of the last entry. *)
Definition head_hash (prev : string) (chain : list audit_entry) : string :=
  match last chain with Some e => a_hash e | None => prev end.

Lemma verify_from_app prev c1 c2 :
  verify_from prev (c1 ++ c2) = verify_from prev c1 && verify_from (head_hash prev c1) c2.
Proof.
  revert prev. induction c1 as [|e c1 IH]; intros prev; [done|]. cbn [app verify_from].
  case_decide; [|done]. case_decide; [|done]. rewrite IH. f_equal. f_equal.
  unfold head_hash. rewrite last_cons. by destruct (last c1).
Qed.

(** What is appended verifies. *)
Lemma append_verifies now employeeId mutation reason chain :
  verifyIntegrity chain = true -> verifyIntegrity (append now employeeId mutation reason chain).1 = true.
Proof.
  intros Hv. unfold append. case_decide; [done|]. cbn [fst]. unfold verifyIntegrity in *.
  rewrite verify_from_app, Hv. cbn [andb verify_from a_previousHash a_hash]. by rewrite !decide_True.
Qed.

(** Two entries with the same fields, their mutations as far as they are
    serialized: [undefined] fields of a mutation are not in the text. *)
Record same_entry (e e' : audit_entry) : Prop := {
  same_index : a_index e = a_index e';
  same_previousHash : a_previousHash e = a_previousHash e';
  same_timestamp : a_timestamp e = a_timestamp e';
  same_employeeId : a_employeeId e = a_employeeId e';
  same_mutation : serialized (a_mutation e) = serialized (a_mutation e');
  same_reason : a_reason e = a_reason e';
  same_hash : a_hash e = a_hash e';
}.

(** The text an entry is digested as determines all its other fields. *)
Lemma entry_text_fields e e' : entry_text e = entry_text e' -> a_hash e = a_hash e' -> same_entry e e'.
Proof.
  intros Et Eh. apply (f_equal (fun s => s +:+ "")) in Et.
  apply stringify_inj in Et as [Et _]; [|done..]. cbn [serialized map present snd] in Et.
  assert (Hm : serialized (a_mutation e) = serialized (a_mutation e'))
    by (destruct (serialized (a_mutation e)), (serialized (a_mutation e')); cbn in Et; congruence).
  rewrite Hm in Et. destruct (serialized (a_mutation e')) eqn:Em; cbn in Et; constructor; congruence.
Qed.

(** C25. The ledger is tamper-evident: two ledgers of the same length that both
    verify and end in the same hash have at every position entries with the same
    index, previous hash, timestamp, employee, mutation (as it is serialized),
    reason and hash, or else there is a position at which the entries are digested
    from different texts with the same SHA-256.  So nobody who cannot make an
    entry that collides with one of the ledger can change, reorder or replace
    entries without changing the last hash. *)
Theorem audit_tamper_evident c1 c2 :
  verifyIntegrity c1 = true -> verifyIntegrity c2 = true -> length c1 = length c2 ->
  head_hash GENESIS_HASH c1 = head_hash GENESIS_HASH c2 ->
  Forall2 same_entry c1 c2 \/
  exists (i : nat) e e', c1 !! i = Some e /\ c2 !! i = Some e' /\
    entry_text e <> entry_text e' /\ hashEntry e = hashEntry e'.
Proof.
  unfold verifyIntegrity. revert c2. induction c1 as [|e1 c1 IH] using rev_ind; intros c2 H1 H2 Hl Hh.
  { destruct c2; [by left|done]. }
  destruct c2 as [|e2 c2 _] using rev_ind; [rewrite length_app in Hl; cbn in Hl; lia|].
  rewrite !length_app in Hl. cbn [length] in Hl. rewrite verify_from_app in H1, H2.
  apply andb_true_iff in H1 as [H1 Hv1], H2 as [H2 Hv2]. cbn [verify_from] in Hv1, Hv2.
  repeat case_decide; try done. unfold head_hash in Hh at 1 2. rewrite !last_snoc in Hh.
  destruct (decide (entry_text e1 = entry_text e2)) as [Et|Et].
  - pose proof (entry_text_fields e1 e2 Et Hh) as Hs.
    pose proof (same_previousHash _ _ Hs) as Hp.
    destruct (IH c2 H1 H2 ltac:(lia) ltac:(congruence)) as [IH'|(i & e & e' & Hi & Hi' & Hne)].
    + left. apply Forall2_app; [done|]. by constructor.
    + right. exists i, e, e'. by rewrite !lookup_app_l by (by eapply lookup_lt_Some).
  - right. exists (length c1), e1, e2. assert (Hl' : length c1 = length c2) by lia.
    rewrite list_lookup_middle by done. rewrite Hl', list_lookup_middle by done. split_and!; [done..|congruence].
Qed.
End ledger.

(** Two records of the same leave, one of them with an undefined field. *)
Lemma audit_tamper_evident_witness :
  let c := {| sha256_hex := fun s => s |} in
  let c1 := (@append c 5 "emp" (JObject []) None []).1 in
  let c2 := (@append c 5 "emp" (JObject [("note", JUndefined)]) None []).1 in
  c1 <> c2 /\
  (Forall2 same_entry c1 c2 \/
   exists (i : nat) e e', c1 !! i = Some e /\ c2 !! i = Some e' /\
     entry_text e <> entry_text e' /\ @hashEntry c e = @hashEntry c e').
Proof.
  intros c c1 c2. split; [discriminate|].
  apply (@audit_tamper_evident c c1 c2); vm_compute; reflexivity.
Defined.

(** ** [AuditHasher] *)
Section hasher.
Context `{Crypto}.

(** A record, each of its fields as it is serialized, and its stored hash. *)
Record hashed_record := {
  h_id : Json;
  h_userId : Json;
  h_action : Json;
  h_timestamp : Json;
  h_payload : Json;
  h_hash : option string;
}.

(** [payload || {}] of a value read from JSON. *)
Definition payload_or_empty (j : Json) : Json :=
  match j with
  | JUndefined | JNull | JBool false | JInt 0 | JString "" => JObject []
  | _ => j
  end.

(** [computeRecordHash(record, previousHash)] *)
Definition computeRecordHash (r : hashed_record) (previousHash : string) : string :=
  sha256_hex (stringify (JObject [("id", h_id r); ("userId", h_userId r); ("action", h_action r);
    ("timestamp", h_timestamp r); ("payload", payload_or_empty (h_payload r)); ("prev", JString previousHash)])).

(** [verifyChain(records)] *)
Fixpoint verify_records (prev : string) (records : list hashed_record) : bool :=
  match records with
  | [] => true
  | r :: records' =>
      match h_hash r with
      | Some hash => if decide (hash = computeRecordHash r prev) then verify_records hash records' else false
      | None => false
      end
  end.
Definition verifyChain (records : list hashed_record) : bool := verify_records "GENESIS" records.

(** Records hashed one after the other verify. *)
Fixpoint hash_chain (prev : string) (records : list hashed_record) : list hashed_record :=
  match records with
  | [] => []
  | r :: records' =>
      let hash := computeRecordHash r prev in
      {| h_id := h_id r; h_userId := h_userId r; h_action := h_action r; h_timestamp := h_timestamp r;
         h_payload := h_payload r; h_hash := Some hash |} :: hash_chain hash records'
  end.
Lemma hash_chain_verifies records : verifyChain (hash_chain "GENESIS" records) = true.
Proof.
  unfold verifyChain. generalize "GENESIS" as prev. induction records as [|r records IH]; intros prev; [done|].
  cbn [hash_chain verify_records h_hash]. rewrite decide_True by done. apply IH.
Qed.
End hasher.
