(* ===== verification/Access.v ===== *)
(** * Access control and health: [rbac.util.js], [circuit-breaker-state.util.js],
    [health-aggregator.util.js] and [metrics-registry.util.js]

    Small components of [src/src/common/utils] that no service calls. *)

From S2P Require Import Prelude Num Domain JsMap DeadLetter Limiters.

Local Open Scope Z_scope.

(** ** [RbacEngine]

    Roles and permissions are strings: callers pass what they were given. *)
Definition EMPLOYEE : string := "EMPLOYEE".
Definition MANAGER : string := "MANAGER".
Definition HR_ADMIN : string := "HR_ADMIN".
Definition SYSTEM_ADMIN : string := "SYSTEM_ADMIN".

(** [ROLE_HIERARCHY], in the order of its keys. *)
Definition ROLE_HIERARCHY : list (string * Z) :=
  [(EMPLOYEE, 10); (MANAGER, 20); (HR_ADMIN, 30); (SYSTEM_ADMIN, 40)].
Definition PERMISSIONS : list string :=
  ["REQUEST_LEAVE"; "VIEW_OWN_BALANCE"; "APPROVE_TEAM_LEAVE"; "OVERRIDE_POLICY"; "MANAGE_ACCRUALS"; "AUDIT_LOG_READ"].
Definition ROLE_PERMISSIONS : list (string * list string) :=
  [(EMPLOYEE, ["REQUEST_LEAVE"; "VIEW_OWN_BALANCE"]); (MANAGER, ["APPROVE_TEAM_LEAVE"]);
   (HR_ADMIN, ["OVERRIDE_POLICY"; "MANAGE_ACCRUALS"]); (SYSTEM_ADMIN, ["AUDIT_LOG_READ"])].

(** [ROLE_HIERARCHY[role] || 0], for a role that is not the name of a property
    every object inherits. *)
Definition level (role : string) : Z :=
  match list_find (fun kv : string * Z => kv.1 = role) ROLE_HIERARCHY with
  | Some (_, kv) => kv.2
  | None => 0
  end.

(** [hasRole(userRole, requiredRole)] *)
Definition hasRole (userRole requiredRole : string) : bool := level requiredRole <=? level userRole.
(** [hasPermission(userRole, permission)] *)
Definition hasPermission (userRole permission : string) : bool :=
  existsb (fun kv : string * list string =>
    (level kv.1 <=? level userRole) && bool_decide (permission ∈ kv.2)) ROLE_PERMISSIONS.

Lemma hasPermission_monotone u v p :
  level u <= level v -> hasPermission u p = true -> hasPermission v p = true.
Proof.
  unfold hasPermission. rewrite !existsb_exists. intros Hl (kv & Hin & [Hk Hp]%andb_true_iff).
  exists kv. split; [done|]. apply andb_true_iff. split; [|done]. apply Z.leb_le in Hk. apply Z.leb_le. lia.
Qed.

(** A system administrator has every permission there is; every role has its own. *)
Lemma permissions_granted p :
  p ∈ PERMISSIONS -> hasPermission SYSTEM_ADMIN p = true /\ exists kv, kv ∈ ROLE_PERMISSIONS /\ p ∈ kv.2.
Proof.
  intros Hp. assert (Hall : forallb (fun p => hasPermission SYSTEM_ADMIN p) PERMISSIONS = true) by by vm_compute.
  rewrite forallb_forall in Hall. apply list_elem_of_In, Hall in Hp. split; [done|].
  unfold hasPermission in Hp. apply existsb_exists in Hp as (kv & Hkv%list_elem_of_In & [_ H]%andb_true_iff).
  apply bool_decide_eq_true in H. by exists kv.
Qed.

(** Requiring a role that does not exist excludes nobody. *)
Example unknown_role_is_granted : hasRole "nobody" "AUDITOR" = true.
Proof. reflexivity. Qed.

(** ** [CircuitBreakerStateMachine] *)
Record StateMachine := {
  sm_failureThreshold : Z;
  sm_cooldownMs : Z;
  sm_state : CircuitState.t;
  sm_failureCount : Z;
  sm_lastStateChange : Z;
}.
Definition new_StateMachine (now : Z) (failureThreshold cooldownMs : option Z) : StateMachine :=
  {| sm_failureThreshold := or_number failureThreshold 3; sm_cooldownMs := or_number cooldownMs 5000;
     sm_state := CircuitState.CLOSED; sm_failureCount := 0; sm_lastStateChange := now |}.
Definition sm_set (s : CircuitState.t) (n t : Z) (b : StateMachine) : StateMachine :=
  {| sm_failureThreshold := sm_failureThreshold b; sm_cooldownMs := sm_cooldownMs b;
     sm_state := s; sm_failureCount := n; sm_lastStateChange := t |}.

(** [getState()], which reads the clock at [now] and again at [now']. *)
Definition getState (now now' : Z) (b : StateMachine) : StateMachine * CircuitState.t :=
  if bool_decide (sm_state b = CircuitState.OPEN) && (sm_cooldownMs b <=? now - sm_lastStateChange b) then
    (sm_set CircuitState.HALF_OPEN (sm_failureCount b) now' b, CircuitState.HALF_OPEN)
  else (b, sm_state b).
(** [recordSuccess()] and [recordFailure()] *)
Definition recordSuccess (now : Z) (b : StateMachine) : StateMachine := sm_set CircuitState.CLOSED 0 now b.
Definition recordFailure (now : Z) (b : StateMachine) : StateMachine :=
  let n := sm_failureCount b + 1 in
  if (sm_failureThreshold b <=? n) || bool_decide (sm_state b = CircuitState.HALF_OPEN)
  then sm_set CircuitState.OPEN n now b
  else sm_set (sm_state b) n (sm_lastStateChange b) b.
(** [canExecute()] *)
Definition canExecute (now now' : Z) (b : StateMachine) : StateMachine * bool :=
  let '(b', s) := getState now now' b in (b', negb (bool_decide (s = CircuitState.OPEN))).

(** After [n] failures in a row a closed machine is open exactly when [n] has
    reached the threshold, and then refuses until the cooldown is over. *)
Fixpoint failures (times : list Z) (b : StateMachine) : StateMachine :=
  match times with [] => b | t :: ts => failures ts (recordFailure t b) end.
Lemma failures_open times b :
  sm_state b = CircuitState.CLOSED -> 0 <= sm_failureCount b ->
  sm_failureCount b < sm_failureThreshold b ->
  sm_failureThreshold (failures times b) = sm_failureThreshold b /\
  sm_failureCount (failures times b) = sm_failureCount b + Z.of_nat (length times) /\
  (sm_state (failures times b) = CircuitState.OPEN <->
   sm_failureThreshold b <= sm_failureCount b + Z.of_nat (length times)).
Proof.
  assert (Hopen : forall times b, sm_state b = CircuitState.OPEN -> sm_failureThreshold b <= sm_failureCount b ->
    sm_failureThreshold (failures times b) = sm_failureThreshold b /\
    sm_failureCount (failures times b) = sm_failureCount b + Z.of_nat (length times) /\
    sm_state (failures times b) = CircuitState.OPEN).
  { clear. induction times as [|t times IH]; intros b Hs Hc; cbn [failures length]; [by split_and!; [|lia|]|].
    destruct (IH (recordFailure t b)) as (E1 & E2 & E3); unfold recordFailure;
      (destruct (Z.leb_spec (sm_failureThreshold b) (sm_failureCount b + 1)); [cbn [orb]|lia]); [done|cbn; lia|].
    unfold recordFailure in E1, E2, E3. destruct (Z.leb_spec (sm_failureThreshold b) (sm_failureCount b + 1)); [cbn [orb] in *|lia].
    split_and!; [done|rewrite E2; cbn; lia|done]. }
  revert b. induction times as [|t times IH]; intros b Hs H0 Hc; cbn [failures length].
  { rewrite Hs. split_and!; [done|lia|split; [done|lia]]. }
  unfold recordFailure. rewrite bool_decide_false, orb_false_r by by rewrite Hs.
  destruct (Z.leb_spec (sm_failureThreshold b) (sm_failureCount b + 1)).
  - destruct (Hopen times (sm_set CircuitState.OPEN (sm_failureCount b + 1) t b)) as (E1 & E2 & E3); [done|done|].
    rewrite E1, E2, E3. cbn. split_and!; [done|lia|split; [lia|done]].
  - destruct (IH (sm_set (sm_state b) (sm_failureCount b + 1) (sm_lastStateChange b) b)) as (E1 & E2 & E3);
      [done|cbn; lia|cbn; lia|]. rewrite E1, E2, E3. cbn. split_and!; [done|lia|split; lia].
Qed.

(** ** [HealthAggregator] *)
Record probe_result (D : Type) := { pr_status : option string; pr_details : option D }.
Arguments pr_status {D} _.
Arguments pr_details {D} _.
Inductive indicator (D : Type) :=
  | Reported (status : string) (details : option D)
  | Errored (message : string).
Arguments Reported {D} _ _.
Arguments Errored {D} _.

Section health.
Context {D : Type}.
(** How a probe settles; a result that is [null] or [undefined] makes reading
    its [status] throw. *)
Abbreviation outcome := (string + probe_result D)%type.

(** [registerIndicator(name, probeFn)], with the outcome the probe will have. *)
Definition registerIndicator (name : string) (probe : outcome) (m : jsmap string outcome) : jsmap string outcome :=
  jm_set name probe m.

(** The entry for one indicator. *)
Definition probed (o : outcome) : indicator D :=
  match o with
  | inr res => Reported (or_string (pr_status res) "up") (pr_details res)
  | inl message => Errored message
  end.
Definition degrades (o : outcome) : bool :=
  match o with inr res => bool_decide (pr_status res = Some "degraded") | inl _ => false end.
Definition fails (o : outcome) : bool :=
  match o with inr res => bool_decide (pr_status res = Some "down") | inl _ => true end.

(** [check()]: the overall status and the entry of every indicator. *)
Definition check_health (m : jsmap string outcome) : string * list (string * indicator D) :=
  let outcomes := jm_values m in
  let overall := if existsb fails outcomes then "unhealthy"
                 else if existsb degrades outcomes then "degraded" else "healthy" in
  (overall, (fun r => (row_key r, probed (row_value r))) <$> rows m).

Lemma check_health_healthy m :
  (check_health m).1 = "healthy" <->
  forall o, o ∈ jm_values m -> fails o = false /\ degrades o = false.
Proof.
  unfold check_health. cbn [fst]. destruct (existsb fails (jm_values m)) eqn:Ef.
  - split; [done|]. intros H. apply existsb_exists in Ef as (o & Hin & Ho).
    apply list_elem_of_In, H in Hin as [Hf _]. congruence.
  - destruct (existsb degrades (jm_values m)) eqn:Ed.
    + split; [done|]. intros H. apply existsb_exists in Ed as (o & Hin & Ho).
      apply list_elem_of_In, H in Hin as [_ Hf]. congruence.
    + split; [|done]. intros _ o Ho%list_elem_of_In. split.
      * destruct (fails o) eqn:E; [|done]. rewrite <- Ef. symmetry. apply existsb_exists. by exists o.
      * destruct (degrades o) eqn:E; [|done]. rewrite <- Ed. symmetry. apply existsb_exists. by exists o.
Qed.
End health.

(** ** [MetricsRegistry]

    Durations and percentages are integers here; the index of a percentile is
    computed in binary64 as in the code. *)
Record MetricsRegistry := {
  mr_windowSize : Z;
  mr_latencies : list Z;
  mr_requestCount : Z;
  mr_errorCount : Z;
}.
Definition new_MetricsRegistry (windowSize : option Z) : MetricsRegistry :=
  {| mr_windowSize := or_number windowSize 1000; mr_latencies := []; mr_requestCount := 0; mr_errorCount := 0 |}.

(** [recordRequest(durationMs, isError)] *)
Definition recordRequest (durationMs : Z) (isError : bool) (m : MetricsRegistry) : MetricsRegistry :=
  let latencies := mr_latencies m ++ [durationMs] in
  {| mr_windowSize := mr_windowSize m;
     mr_latencies := if mr_windowSize m <? Z.of_nat (length latencies) then tail latencies else latencies;
     mr_requestCount := mr_requestCount m + 1;
     mr_errorCount := if isError then mr_errorCount m + 1 else mr_errorCount m |}.

(** [Math.ceil(x)] of a finite number. *)
Definition Math_ceil (x : num) : Z := - Math_floor (nopp x).

(** [getPercentile(p)] *)
Definition getPercentile (p : Z) (m : MetricsRegistry) : Z :=
  match mr_latencies m with
  | [] => 0
  | _ =>
      let sorted := merge_sort Z.le (mr_latencies m) in
      let n := Z.of_nat (length sorted) in
      let index := Math_ceil (nmul (ndiv (of_Z p) (of_Z 100)) (of_Z n)) - 1 in
      default 0 (sorted !! Z.to_nat (Z.max 0 (Z.min (n - 1) index)))
  end.

(** [getSnapshot()] *)
Record metrics_snapshot := {
  ms_totalRequests : Z;
  ms_totalErrors : Z;
  ms_errorRate : num;
  ms_p50 : Z;
  ms_p95 : Z;
  ms_p99 : Z;
  ms_sampleSize : nat;
}.
Definition getSnapshot (m : MetricsRegistry) : metrics_snapshot :=
  {| ms_totalRequests := mr_requestCount m; ms_totalErrors := mr_errorCount m;
     ms_errorRate := if 0 <? mr_requestCount m
                     then toFixed 4 (ndiv (of_Z (mr_errorCount m)) (of_Z (mr_requestCount m))) else of_Z 0;
     ms_p50 := getPercentile 50 m; ms_p95 := getPercentile 95 m; ms_p99 := getPercentile 99 m;
     ms_sampleSize := length (mr_latencies m) |}.

(** [reset()] *)
Definition reset_metrics (m : MetricsRegistry) : MetricsRegistry :=
  {| mr_windowSize := mr_windowSize m; mr_latencies := []; mr_requestCount := 0; mr_errorCount := 0 |}.

Lemma recordRequest_window d e m :
  1 <= mr_windowSize m -> Z.of_nat (length (mr_latencies m)) <= mr_windowSize m ->
  Z.of_nat (length (mr_latencies (recordRequest d e m))) <= mr_windowSize m.
Proof.
  intros H1 Hl. unfold recordRequest. cbn [mr_latencies]. rewrite length_app. cbn [length].
  case_match eqn:E; [|apply Z.ltb_ge in E; rewrite length_app; cbn [length]; lia].
  destruct (mr_latencies m) as [|x l]; cbn [app tail]; [cbn; lia|]. rewrite length_app. cbn [length] in *. lia.
Qed.

(** A percentile is one of the latencies. *)
Lemma getPercentile_sample p m : mr_latencies m <> [] -> getPercentile p m ∈ mr_latencies m.
Proof.
  intros Hne. unfold getPercentile. destruct (mr_latencies m) as [|x l] eqn:E; [done|]. rewrite <- E in *. clear E x l.
  set (s := merge_sort Z.le (mr_latencies m)). assert (Hp : s ≡ₚ mr_latencies m) by apply merge_sort_Permutation.
  cbv zeta. set (i := Z.to_nat _). assert (Hi : (i < length s)%nat).
  { assert (length s <> 0%nat) by (rewrite Hp; by destruct (mr_latencies m)). lia. }
  destruct (lookup_lt_is_Some_2 s i Hi) as [y Hy]. rewrite Hy. cbn. rewrite <- Hp. by eapply list_elem_of_lookup_2.
Qed.
