(* ===== verification/Backoff.v ===== *)
(** * Retry loops: [retryWithBackoff] of [retry.util.js] and
    [exponential-backoff.util.js]

    Both under [src/common/utils], over any computation.  [Math.random()] is
    [r / 2^53]; its product with the delay is taken in binary64. *)

From S2P Require Import Prelude Num Domain DeadLetter.

Local Open Scope Z_scope.

(** [Math.floor(Math.random() * delay)] *)
Definition random_floor (delay r : Z) : Z := Math_floor (nmul (dyadic r (-53)) (of_Z delay)).

(** ** Loops that call a function until it succeeds *)
Section retry.
Context {St A : Type}.
Context (random : M St exn Z) (sleep : Z -> M St exn unit).

(** The options after their defaults. *)
Record backoff_options := {
  bo_maxAttempts : Z;
  bo_initialDelayMs : Z;
  bo_backoffFactor : Z;
  bo_maxDelayMs : Z;
  bo_shouldRetry : exn -> bool;
}.
Definition new_backoff_options (maxAttempts initialDelayMs backoffFactor maxDelayMs : option Z)
    (shouldRetry : option (exn -> bool)) : backoff_options :=
  {| bo_maxAttempts := or_number maxAttempts 3; bo_initialDelayMs := or_number initialDelayMs 100;
     bo_backoffFactor := or_number backoffFactor 2; bo_maxDelayMs := or_number maxDelayMs 5000;
     bo_shouldRetry := default (fun _ => true) shouldRetry |}.

(** The [while] loop of [retryWithBackoff] with [attempt] attempts made. *)
Fixpoint backoff_loop (o : backoff_options) (fn : M St exn A) (more : nat) (attempt : Z) (lastError : exn) :
    M St exn A :=
  match more with
  | O => throw lastError
  | S more =>
      let attempt := attempt + 1 in
      try_catch fn (fun err =>
        if (bo_maxAttempts o <=? attempt) || negb (bo_shouldRetry o err) then throw err
        else
          let baseDelay := Z.min (bo_maxDelayMs o) (bo_initialDelayMs o * bo_backoffFactor o ^ (attempt - 1)) in
          r ← random;
          _ ← sleep (random_floor baseDelay r);
          backoff_loop o fn more attempt err)
  end.
(** [retryWithBackoff(fn, options)] *)
Definition retryWithBackoff (o : backoff_options) (fn : M St exn A) : M St exn A :=
  backoff_loop o fn (Z.to_nat (bo_maxAttempts o)) 0 ThrownUndefined.

(** ** [ExponentialBackoff] *)
Record ExponentialBackoff := {
  eb_baseDelayMs : Z;
  eb_maxDelayMs : Z;
  eb_factor : Z;
  eb_jitter : bool;
}.
Definition new_ExponentialBackoff (baseDelayMs maxDelayMs factor : option Z) (jitter : option bool) :
    ExponentialBackoff :=
  {| eb_baseDelayMs := or_number baseDelayMs 100; eb_maxDelayMs := or_number maxDelayMs 5000;
     eb_factor := or_number factor 2; eb_jitter := default true jitter |}.

(** [calculateDelay(attempt)] *)
Definition exponential_delay (b : ExponentialBackoff) (attempt : Z) : Z :=
  Z.min (eb_maxDelayMs b) (eb_baseDelayMs b * eb_factor b ^ Z.max attempt 0).
Definition calculateDelay (b : ExponentialBackoff) (attempt : Z) : M St exn Z :=
  if eb_jitter b then r ← random; mret (random_floor (exponential_delay b attempt) r)
  else mret (exponential_delay b attempt).

(** The [for] loop of [executeWithRetry] at [attempt]. *)
Fixpoint execute_loop (b : ExponentialBackoff) (fn : Z -> M St exn A) (maxAttempts : Z) (more : nat)
    (attempt : Z) (lastError : exn) : M St exn A :=
  match more with
  | O => throw lastError
  | S more =>
      try_catch (fn attempt) (fun err =>
        if attempt =? maxAttempts - 1 then throw err
        else
          delay ← calculateDelay b attempt;
          _ ← sleep delay;
          execute_loop b fn maxAttempts more (attempt + 1) err)
  end.
(** [executeWithRetry(fn, maxAttempts)] *)
Definition executeWithRetry (b : ExponentialBackoff) (fn : Z -> M St exn A) (maxAttempts : option Z) : M St exn A :=
  let n := default 3 maxAttempts in execute_loop b fn n (Z.to_nat n) 0 ThrownUndefined.

(** ** How often the function is called

    [attempts wait fn retry k s n s' r]: from [s], [n] calls of [fn] with the
    numbers [k], [k + 1], ... end in [s'] with [r]; each but the last failed with
    an error [retry] accepts and was followed by its wait. *)
Inductive attempts (wait : Z -> M St exn unit) (fn : Z -> M St exn A) (retry : exn -> bool) :
    Z -> St -> nat -> St -> exn + A -> Prop :=
  | attempts_last k s s' r : fn k s = (s', r) -> attempts wait fn retry k s 1 s' r
  | attempts_again k s s1 s2 e n s' r :
      fn k s = (s1, inl e) -> retry e = true -> wait k s1 = (s2, inr tt) ->
      attempts wait fn retry (k + 1) s2 n s' r -> attempts wait fn retry k s (S n) s' r.

Context (random_total : forall s, exists s' r, random s = (s', inr r)).
Context (sleep_total : forall ms s, exists s', sleep ms s = (s', inr tt)).

Definition backoff_wait (o : backoff_options) (attempt : Z) : M St exn unit :=
  r ← random; sleep (random_floor
    (Z.min (bo_maxDelayMs o) (bo_initialDelayMs o * bo_backoffFactor o ^ (attempt - 1))) r).

Lemma backoff_loop_attempts o fn more : forall attempt e s s' r,
  0 <= attempt -> attempt + Z.of_nat more = bo_maxAttempts o -> (1 <= more)%nat ->
  backoff_loop o fn more attempt e s = (s', r) ->
  exists n, (1 <= n <= more)%nat /\
    attempts (backoff_wait o) (fun _ => fn) (bo_shouldRetry o) (attempt + 1) s n s' r.
Proof.
  induction more as [|more IH]; intros attempt e s s' r H0 Hm Hl; [lia|].
  cbn [backoff_loop]. cbv zeta. unfold try_catch. destruct (fn s) as [s1 [err|a]] eqn:Ef.
  2:{ intros [= <- <-]. exists 1%nat. split; [lia|]. by apply attempts_last. }
  destruct (Z.leb_spec (bo_maxAttempts o) (attempt + 1)); cbn [orb].
  { intros [= <- <-]. exists 1%nat. split; [lia|]. by apply attempts_last. }
  destruct (bo_shouldRetry o err) eqn:Er; cbn [negb].
  2:{ intros [= <- <-]. exists 1%nat. split; [lia|]. by apply attempts_last. }
  destruct (random_total s1) as (s2 & q & E2). rewrite (bind_ok _ _ _ _ _ E2).
  edestruct sleep_total as (s3 & E3). rewrite (bind_ok _ _ _ _ _ E3). intros Hr.
  apply IH in Hr as (n & Hn & Ht); [|lia..]. exists (S n). split; [lia|].
  eapply attempts_again; [done|done| |done]. unfold backoff_wait. by rewrite (bind_ok _ _ _ _ _ E2).
Qed.

(** [retryWithBackoff] calls the function at least once and at most [maxAttempts]
    times, and ends as the last call did. *)
Lemma retryWithBackoff_attempts o fn s s' r :
  1 <= bo_maxAttempts o -> retryWithBackoff o fn s = (s', r) ->
  exists n, 1 <= Z.of_nat n <= bo_maxAttempts o /\
    attempts (backoff_wait o) (fun _ => fn) (bo_shouldRetry o) 1 s n s' r.
Proof.
  intros Hm Hr. apply backoff_loop_attempts in Hr as (n & Hn & Ht); [|lia..].
  exists n. split; [lia|]. exact Ht.
Qed.

Definition execute_wait (b : ExponentialBackoff) (attempt : Z) : M St exn unit :=
  delay ← calculateDelay b attempt; sleep delay.

Lemma calculateDelay_total b k s : exists s' d, calculateDelay b k s = (s', inr d).
Proof.
  unfold calculateDelay. destruct (eb_jitter b); [|by do 2 eexists].
  destruct (random_total s) as (s2 & q & E2). rewrite (bind_ok _ _ _ _ _ E2). by do 2 eexists.
Qed.

Lemma execute_loop_attempts b fn max more : forall k e s s' r,
  k + Z.of_nat more = max -> (1 <= more)%nat -> execute_loop b fn max more k e s = (s', r) ->
  exists n, (1 <= n <= more)%nat /\ attempts (execute_wait b) fn (fun _ => true) k s n s' r.
Proof.
  induction more as [|more IH]; intros k e s s' r Hm Hl; [lia|].
  cbn [execute_loop]. unfold try_catch. destruct (fn k s) as [s1 [err|a]] eqn:Ef.
  2:{ intros [= <- <-]. exists 1%nat. split; [lia|]. by apply attempts_last. }
  destruct (Z.eqb_spec k (max - 1)) as [Hk|Hk].
  { intros [= <- <-]. exists 1%nat. split; [lia|]. by apply attempts_last. }
  destruct (calculateDelay_total b k s1) as (s2 & d & E2). rewrite (bind_ok _ _ _ _ _ E2).
  destruct (sleep_total d s2) as (s3 & E3). rewrite (bind_ok _ _ _ _ _ E3). intros Hr.
  apply IH in Hr as (n & Hn & Ht); [|lia..]. exists (S n). split; [lia|].
  eapply attempts_again; [done|done| |done]. unfold execute_wait. by rewrite (bind_ok _ _ _ _ _ E2).
Qed.

(** The same of [executeWithRetry]. *)
Lemma executeWithRetry_attempts b fn maxAttempts s s' r :
  1 <= default 3 maxAttempts -> executeWithRetry b fn maxAttempts s = (s', r) ->
  exists n, 1 <= Z.of_nat n <= default 3 maxAttempts /\
    attempts (execute_wait b) fn (fun _ => true) 0 s n s' r.
Proof.
  intros Hm Hr. apply execute_loop_attempts in Hr as (n & Hn & Ht); [|lia..].
  exists n. split; [lia|]. exact Ht.
Qed.
End retry.
