(* ===== verification/EventBus.v ===== *)
(** * Event bus: [src/common/utils/event-bus.util.js]

    Handlers are numbered functions that may use the bus while they run; the
    wrapper [subscribeOnce] makes is a handler of its own.  The sets of listeners
    are objects the bus refers to: [publish] runs over the set it found, live,
    also when the bus has dropped it meanwhile. *)

From S2P Require Import Prelude Num Domain JsMap DeadLetter.

(** A function the program subscribes, or the [n]-th wrapper, around a function,
    for an event. *)
Inductive handler := Fn (f : nat) | Wrapper (n : nat) (eventName : string) (f : nat).
#[export] Instance handler_eq_dec : EqDecision handler.
Proof. solve_decision. Defined.

(** Sets of listeners and history buffers are numbered objects: a [Map] holds the
    reference, and who got the reference keeps the object also after the [Map]
    dropped it. *)
Record EventBus (P : Type) := {
  listeners : gmap string nat;
  sets : gmap nat (jsmap handler unit);
  onceListeners : gmap nat handler;
  eb_history : gmap string nat;
  buffers : gmap nat (list P);
  historyMaxSize : nat;
  wrappers : nat;   (* wrappers made so far *)
}.
Arguments listeners {P} _.
Arguments sets {P} _.
Arguments onceListeners {P} _.
Arguments eb_history {P} _.
Arguments buffers {P} _.
Arguments historyMaxSize {P} _.
Arguments wrappers {P} _.

Section bus.
Context {P : Type}.
Implicit Types (b : EventBus P) (eventName : string) (h : handler).

Definition new_EventBus (historyMaxSize : option nat) : EventBus P :=
  {| listeners := ∅; sets := ∅; onceListeners := ∅; eb_history := ∅; buffers := ∅;
     historyMaxSize := default 0%nat historyMaxSize; wrappers := 0 |}.
Definition set_listeners (l : gmap string nat) (s : gmap nat (jsmap handler unit)) b : EventBus P :=
  {| listeners := l; sets := s; onceListeners := onceListeners b; eb_history := eb_history b;
     buffers := buffers b; historyMaxSize := historyMaxSize b; wrappers := wrappers b |}.
Definition set_history (l : gmap string nat) (s : gmap nat (list P)) b : EventBus P :=
  {| listeners := listeners b; sets := sets b; onceListeners := onceListeners b; eb_history := l;
     buffers := s; historyMaxSize := historyMaxSize b; wrappers := wrappers b |}.
(** The elements of a set and of a buffer. *)
Definition elements_of (i : nat) b : jsmap handler unit := default jm_empty (sets b !! i).
Definition buffer_of (i : nat) b : list P := default [] (buffers b !! i).

(** [subscribe(eventName, handler)], with the buffer whose events a later turn of
    the event loop replays to the handler ([replay] below). *)
Definition subscribe eventName h b : EventBus P * option nat :=
  let i := match listeners b !! eventName with
           | Some i => i
           | None => fresh (dom (sets b))   (* [new Set()] *)
           end in
  let b' := set_listeners (<[eventName := i]> (listeners b))
              (<[i := jm_set h tt (elements_of i b)]> (sets b)) b in
  (b', if (0 <? historyMaxSize b)%nat then eb_history b !! eventName else None).

(** [subscribeOnce(eventName, handler)] *)
Definition subscribeOnce eventName (f : nat) b : EventBus P * option nat :=
  let wrapper := Wrapper (wrappers b) eventName f in
  subscribe eventName wrapper
    {| listeners := listeners b; sets := sets b;
       onceListeners := match onceListeners b !! f with
                        | Some _ => onceListeners b
                        | None => <[f := wrapper]> (onceListeners b)
                        end;
       eb_history := eb_history b; buffers := buffers b; historyMaxSize := historyMaxSize b;
       wrappers := S (wrappers b) |}.

(** [unsubscribe(eventName, handler)] *)
Definition unsubscribe eventName h b : EventBus P :=
  match listeners b !! eventName with
  | None => b
  | Some i =>
      let wrapper := match h with
                     | Fn f => default h (onceListeners b !! f)
                     | Wrapper _ _ _ => h
                     end in
      let set := jm_delete wrapper (elements_of i b) in
      set_listeners (if (jm_size set =? 0)%nat then delete eventName (listeners b) else listeners b)
        (<[i := set]> (sets b)) b
  end.

(** [clear(eventName)] and [clear()] *)
Definition clear_bus (eventName : option string) b : EventBus P :=
  match eventName with
  | Some "" | None => set_history ∅ (buffers b) (set_listeners ∅ (sets b) b)
  | Some e => set_history (delete e (eb_history b)) (buffers b)
                (set_listeners (delete e (listeners b)) (sets b) b)
  end.
(** [listenerCount(eventName)] *)
Definition listenerCount eventName b : nat :=
  match listeners b !! eventName with Some i => jm_size (elements_of i b) | None => 0 end.

(** The history part of [publish]. *)
Definition record_event eventName (payload : P) b : EventBus P :=
  if (0 <? historyMaxSize b)%nat then
    let i := match eb_history b !! eventName with
             | Some i => i
             | None => fresh (dom (buffers b))
             end in
    let buf := buffer_of i b ++ [payload] in
    set_history (<[eventName := i]> (eb_history b))
      (<[i := if (historyMaxSize b <? length buf)%nat then tail buf else buf]> (buffers b)) b
  else b.

(** ** The invariant of the bus

    Two events never share a set, sets are well formed, and a wrapper is only
    ever in the set of the event it was made for. *)
Definition wraps_for eventName h : Prop :=
  match h with Fn _ => True | Wrapper _ e _ => e = eventName end.
Record bus_ok b : Prop := {
  ok_alloc : forall e i, listeners b !! e = Some i -> i ∈ dom (sets b);
  ok_apart : forall e e' i, listeners b !! e = Some i -> listeners b !! e' = Some i -> e = e';
  ok_set : forall e i, listeners b !! e = Some i ->
    jm_wf (elements_of i b) /\ Forall (wraps_for e) (jm_keys (elements_of i b));
}.

Lemma new_EventBus_ok n : bus_ok (new_EventBus n).
Proof. by split; intros *; cbn; rewrite ?lookup_empty. Qed.

(** A change of the set of one event, which is a new set or the one it had. *)
Lemma set_event_ok b eventName i m (l : gmap string nat) :
  bus_ok b -> listeners b !! eventName = Some i \/ i ∉ dom (sets b) ->
  jm_wf m -> Forall (wraps_for eventName) (jm_keys m) ->
  l = <[eventName := i]> (listeners b) \/ l = delete eventName (listeners b) ->
  bus_ok (set_listeners l (<[i := m]> (sets b)) b).
Proof.
  intros [Ha Hp Hs] Hi Hwf Hw Hl.
  assert (Hel : forall e j, l !! e = Some j -> e = eventName /\ j = i \/ e <> eventName /\ j <> i /\ listeners b !! e = Some j).
  { intros e j Hj. destruct (decide (e = eventName)) as [->|Hn].
    - left. destruct Hl as [El|El]; rewrite El in Hj; [rewrite lookup_insert_eq in Hj|rewrite lookup_delete_eq in Hj]; split; congruence.
    - right. assert (listeners b !! e = Some j) as Hb.
      { destruct Hl as [El|El]; rewrite El in Hj; [rewrite lookup_insert_ne in Hj|rewrite lookup_delete_ne in Hj]; congruence. }
      split_and!; [done| |done]. intros ->. destruct Hi as [Hi|Hi]; [by apply Hn, (Hp e eventName i)|].
      by apply Hi, (Ha e). }
  split; cbn [set_listeners listeners sets].
  - intros e j Hj. rewrite dom_insert_L. apply elem_of_union.
    destruct (Hel e j Hj) as [[_ E]|(_ & _ & Hb)]; [left; by apply elem_of_singleton|right; by apply (Ha e)].
  - intros e e' j He He'.
    destruct (Hel e j He) as [[E1 E2]|(H1 & H2 & H3)], (Hel e' j He') as [[E3 E4]|(H4 & H5 & H6)]; try congruence.
    by apply (Hp _ _ j).
  - intros e j Hj. unfold elements_of. cbn [set_listeners sets].
    destruct (Hel e j Hj) as [[-> ->]|(_ & Hne & Hb)]; [by rewrite lookup_insert_eq|].
    rewrite lookup_insert_ne by done. by apply Hs.
Qed.

Lemma jm_keys_set_incl (h x : handler) (m : jsmap handler unit) : x ∈ jm_keys (jm_set h tt m) -> x = h \/ x ∈ jm_keys m.
Proof.
  unfold jm_keys, jm_set. destruct (jm_get h m); cbn [rows]; [rewrite replace_row_keys; by right|].
  rewrite fmap_app, elem_of_app. intros [Hx|Hx%list_elem_of_singleton]; [by right|by left].
Qed.

Lemma subscribe_ok eventName h b : bus_ok b -> wraps_for eventName h -> bus_ok (subscribe eventName h b).1.
Proof.
  intros Hok Hh. unfold subscribe. cbn [fst]. set (i := match listeners b !! eventName with Some i => i | None => _ end).
  assert (Hi : listeners b !! eventName = Some i \/ i ∉ dom (sets b)).
  { unfold i. destruct (listeners b !! eventName); [by left|right; apply is_fresh]. }
  assert (Hm : jm_wf (elements_of i b) /\ Forall (wraps_for eventName) (jm_keys (elements_of i b))).
  { destruct Hi as [Hi|Hi]; [by apply ok_set|]. unfold elements_of. apply not_elem_of_dom in Hi. rewrite Hi.
    split; [apply jm_empty_wf|constructor]. }
  destruct Hm as [Hwf Hw]. apply set_event_ok with eventName; [done|done|by apply jm_set_wf| |by left].
  rewrite Forall_forall in *. intros x [->|Hx]%jm_keys_set_incl; auto.
Qed.
Lemma subscribeOnce_ok eventName f b : bus_ok b -> bus_ok (subscribeOnce eventName f b).1.
Proof. intros [Ha Hp Hs]. by apply subscribe_ok. Qed.
Lemma unsubscribe_ok eventName h b : bus_ok b -> bus_ok (unsubscribe eventName h b).
Proof.
  intros Hok. unfold unsubscribe. destruct (listeners b !! eventName) as [i|] eqn:Hi; [|done]. cbv zeta.
  set (w := match h with Fn f => _ | Wrapper _ _ _ => h end). destruct (ok_set b Hok _ _ Hi) as [Hwf Hw].
  apply set_event_ok with eventName; [done|by left|by apply jm_delete_wf| |].
  - rewrite Forall_forall in *. intros x Hx. apply Hw. unfold jm_keys in *. apply list_elem_of_fmap in Hx as (r & -> & Hr).
    cbn [jm_delete rows] in Hr. apply list_elem_of_filter in Hr as [_ Hr]. by apply list_elem_of_fmap_2.
  - case_match; [by right|]. left. by rewrite insert_id.
Qed.
Lemma clear_bus_ok e b : bus_ok b -> bus_ok (clear_bus e b).
Proof.
  intros [Ha Hp Hs]. unfold clear_bus.
  assert (H0 : forall l s, bus_ok (set_history l s (set_listeners ∅ (sets b) b)))
    by (intros; split; intros *; cbn; by rewrite lookup_empty).
  destruct e as [[|c e]|]; [apply H0| |apply H0].
  split; cbn [set_history set_listeners listeners sets].
  - intros e' i [_ Hi]%lookup_delete_Some. eauto.
  - intros e' e'' i [_ Hi]%lookup_delete_Some [_ Hj]%lookup_delete_Some. eauto.
  - intros e' i [_ Hi]%lookup_delete_Some. apply (Hs e' i Hi).
Qed.
Lemma record_event_ok eventName payload b : bus_ok b -> bus_ok (record_event eventName payload b).
Proof. intros [Ha Hp Hs]. unfold record_event. by destruct (0 <? historyMaxSize b)%nat; split. Qed.

Section publish.
Context {St : Type} (get : St -> EventBus P) (put : EventBus P -> St -> St).
(** What the subscribed functions do. *)
Context (run : nat -> P -> M St exn unit).

Definition update_bus (f : EventBus P -> EventBus P) : M St exn unit := modify (fun s => put (f (get s)) s).

(** A call of a handler: a wrapper unsubscribes itself first. *)
Definition call_handler h (payload : P) : M St exn unit :=
  match h with
  | Fn f => run f payload
  | Wrapper _ eventName f => _ ← update_bus (unsubscribe eventName h); run f payload
  end.

(** [past.forEach((payload) => handler(payload))] over the live buffer: the
    length is read once, an index the buffer no longer has is skipped. *)
Definition replay_at (i : nat) h (k : nat) : M St exn unit :=
  b ← gets get;
  match buffer_of i b !! k with
  | Some payload => call_handler h payload
  | None => mret tt
  end.
Definition replay (i : nat) h : M St exn unit :=
  b ← gets get;
  for_each (seq 0 (length (buffer_of i b))) (replay_at i h).

(** [for (const handler of listeners)] over the live set [i], which handlers may
    change through the bus; [None] is [fuel] run out. *)
Fixpoint publish_loop (i : nat) (payload : P) (fuel from notified : nat) : M St exn (option nat) :=
  match fuel with
  | O => mret None
  | S fuel =>
      b ← gets get;
      match jm_next from (elements_of i b) with
      | None => mret (Some notified)
      | Some (stamp, (h, _)) =>
          _ ← call_handler h payload;
          publish_loop i payload fuel (S stamp) (S notified)
      end
  end.
(** [publish(eventName, payload)] *)
Definition publish (fuel : nat) eventName (payload : P) : M St exn (option nat) :=
  _ ← update_bus (record_event eventName payload);
  b ← gets get;
  match listeners b !! eventName with
  | None => mret (Some 0%nat)
  | Some i => publish_loop i payload fuel 0 0
  end.

(** ** Publication

    Under the lens laws of [get] and [put] and for functions that leave the
    listeners of the event alone, [publish] calls the listeners it found, once each
    and in order. *)
Definition is_function h : Prop := match h with Fn _ => True | Wrapper _ _ _ => False end.
#[local] Instance is_function_dec h : Decision (is_function h).
Proof. destruct h; apply _. Defined.
(** The listeners of an event. *)
Definition listeners_of eventName b : list handler :=
  match listeners b !! eventName with Some i => jm_keys (elements_of i b) | None => [] end.

(** The set [i] is the one [eventName] has, or has had and was dropped empty. *)
Definition serves b eventName (i : nat) : Prop :=
  i ∈ dom (sets b) /\
  (listeners b !! eventName = Some i \/
   listeners b !! eventName = None /\ (forall e, listeners b !! e <> Some i) /\ rows (elements_of i b) = []).

(** A bus before and after something that left the listeners of [eventName]
    alone; what it did to other events does not matter. *)
Definition leaves_alone eventName b b' : Prop :=
  bus_ok b -> bus_ok b' /\
  forall i, serves b eventName i -> serves b' eventName i /\ elements_of i b' = elements_of i b.

(** Subscribing to another event does. *)
Lemma subscribe_leaves_alone eventName e h b :
  e <> eventName -> wraps_for e h -> leaves_alone eventName b (subscribe e h b).1.
Proof.
  intros Hne Hh Hok. split; [by apply subscribe_ok|]. intros i [Hd Hs]. unfold subscribe. cbn [fst].
  set (j := match listeners b !! e with Some i => i | None => _ end).
  assert (Hij : i <> j).
  { unfold j. destruct (listeners b !! e) as [k|] eqn:Hk; [|intros ->; revert Hd; apply is_fresh].
    intros ->. destruct Hs as [Hs|(_ & Hs & _)]; [by apply Hne, (ok_apart b Hok _ _ k)|by eapply Hs]. }
  assert (He : elements_of i (set_listeners (<[e:=j]> (listeners b))
     (<[j:=jm_set h () (elements_of j b)]> (sets b)) b) = elements_of i b)
    by (unfold elements_of; cbn [set_listeners sets]; by rewrite lookup_insert_ne by done).
  split; [|exact He]. split; [cbn; rewrite dom_insert_L; apply elem_of_union; by right|]. rewrite He. cbn [set_listeners listeners].
  rewrite lookup_insert_ne by done. destruct Hs as [Hs|(Hn & Ho & Hr)]; [by left|right]. split_and!; [done| |done].
  intros e'. destruct (decide (e' = e)) as [->|]; [rewrite lookup_insert_eq|rewrite lookup_insert_ne by done]; [congruence|done].
Qed.

(** A wrapper subscribed for the event takes itself, and only itself, out. *)
Lemma unsubscribe_wrapper b eventName i n f pre stamp suf :
  bus_ok b -> serves b eventName i -> NoDup (jm_keys (elements_of i b)) ->
  rows (elements_of i b) = pre ++ (stamp, (Wrapper n eventName f, tt)) :: suf ->
  let b' := unsubscribe eventName (Wrapper n eventName f) b in
  rows (elements_of i b') = pre ++ suf /\ serves b' eventName i.
Proof.
  intros Hok [Hdom [Hi|(_ & _ & Hn)]] Hnd Hr; [|by rewrite Hn in Hr; destruct pre].
  unfold unsubscribe. rewrite Hi. cbv zeta. unfold serves, elements_of. cbn [set_listeners sets listeners].
  rewrite lookup_insert_eq. cbn [default from_option id]. fold (elements_of i b).
  assert (Hd : rows (jm_delete (Wrapper n eventName f) (elements_of i b)) = pre ++ suf).
  { unfold jm_keys in Hnd. cbn [jm_delete rows]. rewrite Hr in *. by apply (delete_row_app pre suf (stamp, (Wrapper n eventName f, tt))). }
  split; [done|]. split; [rewrite dom_insert_L; apply elem_of_union; by right|]. rewrite Hd. unfold jm_size. rewrite Hd.
  destruct (pre ++ suf) as [|r l]; cbn.
  - right. rewrite lookup_delete_eq. split_and!; [done| |done].
    intros e [Hne He]%lookup_delete_Some. by apply Hne, (ok_apart b Hok _ _ i).
  - by left.
Qed.

Section delivery.
Hypothesis get_put : forall b s, get (put b s) = b.
Variable eventName : string.
Hypothesis run_quiet : forall f payload s, leaves_alone eventName (get s) (get (run f payload s).1).

Lemma next_listener from (pre suf : list (nat * (handler * unit))) :
  Forall (fun r => r.1 < from)%nat pre -> Forall (fun r => from <= r.1)%nat suf ->
  next_row from (pre ++ suf) = head suf.
Proof.
  intros Hp Hs. rewrite next_row_app by done. destruct Hs as [|r suf Hr _]; [done|]. cbn.
  by rewrite (proj2 (Nat.leb_le _ _) Hr).
Qed.

Lemma publish_loop_delivers i payload suf : forall fuel from notified pre s,
  bus_ok (get s) -> serves (get s) eventName i -> rows (elements_of i (get s)) = pre ++ suf ->
  NoDup (row_key <$> pre ++ suf) -> StronglySorted (fun r r' : nat * (handler * unit) => r.1 < r'.1)%nat suf ->
  Forall (fun r => r.1 < from)%nat pre -> Forall (fun r => from <= r.1)%nat suf ->
  Forall (fun r => is_function (row_key r)) pre ->
  (forall n e f, Wrapper n e f ∈ row_key <$> suf -> e = eventName) ->
  (length suf < fuel)%nat ->
  publish_loop i payload fuel from notified s =
    (_ ← for_each (row_key <$> suf) (fun h => call_handler h payload);
     mret (Some (notified + length suf)%nat)) s /\
  forall s' k, publish_loop i payload fuel from notified s = (s', inr (Some k)) ->
    serves (get s') eventName i /\
    jm_keys (elements_of i (get s')) = filter is_function (row_key <$> pre ++ suf).
Proof.
  induction suf as [|[stamp [h []]] suf IH]; intros [|fuel] from notified pre s Hok Hserves Hrows Hnd Hsort Hpre Hsuf Hfun Hown Hfuel;
    cbn [length] in Hfuel; try lia; cbn [publish_loop]; unfold jm_next;
    rewrite (bind_ok _ _ s s (get s) eq_refl), Hrows, next_listener by done; cbn [head].
  { cbn. rewrite Nat.add_0_r. split; [done|]. intros s' k [= <- <-]. split; [done|].
    unfold jm_keys. rewrite Hrows. symmetry. apply list_filter_all. intros h (r & -> & Hr)%list_elem_of_fmap.
    rewrite app_nil_r in Hr. rewrite Forall_forall in Hfun. by apply Hfun. }
  inversion Hsort as [|? ? Hsort' Hstamp]; subst. inversion Hsuf as [|? ? Hfrom Hsuf']; subst.
  cbn [fst snd row_key fmap list_fmap for_each] in *.
  assert (Hsuf2 : Forall (fun r : nat * (handler * unit) => S stamp <= r.1)%nat suf).
  { eapply Forall_impl; [exact Hstamp|]. cbn. lia. }
  assert (Hown' : forall n e f, Wrapper n e f ∈ row_key <$> suf -> e = eventName) by (intros; eapply Hown; by right).
  destruct h as [f|n e f]; cbn [call_handler].
  - destruct (run_quiet f payload s Hok) as [Hok1 Hq]. destruct (Hq i Hserves) as [Hserves1 He1].
    unfold mbind, M_bind in *. destruct (run f payload s) as [s1 [err|[]]]; [by split|].
    cbn [fst] in *. destruct (IH fuel (S stamp) (S notified) (pre ++ [(stamp, (Fn f, tt))]) s1) as [E1 E2];
      rewrite ?He1, <- ?app_assoc; try done; try lia.
    { apply Forall_app_2; [|by constructor; [cbn; lia|]]. eapply Forall_impl; [exact Hpre|]. cbn in *. lia. }
    { apply Forall_app_2; [done|by constructor]. }
    split; [rewrite E1; unfold mbind, M_bind; cbn; by rewrite Nat.add_succ_r|].
    intros s' k Hs'. destruct (E2 s' k Hs') as [G1 G2]. split; [done|]. by rewrite G2, <- app_assoc.
  - assert (e = eventName) as -> by (eapply Hown; left).
    pose proof (unsubscribe_wrapper (get s) eventName i n f pre stamp suf Hok Hserves) as Hun.
    destruct Hun as [Hr' Hs']; [by unfold jm_keys; rewrite Hrows|done|].
    unfold update_bus, modify, mbind, M_bind in *. cbn [fst snd]. set (s0 := put _ s).
    assert (Hs0 : get s0 = unsubscribe eventName (Wrapper n eventName f) (get s)) by apply get_put.
    assert (Hok0 : bus_ok (get s0)) by (rewrite Hs0; by apply unsubscribe_ok).
    rewrite <- Hs0 in Hr', Hs'. destruct (run_quiet f payload s0 Hok0) as [Hok1 Hq].
    destruct (Hq i Hs') as [Hserves1 He1]. destruct (run f payload s0) as [s1 [err|[]]]; [by split|].
    cbn [fst] in *. rewrite fmap_app, fmap_cons in Hnd.
    destruct (IH fuel (S stamp) (S notified) pre s1) as [E1 E2]; rewrite ?He1; try done; try lia.
    { rewrite fmap_app. apply NoDup_app in Hnd as (N1 & N2 & [_ N3]%NoDup_cons).
      apply NoDup_app. split_and!; [done| |done]. intros x Hx Hx'. apply (N2 x Hx). by right. }
    { eapply Forall_impl; [exact Hpre|]. cbn in *. lia. }
    split; [rewrite E1; unfold mbind, M_bind; cbn; by rewrite Nat.add_succ_r|].
    intros s' k Hsk. destruct (E2 s' k Hsk) as [G1 G2]. split; [done|]. rewrite G2, !fmap_app, fmap_cons, !filter_app.
    f_equal.
Qed.

(** C39. When the subscribed functions leave the listeners of the event they are
    called for alone (they may use the bus for other events), [publish] notifies
    every listener the event had, once each and in the order of their subscription,
    and returns their number; an exception of one keeps the later ones from being
    notified.  Afterwards the one-shot listeners are gone and the others still
    subscribed. *)
Theorem publish_delivers fuel payload s :
  bus_ok (get s) -> (length (listeners_of eventName (get s)) < fuel)%nat ->
  publish fuel eventName payload s =
    (_ ← update_bus (record_event eventName payload);
     _ ← for_each (listeners_of eventName (get s)) (fun h => call_handler h payload);
     mret (Some (length (listeners_of eventName (get s))))) s /\
  forall s' k, publish fuel eventName payload s = (s', inr (Some k)) ->
    listeners_of eventName (get s') = filter is_function (listeners_of eventName (get s)).
Proof.
  intros Hok Hfuel. unfold publish, update_bus at 1 3, modify, mbind, M_bind. cbn [gets].
  set (s0 := put _ s). assert (Hs0 : get s0 = record_event eventName payload (get s)) by apply get_put.
  rewrite Hs0. assert (Hl : listeners (record_event eventName payload (get s)) = listeners (get s) /\
    forall i, elements_of i (record_event eventName payload (get s)) = elements_of i (get s))
    by (unfold record_event; by destruct (0 <? _)%nat).
  destruct Hl as [Hl Hel]. rewrite Hl. unfold listeners_of in *.
  destruct (listeners (get s) !! eventName) as [i|] eqn:Hi.
  - destruct (ok_set _ Hok _ _ Hi) as [[Hk Hst _] Hw].
    destruct (publish_loop_delivers i payload (rows (elements_of i (get s))) fuel 0 0 [] s0) as [E1 E2].
    { rewrite Hs0. by apply record_event_ok. }
    { split; [|left; by rewrite Hs0, Hl]. rewrite Hs0.
      assert (Hse : sets (record_event eventName payload (get s)) = sets (get s))
        by (unfold record_event; by destruct (0 <? _)%nat).
      rewrite Hse. by apply (ok_alloc _ Hok eventName). }
    { by rewrite Hs0, Hel. }
    { done. } { done. } { constructor. }
    { apply Forall_true. intros. lia. }
    { constructor. }
    { intros n e f Hin. rewrite Forall_forall in Hw. exact (Hw _ Hin). }
    { unfold jm_keys in Hfuel. by rewrite length_fmap in Hfuel. }
    split; [rewrite E1; unfold jm_keys; by rewrite length_fmap|].
    intros s' k Hs'. destruct (E2 s' k Hs') as [[_ [G|(G & _ & G0)]] G2]; rewrite G; [done|].
    unfold jm_keys in *. rewrite G0 in G2. done.
  - split; [done|]. intros s' k [= <- <-]. by rewrite Hs0, Hl, Hi.
Qed.
End delivery.
End publish.

(** No history buffer outgrows the bound. *)
Definition bounded b : Prop :=
  forall i l, buffers b !! i = Some l -> (length l <= historyMaxSize b)%nat.
Lemma record_event_bounded eventName payload b : bounded b -> bounded (record_event eventName payload b).
Proof.
  unfold bounded, record_event. intros Hb j l. destruct (Nat.ltb_spec 0 (historyMaxSize b)) as [Hp|Hp]; [|apply Hb].
  cbv zeta. set (i := match eb_history b !! eventName with Some i => i | None => _ end).
  cbn [set_history buffers historyMaxSize]. destruct (decide (j = i)) as [->|He].
  - rewrite lookup_insert_eq. intros [= <-].
    assert (length (buffer_of i b) <= historyMaxSize b)%nat as Hl.
    { unfold buffer_of. destruct (buffers b !! i) eqn:E; cbn; [by eapply Hb|lia]. }
    pose proof (length_app (buffer_of i b) [payload]) as Ha. cbn [length] in Ha.
    case_match eqn:E; [|apply Nat.ltb_ge in E; lia].
    destruct (buffer_of i b) as [|x buf]; cbn [app tail length] in *; lia.
  - rewrite lookup_insert_ne by done. apply Hb.
Qed.
End bus.

(** A bus with a function and a one-shot listener of it; each function subscribes
    a listener of another event. *)
Definition sample_bus : EventBus nat :=
  (subscribeOnce "leave" 7 (subscribe "leave" (Fn 3) (new_EventBus None)).1).1.
Definition sample_run (f payload : nat) : M (EventBus nat) exn unit :=
  fun b => ((subscribe "audit" (Fn (f + 10)) b).1, inr tt).
Lemma publish_delivers_witness :
  exists s', publish (St := EventBus nat) id (fun b _ => b) sample_run 3 "leave" 5%nat sample_bus
             = (s', inr (Some 2%nat)) /\
    listeners_of "leave" s' = [Fn 3] /\ listeners_of "audit" s' = [Fn 13; Fn 17].
Proof.
  eexists. split; [by vm_compute|]. split; [|by vm_compute].
  refine (proj2 (publish_delivers (St := EventBus nat) id (fun b _ => b) sample_run _ "leave" _ 3 5%nat sample_bus _ _) _ 2%nat _).
  - done.
  - intros f payload b. by apply subscribe_leaves_alone.
  - apply subscribeOnce_ok, subscribe_ok; [apply new_EventBus_ok|done].
  - vm_compute. lia.
  - by vm_compute.
Defined.

(** A function that was once subscribed with [subscribeOnce] cannot be
    unsubscribed later: its entry in the table of wrappers is never removed, and
    [unsubscribe] looks for the old wrapper. *)
Example once_then_stuck :
  let b0 : EventBus nat := new_EventBus None in
  let b1 := (subscribeOnce "leave" 7 b0).1 in
  let b2 := unsubscribe "leave" (Fn 7) b1 in
  let b3 := (subscribe "leave" (Fn 7) b2).1 in
  listenerCount "leave" b2 = 0%nat /\ listenerCount "leave" (unsubscribe "leave" (Fn 7) b3) = 1%nat.
Proof. by vm_compute. Qed.
