(* ===== verification/HcmApi.v ===== *)
(** * The HCM interface the services rely on

    [TimeOffService] and [HcmSyncService] call HCM through three methods.  What
    they rely on is that a call always returns (data, or [null] when HCM is
    unavailable) and that it touches nothing but the clock and the breaker. *)

From S2P Require Import Prelude Num Domain Store World.

Class HcmApi (Tbl : Type -> Type) := {
  api_validateRequest : string -> string -> string -> num -> M (World Tbl) exn HcmData;
  api_notifyApproval : string -> string -> string -> num -> string -> M (World Tbl) exn HcmData;
  api_getBatchBalances : option string -> M (World Tbl) exn HcmData;
}.

(** [w'] is [w] but for the clock, which did not go back, and the breaker. *)
Definition quiet {Tbl} (w w' : World Tbl) : Prop :=
  exists n t b, w' = set_breaker b (set_clock n t w) /\ (w_now w <= n)%Z.

#[export] Instance quiet_preorder {Tbl} : PreOrder (quiet (Tbl := Tbl)).
Proof.
  split.
  - intros w. exists (w_now w), (w_tick w), (w_breaker w). split; [by destruct w|lia].
  - intros w ? ? (n & t & b & -> & Hn) (n' & t' & b' & -> & Hn').
    exists n', t', b'. split; [done|]. simpl in Hn'. lia.
Qed.
Lemma later_quiet {Tbl} (w w' : World Tbl) : later w w' -> quiet w w'.
Proof. intros (n & t & -> & Hn). by exists n, t, (w_breaker w). Qed.
#[export] Hint Resolve later_quiet : effects.

Definition returns_quietly {Tbl A} (m : M (World Tbl) exn A) : Prop :=
  forall w, exists w' a, m w = (w', inr a) /\ quiet w w'.

Class HcmApiLaws (Tbl : Type -> Type) `{HcmApi Tbl} := {
  validateRequest_quiet : forall e l t d, returns_quietly (api_validateRequest e l t d);
  notifyApproval_quiet : forall e l t d i, returns_quietly (api_notifyApproval e l t d i);
  getBatchBalances_quiet : forall l, returns_quietly (api_getBatchBalances l);
}.

(** Properties read from a response: [undefined] on anything that has none. *)
Definition valid_of (d : HcmData) : option bool :=
  match d with HValue v _ => v | _ => None end.
Definition success_of (d : HcmData) : option bool :=
  match d with HValue _ s => s | _ => None end.
Definition is_null (d : HcmData) : bool :=
  match d with HNull => true | _ => false end.
