(* ===== verification/HcmService.v ===== *)
(** * HcmService: [src/modules/hcm/hcm.service.js]

    Every call to HCM goes through [_callWithResilience]: the retry loop around
    the circuit breaker around the HTTP request. *)

From S2P Require Import Prelude Num Domain Store Entities World Breaker Retry HcmApi.

Section service.
Context {Tbl : Type -> Type} `{Env} `{Config}.
Abbreviation M A := (M (World Tbl) exn A).

(** [this.circuitBreaker.call(config)]; the breaker of the service has no
    fallback. *)
Definition breaker_call (config : HttpRequest) : M HcmData :=
  call w_breaker set_breaker date_now sleep None (http_request config).

Definition hcm_retry_options : retry_options := {|
  maxAttempts := HCM_RETRY_MAX_ATTEMPTS;
  baseDelayMs := HCM_RETRY_BASE_DELAY_MS;
  maxDelayMs := 10000;
  jitter := true;
|}.

(** [_callWithResilience(callFn, logContext)]; [null] is [HNull].  Reading
    [error.code] of a thrown [undefined] throws in its turn. *)
Definition callWithResilience (callFn : M HcmData) : M HcmData :=
  try_catch (withRetry random sleep hcm_retry_options (fun _ => callFn))
    (fun error =>
       match error with
       | ThrownUndefined => throw (JsError "Cannot read properties of undefined (reading 'code')")
       | _ => mret HNull
       end).

Definition hcm_getBalance (employeeId locationId leaveType : string) : M HcmData :=
  callWithResilience (breaker_call (GetBalance employeeId locationId leaveType)).

Definition validateRequest (employeeId locationId leaveType : string) (daysRequested : num) :
    M HcmData :=
  callWithResilience (breaker_call (PostValidate employeeId locationId leaveType daysRequested)).

Definition notifyApproval (employeeId locationId leaveType : string) (daysRequested : num)
    (requestId : string) : M HcmData :=
  callWithResilience
    (breaker_call (PutBalance employeeId locationId leaveType daysRequested APPROVE requestId)).

Definition notifyRejection (employeeId locationId leaveType : string) (daysRequested : num)
    (requestId : string) : M HcmData :=
  callWithResilience
    (breaker_call (PutBalance employeeId locationId leaveType daysRequested REJECT requestId)).

Definition getBatchBalances (locationId : option string) : M HcmData :=
  callWithResilience (breaker_call (GetBatchSync locationId)).

Definition getCircuitStatus : M (string * CircuitState.t * Z * option Z) :=
  gets (fun w => getStatus (w_breaker w)).
End service.

(** ** What the other services may rely on

    [HcmService] implements [HcmApi]: every call returns, with data or [null],
    and touches nothing but the clock and the breaker. *)
#[export] Instance HcmService_api {Tbl} `{Env} `{Config} : HcmApi Tbl := {|
  api_validateRequest := validateRequest;
  api_notifyApproval := notifyApproval;
  api_getBatchBalances := getBatchBalances;
|}.

(** The configuration allows at least one attempt. *)
Class ValidConfig `{Config} : Prop := valid_attempts : (1 <= HCM_RETRY_MAX_ATTEMPTS)%Z.
#[export] Instance default_config_valid : @ValidConfig default_config.
Proof. done. Qed.

Section facts.
Context {Tbl : Type -> Type} `{Env} `{Config} `{!ValidConfig}.
Implicit Types (w : World Tbl) (config : HttpRequest).

Lemma date_now_quiet : stays quiet (date_now (Tbl := Tbl)).
Proof. intros w. apply later_quiet, pass_later. Qed.
Lemma sleep_quiet ms : stays quiet (sleep (Tbl := Tbl) ms).
Proof. intros w. apply later_quiet, pass_later. Qed.
Lemma tick_later w : later w (set_clock (w_now w) (S (w_tick w)) w).
Proof. do 2 eexists. split; [done|lia]. Qed.
Lemma random_quiet : stays quiet (random (Tbl := Tbl)).
Proof. intros w. apply later_quiet, tick_later. Qed.
Lemma http_quiet config : stays quiet (http_request (Tbl := Tbl) config).
Proof.
  intros w. unfold http_request. destruct (env_http _ _) as [d r]. apply later_quiet, tick_later.
Qed.
Lemma update_breaker_quiet f :
  stays quiet (update_breaker (St := World Tbl) w_breaker set_breaker f).
Proof. intros w. exists (w_now w), (w_tick w), (f (w_breaker w)). split; [by destruct w|lia]. Qed.
#[local] Hint Resolve date_now_quiet sleep_quiet random_quiet http_quiet update_breaker_quiet : effects.

Lemma breaker_call_quiet config : stays quiet (breaker_call (Tbl := Tbl) config).
Proof. unfold breaker_call, call, remaining_cooldown, guarded, withTimeout. stays_steps. Qed.
#[local] Hint Resolve breaker_call_quiet : effects.

Lemma backoff_quiet k : stays quiet (backoff (St := World Tbl) random sleep hcm_retry_options k).
Proof. unfold backoff. cbn [jitter hcm_retry_options]. stays_steps. Qed.
#[local] Hint Resolve backoff_quiet : effects.

Lemma withRetry_quiet (fn : Z -> M (World Tbl) exn HcmData) :
  (forall k, stays quiet (fn k)) -> stays quiet (withRetry random sleep hcm_retry_options fn).
Proof.
  intros Hfn. unfold withRetry. generalize (Z.to_nat (maxAttempts hcm_retry_options)) as left, 1%Z,
    ThrownUndefined. induction left as [|left IH]; intros k e; cbn [retry_loop]; stays_steps; auto.
Qed.

(** The breaker throws its own errors and those of the HTTP client, which are
    error objects. *)
Lemma breaker_call_throws config w w' e :
  breaker_call config w = (w', inl e) -> exists o, e = ErrorObject o.
Proof.
  assert (Hg : forall v v' : World Tbl, guarded w_breaker set_breaker date_now sleep (http_request config) v
    = (v', inl e) -> exists o, e = ErrorObject o).
  { intros v v'. unfold guarded, try_catch, withTimeout, mbind, M_bind, gets, http_request.
    destruct (env_http _ _) as [d [o|a]]; cbn; destruct (_ <? _)%Z; cbn;
      try (destruct (opens _); cbn); intros [=]; subst; by eexists. }
  unfold breaker_call, call, mbind at 1, M_bind at 1, gets.
  destruct (decide _); [|by apply Hg]. intros Hc. apply bind_inv_err in Hc as [Hc|(w1 & ms & _ & Hc)].
  - unfold remaining_cooldown, mbind, M_bind in Hc. cbn in Hc. by repeat case_match.
  - destruct (_ <? _)%Z; [injection Hc as _ <-; by eexists|].
    apply bind_inv_err in Hc as [Hc|(w2 & [] & _ & Hc)]; [done|]. by apply Hg in Hc.
Qed.

(** A result of the breaker is an answer of HCM. *)
Lemma breaker_call_result config w w' d :
  breaker_call config w = (w', inr d) -> exists n, (env_http n config).2 = inr d.
Proof.
  assert (Hg : forall v v' : World Tbl, guarded w_breaker set_breaker date_now sleep
    (http_request config) v = (v', inr d) -> exists n, (env_http n config).2 = inr d).
  { intros v v'. unfold guarded, try_catch, withTimeout, mbind, M_bind, gets, http_request.
    destruct (env_http (w_tick v) config) as [ms [o|a]] eqn:He; cbn; destruct (_ <? _)%Z; cbn;
      try (destruct (opens _); cbn); intros [=]; subst. exists (w_tick v). by rewrite He. }
  unfold breaker_call, call, mbind at 1, M_bind at 1, gets.
  destruct (decide _); [|by apply Hg]. intros Hc. apply bind_inv_ok in Hc as (w1 & ms & _ & Hc).
  destruct (_ <? _)%Z; [done|]. apply bind_inv_ok in Hc as (w2 & [] & _ & Hc). by apply Hg in Hc.
Qed.

Lemma callWithResilience_cases config w :
  exists w' d, callWithResilience (breaker_call config) w = (w', inr d) /\ quiet w w' /\
    (d = HNull \/ exists n, (env_http n config).2 = inr d).
Proof.
  unfold callWithResilience, try_catch.
  pose proof (withRetry_quiet (fun _ => breaker_call config) (fun _ => breaker_call_quiet config) w) as Hq.
  destruct (withRetry _ _ _ _ w) as [w' r] eqn:Hr; cbn in Hq.
  apply withRetry_tries in Hr as (n & _ & Ht).
  - destruct r as [e|d].
    + assert (exists o, e = ErrorObject o) as [o ->]; [|exists w', HNull; by auto].
      eapply (tries_error _ _ _ _ (fun e => exists o, e = ErrorObject o)); [|done].
      intros k v v' x. apply breaker_call_throws.
    + exists w', d. split_and!; [done..|]. right.
      eapply (tries_result _ _ _ _ (fun d => exists n, (env_http n config).2 = inr d)); [|done].
      intros k v v' x. apply breaker_call_result.
  - intros k v. by eexists.
  - intros k v v' x Hx. apply breaker_call_throws in Hx as [o ->]. done.
  - exact valid_attempts.
Qed.

Lemma callWithResilience_returns config :
  returns_quietly (callWithResilience (Tbl := Tbl) (breaker_call config)).
Proof. intros w. destruct (callWithResilience_cases config w) as (w' & d & ? & ? & _). by exists w', d. Qed.

#[export] Instance HcmService_laws : HcmApiLaws Tbl.
Proof. split; intros; apply callWithResilience_returns. Qed.

(** C34. HCM cannot make a caller fail: each of the five operations returns,
    whatever HCM, the network, the clock and the breaker do; the data is an
    answer HCM gave to that very request, or [null]; and nothing but the clock
    and the breaker has changed. *)
Theorem hcm_calls_return (e l y i : string) (d : num) (loc : option string) w :
  Forall (fun '(m, config) =>
      exists w' data, m w = (w', inr data) /\ quiet w w' /\
        (data = HNull \/ exists n, (env_http n config).2 = inr data))
    [(hcm_getBalance e l y, GetBalance e l y);
     (validateRequest e l y d, PostValidate e l y d);
     (notifyApproval e l y d i, PutBalance e l y d APPROVE i);
     (notifyRejection e l y d i, PutBalance e l y d REJECT i);
     (getBatchBalances loc, GetBatchSync loc)].
Proof. repeat constructor; apply callWithResilience_cases. Qed.
End facts.
