(* ===== verification/TimeOff.v ===== *)
(** * TimeOffService: [src/modules/timeoff/timeoff.service.js]

    The request lifecycle: create, approve, reject, cancel, the idempotency and
    overlap checks, the transaction retry and recovery of [createRequest], and
    the two callbacks that report to HCM.  Logging is left out. *)

From Stdlib Require Import Ascii.
From S2P Require Import Prelude Num Domain Store Entities World Dates Balance Hash HcmApi.

(** [CreateTimeOffRequestDto] *)
Record CreateDto := {
  d_employeeId : string;
  d_locationId : string;
  d_leaveType : string;
  d_startDate : string;
  d_endDate : string;
  d_notes : option string;
}.

(** The DTO as the object [hashObject] is given, with the class's field order. *)
Definition dto_json (dto : CreateDto) : Json :=
  JObject [("employeeId", JString (d_employeeId dto)); ("locationId", JString (d_locationId dto));
           ("leaveType", JString (d_leaveType dto)); ("startDate", JString (d_startDate dto));
           ("endDate", JString (d_endDate dto));
           ("notes", match d_notes dto with Some n => JString n | None => JUndefined end)].

(** [_serializeRequest(request)] *)
Definition serializeRequest (r : TimeOffRequest) : RequestView := {|
  v_id := r_id r;
  v_idempotencyKey := r_idempotencyKey r;
  v_employeeId := r_employeeId r;
  v_locationId := r_locationId r;
  v_leaveType := r_leaveType r;
  v_startDate := r_startDate r;
  v_endDate := r_endDate r;
  v_daysRequested := parseFloat (r_daysRequested r);
  v_status := r_status r;
  v_requestedBy := r_requestedBy r;
  v_approvedBy := r_approvedBy r;
  v_approvedAt := r_approvedAt r;
  v_rejectionReason := r_rejectionReason r;
  v_notes := r_notes r;
  v_hcmValidated := r_hcmValidated r;
  v_hcmSyncStatus := r_hcmSyncStatus r;
  v_version := r_version r;
  v_createdAt := r_createdAt r;
  v_updatedAt := r_updatedAt r;
|}.

(** ** Error classification *)

(** [err?.code || err?.driverError?.code] *)
Definition any_code (err : exn) : option string :=
  match err with
  | ErrorObject o =>
      match e_code o with
      | Some "" | None => e_driver_code o
      | Some c => Some c
      end
  | _ => None
  end.

Definition isSqliteConstraintError (err : exn) : bool :=
  bool_decide (any_code err = Some "SQLITE_CONSTRAINT") ||
  bool_decide (any_code err = Some "SQLITE_CONSTRAINT_UNIQUE").

Definition lower (c : ascii) : ascii :=
  let n := N_of_ascii c in
  if ((65 <=? n) && (n <=? 90))%N then ascii_of_N (n + 32) else c.
Fixpoint toLowerCase (s : string) : string :=
  match s with "" => "" | String c s' => String (lower c) (toLowerCase s') end.
(** [s.includes(sub)] *)
Fixpoint includes (sub s : string) : bool :=
  String.prefix sub s || match s with "" => false | String _ s' => includes sub s' end.

(** None of the exceptions this service throws has such a message. *)
Definition message_of (err : exn) : string :=
  match err with ErrorObject o => e_message o | _ => "" end.

Definition isSqliteTransientTxError (err : exn) : bool :=
  if decide (any_code err = Some "SQLITE_BUSY" \/ any_code err = Some "SQLITE_LOCKED") then true
  else
    let message := toLowerCase (message_of err) in
    includes "cannot start a transaction within a transaction" message ||
    includes "database is locked" message.

(** [_assertValidTransition(currentStatus, targetStatus)] *)
Definition assertValidTransition {St} (currentStatus targetStatus : RequestStatus.t) :
    M St exn unit :=
  let allowed := default [] (VALID_TRANSITIONS currentStatus) in
  if bool_decide (targetStatus ∈ allowed) then mret tt
  else throw (ConflictException ErrorCodes.INVALID_STATUS_TRANSITION).

Section service.
Context {Tbl : Type -> Type} `{Repo Tbl} `{TxManager Tbl} `{HcmApi Tbl}.
Context `{Env} `{Config} `{Engine} `{Crypto}.
Abbreviation M A := (M (World Tbl) exn A).

(** ** Private helpers of [createRequest] *)

Definition checkIdempotency (idempotencyKey requestHash : string) : M (option RequestView) :=
  existing ← findOne_idempotency (fun i => bool_decide (i_idempotencyKey i = idempotencyKey));
  match existing with
  | None => mret None
  | Some existing =>
      now ← date_now;
      if (i_expiresAt existing <? now)%Z then mret None
      else if decide (i_requestHash existing = requestHash)
      then mret (Some (i_responseBody existing))
      else throw (ConflictException ErrorCodes.IDEMPOTENCY_CONFLICT)
  end.

(** [where: { employeeId, locationId, status: In([PENDING, APPROVED]) }] *)
Definition active_at (employeeId locationId : string) (r : TimeOffRequest) : bool :=
  bool_decide (r_employeeId r = employeeId) && bool_decide (r_locationId r = locationId) &&
  bool_decide (r_status r ∈ [RequestStatus.PENDING; RequestStatus.APPROVED]).

Definition assertNoOverlap (employeeId locationId startDate endDate : string) : M unit :=
  activeRequests ← find_requests (active_at employeeId locationId);
  for_each activeRequests (fun existing =>
    if datesOverlap startDate endDate (r_startDate existing) (r_endDate existing)
    then throw (ConflictException ErrorCodes.OVERLAPPING_REQUEST)
    else mret tt).

(** [_lockEmployeeBalances]: the rows are read for their locks only. *)
Definition lockEmployeeBalances (employeeId locationId : string) : M unit :=
  _ ← find_balances (where_employee employeeId locationId);
  mret tt.

(** [_runCreateTransactionWithRetry(runTx)], with [left] attempts left. *)
Fixpoint create_retry_loop {A} (runTx : M A) (left : nat) (attempt : Z) : M A :=
  match left with
  | O => throw ThrownUndefined
  | S left' =>
      try_catch runTx (fun err =>
        if negb (isSqliteTransientTxError err) || (attempt =? 3)%Z then throw err
        else _ ← sleep (5 * attempt); create_retry_loop runTx left' (attempt + 1))
  end.
Definition runCreateTransactionWithRetry {A} (runTx : M A) : M A := create_retry_loop runTx 3 1.

(** [_withCreateLock(lockKey, fn)] of a caller whose [previous] promise is
    settled.  The gate of the call is a fresh promise; waiting for the
    previous holder is in [CreateLock]. *)
Definition withCreateLock {A} (lockKey : string) (fn : M A) : M A := fun w =>
  let next := w_promises w in
  try_finally fn
    (fun w' =>
       if decide (w_createLocks w' !! lockKey = Some next)
       then set_createLocks (delete lockKey (w_createLocks w')) (w_promises w') w'
       else w')
    (set_createLocks (<[lockKey := next]> (w_createLocks w)) (S next) w).

Definition recoverAfterConstraint (idempotencyKey requestHash : string) : M (option RequestView) :=
  cached ← checkIdempotency idempotencyKey requestHash;
  match cached with
  | Some cached => mret (Some cached)
  | None =>
      existingRequest ← findOne_request (fun r => bool_decide (r_idempotencyKey r = idempotencyKey));
      mret (serializeRequest <$> existingRequest)
  end.

Definition falsy_notes (n : option string) : option string :=
  match n with Some "" => None | _ => n end.

(** [manager.create(TimeOffRequest, {...})] *)
Definition new_request (dto : CreateDto) (idempotencyKey : string) (daysRequested : num) :
    TimeOffRequest := {|
  r_id := "";
  r_idempotencyKey := idempotencyKey;
  r_employeeId := d_employeeId dto;
  r_locationId := d_locationId dto;
  r_leaveType := d_leaveType dto;
  r_startDate := d_startDate dto;
  r_endDate := d_endDate dto;
  r_daysRequested := daysRequested;
  r_status := RequestStatus.PENDING;
  r_requestedBy := d_employeeId dto;
  r_approvedBy := None;
  r_approvedAt := None;
  r_rejectionReason := None;
  r_notes := falsy_notes (d_notes dto);
  r_hcmValidated := false;
  r_hcmSyncStatus := HcmSyncStatus.PENDING;
  r_hcmSyncAttempts := 0;
  r_hcmLastSyncAt := None;
  r_version := 1;
  r_createdAt := 0;
  r_updatedAt := 0;
|}.

(** The idempotency record stored with the request. *)
Definition new_idempotency (dto : CreateDto) (idempotencyKey requestHash : string)
    (saved : TimeOffRequest) (expiresAt : Z) : IdempotencyRecord := {|
  i_id := "";
  i_idempotencyKey := idempotencyKey;
  i_employeeId := d_employeeId dto;
  i_requestHash := requestHash;
  i_responseStatus := 201;
  i_responseBody := serializeRequest saved;
  i_expiresAt := expiresAt;
  i_createdAt := 0;
|}.

(** Steps 4 to 8: the body of the transaction. *)
Definition create_tx (dto : CreateDto) (idempotencyKey requestHash : string)
    (daysRequested : num) : M TimeOffRequest :=
  _ ← lockEmployeeBalances (d_employeeId dto) (d_locationId dto);
  _ ← assertNoOverlap (d_employeeId dto) (d_locationId dto) (d_startDate dto) (d_endDate dto);
  _ ← atomicDeduct (d_employeeId dto) (d_locationId dto) (d_leaveType dto) daysRequested;
  saved ← save_request (new_request dto idempotencyKey daysRequested);
  now ← date_now;
  _ ← save_idempotency
        (new_idempotency dto idempotencyKey requestHash saved (now + IDEMPOTENCY_TTL_MS)%Z);
  mret saved.

(** [_notifyHcmAsync(...)] *)
Definition notifyHcmAsync (requestId employeeId locationId leaveType : string)
    (daysRequested : num) : M unit :=
  setImmediate (NotifyHcm requestId employeeId locationId leaveType daysRequested).

(** The [catch] block of [createRequest]. *)
Definition create_recover (idempotencyKey requestHash : string) (err : exn) : M RequestView :=
  let on_transient :=
    if isSqliteTransientTxError err then
      recovered ← recoverAfterConstraint idempotencyKey requestHash;
      match recovered with
      | Some recovered => mret recovered
      | None => throw (ConflictException ErrorCodes.BALANCE_CONFLICT)
      end
    else throw err in
  if isSqliteConstraintError err then
    recovered ← recoverAfterConstraint idempotencyKey requestHash;
    match recovered with
    | Some recovered => mret recovered
    | None => on_transient
    end
  else on_transient.

(** What runs under the create lock. *)
Definition create_locked (dto : CreateDto) (idempotencyKey requestHash : string)
    (daysRequested : num) : M RequestView :=
  lockedIdempotencyCheck ← checkIdempotency idempotencyKey requestHash;
  match lockedIdempotencyCheck with
  | Some cached => mret cached
  | None =>
      try_catch
        (createdRequest ← runCreateTransactionWithRetry
           (transaction (create_tx dto idempotencyKey requestHash daysRequested));
         _ ← notifyHcmAsync (r_id createdRequest) (d_employeeId dto) (d_locationId dto)
               (d_leaveType dto) daysRequested;
         mret (serializeRequest createdRequest))
        (create_recover idempotencyKey requestHash)
  end.

Definition createRequest (dto : CreateDto) (idempotencyKey : option string) : M RequestView :=
  match idempotencyKey with
  | None | Some "" => throw (BadRequestException "MISSING_IDEMPOTENCY_KEY")
  | Some idempotencyKey =>
      notInPast ← isNotInPast (d_startDate dto);
      if negb notInPast then
        throw (UnprocessableEntityException "INVALID_DATE_RANGE")
      else if tv_lt (Date_midnight (d_endDate dto)) (Date_midnight (d_startDate dto)) then
        throw (UnprocessableEntityException "INVALID_DATE_RANGE")
      else
        let daysRequested := calculateDaysRequested (d_startDate dto) (d_endDate dto) in
        let requestHash := hashObject (dto_json dto) in
        idempotencyCheck ← checkIdempotency idempotencyKey requestHash;
        match idempotencyCheck with
        | Some cached => mret cached
        | None =>
            withCreateLock (d_employeeId dto +:+ ":" +:+ d_locationId dto)
              (create_locked dto idempotencyKey requestHash daysRequested)
        end
  end.

(** ** Decisions on a request *)

Definition where_id (i : string) (r : TimeOffRequest) : bool := bool_decide (r_id r = i).

(** [_getRequestLockedOrThrow] *)
Definition getRequestLockedOrThrow (requestId : string) : M TimeOffRequest :=
  request ← findOne_request (where_id requestId);
  match request with
  | None => throw (NotFoundException ErrorCodes.REQUEST_NOT_FOUND)
  | Some request => mret request
  end.

Definition approve_tx (requestId approverId : string) : M RequestView :=
  request ← getRequestLockedOrThrow requestId;
  _ ← assertValidTransition (r_status request) RequestStatus.APPROVED;
  now ← date_now;
  request ← save_request (r_with_decision RequestStatus.APPROVED (Some approverId) (Some now)
                            (r_rejectionReason request) request);
  _ ← finalizeUsed (r_employeeId request) (r_locationId request) (r_leaveType request)
        (parseFloat (r_daysRequested request));
  _ ← setImmediate (NotifyApproval request requestId);
  mret (serializeRequest request).

Definition approveRequest (requestId approverId : string) : M RequestView :=
  transaction (approve_tx requestId approverId).

Definition reject_tx (requestId approverId reason : string) : M RequestView :=
  request ← getRequestLockedOrThrow requestId;
  _ ← assertValidTransition (r_status request) RequestStatus.REJECTED;
  now ← date_now;
  request ← save_request (r_with_decision RequestStatus.REJECTED (Some approverId) (Some now)
                            (Some reason) request);
  _ ← releaseFromPending (r_employeeId request) (r_locationId request) (r_leaveType request)
        (parseFloat (r_daysRequested request));
  mret (serializeRequest request).

Definition rejectRequest (requestId approverId reason : string) : M RequestView :=
  transaction (reject_tx requestId approverId reason).

Definition cancel_tx (requestId : string) (reason : option string) : M RequestView :=
  request ← getRequestLockedOrThrow requestId;
  _ ← assertValidTransition (r_status request) RequestStatus.CANCELLED;
  request ← save_request (r_with_decision RequestStatus.CANCELLED (r_approvedBy request)
                            (r_approvedAt request) reason request);
  _ ← releaseFromPending (r_employeeId request) (r_locationId request) (r_leaveType request)
        (parseFloat (r_daysRequested request));
  mret (serializeRequest request).

Definition cancelRequest (requestId : string) (reason : option string) : M RequestView :=
  transaction (cancel_tx requestId reason).

(** ** Reads *)
Definition getRequest (requestId : string) : M RequestView :=
  request ← findOne_request (where_id requestId);
  match request with
  | None => throw (NotFoundException ErrorCodes.REQUEST_NOT_FOUND)
  | Some request => mret (serializeRequest request)
  end.

(** ** HCM callbacks *)

(** [requestRepository.update(requestId, patch)] on the sync columns; [None]
    leaves a column as it is. *)
Definition sync_patch (s : HcmSyncStatus.t) (v : option bool) (n : option Z) (at_ : option Z)
    (r : TimeOffRequest) : TimeOffRequest :=
  r_with_sync s (default (r_hcmValidated r) v) (default (r_hcmSyncAttempts r) n)
    (match at_ with Some t => Some t | None => r_hcmLastSyncAt r end) r.

(** The callback queued by [_notifyHcmAsync]. *)
Definition run_NotifyHcm (requestId employeeId locationId leaveType : string)
    (daysRequested : num) : M unit :=
  try_catch
    (result ← api_validateRequest employeeId locationId leaveType daysRequested;
     if is_null result then
       now ← date_now;
       update_request requestId (sync_patch HcmSyncStatus.PENDING None (Some 1%Z) (Some now))
     else if decide (valid_of result = Some false) then
       now ← date_now;
       update_request requestId (sync_patch HcmSyncStatus.FAILED (Some false) (Some 1%Z) (Some now))
     else
       now ← date_now;
       update_request requestId (sync_patch HcmSyncStatus.SUCCESS (Some true) (Some 1%Z) (Some now)))
    (fun _ => update_request requestId (sync_patch HcmSyncStatus.PENDING None (Some 1%Z) None)).

(** [_notifyApprovalToHcmAsync(request, requestId)] *)
Definition run_NotifyApproval (request : TimeOffRequest) (requestId : string) : M unit :=
  let attempts := (r_hcmSyncAttempts request + 1)%Z in
  let days := parseFloat (r_daysRequested request) in
  let finish (isValidated : bool) : M unit :=
    res ← api_notifyApproval (r_employeeId request) (r_locationId request) (r_leaveType request)
            days requestId;
    now ← date_now;
    if negb (is_null res) && negb (bool_decide (success_of res = Some false)) then
      update_request requestId (sync_patch HcmSyncStatus.SUCCESS (Some isValidated) (Some attempts) (Some now))
    else
      update_request requestId (sync_patch HcmSyncStatus.PENDING (Some isValidated) (Some attempts) (Some now)) in
  try_catch
    (if r_hcmValidated request then finish true
     else
       validation ← api_validateRequest (r_employeeId request) (r_locationId request)
                      (r_leaveType request) days;
       if is_null validation then
         now ← date_now;
         update_request requestId (sync_patch HcmSyncStatus.PENDING None (Some attempts) (Some now))
       else if decide (valid_of validation = Some true) then finish true
       else
         now ← date_now;
         update_request requestId (sync_patch HcmSyncStatus.FAILED (Some false) (Some attempts) (Some now)))
    (fun _ =>
       now ← date_now;
       update_request requestId (sync_patch HcmSyncStatus.PENDING None (Some attempts) (Some now))).
End service.
