(* ===== verification/HcmSync.v ===== *)
(** * HcmSyncService: [src/modules/hcm/hcm-sync.service.js]

    The nightly batch reconciliation and the retry worker.  The counters of a
    batch run are local variables that the [catch] block reads, so the loops
    return them also when they stop on an exception. *)

From S2P Require Import Prelude Num Domain Store Entities World Balance HcmApi TimeOff.

Definition MAX_PENDING_SYNC_RETRIES : Z := 10.
Definition DRIFT_TOLERANCE : num := literal 1 100.

(** [recordsProcessed], [recordsUpdated], [recordsFailed] and [errors]. *)
Record Counts := {
  c_processed : Z;
  c_updated : Z;
  c_failed : Z;
  c_errors : list SyncError;
}.

Definition no_counts : Counts := {| c_processed := 0; c_updated := 0; c_failed := 0; c_errors := [] |}.
Definition count_ok (updated : bool) (c : Counts) : Counts :=
  {| c_processed := c_processed c + 1;
     c_updated := (if updated then c_updated c + 1 else c_updated c)%Z;
     c_failed := c_failed c; c_errors := c_errors c |}.
Definition count_failed (k : bkey) (error : string) (c : Counts) : Counts :=
  {| c_processed := c_processed c + 1; c_updated := c_updated c; c_failed := c_failed c + 1;
     c_errors := c_errors c ++ [{| se_key := Some k; se_error := error |}] |}.

Definition finalStatus (c : Counts) : SyncLogStatus.t :=
  if (c_failed c =? 0)%Z then SyncLogStatus.COMPLETED
  else if (c_failed c <? c_processed c)%Z then SyncLogStatus.PARTIAL
  else SyncLogStatus.FAILED.

(** The template [`${employeeId}|${locationId}|${leaveType}`]. *)
Definition batch_key (k : bkey) : string := (k.1.1 +:+ "|" +:+ k.1.2 +:+ "|" +:+ k.2)%string.
Definition h_key (h : HcmRecord) : bkey := (h_employeeId h, h_locationId h, h_leaveType h).

Section service.
Context {Tbl : Type -> Type} `{Repo Tbl} `{HcmApi Tbl} `{Env}.
Abbreviation M A := (M (World Tbl) exn A).

(** [_reconcileRecord] once it has read the local row. *)
Definition reconcileWith (hcmRecord : HcmRecord) (localBalance : option EmployeeBalance) : M bool :=
  let hcmTotal := parseFloat (h_totalBalance hcmRecord) in
  let version := or_null (h_version hcmRecord) in
  match localBalance with
  | None =>
      now ← date_now;
      _ ← save_balance (new_balance (h_employeeId hcmRecord) (h_locationId hcmRecord)
                          (h_leaveType hcmRecord) hcmTotal now version);
      mret true
  | Some localBalance =>
      let localUsed := parseFloat (b_usedBalance localBalance) in
      let localPending := parseFloat (b_pendingBalance localBalance) in
      let localAvailable := parseFloat (b_availableBalance localBalance) in
      let localTotal := (localUsed +. localPending +. localAvailable)%num in
      let drift := (hcmTotal -. localTotal)%num in
      if (nabs drift <=. DRIFT_TOLERANCE)%num then
        now ← date_now;
        _ ← update_balance (b_id localBalance)
              (b_with_hcm hcmTotal (Some now) version false None);
        mret false
      else if (DRIFT_TOLERANCE <. drift)%num then
        let newAvailable := (localAvailable +. drift)%num in
        now ← date_now;
        _ ← update_balance (b_id localBalance) (fun b =>
              b_with_hcm hcmTotal (Some now) version false None
                (b_set_totalBalance hcmTotal (b_set_availableBalance newAvailable b)));
        mret true
      else
        now ← date_now;
        _ ← update_balance (b_id localBalance)
              (b_with_hcm hcmTotal (Some now) version true (Some (nabs drift)));
        mret true
  end.

(** [_reconcileRecord(hcmRecord)] *)
Definition reconcileRecord (hcmRecord : HcmRecord) : M bool :=
  localBalance ← findOne_balance (where_key (h_employeeId hcmRecord) (h_locationId hcmRecord)
                                    (h_leaveType hcmRecord));
  reconcileWith hcmRecord localBalance.

(** The loop over the records HCM returned. *)
Fixpoint reconcile_loop (hcmBalances : list HcmRecord) (c : Counts) : M Counts :=
  match hcmBalances with
  | [] => mret c
  | hcmRecord :: rest =>
      c' ← try_catch
             (updated ← reconcileRecord hcmRecord; mret (count_ok updated c))
             (fun err => mret (count_failed (h_key hcmRecord) (message_of err) c));
      reconcile_loop rest c'
  end.

(** [local.discrepancyAmount || 0] *)
Definition amount_or_zero (d : option num) : num :=
  match d with
  | Some x => if num_truthy x then x else of_Z 0
  | None => of_Z 0
  end.

(** [balanceRepository.update(local.id, {...})] for a record HCM left out. *)
Definition flag_missing (local : EmployeeBalance) (now : Z) (b : EmployeeBalance) : EmployeeBalance :=
  b_with_hcm (b_hcmTotalBalance b) (Some now) (b_hcmVersion b) true
    (Some (amount_or_zero (b_discrepancyAmount local))) b.

(** The loop over the local balances: the counters, and the exception that
    stopped it if there was one. *)
Fixpoint missing_loop (hcmKeySet : list string) (localBalances : list EmployeeBalance) (c : Counts) :
    M (Counts * option exn) :=
  match localBalances with
  | [] => mret (c, None)
  | local :: rest =>
      if bool_decide (batch_key (b_key local) ∈ hcmKeySet) then missing_loop hcmKeySet rest c
      else
        let c' := count_failed (b_key local) "Balance missing from HCM batch payload" c in
        stopped ← try_catch
          (now ← date_now;
           _ ← update_balance (b_id local) (flag_missing local now);
           mret None)
          (fun err => mret (Some err));
        match stopped with
        | Some err => mret (c', Some err)
        | None => missing_loop hcmKeySet rest c'
        end
  end.

(** [syncLogRepository.update(syncLog.id, {...})] *)
Definition finish_log (i : string) (status : SyncLogStatus.t) (c : Counts)
    (errorDetails : option (list SyncError)) : M unit :=
  now ← date_now;
  update_syncLog i (l_with_outcome status (c_processed c) (c_updated c) (c_failed c)
                      errorDetails (Some now)).

(** The [catch] block of the run. *)
Definition fail_log (i : string) (c : Counts) (err : exn) : M unit :=
  finish_log i SyncLogStatus.FAILED c (Some [{| se_key := None; se_error := message_of err |}]).

(** The body of the [try] statement; its [catch] block is entered with the
    counters of the moment. *)
Definition batch_body (syncLogId : string) : M unit :=
  data ← try_catch (data ← api_getBatchBalances None; mret (inr data))
           (fun err => mret (inl err));
  match data with
  | inl err => fail_log syncLogId no_counts err
  | inr (HArray hcmBalances) =>
      let hcmKeySet := (fun r => batch_key (h_key r)) <$> hcmBalances in
      c ← reconcile_loop hcmBalances no_counts;
      localBalances ← find_balances (fun _ => true);
      res ← missing_loop hcmKeySet localBalances c;
      match res with
      | (c, Some err) => fail_log syncLogId c err
      | (c, None) =>
          try_catch
            (finish_log syncLogId (finalStatus c) c
               (match c_errors c with [] => None | errors => Some errors end))
            (fail_log syncLogId c)
      end
  | inr _ => fail_log syncLogId no_counts
           (JsError "HCM batch endpoint returned invalid or empty response")
  end.

(** The row saved when a run starts. *)
Definition new_syncLog (startedAt : Z) : SyncLog := {|
  l_id := ""; l_syncType := SyncType.BATCH; l_status := SyncLogStatus.STARTED;
  l_employeeId := None; l_locationId := None;
  l_recordsProcessed := 0; l_recordsUpdated := 0; l_recordsFailed := 0;
  l_errorDetails := None; l_startedAt := startedAt; l_completedAt := None; l_createdAt := 0 |}.

Definition batchRunning : M bool := gets w_batchRunning.

Definition set_running (b : bool) : M unit := modify (set_batchRunning b).

Definition runBatchSync : M unit :=
  running ← batchRunning;
  if running : bool then mret tt
  else
    _ ← set_running true;
    now ← date_now;
    syncLog ← save_syncLog (new_syncLog now);
    try_finally (batch_body (l_id syncLog)) (set_batchRunning false).

(** ** The retry worker *)

(** [_updateSyncAttempt(request, patch)] *)
Definition updateSyncAttempt (request : TimeOffRequest) (s : HcmSyncStatus.t) (v : option bool) :
    M unit :=
  now ← date_now;
  update_request (r_id request) (sync_patch s v (Some (r_hcmSyncAttempts request + 1)%Z) (Some now)).

Definition retryValidationOnly (request : TimeOffRequest) : M unit :=
  validation ← (if r_hcmValidated request then mret (HValue (Some true) None)
                else api_validateRequest (r_employeeId request) (r_locationId request)
                       (r_leaveType request) (parseFloat (r_daysRequested request)));
  if is_null validation then updateSyncAttempt request HcmSyncStatus.PENDING None
  else if decide (valid_of validation = Some true) then
    updateSyncAttempt request HcmSyncStatus.SUCCESS (Some true)
  else updateSyncAttempt request HcmSyncStatus.FAILED (Some false).

(** The part of [_retryApprovalFlow] after the validation. *)
Definition retry_approval (request : TimeOffRequest) (isValidated : bool) : M unit :=
  approval ← api_notifyApproval (r_employeeId request) (r_locationId request)
               (r_leaveType request) (parseFloat (r_daysRequested request)) (r_id request);
  if negb (is_null approval) && negb (bool_decide (success_of approval = Some false))
  then updateSyncAttempt request HcmSyncStatus.SUCCESS (Some isValidated)
  else updateSyncAttempt request HcmSyncStatus.PENDING (Some isValidated).

Definition retryApprovalFlow (request : TimeOffRequest) : M unit :=
  if r_hcmValidated request then retry_approval request true
  else
    validation ← api_validateRequest (r_employeeId request) (r_locationId request)
                   (r_leaveType request) (parseFloat (r_daysRequested request));
    if is_null validation then updateSyncAttempt request HcmSyncStatus.PENDING None
    else if decide (valid_of validation = Some true) then retry_approval request true
    else updateSyncAttempt request HcmSyncStatus.FAILED (Some false).

(** One turn of the worker's loop. *)
Definition retry_one (request : TimeOffRequest) : M unit :=
  if (MAX_PENDING_SYNC_RETRIES <=? r_hcmSyncAttempts request)%Z then
    now ← date_now;
    update_request (r_id request)
      (sync_patch HcmSyncStatus.FAILED None None (Some now))
  else
    try_catch
      (match r_status request with
       | RequestStatus.REJECTED | RequestStatus.CANCELLED =>
           updateSyncAttempt request HcmSyncStatus.SKIPPED None
       | RequestStatus.PENDING => retryValidationOnly request
       | RequestStatus.APPROVED => retryApprovalFlow request
       | RequestStatus.Other _ => updateSyncAttempt request HcmSyncStatus.FAILED None
       end)
      (fun _ => updateSyncAttempt request HcmSyncStatus.PENDING None).

(** [order: { hcmSyncAttempts: 'ASC', createdAt: 'ASC' }] *)
Definition retry_order (r q : TimeOffRequest) : bool :=
  (r_hcmSyncAttempts r <? r_hcmSyncAttempts q)%Z ||
  ((r_hcmSyncAttempts r =? r_hcmSyncAttempts q)%Z && (r_createdAt r <=? r_createdAt q)%Z).

Definition retryPendingHcmSyncs : M unit :=
  pendingRequests ← findBy_requests
    (fun r => bool_decide (r_hcmSyncStatus r = HcmSyncStatus.PENDING)) retry_order (Some 50) 0;
  for_each pendingRequests retry_one.

(** ** Admin operations *)
Definition getSyncLogs (limit : nat) : M (list SyncLog) :=
  findBy_syncLogs (fun _ => true) (fun l k => (l_startedAt k <=? l_startedAt l)%Z)
    (Some (Nat.min limit 100)) 0.

Definition triggerManualBatchSync : M unit :=
  running ← batchRunning;
  if running : bool then throw (JsError "Batch sync already in progress")
  else setImmediate RunBatchSync.
End service.
