(* ===== verification/Samples.v ===== *)
(** * Samples: a concrete environment and small databases

    The witnesses of the development run here: tables in memory, a clock that
    advances only by what the code waits for, and an HCM that accepts
    everything. *)

From S2P Require Import Prelude Num Domain Store Entities Breaker World Dates Hash TimeOff.

(** An HCM that answers at once. *)
Definition agreeable_http (n : nat) (config : HttpRequest) : N * (error_object + HcmData) :=
  match config with
  | GetBalance _ _ _ => (0%N, inr (HValue None None))
  | PostValidate _ _ _ _ => (0%N, inr (HValue (Some true) None))
  | PutBalance _ _ _ _ _ _ => (0%N, inr (HValue None (Some true)))
  | GetBatchSync _ => (0%N, inr (HArray []))
  end.

Definition calm : Env := {|
  env_delay := fun _ => 0%N; env_random := fun _ => 0%N; env_http := agreeable_http |}.

(** An HCM that cannot be reached. *)
Definition outage : Env := {|
  env_delay := fun _ => 0%N; env_random := fun _ => 0%N;
  env_http := fun _ _ => (0%N, inl {| e_code := Some "ECONNREFUSED"; e_driver_code := None;
    e_response_status := None; e_message := "connect ECONNREFUSED" |}) |}.

Definition no_dates : Engine := {| engine_date_parse := fun _ => None |}.

(** A hash without collisions. *)
Definition plain_crypto : Crypto := {| sha256_hex := fun s => s |}.

(** 2026-01-10T00:00:00Z *)
Definition jan10 : Z := 1768003200000.

Definition sample_balance (i : string) (a p u : Z) : EmployeeBalance :=
  {| b_id := i; b_employeeId := "emp"; b_locationId := "loc"; b_leaveType := "VACATION";
     b_totalBalance := of_Z (a + p + u); b_availableBalance := of_Z a;
     b_pendingBalance := of_Z p; b_usedBalance := of_Z u; b_carryOverBalance := of_Z 0;
     b_hcmTotalBalance := of_Z (a + p + u); b_hcmLastSync := Some jan10; b_hcmVersion := None;
     b_hasDiscrepancy := false; b_discrepancyAmount := None;
     b_version := 1; b_createdAt := jan10; b_updatedAt := jan10 |}.

Definition sample_dto (start end_ : string) : CreateDto :=
  {| d_employeeId := "emp"; d_locationId := "loc"; d_leaveType := "VACATION";
     d_startDate := start; d_endDate := end_; d_notes := None |}.

(** A stored request of [days] days. *)
Definition sample_request (i key start end_ : string) (days : Z) (s : RequestStatus.t) :
    TimeOffRequest :=
  r_with_decision s None None None
    (r_with_managed i 1 jan10 jan10 (new_request (sample_dto start end_) key (of_Z days))).

Definition table {R} `{Entity R} (l : list R) : gmap string R :=
  list_to_map ((fun r => (eid r, r)) <$> l).

Definition sample_db (bs : list EmployeeBalance) (rs : list TimeOffRequest) : Db MemTbl :=
  {| balances := table bs; requests := table rs; idempotency := table []; syncLogs := table [] |}.

Definition sample_breaker : CircuitBreaker := new_CircuitBreaker "HCM" (Some 5%Z) (Some 30000%Z) None.

Definition sample_world (d : Db MemTbl) : World MemTbl :=
  {| w_db := d; w_now := jan10; w_tick := 0; w_immediates := []; w_breaker := sample_breaker;
     w_createLocks := ∅; w_promises := 0; w_batchRunning := false |}.

(** Ten available, two pending and three used days. *)
Definition world_10_2_3 : World MemTbl :=
  sample_world (sample_db [sample_balance "b1" 10 2 3]
    [sample_request "r1" "k1" "2026-02-02" "2026-02-03" 2 RequestStatus.PENDING;
     sample_request "r2" "k2" "2026-03-02" "2026-03-04" 3 RequestStatus.APPROVED]).

Lemma wf_empty {R} `{EntityLaws R} : wf (Tbl := MemTbl) (R := R) (table []).
Proof. by split. Qed.

(** A table is well formed when adding its rows one by one meets no clash. *)
Fixpoint admissible {R} `{Entity R} (l : list R) : bool :=
  match l with
  | [] => true
  | r :: l' => negb (bool_decide (eid r = "")) && e_storable r && admissible l' &&
      forallb (fun q => negb (e_clash r q) && negb (bool_decide (eid r = eid q))) l'
  end.

Lemma table_lookup {R} `{Entity R} (l : list R) i r :
  (table l : gmap string R) !! i = Some r -> r ∈ l /\ eid r = i.
Proof.
  intros Hr%elem_of_list_to_map_2. apply list_elem_of_fmap in Hr as (q & [= -> ->] & Hq). done.
Qed.

Lemma wf_table {R} `{EntityLaws R} (l : list R) :
  admissible l = true -> wf (Tbl := MemTbl) (table l).
Proof.
  induction l as [|r l IH]; [intros; apply wf_empty|]. cbn [admissible].
  intros [[[Hne%negb_true_iff Hst]%andb_true_iff Hadm]%andb_true_iff Hall]%andb_true_iff.
  apply bool_decide_eq_false in Hne. rewrite forallb_forall in Hall.
  apply mem_wf_insert; [by apply IH|done|done|done|].
  intros j q Hq Hc. apply table_lookup in Hq as [Hq <-].
  specialize (Hall q). rewrite <- list_elem_of_In in Hall. specialize (Hall Hq).
  cbn in Hc, Hall. by rewrite Hc in Hall.
Qed.
