(* ===== verification/Listing.v ===== *)
(** * Listing requests: [TimeOffService.listRequests]

    The filters come from the query of [GET /time-off/requests], so they are
    strings or missing.  [findAndCount] is TypeORM's: the class [Paging]. *)

From Stdlib Require Import Ascii.
From S2P Require Import Prelude Num NumText Domain Store Entities World Dates Limiters Traceparent Hash TimeOff Samples.

Local Open Scope string_scope.

(** ** [parseInt(s)] *)
Definition is_digit (c : ascii) : bool := match digit c with Some _ => true | None => false end.
(** The longest prefix of digits in a base, as a number; [None] when it is empty. *)
Fixpoint digit_prefix (value : ascii -> option N) (base : N) (acc : option N) (s : string) : option N :=
  match s with
  | "" => acc
  | String c s' =>
      match value c with
      | Some d => digit_prefix value base (Some (default 0 acc * base + d)%N) s'
      | None => acc
      end
  end.
Definition decimal_value (c : ascii) : option N := Z.to_N <$> digit c.
(** Of a text without leading spaces and sign: hexadecimal after [0x]. *)
Definition parse_magnitude (s : string) : num :=
  let n := match s with
           | String "0" (String ("x" | "X") s') => digit_prefix hex_value 16 None (toLowerCase s')
           | _ => digit_prefix decimal_value 10 None s
           end in
  match n with Some n => of_Z (Z.of_N n) | None => NaN end.
Definition parseInt (s : string) : num :=
  match trim_start s with
  | String "-" s' => nopp (parse_magnitude s')
  | String "+" s' => parse_magnitude s'
  | s' => parse_magnitude s'
  end.

Example parseInt_texts :
  parseInt " 12px" = of_Z 12 /\ parseInt "-3" = of_Z (-3) /\ parseInt "0x1F" = of_Z 31 /\
  parseInt "ten" = NaN /\ parseInt "" = NaN.
Proof. by vm_compute. Qed.

(** ** [findAndCount] *)

(** [repository.findAndCount({ where, order, take, skip })] is given whatever
    numbers the caller computed; TypeORM refuses some of them. *)
Class Paging (Tbl : Type -> Type) := {
  r_findAndCount : forall {R} `{Entity R},
    (R -> bool) -> (R -> R -> bool) -> num -> num -> Tbl R -> exn + list R * nat;
}.
(** For a whole positive [take] and a whole [skip] it is the page of [find] and
    the number of all rows that match. *)
Class PagingLaws (Tbl : Type -> Type) `{RepoLaws Tbl} `{Paging Tbl} := {
  findAndCount_page : forall {R} `{EntityLaws R} (t : Tbl R) p ord (take skip : nat),
    wf t -> (0 < take)%nat -> (Z.of_nat take < 2 ^ 53)%Z -> (Z.of_nat skip < 2 ^ 53)%Z ->
    r_findAndCount p ord (of_Z (Z.of_nat take)) (of_Z (Z.of_nat skip)) t =
      inr (r_findBy p ord (Some take) skip t, length (r_find p t));
  findAndCount_error : forall {R} `{EntityLaws R} (t : Tbl R) p ord take skip e,
    r_findAndCount p ord take skip t = inl e -> driver_error e;
}.

(** A table in memory, which refuses what is not a number. *)
Definition to_nat_of (x : num) : nat := Z.to_nat (Math_floor x).
#[export] Instance MemPaging : Paging MemTbl := {|
  r_findAndCount := fun R _ p ord take skip t =>
    if neqb take take && neqb skip skip
    then inr (mem_findBy p ord (Some (to_nat_of take)) (to_nat_of skip) t, length (mem_find p t))
    else inl (JsError "Provided take value is not a number")
|}.
#[export] Instance MemPaging_laws : PagingLaws MemTbl.
Proof.
  split; [|intros R HR HL t p ord take skip e; cbn; case_match; [done|intros [= <-]; by eexists]].
  intros R HR HL t p ord take skip Hwf H0 Ht Hs. cbn.
  assert (Hq : forall n : nat, (Z.of_nat n < 2 ^ 53)%Z -> neqb (of_Z (Z.of_nat n)) (of_Z (Z.of_nat n)) = true).
  { intros n Hn. rewrite <- units_integer. unfold neqb, SpecFloat.SFeqb.
    rewrite units_compare by (unfold small; lia). by rewrite Z.compare_refl. }
  rewrite !Hq by done. unfold to_nat_of.
  by rewrite !Math_floor_of_Z, !Nat2Z.id by (unfold small; lia).
Qed.

(** ** [listRequests] *)
Record ListFilters := {
  q_employeeId : option string;
  q_locationId : option string;
  q_status : option string;
  q_limit : option string;
  q_offset : option string;
}.
Record RequestPage := {
  p_data : list RequestView;
  p_total : nat;
  p_limit : num;
  p_offset : num;
}.

(** The value of the status column a text is compared with. *)
Definition status_of (s : string) : RequestStatus.t :=
  if decide (s = "PENDING") then RequestStatus.PENDING
  else if decide (s = "APPROVED") then RequestStatus.APPROVED
  else if decide (s = "REJECTED") then RequestStatus.REJECTED
  else if decide (s = "CANCELLED") then RequestStatus.CANCELLED
  else RequestStatus.Other s.

(** [if (filter) where.column = filter] *)
Definition filtered {A} `{EqDecision A} (read : string -> A) (filter : option string) (column : A) : bool :=
  match filter with
  | None | Some "" => true
  | Some s => bool_decide (column = read s)
  end.
Definition where_filters (f : ListFilters) (r : TimeOffRequest) : bool :=
  filtered id (q_employeeId f) (r_employeeId r) && filtered id (q_locationId f) (r_locationId r) &&
  filtered status_of (q_status f) (r_status r).
(** [order: { createdAt: 'DESC' }] *)
Definition newest_first (r q : TimeOffRequest) : bool := (r_createdAt q <=? r_createdAt r)%Z.

Section list.
Context {Tbl : Type -> Type} `{RepoLaws Tbl} `{!Paging Tbl}.

Definition listRequests (f : ListFilters) : M (World Tbl) exn RequestPage :=
  let limit := parseInt (default "50" (q_limit f)) in
  let offset := parseInt (default "0" (q_offset f)) in
  found ← gets (fun w => r_findAndCount (where_filters f) newest_first
                           (Math_min limit (of_Z 100)) offset (requests (w_db w)));
  match found with
  | inl e => throw e
  | inr (requests, total) =>
      mret {| p_data := serializeRequest <$> requests; p_total := total;
              p_limit := limit; p_offset := offset |}
  end.

Context `{!PagingLaws Tbl}.

Lemma Math_min_nats (a b : nat) :
  (Z.of_nat a < 2 ^ 53)%Z -> (0 < b)%nat -> (Z.of_nat b < 2 ^ 53)%Z ->
  Math_min (of_Z (Z.of_nat a)) (of_Z (Z.of_nat b)) = of_Z (Z.of_nat (a `min` b)).
Proof.
  intros Ha Hb0 Hb. change (Math_min (units 0 (Z.of_nat a)) (units 0 (Z.of_nat b)) = units 0 (Z.of_nat (a `min` b))).
  unfold Math_min. rewrite !units_ltb by (unfold small; lia).
  destruct (Z.ltb_spec (Z.of_nat a) (Z.of_nat b)); [by rewrite Nat.min_l by lia|].
  destruct (Z.ltb_spec (Z.of_nat b) (Z.of_nat a)); [by rewrite Nat.min_r by lia|].
  assert (a = b) as -> by lia. rewrite Nat.min_id. unfold neqb, SpecFloat.SFeqb.
  rewrite units_compare by (unfold small; lia). rewrite Z.compare_refl.
  rewrite units_finite by (unfold small; lia). done.
Qed.

(** C28. For a whole limit of at least one and a whole offset [listRequests]
    answers with the rows that pass every filter given, newest first, from the
    offset on and at most a hundred of them; [total] counts all that pass; and
    nothing is changed. *)
Theorem listRequests_page (f : ListFilters) (limit offset : nat) w :
  wf (requests (w_db w)) ->
  parseInt (default "50" (q_limit f)) = of_Z (Z.of_nat limit) -> (0 < limit)%nat ->
  (Z.of_nat limit < 2 ^ 53)%Z ->
  parseInt (default "0" (q_offset f)) = of_Z (Z.of_nat offset) -> (Z.of_nat offset < 2 ^ 53)%Z ->
  exists l,
    StronglySorted (brel newest_first) l /\ NoDup (r_id <$> l) /\
    (forall r, r ∈ l <-> rows (requests (w_db w)) !! r_id r = Some r /\ where_filters f r = true) /\
    listRequests f w =
      (w, inr {| p_data := serializeRequest <$> list.take (limit `min` 100) (drop offset l);
                 p_total := length l; p_limit := of_Z (Z.of_nat limit);
                 p_offset := of_Z (Z.of_nat offset) |}).
Proof.
  intros Hwf Hl Hl0 Hl53 Ho Ho53. unfold listRequests. rewrite Hl, Ho.
  change (of_Z 100) with (of_Z (Z.of_nat 100)). rewrite Math_min_nats by lia.
  assert (Ht : (0 < limit `min` 100 <= 100)%nat) by lia. revert Ht. generalize (limit `min` 100)%nat as take. intros take Ht.
  destruct (findBy_spec (requests (w_db w)) (where_filters f) newest_first (Some take) offset Hwf) as (l & Hp & Hs & Hf).
  { intros x y. unfold newest_first. destruct (Z.leb_spec (r_createdAt y) (r_createdAt x)); [by left|right].
    apply Z.leb_le. lia. }
  { intros x y z. unfold newest_first. rewrite !Z.leb_le. lia. }
  exists l. split; [done|]. split; [|split].
  - change (NoDup (eid <$> l)). rewrite Hp. by apply find_NoDup.
  - intros r. rewrite Hp. change (r_id r) with (eid r). by apply find_In.
  - unfold gets, mbind, M_bind. rewrite findAndCount_page by (done || lia). rewrite Hf.
    unfold mret, M_ret, page. by rewrite (Permutation_length Hp).
Qed.
End list.

(** Two pages of one request each over two rows. *)
Definition page_of (limit offset : string) : ListFilters :=
  {| q_employeeId := Some "emp"; q_locationId := None; q_status := Some ""; q_limit := Some limit;
     q_offset := Some offset |}.
Definition counted_by (f : ListFilters) (w : World MemTbl) : nat :=
  match (listRequests f w).2 with inr p => p_total p | inl _ => 0 end.
Lemma two_requests : counted_by (page_of "1" "1") world_10_2_3 = 2%nat.
Proof. vm_compute. reflexivity. Qed.
Lemma listRequests_page_witness :
  exists l, length l = 2%nat /\
    listRequests (page_of "1" "1") world_10_2_3 =
      (world_10_2_3, inr {| p_data := serializeRequest <$> list.take 1 (drop 1 l); p_total := length l;
                            p_limit := of_Z 1; p_offset := of_Z 1 |}).
Proof.
  destruct (listRequests_page (page_of "1" "1") 1 1 world_10_2_3) as (l & _ & _ & _ & E);
    [by apply wf_table|vm_compute; reflexivity|lia|lia|vm_compute; reflexivity|lia|].
  exists l. split; [|exact E]. rewrite <- two_requests. unfold counted_by. rewrite E. reflexivity.
Defined.
