(* ===== verification/Http.v ===== *)
(** * HTTP layer: controllers, [AllExceptionsFilter], [LoggingInterceptor], health

    [src/src/modules/*/*.controller.js], [src/src/common/filters],
    [src/src/common/interceptors] and the environment [src/src/main.js] reads.
    Nest's pipes are the class [Nest], its routing is in [Routes]; the filter's
    log entry is left out. *)

From Stdlib Require Import Ascii.
From stdpp Require Import pretty.
From S2P Require Import Prelude Num NumText Domain Store Entities World Dates Hash HcmApi DeadLetter Limiters Traceparent Balance HcmService TimeOff HcmSync Listing.

Local Open Scope string_scope.

(** ** [LoggingInterceptor.intercept]: the identifiers of a request *)

(** [requestId] and [correlationId], from the two headers and a fresh UUID; both
    are also set as response headers. *)
Definition request_ids (xRequestId xCorrelationId : option string) (uuid : string) : string * string :=
  let requestId := or_string xRequestId (or_string xCorrelationId uuid) in
  let correlationId := or_string xCorrelationId requestId in
  (requestId, correlationId).

(** The lines [intercept] prints. *)
Record request_head := {
  rq_method : string;
  rq_url : string;
  rq_xRequestId : option string;
  rq_xCorrelationId : option string;
  rq_xEmployeeId : option string;
}.
Inductive log_entry :=
  | REQUEST_START (requestId method url : string) (employeeId : option string) (timestamp : Z)
  | REQUEST_END (requestId method url : string) (statusCode durationMs timestamp : Z)
  | REQUEST_ERROR (requestId method url error : string) (durationMs timestamp : Z).

Section intercept.
Context {St A : Type} (date_now : M St exn Z) (print : log_entry -> St -> St).
(** [err.message] of an exception that is an object. *)
Context (exn_message : exn -> string).

(** [intercept(context, next)]: the handler is given the two identifiers;
    [statusCode a] is the status of the response when it returns [a]. *)
Definition intercept (rq : request_head) (uuid : string) (statusCode : A -> Z) (next : string * string -> M St exn A) :
    M St exn A :=
  let ids := request_ids (rq_xRequestId rq) (rq_xCorrelationId rq) uuid in
  startMs ← date_now;
  timestamp ← date_now;
  _ ← modify (print (REQUEST_START ids.1 (rq_method rq) (rq_url rq) (rq_xEmployeeId rq) timestamp));
  (fun s =>
    match next ids s with
    | (s', inr a) =>
        (now ← date_now; timestamp ← date_now;
         _ ← modify (print (REQUEST_END ids.1 (rq_method rq) (rq_url rq) (statusCode a) (now - startMs) timestamp));
         mret a) s'
    | (s', inl ThrownUndefined) =>
        throw (JsError "Cannot read properties of undefined (reading 'message')") s'
    | (s', inl err) =>
        (now ← date_now; timestamp ← date_now;
         _ ← modify (print (REQUEST_ERROR ids.1 (rq_method rq) (rq_url rq) (exn_message err) (now - startMs) timestamp));
         throw err) s'
    end) : M St exn A.

(** A request that a client numbered keeps that number. *)
Lemma request_ids_kept id correlation uuid :
  id <> "" -> (request_ids (Some id) correlation uuid).1 = id.
Proof. by destruct id. Qed.

(** With a clock that returns, the interceptor changes no outcome but that of
    [throw undefined], and prints one line before the handler and one after. *)
Lemma intercept_transparent (R : relation St) `{!PreOrder R} rq uuid statusCode next s :
  (forall v, exists v' t, R v v' /\ date_now v = (v', inr t)) ->
  let ids := request_ids (rq_xRequestId rq) (rq_xCorrelationId rq) uuid in
  exists s0 t, R s s0 /\ let s1 := print (REQUEST_START ids.1 (rq_method rq) (rq_url rq) (rq_xEmployeeId rq) t) s0 in
  match next ids s1 with
  | (s2, inl ThrownUndefined) => exists e, intercept rq uuid statusCode next s = (s2, inl e)
  | (s2, r) => exists s3 line, R s2 s3 /\ intercept rq uuid statusCode next s = (print line s3, r)
  end.
Proof.
  intros Hclock ids. unfold intercept. fold ids.
  destruct (Hclock s) as (sa & start & Ra & Ha). destruct (Hclock sa) as (sb & t & Rb & Hb).
  exists sb, t. split; [by etrans|]. cbv zeta.
  rewrite (bind_ok _ _ _ _ _ Ha), (bind_ok _ _ _ _ _ Hb).
  rewrite (bind_ok (modify (print _)) _ sb (print _ sb) tt) by reflexivity.
  destruct (next ids _) as [s2 r]. destruct (Hclock s2) as (sc & n & Rc & Hc). destruct (Hclock sc) as (sd & t' & Rd & Hd).
  destruct r as [[status code|o|]|a]; [| |by eexists|];
    rewrite (bind_ok _ _ _ _ _ Hc), (bind_ok _ _ _ _ _ Hd); unfold mbind, M_bind, modify;
    do 2 eexists; (split; [by etrans|reflexivity]).
Qed.

(** What the clock, the console and the handler respect, the interceptor does. *)
Lemma intercept_stays (R : relation St) `{!PreOrder R} rq uuid statusCode next :
  stays R date_now -> (forall l s, R s (print l s)) -> (forall ids, stays R (next ids)) ->
  stays R (intercept rq uuid statusCode next).
Proof.
  intros Hc Hp Hn. unfold intercept. cbv zeta. apply stays_bind; [done|done|]. intros start.
  apply stays_bind; [done|done|]. intros t. apply stays_bind; [done|intros s; apply Hp|]. intros _ s.
  specialize (Hn (request_ids (rq_xRequestId rq) (rq_xCorrelationId rq) uuid) s). destruct (next _ s) as [s' r]. cbn in Hn.
  assert (Hl : forall (l : Z -> Z -> log_entry) (m : M St exn A), stays R m ->
      stays R (now ← date_now; timestamp ← date_now; _ ← modify (print (l now timestamp)); m)).
  { intros l m Hm. apply stays_bind; [done|done|]. intros now. apply stays_bind; [done|done|]. intros t'.
    apply stays_bind; [done|intros ?; apply Hp|by intros _]. }
  destruct r as [[status code|o|]|a]; [| |done|]; (etrans; [exact Hn|]).
  - exact (Hl _ (throw (HttpException status code)) (stays_throw R _) s').
  - exact (Hl _ (throw (ErrorObject o)) (stays_throw R _) s').
  - exact (Hl _ (mret a) (stays_ret R _) s').
Qed.
End intercept.

(** ** [AllExceptionsFilter.catch] *)

(** What [exception.getResponse()] is. *)
Inductive exception_response :=
  | TextResponse (text : string)
  | ObjectResponse (error : option string) (message : option (string + list string)) (details : option Json).
(** An [HttpException], another object, or [undefined]. *)
Inductive caught :=
  | NestException (status : Z) (response : exception_response)
  | OtherError
  | CaughtUndefined.

Record error_body := {
  eb_statusCode : Z;
  eb_error : string;
  eb_message : string;
  eb_requestId : string;
  eb_timestamp : Z;
  eb_path : string;
  eb_details : option Json;
}.

Definition INTERNAL_SERVER_ERROR : string := "INTERNAL_SERVER_ERROR".
Definition unexpected_message : string := "An unexpected error occurred".

(** The status, the error code, the message and the details of the answer. *)
Definition normalized (exception : caught) : exn + Z * string * string * option Json :=
  match exception with
  | NestException status (ObjectResponse error message details) =>
      inr (status, or_string error (pretty status),
           match message with
           | Some (inr texts) => String.concat "; " texts
           | Some (inl text) => or_string (Some text) unexpected_message
           | None => unexpected_message
           end, details)
  | NestException status (TextResponse text) => inr (status, pretty status, text, None)
  | OtherError => inr (500%Z, INTERNAL_SERVER_ERROR, unexpected_message, None)
  | CaughtUndefined =>   (* [exception.message] of the log entry *)
      inl (JsError "Cannot read properties of undefined (reading 'message')")
  end.

Definition catch_exception (exception : caught) (requestId : option string) (url : string) (now : Z) :
    exn + error_body :=
  match normalized exception with
  | inl e => inl e
  | inr (status, error, message, details) =>
      inr {| eb_statusCode := status; eb_error := error; eb_message := message;
             eb_requestId := or_string requestId "unknown"; eb_timestamp := now; eb_path := url;
             eb_details := details |}
  end.

(** ** Requests *)
Inductive response (A : Type) :=
  | Answer (status : Z) (body : A)
  | Failure (body : error_body).
Arguments Answer {A} _ _.
Arguments Failure {A} _.

(** What Nest's pipes do with the arguments of a handler, and the texts and
    details of the exceptions, which [exn] leaves out. *)
Class Nest := {
  is_uuid : string -> bool;                      (* [ParseUUIDPipe] *)
  pipe_body : forall {A}, A -> exn + A;          (* [ValidationPipe] *)
  exn_text : exn -> string;
  exn_details : exn -> option Json;
}.
(** A pipe refuses with Nest's [BadRequestException]. *)
Class NestLaws `{Nest} := {
  pipe_refuses : forall {A} (a : A) e, pipe_body a = inl e -> e = BadRequestException "Bad Request";
}.

Definition to_caught `{Nest} (e : exn) : caught :=
  match e with
  | HttpException status error =>
      NestException status (ObjectResponse (Some error) (Some (inl (exn_text e))) (exn_details e))
  | ErrorObject _ => OtherError
  | ThrownUndefined => CaughtUndefined
  end.

Definition lift {St A} (r : exn + A) : M St exn A := fun s => (s, r).

Section controllers.
Context {Tbl : Type -> Type} `{Repo Tbl} `{TxManager Tbl} `{HcmApi Tbl} `{Paging Tbl}.
Context `{Env} `{Config} `{Engine} `{Crypto} `{Nest}.
Abbreviation M A := (M (World Tbl) exn A).

(** A handler between the interceptor and the filter: [requestId] is the
    identifier the interceptor chose, if it ran. *)
Definition handle {A} (requestId : option string) (url : string) (success : Z) (handler : M A) :
    M (response A) :=
  try_catch (a ← handler; mret (Answer success a))
    (fun e =>
       now ← date_now;
       body ← lift (catch_exception (to_caught e) requestId url now);
       mret (Failure body)).

Definition ParseUUIDPipe (id : string) : M string :=
  if is_uuid id then mret id else throw (BadRequestException "Bad Request").

(** ** [TimeOffController] *)
Definition post_request (dto : CreateDto) (idempotencyKey : option string) : M RequestView :=
  dto ← lift (pipe_body dto);
  createRequest dto idempotencyKey.

(** [new UnprocessableEntityException(text)]: Nest puts the name of the status
    in the [error] field. *)
Definition list_requests (f : ListFilters) : M RequestPage :=
  match q_status f with
  | None | Some "" => listRequests f
  | Some s =>
      if bool_decide (s ∈ ["PENDING"; "APPROVED"; "REJECTED"; "CANCELLED"]) then listRequests f
      else throw (UnprocessableEntityException "Unprocessable Entity")
  end.
Definition get_request (id : string) : M RequestView :=
  id ← ParseUUIDPipe id;
  getRequest id.

Record ApproveDto := { ap_approverId : string }.
Record RejectDto := { rj_approverId : string; rj_reason : string }.
Record CancelDto := { cn_reason : option string }.
Definition patch_approve (id : string) (dto : ApproveDto) : M RequestView :=
  id ← ParseUUIDPipe id; dto ← lift (pipe_body dto);
  approveRequest id (ap_approverId dto).
Definition patch_reject (id : string) (dto : RejectDto) : M RequestView :=
  id ← ParseUUIDPipe id; dto ← lift (pipe_body dto);
  rejectRequest id (rj_approverId dto) (rj_reason dto).
Definition patch_cancel (id : string) (dto : CancelDto) : M RequestView :=
  id ← ParseUUIDPipe id; dto ← lift (pipe_body dto);
  cancelRequest id (cn_reason dto).

(** ** [BalanceController] and [HcmController] *)
Definition get_balances (employeeId locationId : string) : M (list BalanceView) :=
  getBalancesForEmployee employeeId locationId.
Definition get_balance_of (employeeId locationId leaveType : string) : M BalanceView :=
  getBalance employeeId locationId leaveType.
(** [parseFloat(total)] of the path segment is a parameter: the number it reads. *)
Definition seed_balance (employeeId locationId leaveType : string) (total : num) : M BalanceView :=
  upsertBalance employeeId locationId leaveType total.
Definition trigger_batch_sync : M unit := triggerManualBatchSync.
Definition get_sync_logs : M (list SyncLog) := getSyncLogs 20.
End controllers.

(** ** [HealthController] *)

(** The database as [SELECT 1] finds it. *)
Inductive DbProbe := NotInitialized | QueryFailed (message : string) | QueryAnswered.
Definition db_error (p : DbProbe) : option string :=
  match p with
  | NotInitialized => Some "Database connection is not initialized"
  | QueryFailed message => Some message
  | QueryAnswered => None
  end.
(** [...(dbError ? { error: dbError } : {})] *)
Definition shown_error (e : option string) : option string := match e with Some "" => None | _ => e end.
Definition db_up (p : DbProbe) : bool := match p with QueryAnswered => true | _ => false end.

Record liveness := { lv_status : string; lv_uptimeSeconds : Z; lv_timestamp : Z }.
Definition getLiveness (now : Z) (uptime : num) : Z * liveness :=
  (200%Z, {| lv_status := "UP"; lv_uptimeSeconds := Math_floor uptime; lv_timestamp := now |}).

Record readiness := { rd_status : string; rd_database : string; rd_error : option string; rd_timestamp : Z }.
Definition getReadiness (now : Z) (p : DbProbe) : Z * readiness :=
  (if db_up p then 200%Z else 503%Z,
   {| rd_status := if db_up p then "UP" else "DOWN"; rd_database := if db_up p then "READY" else "UNAVAILABLE";
      rd_error := shown_error (db_error p); rd_timestamp := now |}).

(** [process.memoryUsage()], in bytes. *)
Record memory := { mem_rss : Z; mem_heapUsed : Z; mem_heapTotal : Z }.
Definition newline : string := String (Ascii.ascii_of_nat 10) "".
Definition getMetrics (uptime : num) (mem : memory) : string :=
  String.concat newline
    ["# HELP process_uptime_seconds Process uptime in seconds.";
     "# TYPE process_uptime_seconds gauge";
     "process_uptime_seconds " +:+ pretty (Math_floor uptime);
     "";
     "# HELP process_resident_memory_bytes Resident memory size in bytes.";
     "# TYPE process_resident_memory_bytes gauge";
     "process_resident_memory_bytes " +:+ pretty (mem_rss mem);
     "";
     "# HELP process_heap_bytes Process heap bytes.";
     "# TYPE process_heap_bytes gauge";
     "process_heap_bytes " +:+ pretty (mem_heapUsed mem);
     "";
     "# HELP process_heap_total_bytes Process heap total bytes.";
     "# TYPE process_heap_total_bytes gauge";
     "process_heap_total_bytes " +:+ pretty (mem_heapTotal mem);
     ""].

(** [+(bytes / 1024 / 1024).toFixed(2)] *)
Definition megabytes (bytes : Z) : num := toFixed 2 (ndiv (ndiv (of_Z bytes) (of_Z 1024)) (of_Z 1024)).
Record health := {
  hl_status : string;
  hl_timestamp : Z;
  hl_uptimeSeconds : Z;
  hl_database : string;
  hl_dbError : option string;
  hl_circuit : string * CircuitState.t * Z * option Z;
  hl_memory : num * num * num;   (* resident, heap used, heap total *)
}.
Section health.
Context {Tbl : Type -> Type}.
Definition getHealth (now : Z) (uptime : num) (mem : memory) (p : DbProbe) : M (World Tbl) exn (Z * health) :=
  circuitStatus ← getCircuitStatus;
  let '(_, state, _, _) := circuitStatus in
  let isCircuitOpen := bool_decide (state = CircuitState.OPEN) in
  let '(overallStatus, httpStatus) :=
    if negb (db_up p) then ("DOWN", 503%Z)
    else if isCircuitOpen then ("DEGRADED", 200%Z) else ("UP", 200%Z) in
  mret (httpStatus,
    {| hl_status := overallStatus; hl_timestamp := now; hl_uptimeSeconds := Math_floor uptime;
       hl_database := if db_up p then "UP" else "DOWN"; hl_dbError := shown_error (db_error p);
       hl_circuit := circuitStatus;
       hl_memory := (megabytes (mem_rss mem), megabytes (mem_heapUsed mem), megabytes (mem_heapTotal mem)) |}).
End health.

(** ** [main.js]: what [bootstrap] reads from the environment *)

(** [process.env] *)
Abbreviation env_vars := (string -> option string).

(** [CORS_ORIGINS]: the origins, or [None] for any. *)
Definition corsOrigins (CORS_ORIGINS : option string) : option (list string) :=
  let origins := filter (fun o => o <> "") (trim <$> split ","%char (or_string CORS_ORIGINS "")) in
  match origins with [] => None | _ => Some origins end.
(** The options of [enableCors]. *)
Record CorsOptions := { co_origin : option (list string); co_methods : list string; co_allowedHeaders : list string }.
Definition cors_options (env : env_vars) : CorsOptions :=
  {| co_origin := corsOrigins (env "CORS_ORIGINS");
     co_methods := ["GET"; "POST"; "PATCH"; "PUT"; "DELETE"; "OPTIONS"];
     co_allowedHeaders := ["Content-Type"; "Authorization"; "X-Idempotency-Key"] |}.
(** The rate limit: none under test, else window and number of requests. *)
Definition rateLimit_options (NODE_ENV RATE_LIMIT_WINDOW_MS RATE_LIMIT_MAX_REQUESTS : option string) :
    option (num * num) :=
  if decide (NODE_ENV = Some "test") then None
  else Some (parseInt (or_string RATE_LIMIT_WINDOW_MS "60000"), parseInt (or_string RATE_LIMIT_MAX_REQUESTS "300")).

Example corsOrigins_texts :
  corsOrigins (Some "https://a.example, https://b.example,,") = Some ["https://a.example"; "https://b.example"] /\
  corsOrigins (Some " , ") = None /\ corsOrigins None = None.
Proof. by vm_compute. Qed.

(** The service is down exactly when the database is; a database that answers
    behind an open breaker is degraded. *)
Lemma getHealth_status {Tbl} now uptime mem p (w : World Tbl) :
  exists h, getHealth now uptime mem p w = (w, inr (if db_up p then 200%Z else 503%Z, h)) /\
    (hl_status h = "DOWN" <-> db_up p = false) /\
    (hl_status h = "DEGRADED" <-> db_up p = true /\ Breaker.cb_state (w_breaker w) = CircuitState.OPEN).
Proof.
  unfold getHealth, getCircuitStatus, gets, mbind, M_bind, Breaker.getStatus.
  destruct (db_up p); cbn [negb]; [case_bool_decide|]; eexists; (split; [done|]); split; split; (done || by intros []).
Qed.
