(* ===== verification/MockHcm.v ===== *)
(** * Mock HCM server: [src/mock-hcm/src/server.js]

    The stand-in for the HCM system the services are run against.  A handler is a
    function of the clock, the body of the request and the server's state; it
    gives the state after the request and the response.  Bodies hold the fields
    the handler reads, [None] for one that is [undefined]; amounts are numbers.
    Texts of messages are left out, and so are accounts whose key is the name of a
    property every object has, such as [__proto__]. *)

From stdpp Require Import pretty.
From Stdlib Require Import Floats.SpecFloat.
From S2P Require Import Prelude Num Domain World JsMap DeadLetter Listing.

Local Open Scope Z_scope.

(** ** State *)
Record mock_record := {
  k_employeeId : string;
  k_locationId : string;
  k_leaveType : string;
  k_totalBalance : num;
  k_availableBalance : num;
  k_version : string;
}.

Inductive FailureMode := Mode503 | ModeTimeout.
Inductive ValidationOverride := AlwaysValid | AlwaysInvalid.
Record mockBehavior := {
  forcedFailureMode : option FailureMode;
  forcedFailureRemaining : num;
  validationOverride : option ValidationOverride;
  batchPartial : bool;
  staleVersionMode : bool;
}.
Definition initial_behavior : mockBehavior :=
  {| forcedFailureMode := None; forcedFailureRemaining := of_Z 0; validationOverride := None;
     batchPartial := false; staleVersionMode := false |}.

Record Mock := { hcmBalances : jsmap string mock_record; behavior : mockBehavior }.
Definition set_hcmBalances (b : jsmap string mock_record) (m : Mock) : Mock :=
  {| hcmBalances := b; behavior := behavior m |}.
Definition set_behavior (b : mockBehavior) (m : Mock) : Mock :=
  {| hcmBalances := hcmBalances m; behavior := b |}.

(** [getBalanceKey(employeeId, locationId, leaveType)] *)
Definition getBalanceKey (employeeId locationId leaveType : string) : string :=
  employeeId +:+ "_" +:+ locationId +:+ "_" +:+ leaveType.

Definition mock_record_of (employeeId locationId leaveType : string) (total available : num) (version : string) :
    mock_record :=
  {| k_employeeId := employeeId; k_locationId := locationId; k_leaveType := leaveType;
     k_totalBalance := total; k_availableBalance := available; k_version := version |}.
Definition empty_record (employeeId locationId leaveType : string) : mock_record :=
  mock_record_of employeeId locationId leaveType (of_Z 0) (of_Z 0) "v1".
(** The data the server starts with. *)
Definition initial_mock : Mock :=
  {| hcmBalances :=
       jm_set (getBalanceKey "EMP123" "LOC1" "SICK") (mock_record_of "EMP123" "LOC1" "SICK" (of_Z 10) (of_Z 10) "v1")
         (jm_set (getBalanceKey "EMP123" "LOC1" "VACATION")
            (mock_record_of "EMP123" "LOC1" "VACATION" (of_Z 15) (of_Z 15) "v1") jm_empty);
     behavior := initial_behavior |}.

(** [ensureBalanceRecord(...)]: the record of the key, stored if it is new. *)
Definition ensureBalanceRecord (employeeId locationId leaveType : string) (m : Mock) : Mock * mock_record :=
  let key := getBalanceKey employeeId locationId leaveType in
  match jm_get key (hcmBalances m) with
  | Some r => (m, r)
  | None =>
      let r := empty_record employeeId locationId leaveType in
      (set_hcmBalances (jm_set key r (hcmBalances m)) m, r)
  end.

(** An assignment to the fields of the record that is stored under the key. *)
Definition write_record (key : string) (r : mock_record) (m : Mock) : Mock :=
  set_hcmBalances (jm_set key r (hcmBalances m)) m.
(** Both balances changed and a version put on the record. *)
Definition adjusted (change : num -> num) (version : string) (r : mock_record) : mock_record :=
  mock_record_of (k_employeeId r) (k_locationId r) (k_leaveType r)
    (change (k_totalBalance r)) (change (k_availableBalance r)) version.
(** [`v${Date.now()}`] *)
Definition version_at (now : Z) : string := "v" +:+ pretty now.

(** ** Responses *)
Inductive payload :=
  | PRecord (r : mock_record)
  | PRecords (l : list mock_record)
  | PValidation (valid : bool) (hcmBalance : num)
  | PFiled (referenceId : option string) (updatedBalance : num) (version : string)
  | PUpdated (updatedBalance : num) (version : string)
  | PRefreshed (count : nat) (days : num) (l : list mock_record)
  | PBehavior (b : mockBehavior)
  | PError (error : string).
Record reply := { status : Z; body : payload }.
Definition ok (p : payload) : reply := {| status := 200; body := p |}.
Definition refuse (s : Z) (error : string) : reply := {| status := s; body := PError error |}.

(** ** [simulateInstability] *)
Inductive fate :=
  | Proceed (delay : Z)      (* the handler runs after so many milliseconds *)
  | Unavailable.             (* 503 *)
Section instability.
Context (FLAKINESS_PROBABILITY LIKELY_TIMEOUT_PROBABILITY : num).
Context (rand rand' : num).   (* the two values of [Math.random()] *)

Definition simulateInstability (m : Mock) : Mock * fate :=
  let b := behavior m in
  let forced := match forcedFailureMode b with
                | Some mode => if (of_Z 0 <. forcedFailureRemaining b)%num then Some mode else None
                | None => None
                end in
  match forced with
  | Some mode =>
      (set_behavior {| forcedFailureMode := forcedFailureMode b;
                       forcedFailureRemaining := (forcedFailureRemaining b -. of_Z 1)%num;
                       validationOverride := validationOverride b; batchPartial := batchPartial b;
                       staleVersionMode := staleVersionMode b |} m,
       match mode with ModeTimeout => Proceed 6000 | Mode503 => Unavailable end)
  | None =>
      (m, if (rand <. LIKELY_TIMEOUT_PROBABILITY)%num then Proceed 6000
          else if (rand <. LIKELY_TIMEOUT_PROBABILITY +. FLAKINESS_PROBABILITY)%num then Unavailable
          else Proceed (Math_floor (of_Z 50 +. nmul rand' (of_Z 150))%num))
  end.
End instability.

(** ** Handlers of the API *)

(** [GET /hcm/balance/:employeeId/:locationId/:leaveType] *)
Definition get_balance (employeeId locationId leaveType : string) (m : Mock) : reply :=
  ok (PRecord (default (empty_record employeeId locationId leaveType)
                 (jm_get (getBalanceKey employeeId locationId leaveType) (hcmBalances m)))).

(** [a < b] where [b] may be [undefined]. *)
Definition below (a : num) (b : option num) : bool :=
  match b with Some b => (a <. b)%num | None => false end.

(** [POST /hcm/validate] *)
Definition post_validate (employeeId locationId leaveType : string) (daysRequested : option num) (m : Mock) : reply :=
  let record := jm_get (getBalanceKey employeeId locationId leaveType) (hcmBalances m) in
  let hcmBalance := match record with Some r => k_availableBalance r | None => of_Z 0 end in
  match validationOverride (behavior m) with
  | Some AlwaysInvalid => ok (PValidation false hcmBalance)
  | Some AlwaysValid => ok (PValidation true hcmBalance)
  | None =>
      match record with
      | None => ok (PValidation false hcmBalance)
      | Some r => ok (PValidation (negb (below (k_availableBalance r) daysRequested)) hcmBalance)
      end
  end.

Definition missing (s : option string) : bool := match s with None | Some "" => true | _ => false end.
(** [Number.isFinite(x)] *)
Definition isFinite (x : num) : bool :=
  match x with S754_zero _ | S754_finite _ _ _ => true | _ => false end.

(** [POST /hcm/time-off] *)
Definition post_time_off (now : Z) (employeeId locationId leaveType : option string) (daysRequested : option num)
    (referenceId : option string) (m : Mock) : Mock * reply :=
  match employeeId, locationId, leaveType, daysRequested with
  | Some employeeId, Some locationId, Some leaveType, Some daysRequested =>
      if missing (Some employeeId) || missing (Some locationId) || missing (Some leaveType)
      then (m, refuse 400 "INVALID_INPUT")
      else
        let days := parseFloat daysRequested in
        if negb (isFinite days) || (days <=. of_Z 0)%num then (m, refuse 400 "INVALID_DAYS_REQUESTED")
        else
          let '(m, record) := ensureBalanceRecord employeeId locationId leaveType m in
          if (k_availableBalance record <. days)%num then (m, refuse 422 "INSUFFICIENT_BALANCE")
          else
            let record := adjusted (fun x => (x -. days)%num) (version_at now) record in
            (write_record (getBalanceKey employeeId locationId leaveType) record m,
             {| status := 201;
                body := PFiled (if missing referenceId then None else referenceId)
                          (k_availableBalance record) (k_version record) |})
  | _, _, _, _ => (m, refuse 400 "INVALID_INPUT")
  end.

(** [PUT /hcm/balance]; [referenceId] is not read. *)
Definition put_balance (now : Z) (employeeId locationId leaveType : string) (daysRequested : option num)
    (action : string) (m : Mock) : Mock * reply :=
  let key := getBalanceKey employeeId locationId leaveType in
  let '(m, record) := ensureBalanceRecord employeeId locationId leaveType m in
  let days := parseFloat (match daysRequested with
                          | Some d => if num_truthy d then d else of_Z 0
                          | None => of_Z 0
                          end) in
  let version := if staleVersionMode (behavior m) then k_version record else version_at now in
  let finish (change : num -> num) :=
    let record := adjusted change version record in
    (write_record key record m, ok (PUpdated (k_availableBalance record) (k_version record))) in
  if decide (action = "APPROVE") then
    if (k_availableBalance record <. days)%num then (m, refuse 422 "INSUFFICIENT_BALANCE")
    else finish (fun x => (x -. days)%num)
  else if decide (action = "REJECT") then finish (fun x => (x +. days)%num)
  else (m, refuse 400 "INVALID_ACTION").

(** [values.filter((_, idx) => idx % 2 === 0)] *)
Fixpoint every_other {A} (l : list A) : list A :=
  match l with
  | [] => []
  | [x] => [x]
  | x :: _ :: l => x :: every_other l
  end.
(** [GET /hcm/batch-sync] *)
Definition get_batch_sync (m : Mock) : reply :=
  let values := jm_values (hcmBalances m) in
  ok (PRecords (if batchPartial (behavior m) then every_other values else values)).

(** A record as the services read it from the payload. *)
Definition hcm_record (r : mock_record) : HcmRecord :=
  {| h_employeeId := k_employeeId r; h_locationId := k_locationId r; h_leaveType := k_leaveType r;
     h_totalBalance := parseFloat (k_totalBalance r); h_version := Some (k_version r) |}.
(** A response as the services read it. *)
Definition hcm_data (r : reply) : HcmData :=
  match body r with
  | PRecords l => HArray (hcm_record <$> l)
  | PValidation valid _ => HValue (Some valid) None
  | PUpdated _ _ | PFiled _ _ _ => HValue None (Some true)
  | _ => HValue None None
  end.

(** ** Handlers of the admin server *)

(** [POST /admin/inject] *)
Definition admin_inject (now : Z) (employeeId locationId leaveType : string) (totalBalance availableBalance : num)
    (m : Mock) : Mock * reply :=
  let r := mock_record_of employeeId locationId leaveType totalBalance availableBalance (version_at now) in
  (write_record (getBalanceKey employeeId locationId leaveType) r m, ok (PRecord r)).

(** [for (const record of Object.values(hcmBalances))] with an update of the
    records that pass; [times] are the values of [Date.now()] it reads. *)
Fixpoint refresh_rows (passes : mock_record -> bool) (f : string -> mock_record -> mock_record)
    (times : nat -> Z) (n : nat) (l : list (nat * (string * mock_record))) :
    list (nat * (string * mock_record)) * list mock_record :=
  match l with
  | [] => ([], [])
  | (stamp, (k, r)) :: l =>
      if passes r then
        let r' := f (version_at (times n)) r in
        let '(l', updated) := refresh_rows passes f times (S n) l in ((stamp, (k, r')) :: l', r' :: updated)
      else
        let '(l', updated) := refresh_rows passes f times n l in ((stamp, (k, r)) :: l', updated)
  end.
Definition refresh (passes : mock_record -> bool) (f : string -> mock_record -> mock_record) (times : nat -> Z)
    (days : num) (m : Mock) : Mock * reply :=
  let '(l, updated) := refresh_rows passes f times 0 (rows (hcmBalances m)) in
  (set_hcmBalances {| rows := l; next_stamp := next_stamp (hcmBalances m) |} m,
   ok (PRefreshed (length updated) days updated)).

(** [POST /admin/anniversary-refresh] *)
Definition chosen (employeeId locationId leaveType : option string) (r : mock_record) : bool :=
  (missing employeeId || bool_decide (Some (k_employeeId r) = employeeId)) &&
  (missing locationId || bool_decide (Some (k_locationId r) = locationId)) &&
  (missing leaveType || bool_decide (Some (k_leaveType r) = leaveType)).
Definition anniversary_refresh (times : nat -> Z) (employeeId locationId leaveType : option string)
    (grantDays : option num) (m : Mock) : Mock * reply :=
  let grant := parseFloat (default (of_Z 1) grantDays) in
  if negb (isFinite grant) || (grant <=. of_Z 0)%num then (m, refuse 400 "grantDays must be a positive number")
  else refresh (chosen employeeId locationId leaveType) (adjusted (fun x => (x +. grant)%num)) times grant m.

(** [POST /admin/year-refresh] *)
Definition year_refresh (times : nat -> Z) (defaultTotal : option num) (m : Mock) : Mock * reply :=
  let total := parseFloat (default (of_Z 15) defaultTotal) in
  if negb (isFinite total) || (total <. of_Z 0)%num
  then (m, refuse 400 "defaultTotal must be a non-negative number")
  else refresh (fun _ => true) (adjusted (fun _ => total)) times total m.

(** [POST /admin/behavior]: the fields are checked and set one after the other,
    so a refused request has set those before the bad one.  A mode is a text or
    [null] ([Some None]); the count is its text. *)
Definition failure_mode (s : option string) : option (option FailureMode) :=
  match s with
  | None => Some None
  | Some "503" => Some (Some Mode503)
  | Some "timeout" => Some (Some ModeTimeout)
  | Some _ => None
  end.
Definition override_mode (s : option string) : option (option ValidationOverride) :=
  match s with
  | None => Some None
  | Some "always-valid" => Some (Some AlwaysValid)
  | Some "always-invalid" => Some (Some AlwaysInvalid)
  | Some _ => None
  end.
(** One [if (field !== undefined)] of the handler. *)
Definition field_step {A} (field : option A) (set : A -> mockBehavior -> string + mockBehavior)
    (b : mockBehavior) : mockBehavior * option string :=
  match field with
  | None => (b, None)
  | Some x => match set x b with inl error => (b, Some error) | inr b => (b, None) end
  end.
Definition then_step (r : mockBehavior * option string) (f : mockBehavior -> mockBehavior * option string) :
    mockBehavior * option string :=
  match r with (b, None) => f b | _ => r end.

Record behavior_body := {
  bb_forcedFailureMode : option (option string);
  bb_forcedFailureCount : option string;
  bb_validationOverride : option (option string);
  bb_batchPartial : option bool;
  bb_staleVersionMode : option bool;
}.
Definition set_mode (s : option string) (b : mockBehavior) : string + mockBehavior :=
  match failure_mode s with
  | None => inl "forcedFailureMode must be null, 503, or timeout"
  | Some mode => inr {| forcedFailureMode := mode; forcedFailureRemaining := forcedFailureRemaining b;
                        validationOverride := validationOverride b; batchPartial := batchPartial b;
                        staleVersionMode := staleVersionMode b |}
  end.
Definition set_count (s : string) (b : mockBehavior) : string + mockBehavior :=
  let count := parseInt s in
  if negb (neqb count count) || (count <. of_Z 0)%num
  then inl "forcedFailureCount must be a non-negative number"
  else inr {| forcedFailureMode := forcedFailureMode b; forcedFailureRemaining := count;
              validationOverride := validationOverride b; batchPartial := batchPartial b;
              staleVersionMode := staleVersionMode b |}.
Definition set_override (s : option string) (b : mockBehavior) : string + mockBehavior :=
  match override_mode s with
  | None => inl "validationOverride must be null, always-valid, or always-invalid"
  | Some mode => inr {| forcedFailureMode := forcedFailureMode b; forcedFailureRemaining := forcedFailureRemaining b;
                        validationOverride := mode; batchPartial := batchPartial b;
                        staleVersionMode := staleVersionMode b |}
  end.
Definition set_partial (p : bool) (b : mockBehavior) : string + mockBehavior :=
  inr {| forcedFailureMode := forcedFailureMode b; forcedFailureRemaining := forcedFailureRemaining b;
         validationOverride := validationOverride b; batchPartial := p; staleVersionMode := staleVersionMode b |}.
Definition set_stale (s : bool) (b : mockBehavior) : string + mockBehavior :=
  inr {| forcedFailureMode := forcedFailureMode b; forcedFailureRemaining := forcedFailureRemaining b;
         validationOverride := validationOverride b; batchPartial := batchPartial b; staleVersionMode := s |}.
Definition admin_behavior (f : behavior_body) (m : Mock) : Mock * reply :=
  let '(b, error) :=
    then_step (field_step (bb_forcedFailureMode f) set_mode (behavior m)) (fun b =>
    then_step (field_step (bb_forcedFailureCount f) set_count b) (fun b =>
    then_step (field_step (bb_validationOverride f) set_override b) (fun b =>
    then_step (field_step (bb_batchPartial f) set_partial b) (field_step (bb_staleVersionMode f) set_stale)))) in
  (set_behavior b m, match error with Some e => refuse 400 e | None => ok (PBehavior b) end).

(** [POST /admin/reset-behavior] *)
Definition reset_behavior (m : Mock) : Mock * reply :=
  (set_behavior initial_behavior m, ok (PBehavior initial_behavior)).

Example behavior_half_applied :
  let '(m, r) := admin_behavior {| bb_forcedFailureMode := Some (Some "503"); bb_forcedFailureCount := Some "-1";
    bb_validationOverride := None; bb_batchPartial := None; bb_staleVersionMode := None |} initial_mock in
  status r = 400 /\ forcedFailureMode (behavior m) = Some Mode503.
Proof. by vm_compute. Qed.
(** The key does not tell apart identifiers with an underscore. *)
Example key_clash : getBalanceKey "E_1" "L" "SICK" = getBalanceKey "E" "1_L" "SICK".
Proof. reflexivity. Qed.
