(* ===== verification/MockSpec.v ===== *)
(** * What the mock HCM server promises

    An account has whole steps of a grid available and in total; requests move
    them.  The API of the server is unreliable on purpose: [simulateInstability]
    delays a request, sometimes past the timeout of a client, or answers it with
    503; the administration's requests are served at once.  The server implements
    the accounts as long as the amounts fit, in every order in which the delays of
    the requests end ([mock_refines]), and an account is never overdrawn. *)

From Stdlib Require Import Floats.SpecFloat.
From S2P Require Import Prelude Num Domain World JsMap DeadLetter Listing MockHcm.

Local Open Scope Z_scope.

(** ** Accounts *)
Record account := {
  ac_employee : string;
  ac_location : string;
  ac_type : string;
  ac_available : Z;
  ac_total : Z;
}.
Abbreviation accounts := (gmap string account).

(** What the server keeps: the accounts, what validations are forced to answer, and
    the failures the next requests are forced to have, with their number. *)
Record book := {
  bk_accounts : accounts;
  bk_override : option ValidationOverride;
  bk_faults : option FailureMode * Z;
}.
Definition with_accounts (A : accounts) (B : book) : book :=
  {| bk_accounts := A; bk_override := bk_override B; bk_faults := bk_faults B |}.
Definition with_override (o : option ValidationOverride) (B : book) : book :=
  {| bk_accounts := bk_accounts B; bk_override := o; bk_faults := bk_faults B |}.
Definition with_faults (f : option FailureMode * Z) (B : book) : book :=
  {| bk_accounts := bk_accounts B; bk_override := bk_override B; bk_faults := f |}.

(** A request of the API that concerns the balances, and one of the
    administration; a field that may be [undefined] is an option. *)
Inductive api_op :=
  | Put (action e l y : string) (d : option Z)
  | File (e l y : option string) (d : option Z) (reference : option string)
  | Validate (e l y : string) (d : option Z)
  | Read (e l y : string)
  | ReadAll.
Inductive admin_op :=
  | Inject (e l y : string) (total available : Z)
  | Grant (e l y : option string) (d : Z)
  | NewYear (total : Z)
  | Behave (mode : option (option FailureMode)) (count : option (string * Z))   (* a text and its number *)
      (o : option (option ValidationOverride)) (partial stale : option bool)
  | ResetBehavior.
Abbreviation Approve e l y d := (Put "APPROVE" e l y (Some d)).
Abbreviation Reject e l y d := (Put "REJECT" e l y (Some d)).
Abbreviation Override o := (Behave None None (Some o) None None).
Abbreviation Force mode count n := (Behave (Some mode) (Some (count, n)) None None None).
Inductive answer :=
  | Refused (status : Z)
  | Moved (status : Z) (available : Z)
  | Judged (valid : bool) (available : Z)
  | Shown (available total : Z)
  | Listed (A : accounts)
  | Stored.

Definition blank (e l y : string) : account :=
  {| ac_employee := e; ac_location := l; ac_type := y; ac_available := 0; ac_total := 0 |}.
Definition move (d : Z) (a : account) : account :=
  {| ac_employee := ac_employee a; ac_location := ac_location a; ac_type := ac_type a;
     ac_available := ac_available a + d; ac_total := ac_total a + d |}.
Definition reset_to (t : Z) (a : account) : account :=
  {| ac_employee := ac_employee a; ac_location := ac_location a; ac_type := ac_type a;
     ac_available := t; ac_total := t |}.
Definition account_chosen (e l y : option string) (a : account) : bool :=
  (missing e || bool_decide (Some (ac_employee a) = e)) &&
  (missing l || bool_decide (Some (ac_location a) = l)) &&
  (missing y || bool_decide (Some (ac_type a) = y)).

(** Days taken from an account, which is opened if it is new. *)
Definition withdraw (done_status : Z) (e l y : string) (d : Z) (A : accounts) : accounts * answer :=
  let key := getBalanceKey e l y in
  let a := default (blank e l y) (A !! key) in
  if ac_available a <? d then (<[key := a]> A, Refused 422)
  else (<[key := move (- d) a]> A, Moved done_status (ac_available a - d)).

(** A request of the API, when it is served.  One with an unknown action is refused
    but opens the account. *)
Definition account_step (op : api_op) (B : book) : book * answer :=
  let A := bk_accounts B in
  match op with
  | Put action e l y d =>
      let key := getBalanceKey e l y in
      let a := default (blank e l y) (A !! key) in
      let d := default 0 d in
      let '(A, x) :=
        if decide (action = "APPROVE") then withdraw 200 e l y d A
        else if decide (action = "REJECT") then (<[key := move d a]> A, Moved 200 (ac_available a + d))
        else (<[key := a]> A, Refused 400) in
      (with_accounts A B, x)
  | File (Some e) (Some l) (Some y) (Some d) _ =>
      if missing (Some e) || missing (Some l) || missing (Some y) || (d <=? 0) then (B, Refused 400)
      else let '(A, x) := withdraw 201 e l y d A in (with_accounts A B, x)
  | File _ _ _ _ _ => (B, Refused 400)
  | Validate e l y d =>
      let a := A !! getBalanceKey e l y in
      let judged := match a, d with
                    | None, _ => false
                    | Some a, Some d => d <=? ac_available a
                    | Some _, None => true
                    end in
      (B, Judged (match bk_override B with
                  | Some AlwaysValid => true
                  | Some AlwaysInvalid => false
                  | None => judged
                  end) (from_option ac_available 0 a))
  | Read e l y =>
      let a := default (blank e l y) (A !! getBalanceKey e l y) in (B, Shown (ac_available a) (ac_total a))
  | ReadAll => (B, Listed A)
  end.
(** A request of the administration. *)
Definition admin_account_step (op : admin_op) (B : book) : book * answer :=
  let A := bk_accounts B in
  match op with
  | Inject e l y t a =>
      (with_accounts (<[getBalanceKey e l y := {| ac_employee := e; ac_location := l; ac_type := y;
                                                  ac_available := a; ac_total := t |}]> A) B, Stored)
  | Grant e l y d =>
      if d <=? 0 then (B, Refused 400)
      else (with_accounts ((fun a => if account_chosen e l y a then move d a else a) <$> A) B, Stored)
  | NewYear t => if t <? 0 then (B, Refused 400) else (with_accounts (reset_to t <$> A) B, Stored)
  | Behave mode count o _ _ =>
      (with_override (default (bk_override B) o)
         (with_faults (default (bk_faults B).1 mode, from_option snd (bk_faults B).2 count) B), Stored)
  | ResetBehavior => (with_faults (None, 0) (with_override None B), Stored)
  end.

(** Does an arriving request fail with 503?  A forced failure is used up and comes
    before chance; a forced timeout only delays. *)
Definition fails_now (unlucky : bool) (B : book) : book * bool :=
  match bk_faults B with
  | (Some mode, n) =>
      if 0 <? n then (with_faults (Some mode, n - 1) B, match mode with Mode503 => true | ModeTimeout => false end)
      else (B, unlucky)
  | (None, _) => (B, unlucky)
  end.

(** What can happen: a request of the API arrives, with its two values of
    [Math.random()]; the delay of the [i]-th waiting request is over; a request of
    the administration comes. *)
Inductive mock_event :=
  | Arrive (op : api_op) (rand rand' : num)
  | Over (i : nat)
  | Admin (op : admin_op).

(** The days an operation names, and the count it forces. *)
Definition op_days (op : api_op) : list Z :=
  match op with
  | Put _ _ _ _ d | File _ _ _ d _ | Validate _ _ _ d => match d with Some d => [d] | None => [] end
  | Read _ _ _ | ReadAll => []
  end.
Definition admin_days (op : admin_op) : list Z :=
  match op with
  | Inject _ _ _ t a => [t; a]
  | Grant _ _ _ d | NewYear d => [d]
  | _ => []
  end.
(** ** The server's requests *)
Section grid.
Context (g : Z) (Hg : 0 <= g <= 900).
Context (FLAKINESS_PROBABILITY LIKELY_TIMEOUT_PROBABILITY : num).

(** The handler a request is served by; [times] are the times it reads. *)
Definition mock_step (times : nat -> Z) (op : api_op) (m : Mock) : Mock * reply :=
  match op with
  | Put action e l y d => put_balance (times 0%nat) e l y (units g <$> d) action m
  | File e l y d r => post_time_off (times 0%nat) e l y (units g <$> d) r m
  | Validate e l y d => (m, post_validate e l y (units g <$> d) m)
  | Read e l y => (m, get_balance e l y m)
  | ReadAll => (m, get_batch_sync m)
  end.
Definition mode_text (mode : option FailureMode) : option string :=
  (fun mode => match mode with Mode503 => "503" | ModeTimeout => "timeout" end) <$> mode.
Definition override_text (o : option ValidationOverride) : option string :=
  (fun o => match o with AlwaysValid => "always-valid" | AlwaysInvalid => "always-invalid" end) <$> o.
Definition admin_step (times : nat -> Z) (op : admin_op) (m : Mock) : Mock * reply :=
  match op with
  | Inject e l y t a => admin_inject (times 0%nat) e l y (units g t) (units g a) m
  | Grant e l y d => anniversary_refresh times e l y (Some (units g d)) m
  | NewYear t => year_refresh times (Some (units g t)) m
  | Behave mode count o partial stale =>
      admin_behavior {| bb_forcedFailureMode := mode_text <$> mode; bb_forcedFailureCount := fst <$> count;
        bb_validationOverride := override_text <$> o; bb_batchPartial := partial; bb_staleVersionMode := stale |} m
  | ResetBehavior => reset_behavior m
  end.

(** The server between two events: its state and the requests that wait for the
    end of their delay.  The timers of requests end in any order. *)
Definition mock_serve (times : nat -> Z) (ev : mock_event) (s : Mock * list api_op) :
    (Mock * list api_op) * option reply :=
  let '(m, waiting) := s in
  match ev with
  | Arrive op rand rand' =>
      let '(m, f) := simulateInstability FLAKINESS_PROBABILITY LIKELY_TIMEOUT_PROBABILITY rand rand' m in
      match f with
      | Unavailable => (m, waiting, Some (refuse 503 "Service Unavailable"))
      | Proceed _ => (m, waiting ++ [op], None)
      end
  | Over i =>
      match waiting !! i with
      | None => (s, None)
      | Some op => let '(m, r) := mock_step times op m in (m, delete i waiting, Some r)
      end
  | Admin op => let '(m, r) := admin_step times op m in (m, waiting, Some r)
  end.
(** A run; [clock n] are the times the [n]-th event reads. *)
Fixpoint mock_run (clock : nat -> nat -> Z) (n : nat) (evs : list mock_event) (s : Mock * list api_op) :
    (Mock * list api_op) * list (option reply) :=
  match evs with
  | [] => (s, [])
  | ev :: evs =>
      let '(s, r) := mock_serve (clock n) ev s in
      let '(s, rs) := mock_run clock (S n) evs s in (s, r :: rs)
  end.

(** The book of accounts under the same events: chance makes a request fail when it
    falls between the two probabilities. *)
Definition unlucky (rand : num) : bool :=
  negb (rand <. LIKELY_TIMEOUT_PROBABILITY)%num &&
  (rand <. LIKELY_TIMEOUT_PROBABILITY +. FLAKINESS_PROBABILITY)%num.
Definition book_serve (ev : mock_event) (s : book * list api_op) : (book * list api_op) * option answer :=
  let '(B, waiting) := s in
  match ev with
  | Arrive op rand _ =>
      let '(B, fails) := fails_now (unlucky rand) B in
      if fails : bool then (B, waiting, Some (Refused 503)) else (B, waiting ++ [op], None)
  | Over i =>
      match waiting !! i with
      | None => (s, None)
      | Some op => let '(B, x) := account_step op B in (B, delete i waiting, Some x)
      end
  | Admin op => let '(B, x) := admin_account_step op B in (B, waiting, Some x)
  end.
Fixpoint book_run (evs : list mock_event) (s : book * list api_op) : (book * list api_op) * list (option answer) :=
  match evs with
  | [] => (s, [])
  | ev :: evs =>
      let '(s, x) := book_serve ev s in let '(s, xs) := book_run evs s in (s, x :: xs)
  end.

(** A stored record shows an account, and a response an answer. *)
Definition shows_account (r : mock_record) (a : account) : Prop :=
  k_employeeId r = ac_employee a /\ k_locationId r = ac_location a /\ k_leaveType r = ac_type a /\
  k_availableBalance r = units g (ac_available a) /\ k_totalBalance r = units g (ac_total a).
Definition shows_answer (r : reply) (x : answer) : Prop :=
  match x with
  | Refused s => status r = s /\ exists e, body r = PError e
  | Moved s a => status r = s /\ exists v, body r = PUpdated (units g a) v \/ exists f, body r = PFiled f (units g a) v
  | Judged v a => status r = 200 /\ body r = PValidation v (units g a)
  | Shown a t => status r = 200 /\
      exists k, body r = PRecord k /\ k_availableBalance k = units g a /\ k_totalBalance k = units g t
  | Listed A => status r = 200 /\
      exists l, body r = PRecords l /\ Forall (fun r => exists k a, A !! k = Some a /\ shows_account r a) l
  | Stored => status r = 200 /\
      ((exists k, body r = PRecord k) \/ (exists n d l, body r = PRefreshed n d l) \/ exists b, body r = PBehavior b)
  end.

Record sim (m : Mock) (B : book) : Prop := {
  sim_wf : jm_wf (hcmBalances m);
  sim_override : validationOverride (behavior m) = bk_override B;
  sim_mode : forcedFailureMode (behavior m) = (bk_faults B).1;
  sim_count : forcedFailureRemaining (behavior m) = of_Z (bk_faults B).2;
  sim_small : 0 <= (bk_faults B).2 < 2 ^ 52;
  sim_shows : forall k, option_Forall2 shows_account (jm_get k (hcmBalances m)) (bk_accounts B !! k);
}.

(** Amounts and their sums that stay exact. *)
Definition fits (n : Z) : Prop := Z.abs n < 2 ^ 52.
Definition account_fits (a : account) : Prop := fits (ac_available a) /\ fits (ac_total a).
Definition admin_fits (op : admin_op) : Prop :=
  Forall fits (admin_days op) /\
  match op with
  | Behave _ (Some (count, n)) _ _ _ => parseInt count = of_Z n /\ 0 <= n < 2 ^ 52
  | _ => True
  end.
(** What an event moves. *)
Definition event_fits (ev : mock_event) (waiting : list api_op) : Prop :=
  match ev with
  | Arrive _ _ _ => True
  | Over i => match waiting !! i with Some op => Forall fits (op_days op) | None => True end
  | Admin op => admin_fits op
  end.
Fixpoint run_fits (evs : list mock_event) (s : book * list api_op) : Prop :=
  map_Forall (fun _ => account_fits) (bk_accounts s.1) /\
  match evs with
  | [] => True
  | ev :: evs => event_fits ev s.2 /\ run_fits evs (book_serve ev s).1
  end.

(** ** Helpers *)
Lemma write_sim m B A k r a :
  sim m (with_accounts A B) -> shows_account r a -> sim (write_record k r m) (with_accounts (<[k := a]> A) B).
Proof.
  intros [Hwf Hv Hmode Hcount Hsmall Hs] Hr. split; cbn [write_record set_hcmBalances hcmBalances behavior]; try done.
  - by apply jm_set_wf.
  - intros k'. cbn in *. destruct (decide (k = k')) as [->|Hk].
    + rewrite jm_get_set_eq, lookup_insert_eq. by constructor.
    + rewrite jm_get_set_ne, lookup_insert_ne by done. apply Hs.
Qed.
Lemma with_accounts_id B : with_accounts (bk_accounts B) B = B.
Proof. by destruct B. Qed.

Lemma units_zero : of_Z 0 = units g 0.
Proof. by rewrite units_0. Qed.

Lemma blank_shown e l y : shows_account (empty_record e l y) (blank e l y).
Proof. split_and!; try done; symmetry; apply units_0. Qed.

Lemma ensure_sim e l y m B m' r :
  sim m B -> ensureBalanceRecord e l y m = (m', r) ->
  let key := getBalanceKey e l y in
  let a := default (blank e l y) (bk_accounts B !! key) in
  shows_account r a /\ sim m' (with_accounts (<[key := a]> (bk_accounts B)) B) /\ behavior m' = behavior m.
Proof.
  intros Hsim He key a. unfold ensureBalanceRecord in He. fold key in He. subst a.
  pose proof (sim_shows _ _ Hsim key) as Hk.
  destruct (jm_get key (hcmBalances m)) as [r0|]; injection He as <- <-; inversion Hk as [? a Ha E1 E2|E1 E2]; subst; cbn.
  - rewrite insert_id by done. by rewrite with_accounts_id.
  - split; [apply blank_shown|]. split; [|done]. change (set_hcmBalances _ m) with (write_record key (empty_record e l y) m).
    apply write_sim; [by rewrite with_accounts_id|apply blank_shown].
Qed.

Lemma adjusted_shown r a v d (change : num -> num) :
  shows_account r a ->
  (forall n, n = ac_available a \/ n = ac_total a -> change (units g n) = units g (n + d)) ->
  shows_account (adjusted change v r) (move d a).
Proof.
  intros (E1 & E2 & E3 & E4 & E5) Hc. unfold shows_account. cbn. rewrite E4, E5, !Hc by auto. done.
Qed.

Lemma open_fits e l y (A : accounts) : map_Forall (fun _ => account_fits) A -> account_fits (default (blank e l y) (A !! getBalanceKey e l y)).
Proof.
  intros HA. destruct (A !! getBalanceKey e l y) eqn:E; [by eapply HA|]. unfold account_fits, fits. cbn. lia.
Qed.
Lemma fits_small n : fits n -> small n.
Proof. unfold fits, small. lia. Qed.

(** Taking days from a record that has been opened. *)
Lemma withdraw_sim (s : Z) e l y d B m r v (finish : mock_record -> reply) m' res :
  let A := bk_accounts B in
  let key := getBalanceKey e l y in
  let a := default (blank e l y) (A !! key) in
  account_fits a -> fits d -> shows_account r a -> sim m (with_accounts (<[key := a]> A) B) ->
  (forall r', status (finish r') = s /\ exists v, body (finish r') = PUpdated (k_availableBalance r') v \/
                exists f, body (finish r') = PFiled f (k_availableBalance r') v) ->
  (if (k_availableBalance r <. units g d)%num then (m, refuse 422 "INSUFFICIENT_BALANCE")
   else (write_record key (adjusted (fun x => (x -. units g d)%num) v r) m,
         finish (adjusted (fun x => (x -. units g d)%num) v r))) = (m', res) ->
  sim m' (with_accounts (withdraw s e l y d A).1 B) /\ shows_answer res (withdraw s e l y d A).2.
Proof.
  intros A key a [Ha1 Ha2] Hd Hr Hsim Hf. unfold withdraw. fold key. fold a.
  pose proof Hr as (_ & _ & _ & E4 & _). rewrite E4, units_ltb by (done || by apply fits_small).
  destruct (ac_available a <? d); intros [= <- <-]; cbn [fst snd].
  - split; [done|]. cbn. split; [done|by eexists].
  - assert (Hadj : shows_account (adjusted (fun x => (x -. units g d)%num) v r) (move (- d) a)).
    { apply adjusted_shown; [done|]. intros n Hn. unfold fits in *. assert (fits n) by (unfold fits; destruct Hn; subst; done).
      unfold fits in *. rewrite units_sub by (done || unfold small; lia). f_equal; lia. }
    split.
    + rewrite <- (insert_insert_eq A key (move (- d) a) a). by apply write_sim.
    + cbn. destruct (Hf (adjusted (fun x => (x -. units g d)%num) v r)) as [Hf1 Hf2]. split; [done|].
      destruct Hadj as (_ & _ & _ & E & _). rewrite E in Hf2. cbn in Hf2. replace (ac_available a - d) with (ac_available a + - d) by lia. done.
Qed.

(** An update of the records that pass. *)
Section refresh.
Context (passes : mock_record -> bool) (f : string -> mock_record -> mock_record).
Context (selects : account -> bool) (update : account -> account).
Hypothesis passes_selects : forall r a, shows_account r a -> passes r = selects a.
Hypothesis f_update : forall r a v, shows_account r a -> account_fits a -> shows_account (f v r) (update a).

Lemma refresh_rows_frame times l : forall n,
  fst <$> (refresh_rows passes f times n l).1 = fst <$> l /\
  row_key <$> (refresh_rows passes f times n l).1 = row_key <$> l.
Proof.
  induction l as [|[i [k r]] l IH]; intros n; [done|]. cbn [refresh_rows].
  destruct (passes r); [destruct (IH (S n)) as [E1 E2]|destruct (IH n) as [E1 E2]];
    destruct (refresh_rows _ _ _ _ l) as [l' u]; cbn [fst fmap list_fmap] in *; by rewrite E1, E2.
Qed.

Lemma refresh_rows_shows times l k o : forall n,
  option_Forall2 shows_account (find_row k l) o -> (forall a, o = Some a -> account_fits a) ->
  option_Forall2 shows_account (find_row k (refresh_rows passes f times n l).1)
    ((fun a => if selects a then update a else a) <$> o).
Proof.
  induction l as [|[i [k' r]] l IH]; intros n Ho Hfit.
  { cbn in *. inversion Ho; subst. constructor. }
  assert (Hhead : k' = k -> forall v, option_Forall2 shows_account (Some (if passes r then f v r else r))
    ((fun a => if selects a then update a else a) <$> o)).
  { intros -> v. cbn [find_row row_key row_value fst snd] in Ho. rewrite decide_True in Ho by done.
    inversion Ho as [? a Hra|]; subst. cbn. rewrite (passes_selects r a Hra). destruct (selects a) eqn:Es; constructor; auto. }
  cbn [refresh_rows]. destruct (passes r) eqn:Er;
    [specialize (IH (S n)); specialize (fun E => Hhead E (version_at (times n)))|specialize (IH n); specialize (fun E => Hhead E "")];
    destruct (refresh_rows _ _ _ _ l) as [l' u]; cbn [fst find_row row_key row_value snd] in *;
    (destruct (decide (k' = k)); [by apply Hhead|by apply IH]).
Qed.

Lemma refresh_sim times days m B :
  sim m B -> map_Forall (fun _ => account_fits) (bk_accounts B) ->
  sim (refresh passes f times days m).1
    (with_accounts ((fun a => if selects a then update a else a) <$> bk_accounts B) B) /\
  shows_answer (refresh passes f times days m).2 Stored.
Proof.
  intros [[Hk Hst Hn] Hv Hmode Hcount Hsmall Hs] Hfit. unfold refresh.
  pose proof (refresh_rows_frame times (rows (hcmBalances m)) 0) as [E1 E2].
  pose proof (fun k o => refresh_rows_shows times (rows (hcmBalances m)) k o 0) as Hshow.
  destruct (refresh_rows _ _ _ _ _) as [l u]; cbn [fst snd] in *. split; [|cbn; split; [done|right; left; by eexists _, _, _]].
  split; cbn [set_hcmBalances hcmBalances behavior with_accounts bk_accounts bk_override bk_faults]; try done.
  - split; unfold jm_keys; cbn [rows next_stamp].
    + by rewrite E2.
    + apply sorted_stamps. rewrite E1. by apply sorted_stamps.
    + apply stamps_below. rewrite E1. by apply stamps_below.
  - intros k. rewrite lookup_fmap. unfold jm_get. cbn [rows]. apply Hshow; [apply Hs|]. intros a Ha. by eapply Hfit.
Qed.
End refresh.

Lemma chosen_shown e l y r a : shows_account r a -> chosen e l y r = account_chosen e l y a.
Proof. intros (E1 & E2 & E3 & _). unfold chosen, account_chosen. by rewrite E1, E2, E3. Qed.

Lemma isFinite_units n : small n -> isFinite (units g n) = true.
Proof.
  intros Hn. destruct (decide (n = 0)) as [->|Hn0]; [by rewrite units_0|]. by rewrite units_finite.
Qed.
Lemma put_days d : small (default 0 d) ->
  parseFloat (match units g <$> d with
              | Some d => if num_truthy d then d else of_Z 0
              | None => of_Z 0
              end) = units g (default 0 d).
Proof.
  destruct d as [d|]; cbn; intros Hd; [|reflexivity]. rewrite units_truthy by done. destruct (Z.eqb_spec d 0) as [->|H0]; cbn [negb].
  - rewrite units_0. done.
  - by apply parseFloat_units.
Qed.

(** ** One request *)
Definition op_sim (op : api_op) : Prop := forall times m B,
  sim m B -> map_Forall (fun _ => account_fits) (bk_accounts B) -> Forall fits (op_days op) ->
  sim (mock_step times op m).1 (account_step op B).1 /\
  shows_answer (mock_step times op m).2 (account_step op B).2.
Definition admin_sim (op : admin_op) : Prop := forall times m B,
  sim m B -> map_Forall (fun _ => account_fits) (bk_accounts B) -> admin_fits op ->
  sim (admin_step times op m).1 (admin_account_step op B).1 /\
  shows_answer (admin_step times op m).2 (admin_account_step op B).2.
Ltac begin_op := intros times m B Hsim Hfit Hop; cbn [mock_step account_step op_days admin_step admin_account_step] in *.
Lemma refused_shown s e : shows_answer (refuse s e) (Refused s).
Proof. split; [done|by eexists]. Qed.

Lemma put_sim action e l y d : op_sim (Put action e l y d).
Proof.
  begin_op. assert (Hd : fits (default 0 d)) by (destruct d; [by inversion Hop|done]). clear Hop. unfold put_balance.
  destruct (ensureBalanceRecord e l y m) as [m0 r] eqn:He.
  destruct (ensure_sim _ _ _ _ _ _ _ Hsim He) as (Hr & Hm0 & _). rewrite put_days by by apply fits_small.
  set (key := getBalanceKey e l y) in *. set (a := default (blank e l y) (bk_accounts B !! key)) in *.
  destruct (open_fits e l y (bk_accounts B) Hfit) as [Ha1 Ha2]. fold key a in Ha1, Ha2.
  destruct (decide (action = "APPROVE")) as [->|Hna]; [|destruct (decide (action = "REJECT")) as [->|Hnr]].
  - pose proof (withdraw_sim 200 e l y (default 0 d) B m0 r (if staleVersionMode (behavior m0) then k_version r else version_at (times 0%nat))
      (fun r' => ok (PUpdated (k_availableBalance r') (k_version r')))) as Hw. cbv zeta in Hw. fold key a in Hw.
    destruct (withdraw _ _ _ _ _ _) as [A' x]. cbn [fst snd] in *.
    eapply Hw; [done|done|done|done| |apply surjective_pairing].
    intros r'. split; [done|]. eexists. by left.
  - set (v := if staleVersionMode _ then _ else _).
    assert (Hadj : shows_account (adjusted (fun x => (x +. units g (default 0 d))%num) v r) (move (default 0 d) a)).
    { apply adjusted_shown; [done|]. intros n Hn. assert (fits n) by (destruct Hn; by subst).
      unfold fits in *. by rewrite units_add by (done || unfold small; lia). }
    cbn [fst snd]. split; [|cbn; split; [done|]].
    + rewrite <- (insert_insert_eq (bk_accounts B) key (move _ a) a). by apply write_sim.
    + eexists. left. f_equal. apply Hadj.
  - split; [done|apply refused_shown].
Qed.
Lemma file_sim e l y d ref : op_sim (File e l y d ref).
Proof.
  begin_op. unfold post_time_off.
  destruct e as [e|], l as [l|], y as [y|], d as [d|]; cbn [fmap option_fmap option_map]; try (split; [done|apply refused_shown]).
  inversion Hop as [|? ? Hd _]; subst. pose proof (fits_small _ Hd) as Hsd.
  destruct (missing (Some e) || missing (Some l) || missing (Some y)) eqn:Em; cbn [orb].
  { split; [done|apply refused_shown]. }
  rewrite parseFloat_units, isFinite_units, units_zero, units_leb by (done || unfold small; lia). cbn [negb orb].
  destruct (d <=? 0). { split; [done|apply refused_shown]. }
  destruct (ensureBalanceRecord e l y m) as [m0 r] eqn:He.
  destruct (ensure_sim _ _ _ _ _ _ _ Hsim He) as (Hr & Hm0 & _).
  pose proof (withdraw_sim 201 e l y d B m0 r (version_at (times 0%nat))
    (fun r' => {| status := 201; body := PFiled (if missing ref then None else ref) (k_availableBalance r') (k_version r') |})) as Hw.
  cbv zeta in Hw. destruct (withdraw _ _ _ _ _ _) as [A' x]. cbn [fst snd] in *.
  eapply Hw; [by apply open_fits|done|done|done| |apply surjective_pairing].
  intros r'. split; [done|]. eexists. right. by eexists.
Qed.
Lemma validate_sim e l y d : op_sim (Validate e l y d).
Proof.
  begin_op. split; [done|]. cbn [snd]. unfold post_validate. rewrite (sim_override _ _ Hsim).
  pose proof (sim_shows _ _ Hsim (getBalanceKey e l y)) as Hk.
  destruct (jm_get (getBalanceKey e l y) (hcmBalances m)) as [r|]; inversion Hk as [? a Hra E1 E2|E1 E2]; subst.
  + pose proof Hra as (_ & _ & _ & E & _). symmetry in E2. destruct (Hfit _ _ E2) as [Hf _].
    assert (Hb : negb (below (units g (ac_available a)) (units g <$> d)) = match d with Some d => d <=? ac_available a | None => true end).
    { destruct d as [d|]; [|done]. inversion Hop as [|? ? Hd _]; subst. cbn [below fmap option_fmap option_map].
      by rewrite units_ltb, Z.leb_antisym by (done || by apply fits_small). }
    rewrite E, Hb. destruct (bk_override B) as [[]|]; by split.
  + cbn [from_option]. destruct (bk_override B) as [[]|]; by split.
Qed.
Lemma read_sim e l y : op_sim (Read e l y).
Proof.
  begin_op. split; [done|]. cbn [snd]. unfold get_balance. pose proof (sim_shows _ _ Hsim (getBalanceKey e l y)) as Hk.
  split; [done|]. eexists. split; [done|].
  inversion Hk as [r a Hra E1 E2|E1 E2]; cbn [default from_option id]; [split; apply Hra|].
  split; apply (blank_shown e l y).
Qed.
Lemma every_other_incl {A} (x : A) (l : list A) : x ∈ every_other l -> x ∈ l.
Proof.
  induction l as [l IH] using (induction_ltof1 _ length). unfold ltof in IH. destruct l as [|y [|z l]]; cbn; [done..|].
  rewrite !elem_of_cons. intros [->|Hx]; [by left|]. right. right. apply IH; [cbn; lia|done].
Qed.
Lemma values_shown m B r :
  sim m B -> r ∈ jm_values (hcmBalances m) -> exists k a, bk_accounts B !! k = Some a /\ shows_account r a.
Proof.
  intros Hsim Hr. apply list_elem_of_fmap in Hr as ([i [k r']] & -> & Hr). exists k.
  pose proof (sim_shows _ _ Hsim k) as Hk. unfold jm_get in Hk.
  rewrite (find_row_In k r' _ i) in Hk by (apply (sim_wf _ _ Hsim) || done). inversion Hk; subst. by eexists.
Qed.
Lemma read_all_sim : op_sim ReadAll.
Proof.
  begin_op. split; [done|]. split; [done|]. eexists. split; [done|]. apply Forall_forall. intros r Hr.
  apply (values_shown m); [done|]. destruct (batchPartial (behavior m)); [by apply every_other_incl|done].
Qed.
Lemma mock_step_sim op : op_sim op.
Proof. destruct op; [apply put_sim|apply file_sim|apply validate_sim|apply read_sim|apply read_all_sim]. Qed.

Lemma inject_sim e l y t a : admin_sim (Inject e l y t a).
Proof.
  begin_op. split; [|split; [done|left; by eexists]]. cbn [admin_inject fst]. apply write_sim; [by rewrite with_accounts_id|done].
Qed.
Lemma grant_sim e l y d : admin_sim (Grant e l y d).
Proof.
  begin_op. destruct Hop as [Hop _]. inversion Hop as [|? ? Hd _]; subst. pose proof (fits_small _ Hd) as Hsd.
  unfold anniversary_refresh. cbn [default from_option id].
  rewrite parseFloat_units, isFinite_units, units_zero, units_leb by (done || unfold small; lia). cbn [negb orb].
  destruct (d <=? 0). { split; [done|apply refused_shown]. }
  apply refresh_sim; [intros; by apply chosen_shown| |done|done].
  intros r a v Hr [Hf1 Hf2]. apply adjusted_shown; [done|]. intros n Hn. assert (fits n) by (destruct Hn; by subst).
  unfold fits in *. by rewrite units_add by (done || unfold small; lia).
Qed.
Lemma new_year_sim t : admin_sim (NewYear t).
Proof.
  begin_op. destruct Hop as [Hop _]. inversion Hop as [|? ? Ht _]; subst. pose proof (fits_small _ Ht) as Hst.
  unfold year_refresh. cbn [default from_option id].
  rewrite parseFloat_units, isFinite_units, units_zero, units_ltb by (done || unfold small; lia). cbn [negb orb].
  destruct (t <? 0). { split; [done|apply refused_shown]. }
  rewrite <- (map_fmap_ext (fun a => if true then reset_to t a else a) (reset_to t)) by done.
  apply (refresh_sim (fun _ => true) _ (fun _ => true)); [done| |done|done].
  intros r a v (E1 & E2 & E3 & _) _. by split_and!.
Qed.

(** Requests that change the behavior leave the accounts alone. *)
Lemma behavior_stored b : shows_answer (ok (PBehavior b)) Stored.
Proof. split; [done|]. right. right. by eexists. Qed.
Lemma count_read n (b : mockBehavior) count :
  parseInt count = of_Z n -> 0 <= n < 2 ^ 52 ->
  set_count count b = inr {| forcedFailureMode := forcedFailureMode b; forcedFailureRemaining := of_Z n;
    validationOverride := validationOverride b; batchPartial := batchPartial b; staleVersionMode := staleVersionMode b |}.
Proof.
  intros Hc Hn. unfold set_count. rewrite Hc.
  assert (Hself : neqb (of_Z n) (of_Z n) = true).
  { change (of_Z n) with (units 0 n). unfold neqb, SFeqb. by rewrite units_compare, Z.compare_refl by (lia || unfold small; lia). }
  assert (Hpos : (of_Z n <. of_Z 0)%num = false).
  { change (of_Z n) with (units 0 n). change (of_Z 0) with (units 0 0). rewrite units_ltb by (unfold small; lia). apply Z.ltb_ge. lia. }
  by rewrite Hself, Hpos.
Qed.
Lemma behave_sim mode count o partial stale : admin_sim (Behave mode count o partial stale).
Proof.
  begin_op. destruct Hop as [_ Hn]. destruct Hsim as [Hwf Hv Hmode Hcount Hsmall Hs].
  assert (Hm : forall mode b, set_mode (mode_text mode) b = inr {| forcedFailureMode := mode;
    forcedFailureRemaining := forcedFailureRemaining b; validationOverride := validationOverride b;
    batchPartial := batchPartial b; staleVersionMode := staleVersionMode b |}) by by intros [[]|] ?.
  assert (Ho : forall o b, set_override (override_text o) b = inr {| forcedFailureMode := forcedFailureMode b;
    forcedFailureRemaining := forcedFailureRemaining b; validationOverride := o;
    batchPartial := batchPartial b; staleVersionMode := staleVersionMode b |}) by by intros [[]|] ?.
  unfold admin_behavior. destruct mode, count as [[count n]|], o, partial, stale;
    cbn [bb_forcedFailureMode bb_forcedFailureCount bb_validationOverride bb_batchPartial bb_staleVersionMode
      fmap option_fmap option_map field_step then_step fst]; rewrite ?Hm; cbn [field_step then_step];
    try (rewrite (count_read n) by apply Hn; cbn [field_step then_step]); rewrite ?Ho; cbn;
    (split; [split; cbn; tauto || lia|apply behavior_stored]).
Qed.
Lemma reset_sim : admin_sim ResetBehavior.
Proof.
  begin_op. destruct Hsim as [Hwf Hv Hmode Hcount Hsmall Hs]. cbn. split; [by split|apply behavior_stored].
Qed.
Lemma admin_step_sim op : admin_sim op.
Proof.
  destruct op; [apply inject_sim|apply grant_sim|apply new_year_sim|apply behave_sim|apply reset_sim].
Qed.

(** ** Arrival *)
Lemma arrival_sim rand rand' m B :
  sim m B ->
  sim (simulateInstability FLAKINESS_PROBABILITY LIKELY_TIMEOUT_PROBABILITY rand rand' m).1
    (fails_now (unlucky rand) B).1 /\
  ((simulateInstability FLAKINESS_PROBABILITY LIKELY_TIMEOUT_PROBABILITY rand rand' m).2 = Unavailable <->
   (fails_now (unlucky rand) B).2 = true).
Proof.
  intros [Hwf Hv Hmode Hcount Hsmall Hs]. unfold simulateInstability, fails_now. cbv zeta. rewrite Hmode, Hcount.
  destruct (bk_faults B) as [mode n] eqn:Ef. cbn [fst snd] in *.
  assert (Hz : forall k, of_Z k = units 0 k) by done.
  assert (Hsim : sim m B) by (split; rewrite ?Ef; done).
  assert (Hlt : (of_Z 0 <. of_Z n)%num = (0 <? n)) by (rewrite !Hz, units_ltb by (lia || unfold small; lia); done).
  assert (Hchance : (if (rand <. LIKELY_TIMEOUT_PROBABILITY)%num then Proceed 6000
      else if (rand <. LIKELY_TIMEOUT_PROBABILITY +. FLAKINESS_PROBABILITY)%num then Unavailable
      else Proceed (Math_floor (of_Z 50 +. nmul rand' (of_Z 150))%num)) = Unavailable <-> unlucky rand = true).
  { unfold unlucky. destruct (rand <. LIKELY_TIMEOUT_PROBABILITY)%num; [by split|].
    destruct (rand <. LIKELY_TIMEOUT_PROBABILITY +. FLAKINESS_PROBABILITY)%num; by split. }
  destruct mode as [mode|]; [|by split]. rewrite Hlt. destruct (Z.ltb_spec 0 n); [|by split]. cbn [fst snd]. split.
  - assert (Hsub : (of_Z n -. of_Z 1)%num = of_Z (n - 1)).
    { change (units 0 n -. units 0 1 = units 0 (n - 1))%num. apply units_sub; unfold small; lia. }
    split; cbn [set_behavior hcmBalances behavior forcedFailureMode forcedFailureRemaining validationOverride
      with_faults bk_accounts bk_override bk_faults fst snd]; try done. lia.
  - by destruct mode.
Qed.

(** One event. *)
Lemma serve_sim times ev m B waiting :
  sim m B -> map_Forall (fun _ => account_fits) (bk_accounts B) -> event_fits ev waiting ->
  let c := mock_serve times ev (m, waiting) in
  let a := book_serve ev (B, waiting) in
  sim c.1.1 a.1.1 /\ c.1.2 = a.1.2 /\ option_Forall2 shows_answer c.2 a.2.
Proof.
  intros Hsim Hfit Hev. cbv zeta. destruct ev as [op rand rand'|i|op]; cbn [mock_serve book_serve event_fits] in *.
  - destruct (arrival_sim rand rand' m B Hsim) as [Hs Hf].
    destruct (simulateInstability _ _ _ _ _) as [m' f], (fails_now _ _) as [B' fails]; cbn [fst snd] in *.
    destruct f as [delay|], fails; try (exfalso; destruct Hf as [H1 H2]; (discriminate (H1 eq_refl) || discriminate (H2 eq_refl))).
    + split_and!; [done..|constructor].
    + split_and!; [done..|]. constructor. apply refused_shown.
  - destruct (waiting !! i) as [op|]; [|split_and!; [done..|constructor]].
    destruct (mock_step_sim op times m B Hsim Hfit Hev) as [Hs Hx].
    destruct (mock_step times op m) as [m' r], (account_step op B) as [B' x]; cbn [fst snd] in *.
    split_and!; [done..|by constructor].
  - destruct (admin_step_sim op times m B Hsim Hfit Hev) as [Hs Hx].
    destruct (admin_step times op m) as [m' r], (admin_account_step op B) as [B' x]; cbn [fst snd] in *.
    split_and!; [done..|by constructor].
Qed.

Lemma run_sim clock evs : forall n m B waiting,
  sim m B -> run_fits evs (B, waiting) ->
  let c := mock_run clock n evs (m, waiting) in
  let a := book_run evs (B, waiting) in
  sim c.1.1 a.1.1 /\ c.1.2 = a.1.2 /\ Forall2 (option_Forall2 shows_answer) c.2 a.2.
Proof.
  induction evs as [|ev evs IH]; intros n m B waiting Hsim Hrun; cbn [run_fits] in Hrun.
  { split_and!; [done..|constructor]. }
  destruct Hrun as (HA & Hev & Hrun). cbn [mock_run book_run].
  destruct (serve_sim (clock n) ev m B waiting Hsim HA Hev) as (Hs & Hw & Hx).
  destruct (mock_serve (clock n) ev (m, waiting)) as [[m1 w1] r], (book_serve ev (B, waiting)) as [[B1 w1'] x].
  cbn [fst snd] in *. subst w1'. specialize (IH (S n) m1 B1 w1 Hs Hrun). cbv zeta in IH. destruct IH as (Hs2 & Hw2 & Hx2).
  destruct (mock_run clock (S n) evs (m1, w1)) as [s2 rs], (book_run evs (B1, w1)) as [b2 xs]; cbn [fst snd] in *.
  split_and!; [done..|by constructor].
Qed.

(** C24. The mock server implements the book of accounts.  Take any sequence of
    events in which requests of the API arrive, each with its two random draws, the
    delays of those let through end in any order, and requests of the administration
    with well-formed bodies come between; let every amount be a whole number of steps
    of one binary grid and every named amount and every account stay below [2^52]
    steps.  Then the server's records show the accounts, its behavior the forced
    failures and validations, the same requests wait, and each event gives no
    response where the book gives no answer and a response that shows its answer
    where it gives one.  In the book a request answered with 503 (forced or by
    chance) changes no account; one delayed past a client's timeout is served all the
    same; and an approval sent again, with whatever reference, is deducted again. *)
Theorem mock_refines clock n evs m B waiting :
  sim m B -> run_fits evs (B, waiting) ->
  let c := mock_run clock n evs (m, waiting) in
  let a := book_run evs (B, waiting) in
  sim c.1.1 a.1.1 /\ c.1.2 = a.1.2 /\ Forall2 (option_Forall2 shows_answer) c.2 a.2.
Proof. apply run_sim. Qed.

(** ** No account is overdrawn *)
Definition solvent (A : accounts) : Prop := map_Forall (fun _ a => 0 <= ac_available a) A.
(** Approvals and rejections name no negative days, and nothing negative is
    injected: the handlers of [PUT /hcm/balance] and [/admin/inject] do not look. *)
Definition honest (op : api_op) : Prop := match op with Put _ _ _ _ d => 0 <= default 0 d | _ => True end.
Definition honest_event (ev : mock_event) : Prop :=
  match ev with
  | Arrive op _ _ => honest op
  | Admin (Inject _ _ _ _ a) => 0 <= a
  | _ => True
  end.

Lemma solvent_insert A k a : solvent A -> 0 <= ac_available a -> solvent (<[k := a]> A).
Proof. intros HA Ha. by apply map_Forall_insert_2. Qed.
Lemma solvent_open A e l y : solvent A -> 0 <= ac_available (default (blank e l y) (A !! getBalanceKey e l y)).
Proof. intros HA. destruct (A !! getBalanceKey e l y) eqn:E; [by apply (HA _ _ E)|done]. Qed.
Lemma solvent_fmap (f : account -> account) A :
  (forall a, 0 <= ac_available a -> 0 <= ac_available (f a)) -> solvent A -> solvent (f <$> A).
Proof. intros Hf HA k a Hk. apply lookup_fmap_Some in Hk as (a0 & <- & Hk). apply Hf, (HA _ _ Hk). Qed.
Lemma withdraw_solvent s e l y d A : solvent A -> solvent (withdraw s e l y d A).1.
Proof.
  intros HA. pose proof (solvent_open A e l y HA) as H0. unfold withdraw.
  destruct (Z.ltb_spec (ac_available (default (blank e l y) (A !! getBalanceKey e l y))) d);
    apply solvent_insert; cbn [move ac_available]; (done || lia).
Qed.
Lemma account_step_solvent op B : honest op -> solvent (bk_accounts B) -> solvent (bk_accounts (account_step op B).1).
Proof.
  intros Ho HA. destruct op as [action e l y d|[e|] [l|] [y|] [d|] ref|e l y d|e l y|]; cbn [account_step honest] in *; try done.
  - pose proof (solvent_open (bk_accounts B) e l y HA). pose proof (withdraw_solvent 200 e l y (default 0 d) _ HA) as Hw.
    destruct (decide (action = "APPROVE")); [by destruct (withdraw _ _ _ _ _ _)|].
    destruct (decide (action = "REJECT")); apply solvent_insert; cbn [move ac_available]; (done || lia).
  - pose proof (withdraw_solvent 201 e l y d _ HA) as Hw. destruct (_ || (d <=? 0)); [done|]. by destruct (withdraw _ _ _ _ _ _).
Qed.
Lemma admin_step_solvent op B :
  honest_event (Admin op) -> solvent (bk_accounts B) -> solvent (bk_accounts (admin_account_step op B).1).
Proof.
  intros Ho HA. destruct op as [e l y t a|e l y d|t|mode count o partial stale|]; cbn [admin_account_step honest_event] in *; try done.
  - by apply solvent_insert.
  - destruct (Z.leb_spec d 0); [done|]. apply solvent_fmap; [|done]. intros a Ha.
    destruct (account_chosen e l y a); cbn [move ac_available]; lia.
  - destruct (Z.ltb_spec t 0); [done|]. by apply solvent_fmap.
Qed.
Lemma fails_accounts b B : bk_accounts (fails_now b B).1 = bk_accounts B.
Proof. unfold fails_now. destruct (bk_faults B) as [[mode|] n]; [destruct (0 <? n)|]; done. Qed.
Lemma serve_solvent ev B waiting :
  honest_event ev -> Forall honest waiting -> solvent (bk_accounts B) ->
  let s' := (book_serve ev (B, waiting)).1 in solvent (bk_accounts s'.1) /\ Forall honest s'.2.
Proof.
  intros Ho Hw HA. destruct ev as [op rand rand'|i|op]; cbn [book_serve].
  - pose proof (fails_accounts (unlucky rand) B) as Hb. destruct (fails_now (unlucky rand) B) as [B' []]; cbn [fst snd] in *; rewrite Hb.
    + done.
    + split; [done|]. apply Forall_app. split; [done|by constructor].
  - destruct (waiting !! i) as [op|] eqn:E; [|done].
    pose proof (account_step_solvent op B (Forall_lookup_1 _ _ _ _ Hw E) HA). destruct (account_step op B) as [B' x].
    split; [done|]. by apply Forall_delete.
  - pose proof (admin_step_solvent op B Ho HA). by destruct (admin_account_step op B) as [B' x].
Qed.
Lemma book_run_solvent evs : forall B waiting,
  Forall honest_event evs -> Forall honest waiting -> solvent (bk_accounts B) ->
  solvent (bk_accounts (book_run evs (B, waiting)).1.1).
Proof.
  induction evs as [|ev evs IH]; intros B waiting Ho Hw HA; [done|]. inversion Ho as [|? ? Hev Hevs]; subst. cbn [book_run].
  destruct (serve_solvent ev B waiting Hev Hw HA) as [H1 H2]. destruct (book_serve ev (B, waiting)) as [[B1 w1] x]; cbn [fst snd] in *.
  specialize (IH B1 w1 Hevs H2 H1). by destruct (book_run evs (B1, w1)).
Qed.
Lemma run_fits_end evs : forall s, run_fits evs s -> map_Forall (fun _ => account_fits) (bk_accounts (book_run evs s).1.1).
Proof.
  induction evs as [|ev evs IH]; intros s; cbn [run_fits book_run]; [by intros [? _]|].
  intros (_ & _ & Hr). specialize (IH _ Hr). destruct (book_serve ev s) as [s1 x]; cbn [fst] in *.
  by destruct (book_run evs s1).
Qed.

(** However the services' requests and the administration's arrive, HCM never shows
    a negative balance: it refuses the approval that would overdraw an account. *)
Theorem mock_never_overdrawn clock n evs m B k r :
  sim m B -> run_fits evs (B, []) -> solvent (bk_accounts B) -> Forall honest_event evs ->
  jm_get k (hcmBalances (mock_run clock n evs (m, [])).1.1) = Some r ->
  (of_Z 0 <=. k_availableBalance r)%num = true.
Proof.
  intros Hsim Hfit Hsolv Ho Hr. destruct (run_sim clock evs n m B [] Hsim Hfit) as [Hs _].
  pose proof (sim_shows _ _ Hs k) as Hk. rewrite Hr in Hk. inversion Hk as [? a Ha E1 E2|]; subst. symmetry in E2.
  destruct (run_fits_end evs (B, []) Hfit k a E2) as [Hf _]. destruct Ha as (_ & _ & _ & E & _).
  rewrite E, units_zero, units_leb by (done || unfold fits, small in *; lia). apply Z.leb_le.
  by apply (book_run_solvent evs B [] Ho (Forall_nil_2 _) Hsolv k a).
Qed.
End grid.

(** ** A run from the server's first data *)
Definition initial_accounts : accounts :=
  <["EMP123_LOC1_SICK" := reset_to 10 (blank "EMP123" "LOC1" "SICK")]>
    {[ "EMP123_LOC1_VACATION" := reset_to 15 (blank "EMP123" "LOC1" "VACATION") ]}.
Definition initial_book : book := {| bk_accounts := initial_accounts; bk_override := None; bk_faults := (None, 0) |}.
Lemma initial_sim : sim 0 initial_mock initial_book.
Proof.
  split; [by do 2 apply jm_set_wf; apply jm_empty_wf|done..|]. intros k. cbn [initial_book bk_accounts]. unfold initial_mock, initial_accounts. cbn [hcmBalances].
  change (getBalanceKey "EMP123" "LOC1" "SICK") with "EMP123_LOC1_SICK".
  change (getBalanceKey "EMP123" "LOC1" "VACATION") with "EMP123_LOC1_VACATION".
  destruct (decide ("EMP123_LOC1_SICK" = k)) as [<-|H1];
    [rewrite jm_get_set_eq, lookup_insert_eq; by constructor|rewrite jm_get_set_ne, lookup_insert_ne by done].
  destruct (decide ("EMP123_LOC1_VACATION" = k)) as [<-|H2];
    [rewrite jm_get_set_eq, lookup_singleton_eq; by constructor|].
  rewrite jm_get_set_ne, lookup_singleton_ne by done. constructor.
Qed.

(** The probabilities of the server by default, 0.1 and 0.05, and draws of a half
    and of a tenth. *)
Definition tenth : num := S754_finite false 7205759403792794 (-56).
Definition twentieth : num := S754_finite false 7205759403792794 (-57).
Definition half : num := S754_finite false 4503599627370496 (-53).

(** One approval, sent again with one reference as a client does after a timeout:
    the first waits while the second is served, and both are deducted.  A third is
    refused by chance, a fourth by a forced failure, a fifth for want of days. *)
Definition approval : api_op := Approve "EMP123" "LOC1" "SICK" 4.
Definition sample_events : list mock_event :=
  [Arrive approval half half; Arrive approval half half; Over 1; Over 0; Arrive approval tenth half;
   Admin (Force (Some Mode503) "1" 1); Arrive approval half half; Arrive approval half half; Over 0;
   Admin (Grant (Some "EMP123") None None 2); Arrive ReadAll half half; Over 0].
Definition fitsb (n : Z) : bool := Z.abs n <? 2 ^ 52.
Lemma accounts_fit (A : accounts) :
  forallb (fun kv : string * account => fitsb (ac_available kv.2) && fitsb (ac_total kv.2)) (map_to_list A) = true ->
  map_Forall (fun _ => account_fits) A.
Proof.
  intros HA k a Hk. rewrite forallb_forall in HA. specialize (HA (k, a)).
  rewrite <- list_elem_of_In, elem_of_map_to_list in HA. apply HA in Hk. cbn in Hk.
  apply andb_true_iff in Hk as [?%Z.ltb_lt ?%Z.ltb_lt]. by split.
Qed.
Lemma days_fit (l : list Z) : forallb fitsb l = true -> Forall fits l.
Proof. rewrite forallb_forall, Forall_forall. intros H n Hn%list_elem_of_In. by apply Z.ltb_lt, H. Qed.
Lemma over_fits i waiting :
  forallb fitsb (from_option op_days [] (waiting !! i)) = true -> event_fits (Over i) waiting.
Proof. intros H%days_fit. cbn. by destruct (waiting !! i). Qed.
Lemma sample_events_fit : run_fits tenth twentieth sample_events (initial_book, []).
Proof.
  unfold sample_events.
  repeat (cbn [run_fits]; split; [apply accounts_fit; by vm_compute|];
    match goal with
    | |- True => exact I
    | |- event_fits (Arrive _ _ _) _ /\ _ => split; [exact I|]
    | |- event_fits (Over _) _ /\ _ => split; [apply over_fits; by vm_compute|]
    | |- event_fits (Admin _) _ /\ _ =>
        split; [split; [apply days_fit; by vm_compute|first [exact I | split; [by vm_compute|lia]]]|]
    end).
Qed.
Lemma sample_solvent : solvent initial_accounts.
Proof. apply solvent_insert; [|done]. by apply map_Forall_singleton. Qed.

Lemma mock_refines_witness :
  take 9 (book_run tenth twentieth sample_events (initial_book, [])).2 =
    [None; None; Some (Moved 200 6); Some (Moved 200 2); Some (Refused 503); Some Stored; Some (Refused 503); None;
     Some (Refused 422)] /\
  Forall2 (option_Forall2 (shows_answer 0)) (mock_run 0 tenth twentieth (fun _ _ => 0) 0 sample_events (initial_mock, [])).2
    (book_run tenth twentieth sample_events (initial_book, [])).2.
Proof.
  split; [by vm_compute|].
  apply (mock_refines 0 ltac:(lia) tenth twentieth (fun _ _ => 0) 0 sample_events initial_mock initial_book [] initial_sim sample_events_fit).
Defined.
Lemma mock_never_overdrawn_witness : exists r,
  jm_get "EMP123_LOC1_SICK" (hcmBalances (mock_run 0 tenth twentieth (fun _ _ => 0) 0 sample_events (initial_mock, [])).1.1) = Some r /\
  (of_Z 0 <=. k_availableBalance r)%num = true.
Proof.
  eexists. split; [by vm_compute|].
  apply (mock_never_overdrawn 0 ltac:(lia) tenth twentieth (fun _ _ => 0) 0 sample_events initial_mock initial_book "EMP123_LOC1_SICK");
    [apply initial_sim|apply sample_events_fit|apply sample_solvent|by repeat constructor|by vm_compute].
Defined.
