(* ===== verification/Ledger.v ===== *)
(** * Ledger: the specification of a balance, and its refinement

    An employee's balance of one leave type, abstractly: three integer amounts
    (in steps of a binary grid) whose sum is the entitlement.  The operations
    are the three moves between the amounts.  [BalanceService] implements them
    on rows of binary64 columns; [move_simulation] is the simulation. *)

From S2P Require Import Prelude Num Domain Store Entities World Dates Balance Samples.

Local Open Scope Z_scope.

(** ** The specification *)
Record Ledger := { available : Z; pending : Z; used : Z }.

Definition entitlement (l : Ledger) : Z := available l + pending l + used l.

(** No amount is negative, and the entitlement is one the grid holds exactly. *)
Definition ledger_ok (l : Ledger) : Prop :=
  0 <= available l /\ 0 <= pending l /\ 0 <= used l /\ entitlement l < 2 ^ 52.

Inductive LedgerOp := Reserve | Release | Finalize.

Definition ledger_step (op : LedgerOp) (d : Z) (l : Ledger) : option Ledger :=
  match op with
  | Reserve =>
      if available l <? d then None
      else Some {| available := available l - d; pending := pending l + d; used := used l |}
  | Release =>
      if pending l <? d then None
      else Some {| available := available l + d; pending := pending l - d; used := used l |}
  | Finalize =>
      if pending l <? d then None
      else Some {| available := available l; pending := pending l - d; used := used l + d |}
  end.

Lemma ledger_step_entitlement op d l l' :
  ledger_step op d l = Some l' -> entitlement l' = entitlement l.
Proof. destruct op; simpl; case_match; intros [= <-]; unfold entitlement; simpl; lia. Qed.

Lemma ledger_step_ok op d l l' :
  0 <= d -> ledger_ok l -> ledger_step op d l = Some l' -> ledger_ok l'.
Proof.
  intros Hd (Ha & Hp & Hu & He) H. pose proof (ledger_step_entitlement _ _ _ _ H) as Hs.
  unfold ledger_ok. rewrite Hs. split_and!; [..|done]; revert H;
    destruct op; simpl; case_match eqn:E; intros [= <-]; simpl; try lia;
    apply Z.ltb_ge in E; lia.
Qed.

(** ** Rows that represent a ledger *)
Section repr.
Context (g : Z).

(** Row [b] holds the amounts of [l] on the grid of step [2^-g]. *)
Definition repr (b : EmployeeBalance) (l : Ledger) : Prop :=
  b_availableBalance b = units g (available l) /\
  b_pendingBalance b = units g (pending l) /\
  b_usedBalance b = units g (used l) /\
  b_totalBalance b = units g (entitlement l).

Lemma repr_same b b' l : esame b b' -> repr b l -> repr b' l.
Proof.
  intros Hs (Ha & Hp & Hu & Ht). unfold repr.
  rewrite <- (esame_field b_availableBalance b b') by done.
  rewrite <- (esame_field b_pendingBalance b b') by done.
  rewrite <- (esame_field b_usedBalance b b') by done.
  rewrite <- (esame_field b_totalBalance b b') by done. done.
Qed.

(** A row holds one ledger. *)
Lemma repr_inj b l m :
  0 <= g <= 900 -> repr b l -> repr b m -> ledger_ok l -> ledger_ok m -> m = l.
Proof.
  intros Hg (E1 & E2 & E3 & _) (F1 & F2 & F3 & _) (?&?&?&?) (?&?&?&?). unfold entitlement in *.
  rewrite E1 in F1. rewrite E2 in F2. rewrite E3 in F3.
  apply units_inj in F1, F2, F3; try (unfold small; lia). destruct l, m. simpl in *. congruence.
Qed.

Context {Tbl : Type -> Type} `{RepoLaws Tbl}.

(** The row of key [k] in a database holds [l]. *)
Definition holds (d : Db Tbl) (k : bkey) (l : Ledger) : Prop :=
  exists i b, rows (balances d) !! i = Some b /\ b_key b = k /\ repr b l.
End repr.

#[export] Instance repr_proper g : Proper (esame ==> eq ==> iff) (repr g).
Proof. intros b b' Hb l _ <-. split; [by apply repr_same|]. apply repr_same. by symmetry. Qed.

Lemma esame_b_key b b' : esame b b' -> b_key b = b_key b'.
Proof. by apply esame_field. Qed.

(** ** Reading and writing balance rows *)
Section rows.
Context {Tbl : Type -> Type} `{RepoLaws Tbl}.
Implicit Types (w : World Tbl) (b : EmployeeBalance) (k : bkey).

Lemma where_key_spec e l t b : where_key e l t b = true <-> b_key b = (e, l, t).
Proof. unfold where_key. apply bool_decide_eq_true. Qed.

(** At most one row has a key, and [findOne] reads it. *)
Lemma findOne_key (t : Tbl EmployeeBalance) e l y i b :
  wf t -> rows t !! i = Some b -> b_key b = (e, l, y) -> r_findOne (where_key e l y) t = Some b.
Proof.
  intros Hwf Hi Hk. destruct (r_findOne _ t) as [b'|] eqn:Hf.
  - destruct (findOne_Some _ _ _ Hwf Hf) as [Hr Hp]. apply where_key_spec in Hp.
    assert (eid b' = i) as <-.
    { eapply (rows_unique t _ _ b' b); [done..|]. cbn. apply bool_decide_eq_true. congruence. }
    congruence.
  - assert (where_key e l y b = true) by by apply where_key_spec.
    pose proof (findOne_None _ _ _ _ Hwf Hf Hi). congruence.
Qed.

(** [w'] is [w] but for the balance row [i]. *)
Definition only_row (i : string) w w' : Prop :=
  exists t', w' = set_db (set_balances t' (w_db w)) w /\
    forall j, j <> i -> rows t' !! j = rows (balances (w_db w)) !! j.

(** What the three moves have in common: load the row, check, assign, save. *)
Definition locked_update (k : bkey) (refuse : EmployeeBalance -> option exn)
    (assign : EmployeeBalance -> EmployeeBalance) : M (World Tbl) exn EmployeeBalance :=
  balance ← findOne_balance (where_key k.1.1 k.1.2 k.2);
  match balance with
  | None => throw (NotFoundException ErrorCodes.BALANCE_NOT_FOUND)
  | Some balance =>
      match refuse balance with
      | Some e => throw e
      | None => save_balance (assign balance)
      end
  end.

Lemma locked_update_found k refuse assign w i b :
  wf (balances (w_db w)) -> rows (balances (w_db w)) !! i = Some b -> b_key b = k ->
  (forall c, b_id (assign c) = b_id c) ->
  match locked_update k refuse assign w with
  | (w', inr b') =>
      refuse b = None /\ only_row i w w' /\ wf (balances (w_db w')) /\
      rows (balances (w_db w')) !! i = Some b' /\ b_id b' = i /\ esame (assign b) b'
  | (w', inl e) =>
      (refuse b = Some e /\ w' = w) \/
      (refuse b = None /\ driver_error e /\ only_row i w w' /\ wf (balances (w_db w')) /\
       rows (balances (w_db w')) = rows (balances (w_db w)))
  end.
Proof.
  intros Hwf Hi Hk Hid. destruct k as [[e l] y]. unfold locked_update, mbind, M_bind, t_findOne, gets.
  cbn [fst snd]. rewrite (findOne_key _ _ _ _ _ _ Hwf Hi Hk).
  destruct (refuse b) as [ex|]; [by left|]. unfold t_save.
  destruct (rows_id _ _ _ Hwf Hi) as [Hei Hne]. cbn in Hei.
  destruct (r_save _ _) as [t' [ex|b']] eqn:Hs.
  - destruct (save_Err _ _ _ _ Hwf Hs) as (? & Hr & ?).
    right. cbn. split_and!; try done. exists t'. split; [done|]. intros j _. by rewrite Hr.
  - destruct (save_Ok _ _ _ _ Hwf Hs) as (Hwf' & Hsame & Hr & Hnew). cbn in Hnew.
    rewrite Hid, Hei in Hnew. rewrite decide_False in Hnew by done. subst i.
    cbn. rewrite Hr. cbn. rewrite Hnew, lookup_insert_eq. split_and!; try done.
    exists t'. split; [done|]. intros j Hj. rewrite Hr. cbn. rewrite Hnew.
    by apply lookup_insert_ne.
Qed.
End rows.

(** ** The three moves of [BalanceService] *)
Section moves.
Context {Tbl : Type -> Type} `{RepoLaws Tbl}.
Implicit Types (w : World Tbl) (b : EmployeeBalance) (k : bkey).

(** The method that implements a move. *)
Definition run_op (op : LedgerOp) (k : bkey) (days : num) : M (World Tbl) exn unit :=
  match op with
  | Reserve => _ ← atomicDeduct k.1.1 k.1.2 k.2 days; mret tt
  | Release => releaseFromPending k.1.1 k.1.2 k.2 days
  | Finalize => finalizeUsed k.1.1 k.1.2 k.2 days
  end.

(** The exception of a refused move. *)
Definition refusal (op : LedgerOp) : exn :=
  match op with
  | Reserve => UnprocessableEntityException ErrorCodes.INSUFFICIENT_BALANCE
  | _ => ConflictException ErrorCodes.BALANCE_CONFLICT
  end.

Definition refuses (op : LedgerOp) (days : num) b : option exn :=
  let from := match op with Reserve => b_availableBalance b | _ => b_pendingBalance b end in
  if (parseFloat from <. parseFloat days)%num then Some (refusal op) else None.

Definition assigns (op : LedgerOp) (days : num) b : EmployeeBalance :=
  let a := parseFloat (b_availableBalance b) in
  let p := parseFloat (b_pendingBalance b) in
  let u := parseFloat (b_usedBalance b) in
  let d := parseFloat days in
  match op with
  | Reserve => b_with_amounts (b_totalBalance b) (a -. d)%num (p +. d)%num (b_usedBalance b) b
  | Release => b_with_amounts (b_totalBalance b) (a +. d)%num (p -. d)%num (b_usedBalance b) b
  | Finalize => b_with_amounts (b_totalBalance b) (b_availableBalance b) (p -. d)%num (u +. d)%num b
  end.

Lemma run_op_update op k days w :
  run_op op k days w = (locked_update k (refuses op days) (assigns op days) ≫= fun _ => mret tt) w.
Proof.
  destruct op; unfold run_op, atomicDeduct, releaseFromPending, finalizeUsed, locked_update,
    refuses, refusal, mbind, M_bind, t_findOne, gets; simpl;
    destruct (r_findOne _ _) as [b|]; try done; simpl; by destruct (_ <. _)%num.
Qed.

Context (g : Z) (Hg : 0 <= g <= 900).

Lemma refuses_step op d b l :
  ledger_ok l -> 0 <= d < 2 ^ 53 -> repr g b l ->
  match ledger_step op d l with
  | None => refuses op (units g d) b = Some (refusal op)
  | Some l' => refuses op (units g d) b = None /\ repr g (assigns op (units g d) b) l'
  end.
Proof.
  intros (Ha & Hp & Hu & He) Hd (Hba & Hbp & Hbu & Hbt).
  assert (small (available l) /\ small (pending l) /\ small (used l) /\ small d) as (?&?&?&?)
    by (unfold entitlement, small in *; lia).
  unfold ledger_step, refuses, assigns, repr.
  destruct op; rewrite ?Hba, ?Hbp, ?Hbu, !parseFloat_units, units_ltb by done;
    (destruct (_ <? d) eqn:E; [done|]); apply Z.ltb_ge in E; (split; [done|]); simpl;
    rewrite ?units_sub, ?units_add by (first [done | unfold entitlement, small in *; lia]);
    rewrite ?Hba, ?Hbu, Hbt; unfold entitlement; simpl; split_and!; f_equal; lia.
Qed.

(** What a move of [d] steps does to a world where row [i] holds [l]. *)
Lemma run_op_spec op k d w i b l :
  wf (balances (w_db w)) -> rows (balances (w_db w)) !! i = Some b -> b_key b = k ->
  repr g b l -> ledger_ok l -> 0 <= d < 2 ^ 53 ->
  match run_op op k (units g d) w with
  | (w', inr _) => exists l' b',
      ledger_step op d l = Some l' /\ only_row i w w' /\ wf (balances (w_db w')) /\
      rows (balances (w_db w')) !! i = Some b' /\ b_key b' = k /\ repr g b' l'
  | (w', inl e) =>
      (ledger_step op d l = None /\ e = refusal op /\ w' = w) \/
      (is_Some (ledger_step op d l) /\ driver_error e /\ only_row i w w' /\
       wf (balances (w_db w')) /\ rows (balances (w_db w')) = rows (balances (w_db w)))
  end.
Proof.
  intros Hwf Hi Hk Hr Hl Hd. rewrite run_op_update.
  pose proof (refuses_step op d b l Hl Hd Hr) as Hs.
  pose proof (locked_update_found k (refuses op (units g d)) (assigns op (units g d)) w i b
                Hwf Hi Hk ltac:(by destruct op)) as Hu.
  unfold mbind, M_bind. destruct (locked_update _ _ _ w) as [w' [e|b']].
  - destruct Hu as [[Hre ->]|(Hre & Hu)]; destruct (ledger_step op d l) as [l'|].
    + destruct Hs; congruence.
    + left. split_and!; congruence.
    + right. split; [by eexists|done].
    + congruence.
  - destruct Hu as (Hre & Ho & Hwf' & Hrow & Hid & Hsame).
    destruct (ledger_step op d l) as [l'|]; [|congruence]. destruct Hs as [_ Hs].
    exists l', b'. split_and!; try done.
    + rewrite <- (esame_b_key _ _ Hsame), <- Hk. by destruct op.
    + by rewrite <- Hsame.
Qed.
End moves.

(** ** The simulation *)
Section simulation.
Context {Tbl : Type -> Type} `{RepoLaws Tbl}.
Context (g : Z) (Hg : 0 <= g <= 900).

(** World [w] shows ledger [l] under key [k]. *)
Definition shows (w : World Tbl) (k : bkey) (l : Ledger) : Prop :=
  wf (balances (w_db w)) /\ holds g (w_db w) k l /\ ledger_ok l.

Lemma only_row_shows i b k k' w w' l :
  rows (balances (w_db w)) !! i = Some b -> b_key b = k -> k' <> k ->
  only_row i w w' -> wf (balances (w_db w')) -> shows w k' l -> shows w' k' l.
Proof.
  intros Hi Hk Hne (t & -> & Ho) Hwf (_ & (j & c & Hj & Hc & Hr) & Hl).
  split_and!; [done| |done]. exists j, c. split_and!; try done. cbn. rewrite Ho; [done|].
  intros ->. congruence.
Qed.

(** C10. Each of [atomicDeduct], [releaseFromPending] and [finalizeUsed]
    simulates the step of the ledger it stands for: it succeeds when the
    ledger allows the step and then shows the ledger after it; it throws the
    422 or 409 of a refused step when the ledger forbids it, or a driver
    error, and then shows the ledger it showed before.  No other key, no
    other table and nothing outside the database changes. *)
Theorem move_simulation op k d w w' r l :
  shows w k l -> 0 <= d < 2 ^ 53 -> run_op op k (units g d) w = (w', r) ->
  (exists t, w' = set_db (set_balances t (w_db w)) w) /\
  (forall k' m, k' <> k -> shows w k' m -> shows w' k' m) /\
  match r with
  | inr _ => exists l', ledger_step op d l = Some l' /\ shows w' k l'
  | inl e => shows w' k l /\
      (ledger_step op d l = None /\ e = refusal op \/
       is_Some (ledger_step op d l) /\ driver_error e)
  end.
Proof.
  intros (Hwf & (i & b & Hi & Hk & Hr) & Hl) Hd Hop.
  pose proof (run_op_spec g Hg op k d w i b l Hwf Hi Hk Hr Hl Hd) as Hs. rewrite Hop in Hs.
  destruct r as [e|[]].
  - destruct Hs as [(Hn & -> & ->)|(Hsome & He & Ho & Hwf' & Hrows)].
    + split; [by exists (balances (w_db w)); destruct w as [[]]|]. split; [done|].
      split; [|by left]. repeat split; try apply Hl; try done. by exists i, b.
    + split; [destruct Ho as (t & -> & _); by eexists|]. split.
      * intros k' m Hne. by eapply only_row_shows.
      * split; [|by right]. repeat split; try apply Hl; try done. exists i, b. by rewrite Hrows.
  - destruct Hs as (l' & b' & Hstep & Ho & Hwf' & Hi' & Hk' & Hr').
    split; [destruct Ho as (t & -> & _); by eexists|]. split.
    + intros k' m Hne. by eapply only_row_shows.
    + exists l'. split; [done|]. split; [done|]. split; [by exists i, b'|].
      eapply ledger_step_ok; [|done..]. lia.
Qed.
End simulation.

(** The sample row shows its ledger, at any grid of integers and fractions. *)
Lemma sample_shows a p u i rs w :
  i <> "" -> 0 <= a -> 0 <= p -> 0 <= u -> a + p + u < 2 ^ 52 ->
  w_db w = sample_db [sample_balance i a p u] rs ->
  shows 0 w ("emp", "loc", "VACATION") {| available := a; pending := p; used := u |}.
Proof.
  intros Hi Ha Hp Hu Hs Hw. unfold shows, holds. rewrite Hw. split; [|split].
  - apply wf_table. cbn [admissible]. rewrite bool_decide_eq_false_2 by done.
    assert (e_storable (sample_balance i a p u) = true) as ->; [|done].
    cbn [e_storable EmployeeBalance_Entity forallb sample_balance b_totalBalance b_availableBalance b_pendingBalance
      b_usedBalance b_carryOverBalance b_hcmTotalBalance]. unfold of_Z. by rewrite !dyadic_has_value.
  - exists i, (sample_balance i a p u). split; [|done]. apply lookup_insert_eq.
  - by split_and!.
Qed.

Lemma move_simulation_witness :
  exists w' r, run_op Reserve ("emp", "loc", "VACATION") (units 0 4) world_10_2_3 = (w', r) /\
    shows 0 w' ("emp", "loc", "VACATION") {| available := 6; pending := 6; used := 3 |}.
Proof.
  pose proof (sample_shows 10 2 3 "b1" _ world_10_2_3 ltac:(done) ltac:(lia) ltac:(lia)
    ltac:(lia) ltac:(reflexivity) eq_refl) as Hs.
  destruct (run_op Reserve ("emp", "loc", "VACATION") (units 0 4) world_10_2_3) as [w' r] eqn:Hop.
  exists w', r. split; [done|].
  destruct (move_simulation 0 ltac:(lia) _ _ 4 _ _ _ _ Hs ltac:(lia) Hop) as (_ & _ & Hr).
  destruct r as [e|[]].
  - exfalso. vm_compute in Hop. discriminate.
  - destruct Hr as (l' & [= <-] & Hl). exact Hl.
Defined.
