(* ===== verification/Effects.v ===== *)
(** * Effects: what the table operations do to the world

    Inversion lemmas for the operations of [World], in terms of the rows of the
    four tables. *)

From S2P Require Import Prelude Num Domain Store Entities World Dates Balance Samples Ledger.

(** ** Rows *)
Section effects.
Context {Tbl : Type -> Type} `{RepoLaws Tbl}.
Implicit Types (w : World Tbl).

Definition Bal w := rows (balances (w_db w)).
Definition Req w := rows (requests (w_db w)).
Definition Idem w := rows (idempotency (w_db w)).
Definition Logs w := rows (syncLogs (w_db w)).

(** Every table of the database is well formed. *)
Definition db_wf (d : Db Tbl) : Prop :=
  wf (balances d) /\ wf (requests d) /\ wf (idempotency d) /\ wf (syncLogs d).

(** ** Table operations *)
Section table.
Context {R : Type} `{EntityLaws R}.
Context (get : Db Tbl -> Tbl R) (put : Tbl R -> Db Tbl -> Db Tbl).
Implicit Types (r : R).

(** What a successful [save] of [r] did: the stored row [r'] is [r] up to the
    managed columns; it is a new row when [r] had no identifier. *)
Definition saved w w' r r' : Prop := exists t,
  w' = set_db (put t (w_db w)) w /\ wf t /\ esame r r' /\
  rows t = <[eid r' := r']> (rows (get (w_db w))) /\
  (if decide (eid r = "") then rows (get (w_db w)) !! eid r' = None else eid r' = eid r).

Lemma t_save_ok w w' r r' :
  wf (get (w_db w)) -> t_save get put r w = (w', inr r') -> saved w w' r r'.
Proof.
  intros Hwf. unfold t_save. destruct (r_save _ _) as [t [e|q]] eqn:Hs; [done|].
  intros [= <- <-]. destruct (save_Ok _ _ _ _ Hwf Hs) as (? & ? & ? & ?). by exists t.
Qed.

Lemma t_save_cases w w' r res :
  wf (get (w_db w)) -> t_save get put r w = (w', res) ->
  match res with
  | inr r' => saved w w' r r'
  | inl e => driver_error e /\ exists t, w' = set_db (put t (w_db w)) w /\ wf t /\
      rows t = rows (get (w_db w))
  end.
Proof.
  intros Hwf Hs. destruct res as [e|r']; [|by apply t_save_ok]. revert Hs. unfold t_save.
  destruct (r_save _ _) as [t [x|q]] eqn:Hs; intros [= <- <-].
  destruct (save_Err _ _ _ _ Hwf Hs) as (? & ? & ?). split; [done|]. by exists t.
Qed.

(** What an [update] of row [i] by [f] did. *)
Lemma t_update_cases w w' i f res :
  wf (get (w_db w)) -> (forall r, eid (f r) = eid r) -> t_update get put i f w = (w', res) ->
  exists t, w' = set_db (put t (w_db w)) w /\ wf t /\
    match res with
    | inl e => driver_error e /\ rows t = rows (get (w_db w))
    | inr _ =>
        match rows (get (w_db w)) !! i with
        | None => rows t = rows (get (w_db w))
        | Some r => exists r', esame (f r) r' /\ eid r' = i /\
            rows t = <[i := r']> (rows (get (w_db w)))
        end
    end.
Proof.
  intros Hwf Hf. unfold t_update. destruct (r_update _ _ _) as [t [e|[]]] eqn:Hu; intros [= <- <-];
    exists t; (split; [done|]).
  - by destruct (update_Err _ _ _ _ _ Hwf Hu) as (? & ? & ?).
  - by apply (update_Ok _ _ _ _ Hwf Hf) in Hu.
Qed.

Lemma t_findOne_ok w w' p o :
  wf (get (w_db w)) -> t_findOne get p w = (w', inr o) ->
  w' = w /\ match o with
            | Some r => rows (get (w_db w)) !! eid r = Some r /\ p r = true
            | None => forall i r, rows (get (w_db w)) !! i = Some r -> p r = false
            end.
Proof.
  intros Hwf [= <- <-]. split; [done|]. destruct (r_findOne p _) as [r|] eqn:Hf.
  - by apply findOne_Some.
  - intros i r Hi. by eapply findOne_None.
Qed.
End table.

(** ** The three moves *)
Lemma locked_update_ok k refuse assign w w' b' :
  wf (balances (w_db w)) -> (forall c, b_id (assign c) = b_id c) ->
  locked_update k refuse assign w = (w', inr b') ->
  exists i b, Bal w !! i = Some b /\ b_key b = k /\ refuse b = None /\
    saved balances set_balances w w' (assign b) b' /\ b_id b' = i.
Proof.
  intros Hwf Hid. unfold locked_update. intros (w1 & o & Hf & Hl)%bind_inv_ok.
  destruct (t_findOne_ok _ _ _ _ _ Hwf Hf) as [-> Ho]. destruct o as [b|]; [|done].
  destruct Ho as [Hrow Hp]. cbn in Hrow. apply where_key_spec in Hp.
  destruct (refuse b) eqn:Hr; [done|]. apply t_save_ok in Hl; [|done].
  destruct (rows_id _ _ _ Hwf Hrow) as [_ Hne].
  exists (b_id b), b. split_and!; try done.
  - rewrite Hp. by destruct k as [[]].
  - destruct Hl as (t & _ & _ & _ & _ & Hi). cbn in Hi. by rewrite Hid, decide_False in Hi.
Qed.

Lemma run_op_ok op k days w w' :
  wf (balances (w_db w)) -> run_op op k days w = (w', inr tt) ->
  exists i b b', Bal w !! i = Some b /\ b_key b = k /\ refuses op days b = None /\
    saved balances set_balances w w' (assigns op days b) b' /\ b_id b' = i.
Proof.
  intros Hwf. rewrite run_op_update. intros (w1 & b' & Hl & [= <-])%bind_inv_ok.
  destruct (locked_update_ok k (refuses op days) (assigns op days) w w1 b' Hwf
              ltac:(by destruct op) Hl) as (i & b & ? & ? & ? & ?).
  by exists i, b, b'.
Qed.
End effects.
