(* ===== verification/Lifecycle.v ===== *)
(** * Lifecycle: what the operations of [TimeOffService] do

    [created] and [decided] are the contracts of [createRequest] and of the three
    decisions: one transaction's effect on the four tables, the callbacks it
    queues, and nothing else.  The theorems show that a call either fulfils its
    contract, or returns a response stored earlier, or throws and leaves the
    database as it was. *)

From S2P Require Import Prelude Num Domain Store Entities World Dates Balance Hash HcmApi TimeOff.
From S2P Require Import Samples Ledger Effects.

(** The key of the balance a request is charged to. *)
Definition d_key (dto : CreateDto) : bkey := (d_employeeId dto, d_locationId dto, d_leaveType dto).
Definition d_lock (dto : CreateDto) : string := d_employeeId dto +:+ ":" +:+ d_locationId dto.

(** Forget a finished create lock. *)
Definition unlocked {Tbl} (lockKey : string) (w : World Tbl) : World Tbl :=
  set_createLocks (delete lockKey (w_createLocks w)) (S (w_promises w)) w.
Definition queue {Tbl} (ts : list Task) (w : World Tbl) : World Tbl :=
  set_immediates (w_immediates w ++ ts) w.

(** A decision on a request, with what the caller passes along. *)
Inductive Decision :=
  | Approve (approverId : string)
  | Reject (approverId reason : string)
  | Cancel (reason : option string).

(** The status it gives, and the move of the days it makes. *)
Definition target (d : Decision) : RequestStatus.t :=
  match d with
  | Approve _ => RequestStatus.APPROVED
  | Reject _ _ => RequestStatus.REJECTED
  | Cancel _ => RequestStatus.CANCELLED
  end.
Definition move_of (d : Decision) : LedgerOp :=
  match d with Approve _ => Finalize | _ => Release end.

(** The columns it assigns, at time [now]. *)
Definition decide_row (d : Decision) (now : Z) (q : TimeOffRequest) : TimeOffRequest :=
  match d with
  | Approve a => r_with_decision RequestStatus.APPROVED (Some a) (Some now) (r_rejectionReason q) q
  | Reject a reason => r_with_decision RequestStatus.REJECTED (Some a) (Some now) (Some reason) q
  | Cancel reason =>
      r_with_decision RequestStatus.CANCELLED (r_approvedBy q) (r_approvedAt q) reason q
  end.

(** The callback it queues. *)
Definition decision_tasks (d : Decision) (q : TimeOffRequest) (id : string) : list Task :=
  match d with Approve _ => [NotifyApproval q id] | _ => [] end.

Section lifecycle.
Context {Tbl : Type -> Type} `{RepoLaws Tbl} `{!TxManager Tbl, !TxLaws Tbl, !HcmApi Tbl}.
Context `{Env} `{Config} `{Engine} `{Crypto}.
Implicit Types (w : World Tbl) (dto : CreateDto) (key hash : string).

(** ** The transaction of [createRequest] *)

Lemma assertNoOverlap_cases e l s t w w' r :
  wf (requests (w_db w)) -> assertNoOverlap e l s t w = (w', r) ->
  w' = w /\
  match r with
  | inr _ => forall j q, Req w !! j = Some q -> active_at e l q = true ->
      datesOverlap s t (r_startDate q) (r_endDate q) = false
  | inl ex => ex = ConflictException ErrorCodes.OVERLAPPING_REQUEST /\
      exists j q, Req w !! j = Some q /\ active_at e l q = true /\
        datesOverlap s t (r_startDate q) (r_endDate q) = true
  end.
Proof.
  intros Hwf. set (ok q := datesOverlap s t (r_startDate q) (r_endDate q)).
  assert (Hl : forall xs, (forall q, q ∈ xs -> Req w !! r_id q = Some q /\ active_at e l q = true) ->
    for_each xs (fun q => if ok q then throw (ConflictException ErrorCodes.OVERLAPPING_REQUEST)
                          else mret tt) w = (w', r) ->
    w' = w /\ match r with
      | inr _ => forall q, q ∈ xs -> ok q = false
      | inl ex => ex = ConflictException ErrorCodes.OVERLAPPING_REQUEST /\
          exists j q, Req w !! j = Some q /\ active_at e l q = true /\ ok q = true
      end).
  { induction xs as [|q xs IH]; intros Hin.
    - intros [= <- <-]. split; [done|]. intros q Hq. by apply elem_of_nil in Hq.
    - cbn [for_each]. unfold mbind, M_bind. destruct (ok q) eqn:Hq.
      + intros [= <- <-]. split; [done|]. split; [done|]. exists (r_id q), q.
        destruct (Hin q ltac:(left)). done.
      + intros Hr. destruct IH as [-> IH]; [intros; apply Hin; by right|exact Hr|].
        split; [done|]. destruct r as [ex|]; [done|].
        intros q' [->|Hq']%elem_of_cons; auto. }
  intros Hr. apply Hl in Hr as [-> Hr].
  - split; [done|]. destruct r as [ex|]; [done|]. intros j q Hj Hq. apply Hr.
    apply find_In; [done|]. destruct (rows_id _ _ _ Hwf Hj) as [-> _]. done.
  - intros q Hq. apply find_In in Hq; done.
Qed.

Lemma atomicDeduct_stays e l y days : stays db_step (atomicDeduct (Tbl := Tbl) e l y days).
Proof. unfold atomicDeduct. stays_steps. Qed.
Lemma assertNoOverlap_stays e l s t : stays db_step (assertNoOverlap (Tbl := Tbl) e l s t).
Proof. unfold assertNoOverlap. stays_steps. Qed.
#[local] Hint Resolve atomicDeduct_stays assertNoOverlap_stays : effects.
Lemma create_tx_stays dto key hash days : stays db_step (create_tx dto key hash days).
Proof. unfold create_tx, lockEmployeeBalances. stays_steps. Qed.

(** What a [createRequest] that stored request [req] did, in world [w] (after
    the checks that only read) and up to [w']. *)
Record created dto key hash (days : num) w w' (req : TimeOffRequest) : Prop := {
  created_request : esame (new_request dto key days) req;
  created_fresh : Req w !! r_id req = None /\ r_id req <> "";
  created_requests : Req w' = <[r_id req := req]> (Req w);
  created_apart : forall j q, Req w !! j = Some q ->
    active_at (d_employeeId dto) (d_locationId dto) q = true ->
    datesOverlap (d_startDate dto) (d_endDate dto) (r_startDate q) (r_endDate q) = false;
  created_balance : exists i b b', Bal w !! i = Some b /\ b_key b = d_key dto /\
    refuses Reserve days b = None /\ esame (assigns Reserve days b) b' /\ b_id b' = i /\
    Bal w' = <[i := b']> (Bal w);
  created_idempotency : exists n now, esame (new_idempotency dto key hash req (now + IDEMPOTENCY_TTL_MS)) n /\
    Idem w !! i_id n = None /\ Idem w' = <[i_id n := n]> (Idem w) /\
    (w_now w <= now <= w_now w')%Z;
  created_logs : Logs w' = Logs w;
  created_wf : db_wf (w_db w');
}.

Lemma create_tx_ok dto key hash days w w' req :
  db_wf (w_db w) -> create_tx dto key hash days w = (w', inr req) ->
  created dto key hash days w w' req.
Proof.
  intros (Hwb & Hwr & Hwi & Hwl) Htx.
  apply bind_inv_ok in Htx as (w1 & [] & [= <-] & Htx).
  apply bind_inv_ok in Htx as (w2 & [] & Hov & Htx).
  apply assertNoOverlap_cases in Hov as [-> Hov]; [|done].
  apply bind_inv_ok in Htx as (w3 & b' & Hde & Htx).
  assert (Hop : run_op Reserve (d_key dto) days w = (w3, inr tt))
    by (unfold run_op; cbn [d_key fst snd]; by erewrite bind_ok by done).
  apply run_op_ok in Hop as (i & b & c & Hi & Hk & Hre & (tb & -> & Hwb' & Hsb & Hrb & Hib) & Hc);
    [|done].
  apply bind_inv_ok in Htx as (w4 & req' & Hsv & Htx).
  apply t_save_ok in Hsv as (tr & -> & Hwr' & Hsr & Hrr & Hir); [|done].
  apply bind_inv_ok in Htx as (w5 & now & [= <- <-] & Htx).
  apply bind_inv_ok in Htx as (w6 & n & Hsi & [= <- <-]).
  apply t_save_ok in Hsi as (ti & -> & Hwi' & Hsn & Hrn & Hin); [|done].
  cbn in Hib, Hir, Hin, Hrb, Hrr, Hrn. rewrite decide_True in Hir, Hin by done.
  destruct (rows_id _ (r_id req') req' Hwr' ltac:(rewrite Hrr; apply lookup_insert_eq)) as [_ Hne].
  split.
  - done.
  - done.
  - done.
  - done.
  - exists i, b, c. split_and!; try done. unfold Bal. cbn. by rewrite Hrb, Hc.
  - eexists n, _. split_and!; [exact Hsn|exact Hin|exact Hrn|cbn; lia..].
  - done.
  - done.
Qed.

Lemma created_world dto key hash days w0 w1 w w' req :
  w_db w0 = w_db w -> (w_now w <= w_now w0)%Z -> w_db w' = w_db w1 -> (w_now w1 <= w_now w')%Z ->
  created dto key hash days w0 w1 req -> created dto key hash days w w' req.
Proof.
  intros Hd Hn Hd' Hn' [Hr Hf Hrs Ha Hb (n & now & Hi1 & Hi2 & Hi3 & Hi4) Hl Hwf].
  unfold Req, Bal, Idem, Logs in *. rewrite <- Hd' in *. rewrite Hd in *.
  split; try done. exists n, now. split_and!; try done; lia.
Qed.

(** ** Idempotency *)

(** [v] answers an earlier use of [key]: it is a cached response, or the
    present state of a stored request. *)
Definition stored key w (v : RequestView) : Prop :=
  (exists i n, Idem w !! i = Some n /\ i_idempotencyKey n = key /\ v = i_responseBody n) \/
  (exists j q, Req w !! j = Some q /\ r_idempotencyKey q = key /\ v = serializeRequest q).

Lemma stored_db key w w' v : w_db w = w_db w' -> stored key w v -> stored key w' v.
Proof. unfold stored, Idem, Req. by intros ->. Qed.

Lemma checkIdempotency_cases key hash w w' r :
  wf (idempotency (w_db w)) -> checkIdempotency key hash w = (w', r) ->
  later w w' /\
  match r with
  | inr None => forall i n, Idem w !! i = Some n -> i_idempotencyKey n = key ->
      (i_expiresAt n < w_now w')%Z
  | inr (Some v) => exists i n, Idem w !! i = Some n /\ i_idempotencyKey n = key /\
      i_requestHash n = hash /\ (w_now w' <= i_expiresAt n)%Z /\ v = i_responseBody n
  | inl e => e = ConflictException ErrorCodes.IDEMPOTENCY_CONFLICT /\
      exists i n, Idem w !! i = Some n /\ i_idempotencyKey n = key /\
        i_requestHash n <> hash /\ (w_now w' <= i_expiresAt n)%Z
  end.
Proof.
  intros Hwf. unfold checkIdempotency, mbind, M_bind. destruct (t_findOne _ _ w) as [w0 [e|o]] eqn:Hf;
    [done|]. apply t_findOne_ok in Hf as [-> Ho]; [|done]. destruct o as [n|].
  - destruct Ho as [Hi Hk%bool_decide_eq_true]. cbn in Hi.
    unfold date_now. pose proof (pass_later 0 w) as Hl.
    destruct (Z.ltb_spec (i_expiresAt n) (w_now (pass 0 w))) as [He|He].
    + intros [= <- <-]. split; [done|]. intros j m Hj Hm.
      assert (j = i_id n) as ->.
      { eapply (rows_unique _ _ _ m n); [done|exact Hj|exact Hi|].
        apply bool_decide_eq_true. congruence. }
      unfold Idem in Hj. rewrite Hi in Hj. by simplify_eq.
    + destruct (decide _) as [Hh|Hh]; intros [= <- <-]; (split; [done|]); [|split; [done|]];
        exists (i_id n), n; done.
  - intros [= <- <-]. split; [reflexivity|]. intros i n Hi Hk.
    specialize (Ho i n Hi). by apply bool_decide_eq_false in Ho.
Qed.

Lemma recoverAfterConstraint_cases key hash w w' r :
  db_wf (w_db w) -> recoverAfterConstraint key hash w = (w', r) ->
  later w w' /\ match r with inr (Some v) => stored key w v | _ => True end.
Proof.
  intros (_ & Hwr & Hwi & _). unfold recoverAfterConstraint.
  destruct (checkIdempotency key hash w) as [w1 c] eqn:Hc.
  destruct (checkIdempotency_cases _ _ _ _ _ Hwi Hc) as [Hl Hcs].
  destruct c as [e|[v|]]; unfold mbind, M_bind; rewrite Hc.
  - by intros [= <- <-].
  - intros [= <- <-]. split; [done|]. left. destruct Hcs as (i & n & ? & ? & _ & _ & ?). by exists i, n.
  - destruct (t_findOne _ _ w1) as [w2 [e|o]] eqn:Hf; [done|].
    apply t_findOne_ok in Hf as [-> Ho]; [|by rewrite (later_db _ _ Hl)]. intros [= <- <-].
    split; [done|]. destruct o as [q|]; [|done]. right.
    destruct Ho as [Hi Hk%bool_decide_eq_true]. exists (r_id q), q.
    by rewrite (later_db _ _ Hl) in Hi.
Qed.

Lemma create_recover_cases key hash e w w' r :
  db_wf (w_db w) -> create_recover key hash e w = (w', r) ->
  later w w' /\ match r with inr v => stored key w v | inl _ => True end.
Proof.
  intros Hwf. unfold create_recover.
  assert (Ht : forall w0 w' r, later w w0 ->
    (if isSqliteTransientTxError e then
       recovered ← recoverAfterConstraint key hash;
       match recovered with
       | Some recovered => mret recovered
       | None => throw (ConflictException ErrorCodes.BALANCE_CONFLICT)
       end
     else throw e) w0 = (w', r) ->
    later w w' /\ match r with inr v => stored key w v | inl _ => True end).
  { intros w0 v' q Hl. destruct (isSqliteTransientTxError e); [|by intros [= <- <-]].
    unfold mbind, M_bind. destruct (recoverAfterConstraint key hash w0) as [w2 o] eqn:Hr.
    apply recoverAfterConstraint_cases in Hr as [Hl' Hr]; [|by rewrite (later_db _ _ Hl)].
    assert (later w w2) by (by etrans).
    destruct o as [|[v|]]; intros [= <- <-]; try done. split; [done|].
    eapply stored_db; [|done]. by apply later_db. }
  destruct (isSqliteConstraintError e); [|by apply Ht].
  unfold mbind, M_bind at 1. destruct (recoverAfterConstraint key hash w) as [w1 o] eqn:Hr.
  apply recoverAfterConstraint_cases in Hr as [Hl Hr]; [|done].
  destruct o as [|[v|]]; [by intros [= <- <-]..|]. by apply Ht.
Qed.

(** ** The transaction with its retries *)

Lemma create_retry_loop_cases {A} (runTx : M (World Tbl) exn A) left attempt w w' r :
  (forall v v' e, runTx v = (v', inl e) -> later v v') ->
  create_retry_loop runTx left attempt w = (w', r) ->
  match r with
  | inl _ => later w w'
  | inr a => exists w0, later w w0 /\ runTx w0 = (w', inr a)
  end.
Proof.
  intros Hrun. revert attempt w. induction left as [|left IH]; intros attempt w.
  { by intros [= <- <-]. }
  cbn [create_retry_loop]. unfold try_catch. destruct (runTx w) as [w1 [e|a]] eqn:Hw.
  - pose proof (Hrun _ _ _ Hw) as Hl. destruct (_ || _); [by intros [= <- <-]|].
    intros Hr. apply IH in Hr. pose proof (pass_later (5 * attempt) w1) as Hp.
    destruct r as [e'|a].
    + by do 2 (etrans; [done|]).
    + destruct Hr as (w0 & Hl' & Hr). exists w0. split; [|done]. by do 2 (etrans; [done|]).
  - intros [= <- <-]. by exists w.
Qed.

Lemma transaction_create_fails dto key hash days w w' e :
  transaction (create_tx dto key hash days) w = (w', inl e) -> later w w'.
Proof.
  intros Ht. apply transaction_cases in Ht as (w0 & Hl & _ & [[_ ->]|(w1 & -> & Hb)]); [done|].
  assert (db_step w0 w1) as (d & n & t & -> & Hn).
  { destruct Hb as [Hb|(_ & a & Hb)]; by eapply (stays_eq db_step); [apply create_tx_stays|]. }
  destruct Hl as (n0 & t0 & -> & Hn0). exists n, t. split; [done|]. simpl in Hn. lia.
Qed.

(** What runs under the lock: the contract, or a stored response, or an error;
    in the last two cases only time has passed. *)
Lemma create_locked_cases dto key hash days w w' r :
  db_wf (w_db w) -> create_locked dto key hash days w = (w', r) ->
  match r with
  | inr v =>
      (exists w1 req, created dto key hash days w w1 req /\ v = serializeRequest req /\ db_step w w1 /\
         w' = queue [NotifyHcm (r_id req) (d_employeeId dto) (d_locationId dto) (d_leaveType dto) days] w1) \/
      (later w w' /\ stored key w v)
  | inl _ => later w w'
  end.
Proof.
  intros Hwf. unfold create_locked, mbind, M_bind at 1.
  destruct (checkIdempotency key hash w) as [w1 c] eqn:Hc.
  apply checkIdempotency_cases in Hc as [Hl Hc]; [|apply Hwf].
  destruct c as [e|[v|]].
  { by intros [= <- <-]. }
  { intros [= <- <-]. right. split; [done|]. left.
    destruct Hc as (i & n & ? & ? & _ & _ & ?). by exists i, n. }
  clear Hc. unfold try_catch, mbind, M_bind.
  destruct (runCreateTransactionWithRetry _ w1) as [w2 [e|req]] eqn:Hr;
    apply create_retry_loop_cases in Hr; try (intros ???; apply transaction_create_fails).
  - assert (Hl2 : later w w2) by (by etrans). intros Hrec.
    apply create_recover_cases in Hrec as [Hl3 Hst]; [|by rewrite (later_db _ _ Hl2)].
    assert (later w w') by (by etrans). destruct r as [|v]; [done|]. right. split; [done|].
    eapply stored_db; [|done]. by apply later_db.
  - destruct Hr as (w0 & Hl0 & Ht). apply transaction_cases in Ht as (w3 & Hl3 & Hb).
    assert (Hl4 : later w w3) by (by do 2 (etrans; [done|])).
    intros [= <- <-]. left. exists w2, req.
    assert (Hs : db_step w3 w2) by (eapply (stays_eq db_step); [apply create_tx_stays|done]).
    split_and!; try done.
    + eapply created_world; [by apply later_db|apply db_step_now; by apply later_db_step|done..|].
      apply create_tx_ok; [by rewrite (later_db _ _ Hl4)|done].
    + etrans; [by apply later_db_step|done].
Qed.

(** ** [createRequest] *)

(** Only time has passed, and perhaps the lock has been taken and released. *)
Definition untouched (lockKey : string) w w' : Prop :=
  later w w' \/ later (unlocked lockKey w) w'.

Lemma untouched_db lockKey w w' :
  untouched lockKey w w' -> w_db w' = w_db w /\ w_immediates w' = w_immediates w.
Proof. by intros [(n & t & -> & _)|(n & t & -> & _)]. Qed.

Definition notify_task dto (days : num) (req : TimeOffRequest) : Task :=
  NotifyHcm (r_id req) (d_employeeId dto) (d_locationId dto) (d_leaveType dto) days.

Lemma withCreateLock_cases dto key hash days w w' r :
  db_wf (w_db w) -> withCreateLock (d_lock dto) (create_locked dto key hash days) w = (w', r) ->
  match r with
  | inr v =>
      (exists req, created dto key hash days w w' req /\ v = serializeRequest req /\
         db_step (queue [notify_task dto days req] (unlocked (d_lock dto) w)) w') \/
      (untouched (d_lock dto) w w' /\ stored key w v)
  | inl _ => untouched (d_lock dto) w w'
  end.
Proof.
  intros Hwf. unfold withCreateLock, try_finally. set (w1 := set_createLocks _ _ w).
  destruct (create_locked dto key hash days w1) as [w2 o] eqn:Hc.
  apply create_locked_cases in Hc; [|done].
  assert (Hlater : forall n t, w2 = set_clock n t w1 -> (w_now w <= n)%Z ->
    (if decide (w_createLocks w2 !! d_lock dto = Some (w_promises w))
     then set_createLocks (delete (d_lock dto) (w_createLocks w2)) (w_promises w2) w2 else w2, o)
    = (w', r) -> untouched (d_lock dto) w w' /\ o = r).
  { intros n t -> Hn. cbn. rewrite lookup_insert_eq, decide_True, delete_insert_eq by done.
    intros [= <- <-]. split; [|done]. right. by exists n, t. }
  destruct o as [e|v].
  - destruct Hc as (n & t & Hw2 & Hn). intros Hw.
    destruct (Hlater n t Hw2 Hn Hw) as [Hu <-]. done.
  - destruct Hc as [(w3 & req & Hcr & -> & (d & n & t & -> & Hn) & ->)|[(n & t & Hw2 & Hn) Hst]].
    + cbn. rewrite lookup_insert_eq, decide_True, delete_insert_eq by done. intros [= <- <-].
      left. exists req. split_and!; [|done|by exists d, n, t].
      eapply created_world; [..|exact Hcr]; done.
    + intros Hw. destruct (Hlater n t Hw2 Hn Hw) as [Hu <-]. right. split; [done|].
      by eapply stored_db; [|done].
Qed.

(** The checks of [createRequest] that a returned response has passed. *)
Definition dates_accepted dto w w' : Prop :=
  tv_lt (Date_midnight (d_endDate dto)) (Date_midnight (d_startDate dto)) = false /\
  exists now, (w_now w <= now <= w_now w')%Z /\ isNotInPast_at now (d_startDate dto) = true.

Lemma untouched_later lockKey w w1 w' :
  later w w1 -> untouched lockKey w1 w' -> untouched lockKey w w'.
Proof.
  intros Hl [Hl'|Hl']; [left; by etrans|right]. destruct Hl as (n & t & -> & Hn).
  destruct Hl' as (n' & t' & -> & Hn'). exists n', t'. split; [done|]. simpl in *. lia.
Qed.

Lemma createRequest_cases dto okey w w' r :
  db_wf (w_db w) -> createRequest dto okey w = (w', r) ->
  match r with
  | inr v => exists key, okey = Some key /\ key <> "" /\ dates_accepted dto w w' /\
      let hash := hashObject (dto_json dto) in
      let days := calculateDaysRequested (d_startDate dto) (d_endDate dto) in
      ((exists req, created dto key hash days w w' req /\ v = serializeRequest req /\
          db_step (queue [notify_task dto days req] (unlocked (d_lock dto) w)) w') \/
       (untouched (d_lock dto) w w' /\ stored key w v))
  | inl _ => untouched (d_lock dto) w w'
  end.
Proof.
  intros Hwf. unfold createRequest.
  destruct okey as [[|c key]|]; [by intros [= <- <-]; left| |by intros [= <- <-]; left].
  set (k := String c key) in *.
  unfold mbind, M_bind at 1. unfold isNotInPast at 1, mbind, M_bind at 1, date_now at 1.
  pose proof (pass_later 0 w) as Hl0. set (w0 := pass 0 w) in *.
  cbn [mret M_ret]. destruct (isNotInPast_at _ _) eqn:Hp; cbn [negb].
  2: { intros [= <- <-]. by left. }
  destruct (tv_lt _ _) eqn:Hd; [intros [= <- <-]; by left|].
  set (hash := hashObject _). set (days := calculateDaysRequested _ _).
  unfold mbind, M_bind at 1. destruct (checkIdempotency k hash w0) as [w1 o] eqn:Hc.
  apply checkIdempotency_cases in Hc as [Hl Hc]; [|apply Hwf].
  assert (Hl1 : later w w1) by (by etrans).
  assert (Hn0 : (w_now w <= w_now w0)%Z) by (by apply db_step_now, later_db_step).
  assert (Hn1 : (w_now w0 <= w_now w1)%Z) by (by apply db_step_now, later_db_step).
  destruct o as [e|[v|]].
  { intros [= <- <-]. by left. }
  { intros [= <- <-]. exists k. split_and!; [done..| |].
    - split; [done|]. exists (w_now w0). done.
    - right. split; [by left|]. left. destruct Hc as (i & n & ? & ? & _ & _ & ?). by exists i, n. }
  intros Hw. apply withCreateLock_cases in Hw; [|by rewrite (later_db _ _ Hl1)].
  destruct r as [e|v]; [by eapply untouched_later|].
  assert (Hn' : (w_now w1 <= w_now w')%Z).
  { destruct Hw as [(req & _ & _ & Hs)|[[Hs|Hs] _]].
    - by apply db_step_now in Hs.
    - by apply db_step_now, later_db_step.
    - by apply later_db_step, db_step_now in Hs. }
  exists k. split_and!; [done..| |].
  - split; [done|]. exists (w_now w0). split; [lia|done].
  - destruct Hw as [(req & Hcr & -> & Hs)|[Hu Hst]].
    + left. exists req. split_and!; [|done|].
      * eapply created_world; [..|exact Hcr]; [by apply later_db|lia|done..].
      * destruct Hl1 as (n & t & -> & Hn), Hs as (d & n' & t' & -> & Hs).
        exists d, n', t'. split; [done|]. simpl in *. lia.
    + right. split; [by eapply untouched_later|]. eapply stored_db; [|done]. by apply later_db.
Qed.

(** C6. [createRequest] either fulfils its contract, and answers with the row it
    stored; or answers with a response stored under the same key, having
    changed nothing; or throws, having changed nothing.  Fulfilling the contract
    is: exactly one new request, which is [PENDING] and overlaps no active
    request of the employee at the location; the days moved from available to
    pending on exactly one balance, which had enough; one idempotency record
    with the response, to expire after the configured time; one HCM callback
    queued; the create lock released; and nothing else. *)
Theorem createRequest_contract dto okey w w' r :
  db_wf (w_db w) -> createRequest dto okey w = (w', r) ->
  match r with
  | inr v => exists key, okey = Some key /\ dates_accepted dto w w' /\
      let hash := hashObject (dto_json dto) in
      let days := calculateDaysRequested (d_startDate dto) (d_endDate dto) in
      ((exists req, created dto key hash days w w' req /\ v = serializeRequest req /\
          db_step (queue [notify_task dto days req] (unlocked (d_lock dto) w)) w') \/
       (w_db w' = w_db w /\ w_immediates w' = w_immediates w /\ stored key w v))
  | inl _ => w_db w' = w_db w /\ w_immediates w' = w_immediates w
  end.
Proof.
  intros Hwf Hc. apply createRequest_cases in Hc; [|done]. destruct r as [e|v].
  - by eapply untouched_db.
  - destruct Hc as (key & -> & _ & Hd & Hc). exists key. split_and!; [done..|].
    destruct Hc as [Hc|[Hu Hst]]; [by left|right]. apply untouched_db in Hu as [? ?]. done.
Qed.

(** The key of a stored idempotency record: no row can be added for it. *)
Lemma created_key_fresh dto key hash days w w' req i n :
  db_wf (w_db w) -> created dto key hash days w w' req -> Idem w !! i = Some n ->
  i_idempotencyKey n <> key.
Proof.
  intros Hwf [_ _ _ _ _ (m & now & Hsm & Hnew & Hi & _) _ Hwf'] Hn <-.
  assert (i <> i_id m) by (intros ->; congruence).
  assert (i_idempotencyKey m = i_idempotencyKey n).
  { symmetry. by apply (esame_field i_idempotencyKey) in Hsm. }
  destruct Hwf' as (_ & _ & Hwi & _). apply (rows_unique _ i (i_id m) n m) in Hwi; [done|..].
  - unfold Idem in *. rewrite Hi. by rewrite lookup_insert_ne.
  - unfold Idem in *. rewrite Hi. apply lookup_insert_eq.
  - by apply bool_decide_eq_true.
Qed.

(** C17. At most one request per idempotency key, for ever: once a record of the
    key is stored, no later [createRequest] with that key, whatever its payload,
    its outcome and the age of the record, changes the database. *)
Theorem createRequest_at_most_once dto key w w' r i n :
  db_wf (w_db w) -> Idem w !! i = Some n -> i_idempotencyKey n = key ->
  createRequest dto (Some key) w = (w', r) -> w_db w' = w_db w.
Proof.
  intros Hwf Hn Hk Hc. apply createRequest_cases in Hc; [|done]. destruct r as [e|v].
  - by eapply untouched_db.
  - destruct Hc as (? & [= <-] & _ & _ & [(req & Hcr & _)|[Hu _]]); [|by eapply untouched_db].
    by eapply created_key_fresh in Hcr.
Qed.

(** What [createRequest] answers when the key has a record that is not expired. *)
Lemma createRequest_found dto key w w' r i n :
  db_wf (w_db w) -> Idem w !! i = Some n -> i_idempotencyKey n = key -> key <> "" ->
  isNotInPast_at (w_now (pass 0 w)) (d_startDate dto) = true ->
  tv_lt (Date_midnight (d_endDate dto)) (Date_midnight (d_startDate dto)) = false ->
  createRequest dto (Some key) w = (w', r) -> (w_now w' <= i_expiresAt n)%Z ->
  later w w' /\
  r = (if decide (i_requestHash n = hashObject (dto_json dto)) then inr (i_responseBody n)
       else inl (ConflictException ErrorCodes.IDEMPOTENCY_CONFLICT)).
Proof.
  intros Hwf Hn Hk Hne Hp Hd Hc He. pose proof Hc as Hc'.
  revert Hc. unfold createRequest. destruct key as [|c key]; [done|].
  unfold isNotInPast, mbind, M_bind, date_now. cbn [mret M_ret].
  rewrite Hp, Hd. cbn [negb]. destruct (checkIdempotency _ _ (pass 0 w)) as [w1 o] eqn:Hck.
  apply checkIdempotency_cases in Hck as [Hl Hck]; [|apply Hwf].
  assert (Huniq : forall j m, Idem w !! j = Some m -> i_idempotencyKey m = String c key -> m = n).
  { intros j m Hj Hm. assert (j = i) as ->.
    { eapply (rows_unique _ _ _ m n); [apply Hwf|exact Hj|exact Hn|].
      apply bool_decide_eq_true. congruence. }
    congruence. }
  assert (Hl' : later w w1) by (etrans; [apply (pass_later 0)|done]).
  destruct o as [e|[v|]].
  - destruct Hck as (-> & j & m & Hj & Hm & Hh & _). apply (Huniq _ _ Hj) in Hm as ->.
    intros [= <- <-]. by rewrite decide_False.
  - destruct Hck as (j & m & Hj & Hm & Hh & _ & ->). apply (Huniq _ _ Hj) in Hm as ->.
    intros [= <- <-]. by rewrite decide_True.
  - intros Hw. exfalso. specialize (Hck i n Hn Hk).
    apply withCreateLock_cases in Hw; [|by rewrite (later_db _ _ Hl')].
    assert (w_now w1 <= w_now w')%Z; [|lia]. destruct r as [e|v].
    + destruct Hw as [Hw|Hw]; by apply later_db_step, db_step_now in Hw.
    + destruct Hw as [(req & _ & _ & Hw)|[[Hw|Hw] _]].
      * by apply db_step_now in Hw.
      * by apply later_db_step, db_step_now in Hw.
      * by apply later_db_step, db_step_now in Hw.
Qed.

(** Dates in the past are refused before the key is looked at. *)
Lemma createRequest_past dto key w :
  key <> "" -> isNotInPast_at (w_now (pass 0 w)) (d_startDate dto) = false ->
  createRequest dto (Some key) w = (pass 0 w, inl (UnprocessableEntityException "INVALID_DATE_RANGE")).
Proof.
  intros Hne Hp. unfold createRequest. destruct key as [|c key]; [done|].
  unfold isNotInPast, mbind, M_bind, date_now. cbn [mret M_ret]. by rewrite Hp.
Qed.

(** C9. A repeated [createRequest] creates nothing: when the first call stored a
    request, then any call with the same key and payload that is over while the
    record is stored and not expired changes nothing but the clock, and it is
    answered with the first response as long as the start date is not in the past.
    After the start date it is refused with the 422 for its dates, although the
    response is still stored. *)
Theorem createRequest_idempotent dto key w w1 v w2 w3 r :
  db_wf (w_db w) -> (forall v', ~ stored key w v') ->
  createRequest dto (Some key) w = (w1, inr v) ->
  db_wf (w_db w2) -> Idem w1 ⊆ Idem w2 ->
  createRequest dto (Some key) w2 = (w3, r) -> (w_now w3 <= w_now w + IDEMPOTENCY_TTL_MS)%Z ->
  later w2 w3 /\
  r = if isNotInPast_at (w_now (pass 0 w2)) (d_startDate dto) then inr v
      else inl (UnprocessableEntityException "INVALID_DATE_RANGE").
Proof.
  intros Hwf Hfresh Hc Hwf2 Hsub Hc2 Hn. apply createRequest_cases in Hc; [|done].
  destruct Hc as (? & [= <-] & Hne & [Hd _] & [(req & Hcr & -> & _)|[_ Hst]]); [|by apply Hfresh in Hst].
  destruct (isNotInPast_at _ _) eqn:Hp;
    [|rewrite createRequest_past in Hc2 by done; injection Hc2 as <- <-; split; [apply (pass_later 0)|done]].
  destruct Hcr as [_ _ _ _ _ (n & now & Hsn & _ & Hi & Hnow) _ _].
  assert (Hin : Idem w2 !! i_id n = Some n)
    by (eapply lookup_weaken; [|done]; rewrite Hi; apply lookup_insert_eq).
  pose proof (esame_field i_idempotencyKey _ _ (fun _ => eq_refl) Hsn) as Hk.
  pose proof (esame_field i_requestHash _ _ (fun _ => eq_refl) Hsn) as Hh.
  pose proof (esame_field i_responseBody _ _ (fun _ => eq_refl) Hsn) as Hb.
  pose proof (esame_field i_expiresAt _ _ (fun _ => eq_refl) Hsn) as He.
  cbn in Hk, Hh, Hb, He.
  destruct (createRequest_found dto key w2 w3 r (i_id n) n) as [Hl ->]; try done.
  { rewrite <- He. lia. }
  split; [done|]. rewrite <- Hh, decide_True by done. by rewrite <- Hb.
Qed.

(** A key used for another payload is refused: while the record of the key
    is not expired, [createRequest] with a payload of another hash throws the
    409 of an idempotency conflict and changes nothing but the clock. *)
Theorem createRequest_key_conflict dto key w w' r i n :
  db_wf (w_db w) -> Idem w !! i = Some n -> i_idempotencyKey n = key -> key <> "" ->
  i_requestHash n <> hashObject (dto_json dto) ->
  isNotInPast_at (w_now (pass 0 w)) (d_startDate dto) = true ->
  tv_lt (Date_midnight (d_endDate dto)) (Date_midnight (d_startDate dto)) = false ->
  createRequest dto (Some key) w = (w', r) -> (w_now w' <= i_expiresAt n)%Z ->
  later w w' /\ r = inl (ConflictException ErrorCodes.IDEMPOTENCY_CONFLICT).
Proof.
  intros Hwf Hn Hk Hne Hh Hp Hd Hc He.
  destruct (createRequest_found dto key w w' r i n) as [Hl ->]; try done.
  by rewrite decide_False.
Qed.

(** ** Decisions *)

Definition decision_tx (d : Decision) (id : string) : M (World Tbl) exn RequestView :=
  match d with
  | Approve a => approve_tx id a
  | Reject a reason => reject_tx id a reason
  | Cancel reason => cancel_tx id reason
  end.

(** The operation of the service that makes the decision. *)
Definition decide_request (d : Decision) (id : string) : M (World Tbl) exn RequestView :=
  match d with
  | Approve a => approveRequest id a
  | Reject a reason => rejectRequest id a reason
  | Cancel reason => cancelRequest id reason
  end.

Lemma decide_request_tx d id : decide_request d id = transaction (decision_tx d id).
Proof. by destruct d. Qed.

(** What the three transactions have in common. *)
Definition decision_body (d : Decision) (id : string) (tick : M (World Tbl) exn Z) :
    M (World Tbl) exn RequestView :=
  q ← getRequestLockedOrThrow id;
  _ ← assertValidTransition (r_status q) (target d);
  now ← tick;
  q ← save_request (decide_row d now q);
  _ ← run_op (move_of d) (r_key q) (parseFloat (r_daysRequested q));
  _ ← modify (fun w => set_immediates (w_immediates w ++ decision_tasks d q id) w);
  mret (serializeRequest q).

Lemma set_immediates_nil w : set_immediates (w_immediates w ++ []) w = w.
Proof. rewrite app_nil_r. by destruct w. Qed.

Lemma decision_tx_body d id w :
  decision_tx d id w =
  decision_body d id (match d with Cancel _ => mret 0%Z | _ => date_now end) w.
Proof.
  destruct d; unfold decision_tx, decision_body, approve_tx, reject_tx, cancel_tx, mbind, M_bind;
    cbn [target]; destruct (getRequestLockedOrThrow _ w) as [w1 [|q]]; try done;
    destruct (assertValidTransition _ _ w1) as [w2 [|[]]]; try done; cbn;
    destruct (t_save _ _ _ _) as [w3 [|q']]; try done; unfold run_op; cbn [r_key fst snd move_of];
    destruct (releaseFromPending (r_employeeId q') (r_locationId q') (r_leaveType q')
                (parseFloat (r_daysRequested q')) w3) as [w4 [|[]]]; try done;
    by rewrite set_immediates_nil.
Qed.

(** What a decision that returned did. *)
Record decided (d : Decision) (id : string) w w' (q q' : TimeOffRequest) : Prop := {
  decided_found : Req w !! id = Some q;
  decided_pending : r_status q = RequestStatus.PENDING;
  decided_row : exists now, esame (decide_row d now q) q' /\
    match d with Cancel _ => True | _ => (w_now w <= now <= w_now w')%Z end;
  decided_id : r_id q' = id;
  decided_requests : Req w' = <[id := q']> (Req w);
  decided_balance : exists i b b', Bal w !! i = Some b /\ b_key b = r_key q /\
    refuses (move_of d) (parseFloat (r_daysRequested q)) b = None /\
    esame (assigns (move_of d) (parseFloat (r_daysRequested q)) b) b' /\ b_id b' = i /\
    Bal w' = <[i := b']> (Bal w);
  decided_rest : Idem w' = Idem w /\ Logs w' = Logs w;
  decided_frame : db_step (queue (decision_tasks d q' id) w) w';
  decided_wf : db_wf (w_db w');
}.

(** Only a [PENDING] request may be decided. *)
Lemma assertValidTransition_cases (s : RequestStatus.t) d w w' r :
  assertValidTransition s (target d) w = (w', r) ->
  w' = w /\ match r with
            | inr _ => s = RequestStatus.PENDING
            | inl e => s <> RequestStatus.PENDING /\
                       e = ConflictException ErrorCodes.INVALID_STATUS_TRANSITION
            end.
Proof.
  unfold assertValidTransition. destruct s; cbn [VALID_TRANSITIONS default];
    [rewrite bool_decide_eq_true_2 by (destruct d; set_solver); by intros [= <- <-]|..];
    (rewrite bool_decide_eq_false_2 by (destruct d; set_solver)); by intros [= <- <-].
Qed.

Lemma getRequestLockedOrThrow_cases id w w' r :
  wf (requests (w_db w)) -> getRequestLockedOrThrow id w = (w', r) ->
  w' = w /\ match r with
            | inr q => Req w !! id = Some q /\ r_id q = id
            | inl e => Req w !! id = None /\ e = NotFoundException ErrorCodes.REQUEST_NOT_FOUND
            end.
Proof.
  intros Hwf. unfold getRequestLockedOrThrow, mbind, M_bind.
  destruct (t_findOne _ _ w) as [w1 [e|o]] eqn:Hf; [done|].
  apply t_findOne_ok in Hf as [-> Ho]; [|done]. destruct o as [q|]; intros [= <- <-].
  - destruct Ho as [Hi Hid%bool_decide_eq_true]. cbn in Hi. subst id. done.
  - split; [done|]. split; [|done]. destruct (Req w !! id) as [q|] eqn:Hq; [|done].
    pose proof (Ho _ _ Hq) as Hn. apply bool_decide_eq_false in Hn.
    by destruct (rows_id _ _ _ Hwf Hq).
Qed.

Lemma run_op_err op k days w w' e :
  wf (balances (w_db w)) -> run_op op k days w = (w', inl e) ->
  driver_error e \/
  ((forall i b, Bal w !! i = Some b -> b_key b <> k) /\
   e = NotFoundException ErrorCodes.BALANCE_NOT_FOUND) \/
  (exists i b, Bal w !! i = Some b /\ b_key b = k /\ refuses op days b = Some e).
Proof.
  intros Hwf. rewrite run_op_update. unfold locked_update, mbind, M_bind.
  destruct (t_findOne _ _ w) as [w1 [x|o]] eqn:Hf; [done|].
  apply t_findOne_ok in Hf as [-> Ho]; [|done]. destruct o as [b|].
  - destruct Ho as [Hi Hk%where_key_spec]. cbn in Hi.
    destruct (refuses op days b) as [x|] eqn:Hr.
    + intros [= <- <-]. right. right. exists (b_id b), b. split_and!; try done.
      rewrite Hk. by destruct k as [[]].
    + unfold t_save. destruct (r_save _ _) as [t [x|b']] eqn:Hs; intros [= <- <-].
      left. by destruct (save_Err _ _ _ _ Hwf Hs) as (_ & _ & ?).
  - intros [= <- <-]. right. left. split; [|done]. intros i b Hb Hk.
    specialize (Ho i b Hb). rewrite <- not_true_iff_false, where_key_spec in Ho. apply Ho.
    rewrite Hk. by destruct k as [[]].
Qed.

Lemma run_op_stays op k days : stays db_step (run_op (Tbl := Tbl) op k days).
Proof.
  intros w. rewrite run_op_update. revert w. fold (stays db_step
    (locked_update (Tbl := Tbl) k (refuses op days) (assigns op days) ≫= fun _ => mret tt)).
  unfold locked_update. stays_steps.
Qed.

(** Why a decision is refused. *)
Definition decision_refused (d : Decision) (id : string) w (e : exn) : Prop :=
  match Req w !! id with
  | None => e = NotFoundException ErrorCodes.REQUEST_NOT_FOUND
  | Some q =>
      if decide (r_status q = RequestStatus.PENDING) then
        ((forall i b, Bal w !! i = Some b -> b_key b <> r_key q) /\
         e = NotFoundException ErrorCodes.BALANCE_NOT_FOUND) \/
        (exists i b, Bal w !! i = Some b /\ b_key b = r_key q /\
           refuses (move_of d) (parseFloat (r_daysRequested q)) b = Some e)
      else e = ConflictException ErrorCodes.INVALID_STATUS_TRANSITION
  end.

Lemma decide_row_fields d now q q' :
  esame (decide_row d now q) q' ->
  r_key q' = r_key q /\ r_daysRequested q' = r_daysRequested q /\ r_status q' = target d /\
  r_idempotencyKey q' = r_idempotencyKey q /\ r_startDate q' = r_startDate q /\
  r_endDate q' = r_endDate q.
Proof.
  intros Hs. split_and!; symmetry;
    [eapply (esame_field r_key) in Hs|eapply (esame_field r_daysRequested) in Hs
    |eapply (esame_field r_status) in Hs|eapply (esame_field r_idempotencyKey) in Hs
    |eapply (esame_field r_startDate) in Hs|eapply (esame_field r_endDate) in Hs]; try done;
    rewrite <- Hs; by destruct d.
Qed.

(** How the body of a decision ends, given a clock that only ticks. *)
Lemma decision_body_cases d id tick w w' r :
  db_wf (w_db w) -> stays later tick -> (forall v, exists v' t, tick v = (v', inr t) /\
    match d with Cancel _ => True | _ => (w_now v <= t <= w_now v')%Z end) ->
  decision_body d id tick w = (w', r) ->
  match r with
  | inr v => exists q q', decided d id w w' q q' /\ v = serializeRequest q'
  | inl e => db_step w w' /\ (driver_error e \/ decision_refused d id w e)
  end.
Proof.
  intros (Hwb & Hwr & Hwi & Hwl) Htick Hnow. unfold decision_body, mbind, M_bind at 1.
  unfold decision_refused.
  destruct (getRequestLockedOrThrow id w) as [w1 [e|q]] eqn:Hg;
    apply getRequestLockedOrThrow_cases in Hg as [-> Hg]; try done.
  { intros [= <- <-]. destruct Hg as [-> ->]. split; [reflexivity|by right]. }
  destruct Hg as [Hq Hid]. rewrite Hq. unfold mbind, M_bind at 1.
  destruct (assertValidTransition _ _ w) as [w1 [e|[]]] eqn:Hv;
    apply assertValidTransition_cases in Hv as [-> Hv].
  { intros [= <- <-]. split; [reflexivity|]. right. destruct Hv. by rewrite decide_False. }
  destruct (decide (r_status q = RequestStatus.PENDING)) as [_|]; [|done]. unfold mbind, M_bind at 1.
  destruct (Hnow w) as (w1 & now & Ht & Htn). pose proof (stays_eq later _ _ _ _ Htick Ht) as Hl.
  rewrite Ht. clear Ht. unfold mbind, M_bind at 1. unfold t_save at 1.
  rewrite (later_db _ _ Hl).
  destruct (r_save _ _) as [tr [e|q']] eqn:Hs.
  { intros [= <- <-]. destruct (save_Err _ _ _ _ Hwr Hs) as (_ & _ & ?).
    split; [|by left]. etrans; [by apply later_db_step|apply set_db_step]. }
  destruct (save_Ok _ _ _ _ Hwr Hs) as (Hwr' & Hsq & Hrr & Hir). cbn in Hir, Hrr.
  assert (Hid' : r_id q' = id).
  { destruct (rows_id _ _ _ Hwr Hq) as [_ Hne].
    rewrite decide_False in Hir by (by destruct d; cbn; rewrite Hid).
    rewrite Hir. by destruct d. }
  destruct (decide_row_fields _ _ _ _ Hsq) as (Hk & Hdays & Hst & _). rewrite Hk, Hdays.
  unfold mbind, M_bind at 1. set (w2 := set_db (set_requests tr (w_db w)) w1).
  assert (Hw2 : db_step w w2) by (etrans; [by apply later_db_step|apply set_db_step]).
  destruct (run_op _ _ _ w2) as [w3 [e|[]]] eqn:Hop.
  - intros [= <- <-]. split.
    + etrans; [exact Hw2|]. by eapply (stays_eq db_step); [apply run_op_stays|].
    + apply run_op_err in Hop as [?|Hop]; [by left|by right|done].
  - intros [= <- <-]. exists q, q'. split; [|done].
    apply run_op_ok in Hop as (i & b & b' & Hi & Hb & Hre & (tb & -> & Hwb' & Hsb & Hrb & Hib) & Hbi);
      [|done]. cbn in Hrb. unfold Req, Bal, Idem, Logs in *. cbn in Hi.
    destruct Hl as (n & t & -> & Hn).
    split; unfold Req, Bal, Idem, Logs; cbn; try done.
    + exists now. split; [done|]. by destruct d.
    + by rewrite Hrr, Hid'.
    + exists i, b, b'. split_and!; try done. by rewrite Hrb, Hbi.
    + exists (set_balances tb (set_requests tr (w_db w))), n, t. done.
Qed.

Lemma decision_tx_cases d id w w' r :
  db_wf (w_db w) -> decision_tx d id w = (w', r) ->
  match r with
  | inr v => exists q q', decided d id w w' q q' /\ v = serializeRequest q'
  | inl e => db_step w w' /\ (driver_error e \/ decision_refused d id w e)
  end.
Proof.
  intros Hwf. rewrite decision_tx_body. apply decision_body_cases; [done|..].
  - destruct d; auto with effects. apply stays_ret, _.
  - intros v. destruct d; do 2 eexists; (split; [reflexivity|]); try done;
      pose proof (db_step_now _ _ (later_db_step _ _ (pass_later 0 v))); lia.
Qed.

Lemma decided_later d id w0 w w' q q' :
  later w w0 -> decided d id w0 w' q q' -> decided d id w w' q q'.
Proof.
  intros Hl [Hf Hp (now & Hs & Hn) Hi Hr Hb Hx (db & n & t & -> & Hn') Hwf].
  destruct Hl as (n0 & t0 & -> & Hn0). split; try done.
  - exists now. split; [done|]. destruct d; simpl in *; lia || done.
  - exists db, n, t. split; [done|]. simpl in *. lia.
Qed.

Lemma decide_request_cases d id w w' r :
  db_wf (w_db w) -> decide_request d id w = (w', r) ->
  match r with
  | inr v => exists q q', decided d id w w' q q' /\ v = serializeRequest q'
  | inl e => w_db w' = w_db w /\
      (driver_error e \/ decision_refused d id w e /\ w_immediates w' = w_immediates w)
  end.
Proof.
  intros Hwf. rewrite decide_request_tx. intros Ht.
  apply transaction_cases in Ht as (w0 & Hl & Ht).
  assert (Hwf0 : db_wf (w_db w0)) by by rewrite (later_db _ _ Hl).
  destruct r as [e|v].
  - destruct Ht as (Hd & [[He _]|(w1 & -> & [Hb|[He _]])]); split; auto.
    apply decision_tx_cases in Hb as [Hs [?|Hre]]; [by left| |done]. right.
    split; [|rewrite <- (db_step_immediates w w0), <- (db_step_immediates w0 w1) by auto with effects;
             done].
    revert Hre. unfold decision_refused, Req, Bal. by rewrite (later_db _ _ Hl).
  - apply decision_tx_cases in Ht as (q & q' & Hdec & ->); [|done].
    exists q, q'. split; [|done]. by eapply decided_later.
Qed.

(** C7. [approveRequest], [rejectRequest] and [cancelRequest] either fulfil their
    contract and answer with the row they stored, or throw and leave the
    database as it was.  The contract: the request was [PENDING] and gets the
    decision's status, actor, time and reason; its days move from pending to
    used (approval) or back to available on exactly one balance, which had them
    pending; an approval queues one HCM callback; nothing else changes.  The
    exception says why: 404 without the request or its balance, 409 when the
    request is not [PENDING] or the balance has too few days pending, or a
    driver error. *)
Theorem decision_contract d id w w' r :
  db_wf (w_db w) -> decide_request d id w = (w', r) ->
  match r with
  | inr v => exists q q', decided d id w w' q q' /\ v = serializeRequest q'
  | inl e => w_db w' = w_db w /\ (driver_error e \/ decision_refused d id w e)
  end.
Proof.
  intros Hwf Hd. apply decide_request_cases in Hd; [|done]. destruct r as [e|v]; [|done].
  destruct Hd as [Hd [?|[? _]]]; auto.
Qed.

(** A decision is final: on a request that is no longer [PENDING], every
    decision throws (the 409 of an invalid transition, or a driver error) and
    leaves the database as it was. *)
Theorem decision_final d id w w' r q :
  db_wf (w_db w) -> Req w !! id = Some q -> r_status q <> RequestStatus.PENDING ->
  decide_request d id w = (w', r) ->
  w_db w' = w_db w /\
  exists e, r = inl e /\
    (driver_error e \/ e = ConflictException ErrorCodes.INVALID_STATUS_TRANSITION).
Proof.
  intros Hwf Hq Hst Hd. apply decide_request_cases in Hd; [|done]. destruct r as [e|v].
  - destruct Hd as [Hd He]. split; [done|]. exists e. split; [done|].
    destruct He as [?|[He _]]; [by left|right]. unfold decision_refused in He.
    by rewrite Hq, decide_False in He.
  - destruct Hd as (q0 & q' & [Hf Hp _ _ _ _ _ _ _] & _). congruence.
Qed.
End lifecycle.
