(* ===== verification/Books.v ===== *)
(** * Books: the accounts of balances against requests

    The invariant of the database that ties the two tables together: every
    balance row is a ledger on the grid, its pending days are those of the
    [PENDING] requests charged to it and its used days those of the [APPROVED]
    ones.  This file shows that the row changes of [Lifecycle] keep the books;
    [Reachable] carries that over the operations. *)

From S2P Require Import Prelude Num Domain Store Entities World Dates Balance Hash TimeOff.
From S2P Require Import Samples Ledger Effects Lifecycle.

Local Open Scope Z_scope.

Section books.
Context (g : Z) (Hg : 0 <= g <= 6).
Implicit Types (k : bkey) (bs : gmap string EmployeeBalance) (rs : gmap string TimeOffRequest).

(** The days that request [q] counts under status [s] and key [k]. *)
Definition days_at (s : RequestStatus.t) k (q : TimeOffRequest) : Z :=
  if decide (r_status q = s /\ r_key q = k) then ticks g (r_daysRequested q) else 0.
Definition requested (s : RequestStatus.t) k rs : Z := sum_by (days_at s k) rs.

(** A request that counts. *)
Definition active (q : TimeOffRequest) : Prop :=
  r_status q = RequestStatus.PENDING \/ r_status q = RequestStatus.APPROVED.

Record books bs rs : Prop := {
  books_ledger : forall i b, bs !! i = Some b -> exists l, repr g b l /\ ledger_ok l /\
    pending l = requested RequestStatus.PENDING (b_key b) rs /\
    used l = requested RequestStatus.APPROVED (b_key b) rs;
  books_covered : forall j q, rs !! j = Some q -> active q ->
    exists i b, bs !! i = Some b /\ b_key b = r_key q;
  books_days : forall j q, rs !! j = Some q ->
    exists n, 0 <= n < 2 ^ 53 /\ r_daysRequested q = units g n;
}.

Lemma books_empty : books ∅ ∅.
Proof. split; intros ?? H; by apply lookup_empty_Some in H. Qed.

(** What a move changes in the two sums. *)
Definition pending_delta (op : LedgerOp) (n : Z) : Z := match op with Reserve => n | _ => - n end.
Definition used_delta (op : LedgerOp) (n : Z) : Z := match op with Finalize => n | _ => 0 end.

Lemma ledger_step_deltas op n l l' :
  ledger_step op n l = Some l' ->
  pending l' = pending l + pending_delta op n /\ used l' = used l + used_delta op n.
Proof. destruct op; simpl; case_match; intros [= <-]; simpl; lia. Qed.

(** A move on the row of key [k], with requests whose sums changed as the move
    says, keeps the books. *)
Lemma books_move bs rs rs' op k n i b b' :
  books bs rs -> 0 <= n < 2 ^ 53 -> bs !! i = Some b -> b_key b = k ->
  refuses op (units g n) b = None -> esame (assigns op (units g n) b) b' ->
  (forall k', requested RequestStatus.PENDING k' rs' =
     requested RequestStatus.PENDING k' rs + (if decide (k' = k) then pending_delta op n else 0)) ->
  (forall k', requested RequestStatus.APPROVED k' rs' =
     requested RequestStatus.APPROVED k' rs + (if decide (k' = k) then used_delta op n else 0)) ->
  (forall j q, rs' !! j = Some q -> active q -> r_key q = k \/
     exists j' q', rs !! j' = Some q' /\ active q' /\ r_key q' = r_key q) ->
  (forall j q, rs' !! j = Some q -> exists m, 0 <= m < 2 ^ 53 /\ r_daysRequested q = units g m) ->
  (forall j c, bs !! j = Some c -> b_key c = k -> j = i) ->
  books (<[i := b']> bs) rs'.
Proof.
  intros [Hl Hc Hd] Hn Hi Hk Hre Hsame Hp Hu Hcov Hdays Huniq.
  destruct (Hl i b Hi) as (l & Hr & Hok & Hpl & Hul).
  pose proof (refuses_step g ltac:(lia) op n b l Hok Hn Hr) as Hst.
  destruct (ledger_step op n l) as [l'|] eqn:Hstep; [|congruence]. destruct Hst as [_ Hr'].
  pose proof (ledger_step_deltas _ _ _ _ Hstep) as [Hdp Hdu].
  assert (Hbk : b_key b' = k) by (rewrite <- (esame_b_key _ _ Hsame), <- Hk; by destruct op).
  split.
  - intros j c Hj. apply lookup_insert_Some in Hj as [[<- <-]|[Hne Hj]].
    + exists l'. rewrite Hbk, Hp, Hu, !decide_True, <- Hk, Hdp, Hdu, Hpl, Hul by done.
      split_and!; try done; [by rewrite <- Hsame|].
      by apply (ledger_step_ok op n l); [lia|done..].
    + destruct (Hl j c Hj) as (m & ? & ? & Hpm & Hum). exists m.
      assert (b_key c <> k) by (intros Hck; apply Hne; symmetry; eauto).
      rewrite Hp, Hu, !decide_False, !Z.add_0_r by done. done.
  - intros j q Hj Ha. assert (exists x c, bs !! x = Some c /\ b_key c = r_key q) as (x & c & Hx & Hxk).
    { destruct (Hcov j q Hj Ha) as [Hqk|(j' & q' & Hj' & Ha' & <-)]; [|eauto]. exists i, b.
      split; [done|congruence]. }
    destruct (decide (x = i)) as [->|Hne].
    + exists i, b'. rewrite lookup_insert_eq. split; [done|]. congruence.
    + exists x, c. by rewrite lookup_insert_ne.
  - done.
Qed.

(** A new row for a key that has none. *)
Lemma books_open bs rs i b n :
  books bs rs -> bs !! i = None -> (forall j c, bs !! j = Some c -> b_key c <> b_key b) ->
  0 <= n < 2 ^ 52 -> repr g b {| available := n; pending := 0; used := 0 |} ->
  books (<[i := b]> bs) rs.
Proof.
  intros [Hl Hc Hd] Hi Hfresh Hn Hr. split; [| |done].
  - intros j c Hj. apply lookup_insert_Some in Hj as [[<- <-]|[_ Hj]]; [|eauto].
    assert (Hz : forall s, (s = RequestStatus.PENDING \/ s = RequestStatus.APPROVED) ->
      requested s (b_key b) rs = 0).
    { intros s Hs. apply sum_by_zero. intros x q Hx. unfold days_at.
      destruct (decide _) as [[Hq Hqk]|]; [|done].
      destruct (Hc x q Hx) as (y & c & Hy & Hyk); [destruct Hs; [left|right]; congruence|].
      destruct (Hfresh y c Hy). congruence. }
    eexists. split; [exact Hr|]. rewrite !Hz by auto. split; [|done].
    unfold ledger_ok, entitlement; simpl; lia.
  - intros j q Hj Ha. destruct (Hc j q Hj Ha) as (x & c & Hx & Hxk). exists x, c.
    rewrite lookup_insert_ne; [done|congruence].
Qed.

(** A row whose pending and used days did not change. *)
Lemma books_adjust bs rs i b b' :
  books bs rs -> bs !! i = Some b -> b_key b' = b_key b ->
  (forall l, repr g b l -> ledger_ok l -> exists a, 0 <= a /\ a + pending l + used l < 2 ^ 52 /\
     repr g b' {| available := a; pending := pending l; used := used l |}) ->
  books (<[i := b']> bs) rs.
Proof.
  intros [Hl Hc Hd] Hi Hk Hadj. split; [| |done].
  - intros j c Hj. apply lookup_insert_Some in Hj as [[<- <-]|[_ Hj]]; [|eauto].
    destruct (Hl i b Hi) as (l & Hr & Hok & Hp & Hu). destruct (Hadj l Hr Hok) as (a & Ha & Hs & Hr').
    destruct Hok as (_ & ? & ? & _). eexists. rewrite Hk. split; [exact Hr'|].
    split; [|done]. unfold ledger_ok, entitlement; simpl. lia.
  - intros j q Hj Ha. destruct (Hc j q Hj Ha) as (x & c & Hx & Hxk).
    destruct (decide (x = i)) as [->|Hne].
    + exists i, b'. rewrite lookup_insert_eq. split; [done|]. congruence.
    + exists x, c. by rewrite lookup_insert_ne.
Qed.

(** ** The contracts of [Lifecycle] keep the books *)

Lemma requested_insert s k rs j q :
  rs !! j = None -> requested s k (<[j := q]> rs) = requested s k rs + days_at s k q.
Proof. intros. unfold requested. rewrite sum_by_insert by done. lia. Qed.
Lemma requested_update s k rs j q q' :
  rs !! j = Some q ->
  requested s k (<[j := q']> rs) = requested s k rs - days_at s k q + days_at s k q'.
Proof. intros. unfold requested. by erewrite sum_by_update by done. Qed.

Lemma days_at_same s k q q' :
  r_status q' = r_status q -> r_key q' = r_key q -> r_daysRequested q' = r_daysRequested q ->
  days_at s k q' = days_at s k q.
Proof. unfold days_at. by intros -> -> ->. Qed.

(** The days of request [q], seen under status [s] and key [k]. *)
Lemma days_at_units s k q n :
  0 <= n < 2 ^ 53 -> r_daysRequested q = units g n ->
  days_at s k q = if decide (r_status q = s) then if decide (k = r_key q) then n else 0 else 0.
Proof.
  intros Hn Hq. unfold days_at. rewrite Hq, ticks_units by (unfold small; lia).
  repeat case_decide; try done; exfalso; intuition congruence.
Qed.

(** A change of a request that its status, key and days do not show. *)
Lemma books_touch bs rs j q q' :
  books bs rs -> rs !! j = Some q -> r_status q' = r_status q -> r_key q' = r_key q ->
  r_daysRequested q' = r_daysRequested q -> books bs (<[j := q']> rs).
Proof.
  intros [Hl Hc Hd] Hj Hs Hk Hn.
  assert (Hsum : forall s k, requested s k (<[j := q']> rs) = requested s k rs).
  { intros. rewrite (requested_update _ _ _ _ _ _ Hj), (days_at_same _ _ q q') by done. lia. }
  split.
  - intros i b Hi. destruct (Hl i b Hi) as (l & ? & ? & ? & ?). exists l. by rewrite !Hsum.
  - intros x c Hx Ha. apply lookup_insert_Some in Hx as [[<- <-]|[_ Hx]]; [|eauto].
    rewrite Hk. apply (Hc j q Hj). revert Ha. unfold active. by rewrite Hs.
  - intros x c Hx. apply lookup_insert_Some in Hx as [[<- <-]|[_ Hx]]; [|eauto].
    rewrite Hn. eauto.
Qed.

Section contracts.
Context {Tbl : Type -> Type} `{RepoLaws Tbl}.
Implicit Types (w : World Tbl).

(** At most one row has a key. *)
Lemma Bal_unique w i j b c :
  db_wf (w_db w) -> Bal w !! i = Some b -> Bal w !! j = Some c -> b_key b = b_key c -> i = j.
Proof.
  intros (Hwf & _) Hi Hj Hk. eapply (rows_unique _ i j b c); [done..|]. by apply bool_decide_eq_true.
Qed.

Lemma books_created `{Config} dto key hash n w w' req :
  db_wf (w_db w) -> books (Bal w) (Req w) -> 0 <= n < 2 ^ 53 ->
  created dto key hash (units g n) w w' req -> books (Bal w') (Req w').
Proof.
  intros Hwf Hb Hn [Hreq [Hnew _] Hrs _ (i & b & b' & Hi & Hk & Hre & Hs & _ & Hbs) _ _ _].
  pose proof (esame_field r_key _ _ (fun _ => eq_refl) Hreq) as Hqk.
  pose proof (esame_field r_status _ _ (fun _ => eq_refl) Hreq) as Hqs.
  pose proof (esame_field r_daysRequested _ _ (fun _ => eq_refl) Hreq) as Hqd.
  change (r_key (new_request dto key (units g n))) with (d_key dto) in Hqk.
  change (r_status (new_request dto key (units g n))) with RequestStatus.PENDING in Hqs.
  change (r_daysRequested (new_request dto key (units g n))) with (units g n) in Hqd.
  rewrite Hbs, Hrs. eapply (books_move _ _ _ Reserve); try done.
  - intros k'. rewrite requested_insert, (days_at_units _ _ _ n) by done. by rewrite <- Hqs, <- Hqk.
  - intros k'. rewrite requested_insert, (days_at_units _ _ _ n) by done. rewrite <- Hqs. simpl.
    by case_decide.
  - intros j q Hj Ha. apply lookup_insert_Some in Hj as [[_ <-]|[_ Hj]]; [by left|right; eauto].
  - intros j q Hj. apply lookup_insert_Some in Hj as [[_ <-]|[_ Hj]]; [by exists n|].
    by eapply books_days.
  - intros j c Hj Hc. eapply Bal_unique; [done..|congruence].
Qed.

Lemma books_decided d id w w' q q' :
  db_wf (w_db w) -> books (Bal w) (Req w) -> decided d id w w' q q' -> books (Bal w') (Req w').
Proof.
  intros Hwf Hb [Hf Hp (now & Hrow & _) Hid Hrs (i & b & b' & Hi & Hk & Hre & Hs & _ & Hbs) _ _ _].
  destruct (decide_row_fields _ _ _ _ Hrow) as (Hqk & Hqd & Hqs & _).
  destruct (books_days _ _ Hb _ _ Hf) as (n & Hn & Hdays).
  rewrite Hdays, parseFloat_units in Hre, Hs by (unfold small; lia).
  rewrite Hdays in Hqd.
  rewrite Hbs, Hrs. eapply (books_move _ _ _ (move_of d)); try done.
  - intros k'. rewrite (requested_update _ _ _ _ _ _ Hf), !(days_at_units _ _ _ n) by done.
    rewrite Hqk, Hqs, Hp, decide_True by done. rewrite (decide_False _ _ (P := target d = _)) by by destruct d.
    destruct d; simpl; case_decide; lia.
  - intros k'. rewrite (requested_update _ _ _ _ _ _ Hf), !(days_at_units _ _ _ n) by done.
    rewrite Hqk, Hqs, Hp. destruct d; simpl; repeat case_decide; lia || done.
  - intros j c Hj Ha. apply lookup_insert_Some in Hj as [[_ <-]|[_ Hj]]; [by left|right; eauto].
  - intros j c Hj. apply lookup_insert_Some in Hj as [[_ <-]|[_ Hj]]; [by exists n|].
    by eapply books_days.
  - intros j c Hj Hc. eapply Bal_unique; [done..|congruence].
Qed.
End contracts.
End books.
