(* ===== verification/Reconcile.v ===== *)
(** * Reconcile: what HCM's totals do to a balance

    [_reconcileRecord] and [applyHcmRealTimeUpdate] against their contract on a
    ledger: HCM may raise the entitlement, and then the difference becomes
    available; it never lowers it, a lower total only sets the discrepancy. *)

From S2P Require Import Prelude Num Domain Store Entities World Dates Balance HcmApi HcmSync.
From S2P Require Import Samples Ledger Effects.

Local Open Scope Z_scope.

(** The ledger after HCM has reported a total of [n]. *)
Definition raise_to (n : Z) (l : Ledger) : Ledger :=
  {| available := available l + Z.max 0 (n - entitlement l); pending := pending l; used := used l |}.

Lemma raise_to_entitlement n l : entitlement (raise_to n l) = Z.max n (entitlement l).
Proof. unfold raise_to, entitlement. simpl. lia. Qed.
Lemma raise_to_ok n l : ledger_ok l -> n < 2 ^ 52 -> ledger_ok (raise_to n l).
Proof.
  intros (? & ? & ? & ?) Hn. unfold ledger_ok. rewrite raise_to_entitlement. simpl. lia.
Qed.
Lemma raise_to_same n l : n <= entitlement l -> raise_to n l = l.
Proof. intros. unfold raise_to. rewrite Z.max_l by lia. destruct l. f_equal. simpl. lia. Qed.

Section reconcile.
Context (g : Z) (Hg : 0 <= g <= 6).

(** The HCM columns of a row after a report of [n] against the ledger [l]. *)
Definition flagged (n : Z) (l : Ledger) (b : EmployeeBalance) : Prop :=
  b_hcmTotalBalance b = units g n /\
  b_hasDiscrepancy b = (n <? entitlement l) /\
  b_discrepancyAmount b = if n <? entitlement l then Some (units g (entitlement l - n)) else None.

Lemma flagged_same n l b b' : esame b b' -> flagged n l b -> flagged n l b'.
Proof.
  intros Hs. unfold flagged. rewrite (esame_field b_hcmTotalBalance b b') by done.
  rewrite (esame_field b_hasDiscrepancy b b') by done.
  by rewrite (esame_field b_discrepancyAmount b b').
Qed.

Section rows.
Context (b : EmployeeBalance) (l : Ledger) (n : Z) (tol : num).
Context (Hr : repr g b l) (Hl : ledger_ok l) (Hn : 0 <= n < 2 ^ 52).

(** The sums of the two methods are exact. *)
Lemma local_total :
  (parseFloat (b_usedBalance b) +. parseFloat (b_pendingBalance b)
   +. parseFloat (b_availableBalance b))%num = units g (entitlement l).
Proof.
  destruct Hr as (-> & -> & -> & _), Hl as (? & ? & ? & ?). unfold entitlement in *.
  rewrite !parseFloat_units by (unfold small; lia).
  rewrite !units_add by (unfold small; lia). f_equal. lia.
Qed.

Lemma drift_units : (units g n -. units g (entitlement l))%num = units g (n - entitlement l).
Proof.
  destruct Hl as (? & ? & ? & ?). apply units_sub; unfold small, entitlement in *; lia.
Qed.

Lemma small_drift : small (n - entitlement l) /\ small (Z.abs (n - entitlement l)).
Proof. destruct Hl as (? & ? & ? & ?). unfold small, entitlement in *. lia. Qed.

Lemma raised_available :
  0 <= n - entitlement l ->
  (parseFloat (b_availableBalance b) +. units g (n - entitlement l))%num
  = units g (available (raise_to n l)).
Proof.
  intros Hd. destruct Hr as (-> & _), Hl as (? & ? & ? & ?). unfold entitlement in *.
  rewrite parseFloat_units by (unfold small; lia).
  rewrite units_add by (unfold small, entitlement; lia). simpl. f_equal. unfold entitlement. lia.
Qed.

(** The assignments of the branch that raises the balance. *)
Lemma repr_raised sync v d da :
  entitlement l < n ->
  repr g (b_with_hcm (units g n) sync v d da
    (b_set_totalBalance (units g n)
      (b_set_availableBalance (parseFloat (b_availableBalance b) +. units g (n - entitlement l))%num b)))
    (raise_to n l).
Proof.
  intros Hlt. rewrite raised_available by lia. destruct Hr as (_ & Hp & Hu & _).
  unfold repr. rewrite raise_to_entitlement. cbn. split_and!; try done. f_equal. lia.
Qed.
End rows.

Context {Tbl : Type -> Type} `{RepoLaws Tbl} `{Env}.
Implicit Types (w : World Tbl).

(** The branch [_reconcileRecord] takes, as one patch of the row. *)
Definition reconcile_patch (n : Z) (l : Ledger) (now : Z) (v : option string)
    (newAvailable : num) (b : EmployeeBalance) : EmployeeBalance :=
  if n <? entitlement l then
    b_with_hcm (units g n) (Some now) v true (Some (units g (entitlement l - n))) b
  else if entitlement l <? n then
    b_with_hcm (units g n) (Some now) v false None
      (b_set_totalBalance (units g n) (b_set_availableBalance newAvailable b))
  else b_with_hcm (units g n) (Some now) v false None b.

(** The write of [_reconcileRecord], from the row [b] it has read. *)
Lemma reconcileWith_found h n w b l :
  h_totalBalance h = units g n -> 0 <= n < 2 ^ 52 -> repr g b l -> ledger_ok l ->
  reconcileWith h (Some b) w =
    (_ ← update_balance (b_id b) (reconcile_patch n l (w_now (pass 0 w)) (or_null (h_version h))
       (parseFloat (b_availableBalance b) +. units g (n - entitlement l))%num);
     mret (negb (n =? entitlement l))) (pass 0 w).
Proof.
  intros Hh Hn Hr Hl. unfold reconcileWith. rewrite Hh, parseFloat_units by (unfold small; lia).
  rewrite (local_total b l Hr Hl), (drift_units l n Hl Hn).
  destruct (small_drift l n Hl Hn) as [Hs Hs'].
  unfold DRIFT_TOLERANCE. rewrite literal_001, units_abs, units_leb_tiny, tiny_ltb_units by (lia || done).
  unfold reconcile_patch, date_now, mbind, M_bind.
  destruct (Z.ltb_spec n (entitlement l)).
  - assert ((Z.abs (n - entitlement l) <=? 0) = false) as -> by (apply Z.leb_gt; lia).
    assert ((0 <? n - entitlement l) = false) as -> by (apply Z.ltb_ge; lia).
    replace (Z.abs (n - entitlement l)) with (entitlement l - n) by lia.
    assert ((n =? entitlement l) = false) as -> by (apply Z.eqb_neq; lia). done.
  - destruct (Z.ltb_spec (entitlement l) n).
    + assert ((Z.abs (n - entitlement l) <=? 0) = false) as -> by (apply Z.leb_gt; lia).
      assert ((0 <? n - entitlement l) = true) as -> by (apply Z.ltb_lt; lia).
      assert ((n =? entitlement l) = false) as -> by (apply Z.eqb_neq; lia). done.
    + assert ((Z.abs (n - entitlement l) <=? 0) = true) as -> by (apply Z.leb_le; lia).
      assert ((n =? entitlement l) = true) as -> by (apply Z.eqb_eq; lia). done.
Qed.

Lemma reconcile_found h n w i b l :
  db_wf (w_db w) -> h_totalBalance h = units g n -> 0 <= n < 2 ^ 52 ->
  Bal w !! i = Some b -> b_key b = h_key h -> repr g b l -> ledger_ok l ->
  exists now w1, later w w1 /\
  reconcileRecord h w =
    (_ ← update_balance i (reconcile_patch n l now (or_null (h_version h))
       (parseFloat (b_availableBalance b) +. units g (n - entitlement l))%num);
     mret (negb (n =? entitlement l))) w1.
Proof.
  intros (Hwf & _) Hh Hn Hi Hk Hr Hl.
  destruct (rows_id _ _ _ Hwf Hi) as [Hid _]. cbn in Hid. exists (w_now (pass 0 w)), (pass 0 w).
  split; [apply pass_later|].
  unfold reconcileRecord. unfold mbind at 1, M_bind at 1, t_findOne, gets.
  rewrite (findOne_key _ _ _ _ _ _ Hwf Hi Hk), (reconcileWith_found h n w b l) by done.
  by rewrite Hid.
Qed.

Lemma reconcile_patch_spec n l now v b :
  repr g b l -> ledger_ok l -> 0 <= n < 2 ^ 52 ->
  let b' := reconcile_patch n l now v
    (parseFloat (b_availableBalance b) +. units g (n - entitlement l))%num b in
  repr g b' (raise_to n l) /\ flagged n l b' /\ b_key b' = b_key b /\ b_hcmLastSync b' = Some now.
Proof.
  intros Hr Hl Hn. unfold reconcile_patch, flagged.
  destruct (Z.ltb_spec n (entitlement l)); [|destruct (Z.ltb_spec (entitlement l) n)].
  - rewrite raise_to_same by lia. done.
  - split; [by apply repr_raised|]. done.
  - rewrite raise_to_same by lia. done.
Qed.

(** What a reconciliation did to the rows: it changed the row of the key, or
    opened an account, or failed and changed none. *)
Definition reconciled h n w w' (r : exn + bool) : Prop :=
  db_wf (w_db w') /\ Req w' = Req w /\ Idem w' = Idem w /\ db_step w w' /\
  match r with
  | inl e => driver_error e /\ Bal w' = Bal w
  | inr updated =>
      (exists i b l b', Bal w !! i = Some b /\ b_key b = h_key h /\ repr g b l /\ ledger_ok l /\
         Bal w' = <[i := b']> (Bal w) /\ b_key b' = h_key h /\ repr g b' (raise_to n l) /\
         flagged n l b' /\ updated = negb (n =? entitlement l)) \/
      ((forall i b, Bal w !! i = Some b -> b_key b <> h_key h) /\ updated = true /\
       exists i b', Bal w !! i = None /\ Bal w' = <[i := b']> (Bal w) /\ b_key b' = h_key h /\
         repr g b' {| available := n; pending := 0; used := 0 |} /\ b_hasDiscrepancy b' = false)
  end.

(** Every row is a ledger. *)
Definition ledgers w : Prop :=
  forall i b, Bal w !! i = Some b -> exists l, repr g b l /\ ledger_ok l.

Lemma reconcile_cases h n w w' r :
  db_wf (w_db w) -> ledgers w -> h_totalBalance h = units g n -> 0 <= n < 2 ^ 52 ->
  reconcileRecord h w = (w', r) -> reconciled h n w w' r.
Proof.
  intros Hwf Hls Hh Hn Hr. pose proof Hwf as (Hwb & Hwr & Hwi & Hwl).
  destruct (r_findOne (where_key (h_employeeId h) (h_locationId h) (h_leaveType h))
              (balances (w_db w))) as [b|] eqn:Hf.
  - destruct (findOne_Some _ _ _ Hwb Hf) as [Hi Hk%where_key_spec]. cbn in Hi.
    fold (h_key h) in Hk. destruct (Hls _ _ Hi) as (l & Hrep & Hl).
    destruct (reconcile_found h n w (b_id b) b l Hwf Hh Hn Hi Hk Hrep Hl) as (now & w1 & Hlat & Heq).
    rewrite Heq in Hr. unfold mbind, M_bind in Hr.
    destruct (t_update _ _ _ _ w1) as [w2 o] eqn:Hu.
    apply t_update_cases in Hu as (t & -> & Hwt & Ho);
      [|by rewrite (later_db _ _ Hlat)
       |intros c; unfold reconcile_patch; by repeat case_match].
    rewrite (later_db _ _ Hlat) in *.
    assert (Hst : db_step w (set_db (set_balances t (w_db w)) w1))
      by (etrans; [by apply later_db_step|apply set_db_step]).
    destruct o as [e|[]]; injection Hr as <- <-.
    + destruct Ho. done.
    + rewrite Hi in Ho.
      destruct Ho as (b' & Hs & Hid & Hrows).
      destruct (reconcile_patch_spec n l now (or_null (h_version h)) b Hrep Hl Hn) as (Hp1 & Hp2 & Hp3 & _).
      split; [done|]. split; [done|]. split; [done|]. split; [done|]. left.
      exists (b_id b), b, l, b'. split_and!; try done.
      * rewrite <- Hk, <- Hp3. symmetry. by apply esame_b_key.
      * by rewrite <- Hs.
      * by eapply flagged_same.
  - revert Hr. unfold reconcileRecord, reconcileWith. unfold mbind at 1, M_bind at 1, t_findOne, gets. rewrite Hf.
    unfold mbind at 1, M_bind at 1, date_now. unfold mbind, M_bind.
    rewrite Hh, parseFloat_units by (unfold small; lia).
    set (nb := new_balance _ _ _ _ _ _). destruct (t_save _ _ nb _) as [w2 o] eqn:Hs.
    apply t_save_cases in Hs; [|done].
    assert (Hst : forall t, db_step w (set_db (set_balances t (w_db w)) (pass 0 w)))
      by (intros; etrans; [apply later_db_step, pass_later|apply set_db_step]).
    destruct o as [e|b']; intros [= <- <-].
    + destruct Hs as (He & t & -> & Hwt & Hrows). split; [done|]. split; [done|]. split; [done|]. split; [apply Hst|done].
    + destruct Hs as (t & -> & Hwt & Hsame & Hrows & Hnew). cbn in Hnew.
      split; [done|]. split; [done|]. split; [done|]. split; [apply Hst|]. right.
      split; [|split; [done|]].
      * intros i c Hi Hk. pose proof (findOne_None _ _ _ _ Hwb Hf Hi) as Hn'.
        apply not_true_iff_false in Hn'. apply Hn', where_key_spec. done.
      * exists (b_id b'), b'. split_and!; [done|done| | |].
        -- rewrite <- (esame_b_key _ _ Hsame). done.
        -- rewrite <- Hsame. unfold repr, nb, entitlement. cbn. by rewrite !Z.add_0_r.
        -- by rewrite <- (esame_field b_hasDiscrepancy _ _ ltac:(done) Hsame).
Qed.

(** C11. Reconciliation refines [raise_to]: a report of [n] for a key that shows [l]
    leaves it showing [raise_to n l], whose entitlement is the larger of the two
    totals and whose available days are never fewer; the discrepancy flag and
    amount say by how much HCM's total is lower; the answer says whether the
    totals differed.  A driver error leaves the ledger as it was, and no other
    key is touched. *)
Theorem reconcile_refines h n w w' r l :
  db_wf (w_db w) -> ledgers w -> h_totalBalance h = units g n -> 0 <= n < 2 ^ 52 ->
  shows g w (h_key h) l -> reconcileRecord h w = (w', r) ->
  (forall k m, k <> h_key h -> shows g w k m -> shows g w' k m) /\
  match r with
  | inl e => driver_error e /\ shows g w' (h_key h) l
  | inr updated =>
      updated = negb (n =? entitlement l) /\ shows g w' (h_key h) (raise_to n l) /\
      entitlement (raise_to n l) = Z.max n (entitlement l) /\
      available l <= available (raise_to n l) /\
      exists i b, Bal w' !! i = Some b /\ b_key b = h_key h /\ flagged n l b
  end.
Proof.
  intros Hwf Hls Hh Hn (_ & (i & b & Hi & Hk & Hrep) & Hl) Hr.
  apply (reconcile_cases _ n) in Hr as ((Hwb & _) & _ & _ & _ & Hr); try done.
  change (rows (balances (w_db w)) !! i = Some b) with (Bal w !! i = Some b) in Hi.
  destruct r as [e|u].
  - destruct Hr as [He HB]. change (rows (balances (w_db w')) = rows (balances (w_db w))) in HB.
    unfold shows, holds. rewrite HB.
    split; [intros k m _ (_ & ? & ?); done|]. split; [done|]. split; [done|]. split; [by exists i, b|done].
  - destruct Hr as [(j & c & m & b' & Hj & Hc & Hrm & Hm & HB & Hbk & Hrb & Hfl & ->)|[Hno _]];
      [|by destruct (Hno i b)].
    assert (j = i) as -> by (eapply (rows_unique _ j i c b); [apply Hwf|done..|];
      apply bool_decide_eq_true; congruence).
    rewrite Hi in Hj. injection Hj as <-.
    assert (m = l) as -> by (eapply (repr_inj g b); [lia|done..]).
    change (Bal w') with (rows (balances (w_db w'))) in HB.
    change (Bal w) with (rows (balances (w_db w))) in HB, Hi.
    split.
    + intros k x Hne (_ & (y & d & Hy & Hd & Hrd) & Hx). split; [done|]. split; [|done].
      exists y, d. rewrite HB. rewrite lookup_insert_ne; [done|]. intros <-. congruence.
    + split; [done|]. split.
      { split; [done|]. split; [|apply raise_to_ok; lia || done]. exists i, b'. by rewrite HB, lookup_insert_eq. }
      split; [apply raise_to_entitlement|]. split; [simpl; lia|].
      exists i, b'. unfold Bal. by rewrite HB, lookup_insert_eq.
Qed.

(** ** A stale read: other operations run between the read and the write. *)

(** A reconciliation that raises a balance from a stale read loses a
    reservation made in between: when the row read showed [l], [m] days were
    reserved, and HCM's total [n] is larger than the entitlement, the row written
    has all days of [l] and the increase available while the [m] days are also
    pending, so that the parts exceed the total by [m]. *)
Theorem reconcile_stale_read h n m w w' u i b b1 l l1 :
  db_wf (w_db w) -> h_totalBalance h = units g n -> 0 <= n < 2 ^ 52 ->
  repr g b l -> ledger_ok l -> b_id b = i -> 0 <= m -> ledger_step Reserve m l = Some l1 ->
  Bal w !! i = Some b1 -> repr g b1 l1 -> entitlement l < n ->
  reconcileWith h (Some b) w = (w', inr u) ->
  exists b2 a p s, Bal w' !! i = Some b2 /\
    b_availableBalance b2 = units g a /\ b_pendingBalance b2 = units g p /\
    b_usedBalance b2 = units g s /\ b_totalBalance b2 = units g n /\ a + p + s = n + m.
Proof.
  intros (Hwb & _) Hh Hn Hr Hl Hid Hm Hst Hi (Ha1 & Hp1 & Hu1 & _) Hlt.
  rewrite (reconcileWith_found h n w b l Hh Hn Hr Hl). unfold mbind, M_bind.
  destruct (t_update _ _ _ _ (pass 0 w)) as [w2 o] eqn:Hu.
  apply t_update_cases in Hu as (t & -> & _ & Ho);
    [|done|intros c; unfold reconcile_patch; by repeat case_match].
  destruct o as [e|[]]; [done|]. intros [= <- <-]. rewrite Hid in Ho.
  change (w_db (pass 0 w)) with (w_db w) in Ho.
  change (rows (balances (w_db w)) !! i) with (Bal w !! i) in Ho. rewrite Hi in Ho.
  destruct Ho as (b2 & Hs & _ & Hrows).
  exists b2, (available (raise_to n l)), (pending l1), (used l1).
  unfold Bal. cbn [balances set_balances w_db set_db]. rewrite Hrows.
  split; [apply lookup_insert_eq|].
  rewrite <- (esame_field b_availableBalance _ b2), <- (esame_field b_pendingBalance _ b2),
    <- (esame_field b_usedBalance _ b2), <- (esame_field b_totalBalance _ b2) by done.
  unfold reconcile_patch. assert ((n <? entitlement l) = false) as -> by (apply Z.ltb_ge; lia).
  assert ((entitlement l <? n) = true) as -> by (apply Z.ltb_lt; lia). cbn.
  rewrite (raised_available b l n Hr Hl Hn) by lia.
  split; [done|]. split; [done|]. split; [done|]. split; [done|].
  revert Hst. unfold ledger_step. case_match; [done|]. intros [= <-]. unfold entitlement in *. simpl in *.
  unfold entitlement. lia.
Qed.

(** ** The real-time update *)

Lemma realtime_found e l' y hb n w i b l :
  wf (balances (w_db w)) -> hb_totalBalance hb = units g n -> 0 <= n < 2 ^ 52 ->
  Bal w !! i = Some b -> b_key b = (e, l', y) -> repr g b l -> ledger_ok l ->
  applyHcmRealTimeUpdate e l' y hb w =
    (saved ← save_balance (reconcile_patch n l (w_now (pass 0 w)) (or_null (hb_version hb))
       (parseFloat (b_availableBalance b) +. units g (n - entitlement l))%num b);
     mret (Some saved)) (pass 0 w).
Proof.
  intros Hwf Hh Hn Hi Hk Hr Hl.
  unfold applyHcmRealTimeUpdate. unfold mbind at 1, M_bind at 1, t_findOne, gets.
  rewrite (findOne_key _ _ _ _ _ _ Hwf Hi Hk). rewrite Hh, parseFloat_units by (unfold small; lia).
  rewrite (local_total b l Hr Hl), (drift_units l n Hl Hn).
  destruct (small_drift l n Hl Hn) as [Hs Hs'].
  rewrite literal_0001, tiny_ltb_units, units_ltb_tiny, units_abs by (lia || done).
  unfold reconcile_patch, date_now, mbind, M_bind.
  destruct (Z.ltb_spec n (entitlement l)).
  - assert ((0 <? n - entitlement l) = false) as -> by (apply Z.ltb_ge; lia).
    assert ((n - entitlement l <? 0) = true) as -> by (apply Z.ltb_lt; lia).
    replace (Z.abs (n - entitlement l)) with (entitlement l - n) by lia. done.
  - destruct (Z.ltb_spec (entitlement l) n).
    + assert ((0 <? n - entitlement l) = true) as -> by (apply Z.ltb_lt; lia). done.
    + assert ((0 <? n - entitlement l) = false) as -> by (apply Z.ltb_ge; lia).
      assert ((n - entitlement l <? 0) = false) as -> by (apply Z.ltb_ge; lia). done.
Qed.
End reconcile.
