(* ===== verification/Reachable.v ===== *)
(** * Reachable: the invariants of the whole service

    A state is reachable when it results from any sequence of the service's
    operations, each run to its end: creations, decisions, account openings,
    batch runs, runs of the retry worker, queued callbacks and the passing of
    time, every one of which may also fail.  In every reachable state the books
    of [Books] are right and no two active requests of an employee at a location
    overlap; and from a state to any later one requests are never lost and their
    status moves along [VALID_TRANSITIONS] only. *)

From S2P Require Import Prelude Num Domain Store Entities World Dates Balance Hash HcmApi TimeOff.
From S2P Require Import HcmSync Samples Ledger Effects Lifecycle Books Reconcile.

Local Open Scope Z_scope.

(** ** Requests over time *)

(** [q'] is a later state of [q]. *)
Definition becomes (q q' : TimeOffRequest) : Prop :=
  r_key q' = r_key q /\ r_daysRequested q' = r_daysRequested q /\
  r_startDate q' = r_startDate q /\ r_endDate q' = r_endDate q /\
  r_idempotencyKey q' = r_idempotencyKey q /\
  (r_status q' = r_status q \/
   exists l, VALID_TRANSITIONS (r_status q) = Some l /\ r_status q' ∈ l).

Lemma valid_transition_from s l s' :
  VALID_TRANSITIONS s = Some l -> s' ∈ l ->
  s = RequestStatus.PENDING /\ (forall l', VALID_TRANSITIONS s' = Some l' -> l' = []).
Proof.
  destruct s; intros [= <-] Hin; try by apply elem_of_nil in Hin.
  split; [done|]. intros l'.
  repeat (apply elem_of_cons in Hin as [->|Hin]; [by intros [= <-]|]). by apply elem_of_nil in Hin.
Qed.

#[export] Instance becomes_preorder : PreOrder becomes.
Proof.
  split.
  - intros q. repeat split; by left.
  - intros q r s (?&?&?&?&?&Hs) (?&?&?&?&?&Hs'). repeat split; try congruence.
    destruct Hs as [Hs|(l & Hl & Hin)], Hs' as [Hs'|(l' & Hl' & Hin')].
    + left. congruence.
    + right. exists l'. by rewrite <- Hs.
    + right. exists l. by rewrite Hs'.
    + destruct (valid_transition_from _ _ _ Hl Hin) as [_ Hn]. rewrite (Hn _ Hl') in Hin'.
      by apply elem_of_nil in Hin'.
Qed.

Definition evolves (rs rs' : gmap string TimeOffRequest) : Prop :=
  forall j q, rs !! j = Some q -> exists q', rs' !! j = Some q' /\ becomes q q'.

#[export] Instance evolves_preorder : PreOrder evolves.
Proof.
  split.
  - intros rs j q Hq. by exists q.
  - intros rs rs' rs'' H H' j q Hq. destruct (H j q Hq) as (q' & Hq' & Hb).
    destruct (H' j q' Hq') as (q'' & Hq'' & Hb'). exists q''. split; [done|]. by etrans.
Qed.

Lemma evolves_insert rs j q : rs !! j = None -> evolves rs (<[j := q]> rs).
Proof.
  intros Hj i r Hi. exists r. rewrite lookup_insert_ne; [done|congruence].
Qed.
Lemma evolves_update rs j q q' : rs !! j = Some q -> becomes q q' -> evolves rs (<[j := q']> rs).
Proof.
  intros Hj Hb i r Hi. destruct (decide (i = j)) as [->|Hne].
  - exists q'. rewrite lookup_insert_eq. split; [done|]. congruence.
  - exists r. by rewrite lookup_insert_ne.
Qed.

(** ** Active requests stay apart *)
Definition overlapping (q r : TimeOffRequest) : Prop :=
  r_employeeId q = r_employeeId r /\ r_locationId q = r_locationId r /\
  datesOverlap (r_startDate q) (r_endDate q) (r_startDate r) (r_endDate r) = true.

Definition apart (rs : gmap string TimeOffRequest) : Prop :=
  forall i j q r, rs !! i = Some q -> rs !! j = Some r -> i <> j -> active q -> active r ->
    ~ overlapping q r.

Lemma overlapping_sym q r : overlapping q r -> overlapping r q.
Proof. intros (? & ? & Ho). repeat split; try done. by rewrite datesOverlap_sym. Qed.

Lemma active_at_active e l q :
  active_at e l q = true <-> r_employeeId q = e /\ r_locationId q = l /\ active q.
Proof.
  unfold active_at, active. rewrite !andb_true_iff, !bool_decide_eq_true.
  rewrite elem_of_cons, list_elem_of_singleton. tauto.
Qed.

(** Setting row [j] keeps requests apart when the new row is apart from every
    other, if it counts. *)
Lemma apart_insert rs j q :
  apart rs ->
  (active q -> forall i r, rs !! i = Some r -> i <> j -> active r -> ~ overlapping r q) ->
  apart (<[j := q]> rs).
Proof.
  intros Ha Hq i k r s Hi Hk Hne Har Has Ho.
  apply lookup_insert_Some in Hi as [[<- <-]|[Hij Hi]], Hk as [[<- <-]|[Hkj Hk]]; try done.
  - apply (Hq Har k s); try done. by apply overlapping_sym.
  - by apply (Hq Has i r).
  - by apply (Ha i k r s).
Qed.

Lemma apart_becomes rs j q q' :
  apart rs -> rs !! j = Some q -> becomes q q' -> (active q' -> active q) ->
  apart (<[j := q']> rs).
Proof.
  intros Ha Hj (Hk & _ & Hs & He & _ & _) Hact. apply apart_insert; [done|].
  intros Hq i r Hi Hne Hr Ho. apply (Ha i j r q); auto. revert Ho. unfold overlapping.
  rewrite Hs, He. injection Hk as -> -> _. done.
Qed.

(** ** The invariant, and what keeps it *)
Section invariant.
Context (g : Z) (Hg : 0 <= g <= 6) (bk : bool).
Context {Tbl : Type -> Type} `{RepoLaws Tbl} `{!TxManager Tbl, !TxLaws Tbl}.
Context `{Env} `{Config} `{Engine} `{Crypto}.
Implicit Types (w : World Tbl).

(** [bk] says whether the books are part of it. *)
Record inv w : Prop := {
  inv_wf : db_wf (w_db w);
  inv_books : bk = true -> books g (Bal w) (Req w);
  inv_apart : apart (Req w);
}.

(** The step from [w] to [w'] keeps the invariant and loses no request. *)
Definition keeps w w' : Prop := inv w -> inv w' /\ evolves (Req w) (Req w').

#[local] Instance keeps_preorder : PreOrder keeps.
Proof.
  split.
  - intros w Hw. done.
  - intros w w1 w2 Hk Hk' Hw. destruct (Hk Hw) as [Hw1 He1]. destruct (Hk' Hw1) as [Hw2 He2].
    split; [done|]. by etrans.
Qed.

Lemma inv_rows w w' :
  Bal w' = Bal w -> Req w' = Req w -> db_wf (w_db w') -> keeps w w'.
Proof. intros HB HR Hwf [_ Hb Ha]. split; [split|]; rewrite ?HB, ?HR; done. Qed.

Lemma keeps_db w w' : w_db w' = w_db w -> keeps w w'.
Proof.
  intros Hd Hw. apply inv_rows; [unfold Bal|unfold Req| |done]; rewrite Hd; try done. apply Hw.
Qed.
Lemma keeps_later w w' : later w w' -> keeps w w'.
Proof. intros. by apply keeps_db, later_db. Qed.
Lemma keeps_quiet w w' : quiet w w' -> keeps w w'.
Proof. intros (n & t & b & -> & _). by apply keeps_db. Qed.

Lemma date_now_keeps : stays keeps (date_now (Tbl := Tbl)).
Proof. intros w. apply keeps_later, pass_later. Qed.

(** The invariant may be used to show that it is kept. *)
Lemma keeps_inv w w' : (inv w -> keeps w w') -> keeps w w'.
Proof. intros Hk Hw. by apply Hk. Qed.

(** A change of one request. *)
Lemma keeps_request w w' j q q' :
  Bal w' = Bal w -> Req w !! j = Some q -> Req w' = <[j := q']> (Req w) -> db_wf (w_db w') ->
  becomes q q' -> r_status q' = r_status q -> keeps w w'.
Proof.
  intros HB Hj HR Hwf Hq Hs [_ Hb Ha]. split; [split|].
  - done.
  - intros Hbk. rewrite HB, HR. destruct Hq as (? & ? & _). eapply books_touch; eauto.
  - rewrite HR. eapply apart_becomes; try done. unfold active. by rewrite Hs.
  - rewrite HR. by eapply evolves_update.
Qed.

(** Updates of the sync columns. *)
Lemma update_request_keeps i s v n at_ : stays keeps (update_request i (sync_patch s v n at_)).
Proof.
  intros w [Hwf Hb Ha]. destruct (t_update _ _ _ _ w) as [w' o] eqn:Hu.
  pose proof Hwf as (Hwb & Hwr & Hwi & Hwl).
  apply t_update_cases in Hu as (t & -> & Hwt & Ho); [|done..]. cbn [fst].
  assert (Hwf' : db_wf (set_requests t (w_db w))) by done. destruct o as [e|[]].
  - destruct Ho as [_ Ho]. by apply inv_rows.
  - destruct (rows (requests (w_db w)) !! i) as [q|] eqn:Hi; [|by apply inv_rows].
    destruct Ho as (q' & Hs & _ & Ho).
    assert (Hf : forall {A} (f : TimeOffRequest -> A), (forall c, f (e_erase c) = f c) ->
      (forall c, f (sync_patch s v n at_ c) = f c) -> f q' = f q).
    { intros A f Hf Hp. by rewrite <- (Hp q), <- (esame_field f _ _ Hf Hs). }
    eapply (keeps_request w _ i q q'); try done; [|by apply Hf].
    split_and!; try (by apply Hf). left. by apply Hf.
Qed.

(** Sync logs are no part of it. *)
Lemma update_syncLog_keeps i s p u f e c :
  stays keeps (update_syncLog i (l_with_outcome s p u f e c)).
Proof.
  intros w [Hwf Hb Ha]. destruct (t_update _ _ _ _ w) as [w' o] eqn:Hu.
  pose proof Hwf as (Hwb & Hwr & Hwi & Hwl).
  apply t_update_cases in Hu as (t & -> & Hwt & _); [|done..]. by apply inv_rows.
Qed.
Lemma save_syncLog_keeps l : stays keeps (save_syncLog l).
Proof.
  intros w [Hwf Hb Ha]. destruct (t_save _ _ _ w) as [w' o] eqn:Hs.
  pose proof Hwf as (Hwb & Hwr & Hwi & Hwl). apply t_save_cases in Hs; [|done].
  destruct o as [e|r']; [destruct Hs as (_ & t & -> & Hwt & _)|destruct Hs as (t & -> & Hwt & _)];
    by apply inv_rows.
Qed.

(** ** The operations of [TimeOffService] *)

(** The payload names two days. *)
Definition dated (dto : CreateDto) : Prop :=
  is_Some (day_of (d_startDate dto)) /\ is_Some (day_of (d_endDate dto)).

Lemma dated_days dto :
  dated dto -> exists n, 0 <= n < 2 ^ 53 /\
    calculateDaysRequested (d_startDate dto) (d_endDate dto) = units g n.
Proof.
  intros [[a Ha] [b Hb]]. rewrite (calculateDaysRequested_days _ _ _ _ Ha Hb).
  apply day_of_utc in Ha as [_ Ha], Hb as [_ Hb].
  set (n := Z.max (b - a + 1) 1). assert (1 <= n <= 200000001) by lia.
  assert (0 < 2 ^ g <= 64).
  { split; [apply Z.pow_pos_nonneg; lia|]. change 64 with (2 ^ 6). apply Z.pow_le_mono_r; lia. }
  exists (n * 2 ^ g). split; [nia|]. apply of_Z_units; [lia|nia].
Qed.

(** A stored request. *)
Lemma created_keeps dto key hash w w' req :
  (bk = true -> dated dto) ->
  created dto key hash (calculateDaysRequested (d_startDate dto) (d_endDate dto)) w w' req ->
  keeps w w'.
Proof.
  intros Hd Hcr [Hwf Hb Ha]. pose proof Hcr as [Hreq [Hnew _] Hrs Hap _ _ _ Hwf']. split; [split|].
  - done.
  - intros Hbk. destruct (dated_days dto (Hd Hbk)) as (n & Hn & Hdays). rewrite Hdays in Hcr.
    exact (books_created g Hg dto key _ n w w' req Hwf (Hb Hbk) Hn Hcr).
  - rewrite Hrs. apply apart_insert; [done|]. intros _ i r Hi _ Hr (He & Hl & Ho).
    assert (Hfe := esame_field r_employeeId _ _ (fun _ => eq_refl) Hreq).
    assert (Hfl := esame_field r_locationId _ _ (fun _ => eq_refl) Hreq).
    assert (Hfs := esame_field r_startDate _ _ (fun _ => eq_refl) Hreq).
    assert (Hfd := esame_field r_endDate _ _ (fun _ => eq_refl) Hreq). cbn in Hfe, Hfl, Hfs, Hfd.
    rewrite datesOverlap_sym, <- Hfs, <- Hfd in Ho. rewrite (Hap i r Hi) in Ho; [done|].
    apply active_at_active. by rewrite Hfe, Hfl.
  - rewrite Hrs. by apply evolves_insert.
Qed.

Lemma createRequest_keeps dto okey : dated dto -> stays keeps (createRequest dto okey).
Proof.
  intros Hd w. apply keeps_inv. intros Hw. destruct (createRequest dto okey w) as [w' r] eqn:Hc.
  apply createRequest_cases in Hc; [|apply Hw]. destruct r as [e|v].
  { apply untouched_db in Hc as [Hc _]. by apply keeps_db. }
  destruct Hc as (key & -> & _ & _ & [(req & Hcr & _ & _)|[Hu _]]); [by eapply created_keeps|].
  apply untouched_db in Hu as [Hc _]. by apply keeps_db.
Qed.

Lemma decided_becomes d id w w' q q' : decided d id w w' q q' -> becomes q q'.
Proof.
  intros [_ Hp (now & Hrow & _) _ _ _ _ _ _].
  destruct (decide_row_fields _ _ _ _ Hrow) as (? & ? & Hst & ? & ? & ?).
  split_and!; try done. right. rewrite Hp. eexists. split; [reflexivity|]. rewrite Hst.
  destruct d; rewrite !elem_of_cons; auto.
Qed.

Lemma decide_keeps d id : stays keeps (decide_request d id).
Proof.
  intros w Hw. destruct (decide_request d id w) as [w' r] eqn:Hc. cbn [fst].
  apply decide_request_cases in Hc; [|apply Hw]. destruct r as [e|v].
  { destruct Hc as [Hc _]. by apply keeps_db. }
  destruct Hc as (q & q' & Hdec & _). pose proof (decided_becomes _ _ _ _ _ _ Hdec) as Hbec.
  destruct Hw as [Hwf Hb Ha]. pose proof Hdec as [Hf Hp _ _ Hrs _ _ _ Hwf']. split; [split|].
  - done.
  - intros Hbk. exact (books_decided g Hg d id w w' q q' Hwf (Hb Hbk) Hdec).
  - rewrite Hrs. eapply apart_becomes; try done. intros _. by left.
  - rewrite Hrs. by eapply evolves_update.
Qed.

(** ** The operations of [BalanceService] that open or adjust an account *)

(** A change of the balance table alone. *)
Lemma keeps_balances w w' t :
  w_db w' = set_balances t (w_db w) -> wf t ->
  (bk = true -> books g (Bal w) (Req w) -> books g (rows t) (Req w)) -> keeps w w'.
Proof.
  intros Hd Hwt Hb Hw. pose proof Hw as [(_ & Hwr & Hwi & Hwl) Hbw Ha].
  unfold Req in *. split; [split|]; unfold Bal, Req; rewrite Hd; try done. intros Hbk. by apply Hb, Hbw.
Qed.

(** Without the books every write of the balance table keeps the rest. *)
Lemma save_balance_keeps b : bk = false -> stays keeps (save_balance b).
Proof.
  intros Hbk w [Hwf Hb Ha]. destruct (t_save _ _ _ w) as [w' o] eqn:Hs.
  assert (exists t, w_db w' = set_balances t (w_db w) /\ wf t) as (t & Hd & Hwt).
  { apply t_save_cases in Hs; [|apply Hwf].
    destruct o; [destruct Hs as (_ & t & -> & ? & _)|destruct Hs as (t & -> & ? & _)]; by exists t. }
  apply (keeps_balances w w' t); [done|done|congruence|done].
Qed.
Lemma update_balance_keeps i f :
  bk = false -> (forall b, b_id (f b) = b_id b) -> stays keeps (update_balance i f).
Proof.
  intros Hbk Hf w [Hwf Hb Ha]. destruct (t_update _ _ _ _ w) as [w' o] eqn:Hu.
  apply t_update_cases in Hu as (t & -> & Hwt & _); [|apply Hwf|done].
  apply (keeps_balances w _ t); [done|done|congruence|done].
Qed.

Lemma serialize_later b : stays later (serialize (Tbl := Tbl) b).
Proof. unfold serialize, isStale. stays_steps. Qed.

(** A new account, whoever opens it; the unique constraint keeps a second one
    of the key away. *)
Lemma open_balance_keeps b n :
  b_id b = "" -> 0 <= n < 2 ^ 52 -> repr g b {| available := n; pending := 0; used := 0 |} ->
  stays keeps (save_balance b).
Proof.
  intros Hid Hn Hrep w. apply keeps_inv. intros [Hwf _ _].
  destruct (t_save _ _ _ w) as [w' o] eqn:Hs. cbn [fst].
  apply t_save_cases in Hs; [|apply Hwf]. destruct o as [x|b'].
  - destruct Hs as (_ & t & -> & Hwt & Hr). apply (keeps_balances _ _ t); [done|done|].
    intros _. by rewrite Hr.
  - destruct Hs as (t & -> & Hwt & Hsame & Hr & Hnew). cbn in Hr, Hnew. rewrite Hid in Hnew.
    cbn in Hnew. apply (keeps_balances _ _ t); [done|done|]. intros _ Hb. rewrite Hr.
    apply (books_open g) with (n := n); try done; [|by rewrite <- Hsame].
    intros j c Hj Hc. assert (j = b_id b') as ->; [|unfold Bal in *; congruence].
    eapply (rows_unique t j (b_id b') c b'); [done|rewrite Hr|rewrite Hr; apply lookup_insert_eq|].
    + rewrite lookup_insert_ne; [done|]. intros <-. unfold Bal in *. congruence.
    + by apply bool_decide_eq_true.
Qed.

Lemma new_balance_repr e l y n now v :
  repr g (new_balance e l y (units g n) now v) {| available := n; pending := 0; used := 0 |}.
Proof. unfold repr, entitlement. cbn. by rewrite !Z.add_0_r. Qed.
Lemma new_balance_keeps e l y n now v :
  0 <= n < 2 ^ 52 -> stays keeps (save_balance (new_balance e l y (units g n) now v)).
Proof. intros Hn. by apply (open_balance_keeps _ n), new_balance_repr. Qed.

Lemma upsertBalance_keeps e l y n :
  0 <= n < 2 ^ 52 -> stays keeps (upsertBalance e l y (units g n)).
Proof.
  intros Hn. unfold upsertBalance. rewrite parseFloat_units by (unfold small; lia).
  assert (forall b, stays keeps (serialize (Tbl := Tbl) b)).
  { intros b w. apply keeps_later, serialize_later. }
  pose proof (fun now v => new_balance_keeps e l y n now v Hn).
  pose proof date_now_keeps. unfold t_findOne. stays_steps.
Qed.

(** ** HCM callbacks, the batch run and the retry worker *)
Context `{!HcmApi Tbl, !HcmApiLaws Tbl}.

Lemma returns_quietly_keeps {A} (m : M (World Tbl) exn A) : returns_quietly m -> stays keeps m.
Proof.
  intros Hm w. destruct (Hm w) as (w' & a & Hw & Hq). rewrite Hw. by apply keeps_quiet.
Qed.
Lemma api_validateRequest_keeps e l t d : stays keeps (api_validateRequest (Tbl := Tbl) e l t d).
Proof. apply returns_quietly_keeps, validateRequest_quiet. Qed.
Lemma api_notifyApproval_keeps e l t d i : stays keeps (api_notifyApproval (Tbl := Tbl) e l t d i).
Proof. apply returns_quietly_keeps, notifyApproval_quiet. Qed.
#[local] Hint Resolve date_now_keeps update_request_keeps update_syncLog_keeps save_syncLog_keeps
  api_validateRequest_keeps api_notifyApproval_keeps : effects.

Lemma updateSyncAttempt_keeps q s v : stays keeps (updateSyncAttempt (Tbl := Tbl) q s v).
Proof. unfold updateSyncAttempt. stays_steps. Qed.
#[local] Hint Resolve updateSyncAttempt_keeps : effects.

Lemma run_NotifyHcm_keeps i e l t d : stays keeps (run_NotifyHcm (Tbl := Tbl) i e l t d).
Proof. unfold run_NotifyHcm. stays_steps. Qed.
Lemma run_NotifyApproval_keeps q i : stays keeps (run_NotifyApproval (Tbl := Tbl) q i).
Proof. unfold run_NotifyApproval. stays_steps. Qed.

Lemma retry_one_keeps q : stays keeps (retry_one (Tbl := Tbl) q).
Proof. unfold retry_one, retryValidationOnly, retryApprovalFlow, retry_approval. stays_steps. Qed.
#[local] Hint Resolve retry_one_keeps : effects.
Lemma retryPendingHcmSyncs_keeps : stays keeps (retryPendingHcmSyncs (Tbl := Tbl)).
Proof. unfold retryPendingHcmSyncs, t_findBy. stays_steps. Qed.

(** A batch payload whose totals are amounts of the grid. *)
Definition on_grid (h : HcmRecord) : Prop :=
  exists n, 0 <= n < 2 ^ 52 /\ h_totalBalance h = units g n.

Lemma reconcileRecord_keeps h : on_grid h -> stays keeps (reconcileRecord (Tbl := Tbl) h).
Proof.
  intros (n & Hn & Hh). destruct bk eqn:Hflag.
  2: { unfold reconcileRecord, reconcileWith, t_findOne.
       pose proof save_balance_keeps. pose proof update_balance_keeps. stays_steps; auto. }
  intros w. apply keeps_inv. intros Hw. pose proof Hw as [Hwf Hb Ha]. rewrite Hflag in Hb.
  specialize (Hb eq_refl).
  destruct (reconcileRecord h w) as [w' r] eqn:Hr. cbn [fst].
  assert (Hls : ledgers g w) by (intros i b Hi; destruct (books_ledger _ _ _ Hb i b Hi) as (l & ? & ? & _); eauto).
  apply (reconcile_cases g Hg h n) in Hr as (Hwf' & HR & _ & _ & Hr); try done.
  assert (Hk : books g (Bal w') (Req w) -> keeps w w').
  { intros Hb' _. split; [split|]; rewrite ?HR; done. }
  destruct r as [e|u]; [destruct Hr as [_ HB]; apply Hk; by rewrite HB|].
  destruct Hr as [(i & b & l & b' & Hi & Hbk & Hrep & Hl & HB & Hbk' & Hrep' & _ & _)
                 |(Hno & _ & i & b' & Hi & HB & Hbk & Hrep & _)]; apply Hk; rewrite HB.
  - apply (books_adjust g _ _ i b); [done|done|congruence|]. intros m Hm Hmok.
    assert (m = l) as -> by (eapply (repr_inj g b); [lia|done..]).
    destruct (raise_to_ok n l Hl) as (Hx & _ & _ & Hy); [lia|].
    exists (available (raise_to n l)). done.
  - apply (books_open g) with (n := n); try done. intros j c Hj. rewrite Hbk. by apply (Hno j).
Qed.

Lemma flag_missing_keeps local now :
  stays keeps (update_balance (b_id local) (flag_missing local now)).
Proof.
  intros w. apply keeps_inv. intros [Hwf _ _]. destruct (t_update _ _ _ _ w) as [w' o] eqn:Hu.
  apply t_update_cases in Hu as (t & -> & Hwt & Ho); [|apply Hwf|done]. cbn [fst].
  apply (keeps_balances _ _ t); [done|done|]. intros _ Hb.
  destruct o as [e|[]]; [destruct Ho as [_ ->]; exact Hb|].
  destruct (rows (balances (w_db w)) !! b_id local) as [b|] eqn:Hi; [|rewrite Ho; exact Hb].
  destruct Ho as (b' & Hs & _ & ->). eapply books_adjust; [done|done| |].
  - rewrite <- (esame_b_key _ _ Hs). done.
  - intros l Hr (? & ? & ? & ?). exists (available l). split; [done|]. split.
    + unfold entitlement in *. lia.
    + rewrite <- Hs. by destruct l.
Qed.
#[local] Hint Resolve flag_missing_keeps : effects.

Lemma reconcile_loop_keeps hs c :
  Forall on_grid hs -> stays keeps (reconcile_loop (Tbl := Tbl) hs c).
Proof.
  intros Hh. revert c. induction Hh as [|h hs Hh Hhs IH]; intros c; cbn [reconcile_loop]; [stays_steps|].
  pose proof (reconcileRecord_keeps h Hh). stays_steps.
Qed.
Lemma missing_loop_keeps keys bs c : stays keeps (missing_loop (Tbl := Tbl) keys bs c).
Proof.
  revert c. induction bs as [|b bs IH]; intros c; cbn [missing_loop]; stays_steps; auto.
Qed.
#[local] Hint Resolve missing_loop_keeps : effects.

(** HCM keeps its balances in amounts of the grid. *)
Class HcmGrid : Prop := batch_on_grid : forall l w w' hs,
  api_getBatchBalances (Tbl := Tbl) l w = (w', inr (HArray hs)) -> Forall on_grid hs.

Lemma fail_log_keeps i c e : stays keeps (fail_log (Tbl := Tbl) i c e).
Proof. unfold fail_log, finish_log. stays_steps. Qed.
#[local] Hint Resolve fail_log_keeps : effects.

Lemma batch_body_keeps `{!HcmGrid} i : stays keeps (batch_body (Tbl := Tbl) i).
Proof.
  intros w. unfold batch_body. unfold mbind at 1, M_bind at 1, try_catch at 1.
  unfold mbind at 1, M_bind at 1.
  destruct (getBatchBalances_quiet None w) as (w1 & d & Hd & Hq). rewrite Hd.
  cbn [mret M_ret]. etrans; [by apply keeps_quiet|]. pose proof (fail_log_keeps i) as Hfl.
  destruct d as [|hs|v s]; [apply Hfl| |apply Hfl].
  apply batch_on_grid in Hd. pose proof (fun c => reconcile_loop_keeps hs c Hd) as Hrl.
  match goal with |- keeps w1 (fst (?m w1)) => assert (Hm : stays keeps m); [|apply Hm] end.
  unfold finish_log. stays_steps.
Qed.

Lemma runBatchSync_keeps `{!HcmGrid} : stays keeps (runBatchSync (Tbl := Tbl)).
Proof.
  unfold runBatchSync, set_running, batchRunning.
  assert (Hset : forall b, stays keeps (modify (set_batchRunning b) : M (World Tbl) exn unit))
    by (intros b w; by apply keeps_db).
  assert (Hfin : forall i, stays keeps (try_finally (batch_body (Tbl := Tbl) i) (set_batchRunning false))).
  { intros i w. unfold try_finally. pose proof (batch_body_keeps i w) as Hb.
    destruct (batch_body i w) as [w' r]. etrans; [exact Hb|]. by apply keeps_db. }
  stays_steps.
Qed.

(** The real-time update. *)
Lemma applyHcmRealTimeUpdate_keeps e l y hb n :
  0 <= n < 2 ^ 52 -> hb_totalBalance hb = units g n ->
  stays keeps (applyHcmRealTimeUpdate (Tbl := Tbl) e l y hb).
Proof.
  intros Hn Hh. destruct bk eqn:Hflag.
  2: { unfold applyHcmRealTimeUpdate, t_findOne. pose proof save_balance_keeps. stays_steps; auto. }
  intros w. apply keeps_inv. intros [Hwf Hb Ha]. pose proof Hwf as (Hwb & _).
  rewrite Hflag in Hb. specialize (Hb eq_refl).
  destruct (r_findOne (where_key e l y) (balances (w_db w))) as [b|] eqn:Hf.
  - destruct (findOne_Some _ _ _ Hwb Hf) as [Hi Hk%where_key_spec]. cbn in Hi.
    destruct (books_ledger _ _ _ Hb _ _ Hi) as (m & Hr & Hm & _).
    rewrite (realtime_found g Hg _ _ _ _ n w (b_id b) b m) by done.
    destruct (reconcile_patch_spec g Hg n m (w_now (pass 0 w)) (or_null (hb_version hb)) b Hr Hm Hn)
      as (Hr' & _ & Hk' & _).
    assert (Hid : forall now v a, b_id (reconcile_patch g n m now v a b) = b_id b)
      by (intros; unfold reconcile_patch; by repeat case_match).
    unfold mbind, M_bind. destruct (t_save _ _ _ (pass 0 w)) as [w' o] eqn:Hs.
    apply t_save_cases in Hs; [|done]. destruct o as [x|b'].
    + destruct Hs as (_ & t & -> & Hwt & Hrows). apply (keeps_balances _ _ t); [done|done|].
      intros _ _. rewrite Hrows. exact Hb.
    + destruct Hs as (t & -> & Hwt & Hsame & Hrows & Hnew). cbn in Hnew. rewrite Hid in Hnew.
      destruct (rows_id _ _ _ Hwb Hi) as [_ Hne]. rewrite decide_False in Hnew by done.
      apply (keeps_balances _ _ t); [done|done|]. intros _ _. rewrite Hrows. cbn. rewrite Hnew.
      eapply books_adjust; [done|done| |].
      * rewrite <- (esame_b_key _ _ Hsame). done.
      * intros m' Hm' Hok'. assert (m' = m) as -> by (eapply (repr_inj g b); [lia|done..]).
        destruct (raise_to_ok n m Hm) as (Hx & _ & _ & Hy); [lia|].
        exists (available (raise_to n m)). split; [done|]. split; [done|]. by rewrite <- Hsame.
  - apply keeps_db. unfold applyHcmRealTimeUpdate, mbind at 1, M_bind at 1, t_findOne, gets.
    by rewrite Hf.
Qed.

Lemma transaction_keeps {A} (body : M (World Tbl) exn A) :
  stays keeps body -> stays keeps (transaction body).
Proof.
  intros Hb w. destruct (transaction body w) as [w' r] eqn:Ht.
  apply transaction_cases in Ht as (w0 & Hl & Ht). cbn [fst]. destruct r as [e|a].
  - destruct Ht as [Hd _]. by apply keeps_db.
  - etrans; [by apply keeps_later|]. by eapply (stays_eq keeps).
Qed.

(** ** The service as a transition system *)

(** The callbacks that [setImmediate] runs. *)
Definition run_task (t : Task) : M (World Tbl) exn unit :=
  match t with
  | NotifyHcm i e l y d => run_NotifyHcm i e l y d
  | NotifyApproval q i => run_NotifyApproval q i
  | RunBatchSync => runBatchSync
  end.

(** One operation, run to its end, whether it returns or throws. *)
Inductive step w : World Tbl -> Prop :=
  | step_create dto okey : dated dto -> step w (fst (createRequest dto okey w))
  | step_decide d id : step w (fst (decide_request d id w))
  | step_upsert e l y n : 0 <= n < 2 ^ 52 -> step w (fst (upsertBalance e l y (units g n) w))
  | step_realtime e l y hb n : 0 <= n < 2 ^ 52 -> hb_totalBalance hb = units g n ->
      step w (fst (transaction (applyHcmRealTimeUpdate e l y hb) w))
  | step_batch : step w (fst (runBatchSync w))
  | step_trigger : step w (fst (triggerManualBatchSync w))
  | step_retry : step w (fst (retryPendingHcmSyncs w))
  | step_task t ts : w_immediates w = t :: ts -> step w (fst (run_task t (set_immediates ts w)))
  | step_time w' : quiet w w' -> step w w'.

Context `{!HcmGrid}.

Lemma step_keeps w w' : step w w' -> keeps w w'.
Proof.
  destruct 1 as [dto okey Hd|d id|e l y n Hn|e l y hb n Hn Hh| | | |t ts Ht|w' Hq].
  - by apply createRequest_keeps.
  - apply decide_keeps.
  - by apply upsertBalance_keeps.
  - by apply transaction_keeps, (applyHcmRealTimeUpdate_keeps _ _ _ _ n).
  - apply runBatchSync_keeps.
  - unfold triggerManualBatchSync, mbind, M_bind, batchRunning, gets.
    destruct (w_batchRunning w); by apply keeps_db.
  - apply retryPendingHcmSyncs_keeps.
  - assert (Hk : keeps w (set_immediates ts w)) by by apply keeps_db.
    etrans; [exact Hk|]. destruct t; cbn [run_task].
    + apply run_NotifyHcm_keeps.
    + apply run_NotifyApproval_keeps.
    + apply runBatchSync_keeps.
  - by apply keeps_quiet.
Qed.

Lemma steps_keep w w' : rtc step w w' -> keeps w w'.
Proof. induction 1 as [|w w1 w2 Hs _ IH]; [done|]. etrans; [by apply step_keeps|done]. Qed.

(** No data yet. *)
Definition empty_db w : Prop := db_wf (w_db w) /\ Bal w = ∅ /\ Req w = ∅.

Lemma empty_inv w : empty_db w -> inv w.
Proof.
  intros (Hwf & HB & HR). split; [done|intros _; rewrite HB, HR; apply books_empty|].
  rewrite HR. intros i j q r Hq. by apply lookup_empty_Some in Hq.
Qed.

End invariant.

(** ** Every reachable state *)
Section service.
Context (g : Z) (Hg : 0 <= g <= 6).
Context {Tbl : Type -> Type} `{RepoLaws Tbl} `{!TxManager Tbl, !TxLaws Tbl}.
Context `{Env} `{Config} `{Engine} `{Crypto} `{!HcmApi Tbl, !HcmApiLaws Tbl, !HcmGrid g}.
Implicit Types (w : World Tbl).

Lemma reachable_inv w0 w : empty_db w0 -> rtc (step g) w0 w -> inv g true w.
Proof. intros He Hs. by apply (steps_keep g Hg true w0 w), empty_inv. Qed.

(** C1. The accounts always balance.  From an empty database, whatever
    operations ran and failed: on every balance row no amount is negative, the
    total is the sum of available, pending and used days, the pending days are
    exactly those of the [PENDING] requests charged to the row, and the used
    days exactly those of the [APPROVED] ones. *)
Theorem accounts_balance w0 w i b :
  empty_db w0 -> rtc (step g) w0 w -> Bal w !! i = Some b ->
  exists a p u, 0 <= a /\ 0 <= p /\ 0 <= u /\
    b_availableBalance b = units g a /\ b_pendingBalance b = units g p /\
    b_usedBalance b = units g u /\ b_totalBalance b = units g (a + p + u) /\
    p = requested g RequestStatus.PENDING (b_key b) (Req w) /\
    u = requested g RequestStatus.APPROVED (b_key b) (Req w).
Proof.
  intros He Hs Hi. pose proof (reachable_inv w0 w He Hs) as [_ Hb _].
  destruct (books_ledger _ _ _ (Hb eq_refl) i b Hi) as ([a p u] & (Ha & Hp & Hu & Ht) & (? & ? & ? & _) & Hpe & Hus).
  exists a, p, u. done.
Qed.

(** No double booking: in every reachable state two active requests of one
    employee at one location share no day. *)
Theorem no_double_booking w0 w i j q r a b c d :
  empty_db w0 -> rtc (step g) w0 w ->
  Req w !! i = Some q -> Req w !! j = Some r -> i <> j -> active q -> active r ->
  r_employeeId q = r_employeeId r -> r_locationId q = r_locationId r ->
  day_of (r_startDate q) = Some a -> day_of (r_endDate q) = Some b ->
  day_of (r_startDate r) = Some c -> day_of (r_endDate r) = Some d ->
  forall x, ~ (a <= x <= b /\ c <= x <= d).
Proof.
  intros He Hs Hi Hj Hne Hq Hr Hem Hlo Ha Hb Hc Hd x Hx.
  pose proof (reachable_inv w0 w He Hs) as [_ _ Hap].
  apply (Hap i j q r); try done. split; [done|]. split; [done|].
  rewrite (datesOverlap_days _ _ _ _ _ _ _ _ Ha Hb Hc Hd). apply andb_true_iff.
  rewrite !Z.leb_le. lia.
Qed.

(** Requests are never lost or rewritten: from a reachable state to any
    later one every request keeps its key, dates, days and owner, and its status
    stays or moves once along [VALID_TRANSITIONS]; a decided status is final. *)
Theorem requests_persist w0 w w' j q :
  empty_db w0 -> rtc (step g) w0 w -> rtc (step g) w w' -> Req w !! j = Some q ->
  exists q', Req w' !! j = Some q' /\ becomes q q' /\
    (r_status q <> RequestStatus.PENDING -> r_status q' = r_status q).
Proof.
  intros He Hs Hs' Hj. destruct (steps_keep g Hg true w w' Hs' (reachable_inv w0 w He Hs)) as [_ Hev].
  destruct (Hev j q Hj) as (q' & Hj' & Hb). exists q'. split; [done|]. split; [done|].
  intros Hp. destruct Hb as (_ & _ & _ & _ & _ & [Hst|(l & Hl & Hin)]); [done|].
  by destruct (valid_transition_from _ _ _ Hl Hin).
Qed.
End service.
