(* ===== verification/Async.v ===== *)
(** * Async: functions that await

    A JavaScript function runs without interruption up to its next [await];
    there it is suspended, others run, and it goes on when what it awaits is
    there.  [prog] is such a function: a tree of the computations of [Prelude]
    between which it may be suspended.  This file has the statements of such
    functions, what one does when nothing interferes ([run]), a pool of them that
    share a state, and the rules by which a property is proved for every way the
    pool may interleave them ([wp]). *)

From S2P Require Import Prelude.

(** [Await ready m k]: suspended until [ready]; then [m] runs, and what follows
    depends on how [m] settled. *)
Inductive prog (St E A : Type) : Type :=
  | Settled (r : E + A)
  | Await (ready : St -> bool) (B : Type) (m : M St E B) (k : E + B -> prog St E A).
Arguments Settled {St E A} r.
Arguments Await {St E A} ready {B} m k.

(** ** Statements *)
Section statements.
Context {St E : Type}.
Abbreviation prog := (prog St E).

(** Go on with [k] when [p] has settled. *)
Fixpoint settle {A B} (p : prog A) (k : E + A -> prog B) : prog B :=
  match p with
  | Settled r => k r
  | Await ready m j => Await ready m (fun r => settle (j r) k)
  end.

#[export] Instance prog_ret : MRet prog := fun A a => Settled (inr a).
#[export] Instance prog_bind : MBind prog := fun A B k p =>
  settle p (fun r => match r with inl e => Settled (inl e) | inr a => k a end).

Definition throw_async {A} (e : E) : prog A := Settled (inl e).
(** [await m] *)
Definition await {A} (m : M St E A) : prog A := Await (fun _ => true) m Settled.
(** [try { p } catch (e) { h(e) }] *)
Definition catch_async {A} (p : prog A) (h : E -> prog A) : prog A :=
  settle p (fun r => match r with inl e => h e | inr a => Settled (inr a) end).
(** [try { p } finally { f }], where [f] neither awaits nor throws. *)
Definition finally_async {A} (p : prog A) (f : St -> St) : prog A :=
  settle p (fun r => Await (fun _ => true) (modify f) (fun _ => Settled r)).
(** [for (const x of xs) { body }] *)
Fixpoint for_each_async {A} (xs : list A) (body : A -> prog unit) : prog unit :=
  match xs with
  | [] => mret tt
  | x :: xs' => _ ← body x; for_each_async xs' body
  end.

(** ** Running alone *)

(** One step of a function: [None] when it is settled or has to wait. *)
Definition advance {A} (p : prog A) (s : St) : option (prog A * St) :=
  match p with
  | Settled _ => None
  | Await ready m k => if ready s then let '(s', r) := m s in Some (k r, s') else None
  end.

(** All steps, when nothing else runs; [None] when it waits for ever. *)
Fixpoint run {A} (p : prog A) (s : St) : option (St * (E + A)) :=
  match p with
  | Settled r => Some (s, r)
  | Await ready m k => if ready s then let '(s', r) := m s in run (k r) s' else None
  end.

Lemma run_settle {A B} (p : prog A) (k : E + A -> prog B) s :
  run (settle p k) s = '(s', r) ← run p s; run (k r) s'.
Proof.
  revert s. induction p as [r|ready C m j IH]; intros s; [done|]. cbn [settle run].
  destruct (ready s); [|done]. destruct (m s) as [s' r]. apply IH.
Qed.

(** Running [p] alone is the computation [m]. *)
Definition runs_as {A} (p : prog A) (m : M St E A) : Prop := forall s, run p s = Some (m s).

Lemma runs_ret {A} (a : A) : runs_as (mret a) (mret a).
Proof. done. Qed.
Lemma runs_throw {A} (e : E) : runs_as (A := A) (throw_async e) (throw e).
Proof. done. Qed.
Lemma runs_await {A} (m : M St E A) : runs_as (await m) m.
Proof. intros s. cbn. by destruct (m s). Qed.
Lemma runs_bind {A B} p m (k : A -> prog B) (j : A -> M St E B) :
  runs_as p m -> (forall a, runs_as (k a) (j a)) -> runs_as (p ≫= k) (m ≫= j).
Proof.
  intros Hp Hk s. unfold mbind at 1, prog_bind. rewrite run_settle, Hp. cbn.
  unfold mbind, M_bind. destruct (m s) as [s' [e|a]]; [done|apply Hk].
Qed.
Lemma runs_catch {A} p m (h : E -> prog A) g :
  runs_as p m -> (forall e, runs_as (h e) (g e)) -> runs_as (catch_async p h) (try_catch m g).
Proof.
  intros Hp Hh s. unfold catch_async, try_catch. rewrite run_settle, Hp. cbn.
  destruct (m s) as [s' [e|a]]; [apply Hh|done].
Qed.
Lemma runs_finally {A} (p : prog A) m f :
  runs_as p m -> runs_as (finally_async p f) (try_finally m f).
Proof.
  intros Hp s. unfold finally_async, try_finally. rewrite run_settle, Hp. cbn.
  by destruct (m s).
Qed.
Lemma runs_for_each {A} (xs : list A) (body : A -> prog unit) m :
  (forall x, runs_as (body x) (m x)) -> runs_as (for_each_async xs body) (for_each xs m).
Proof.
  intros Hb. induction xs as [|x xs IH]; [apply runs_ret|]. apply runs_bind; [apply Hb|by intros _].
Qed.
Lemma runs_eq {A} (p : prog A) m m' : runs_as p m -> (forall s, m s = m' s) -> runs_as p m'.
Proof. intros Hp Hm s. by rewrite <- Hm. Qed.
End statements.
Arguments advance {St E A} !p s /.

(** Match a function to a computation, statement by statement. *)
Create HintDb runs.
#[export] Hint Resolve runs_ret runs_throw runs_await : runs.
Ltac runs_steps :=
  repeat first
    [ solve [auto with runs]
    | apply runs_bind; [|intros ?] | apply runs_catch; [|intros ?] | apply runs_finally
    | apply runs_for_each; intros ?
    | match goal with
      | |- runs_as (match ?x with _ => _ end) _ => destruct x
      | |- runs_as (let _ := _ in _) _ => cbv zeta
      end ].

(** ** A pool of functions *)
Section pool.
Context {St E A L : Type}.
Abbreviation prog := (prog St E A).

(** Calls in progress, each with what was called. *)
Record Pool := { shared : St; threads : list (L * prog) }.
Implicit Types (n : Pool) (p : prog) (l : L).

Inductive thread_step n : Pool -> Prop :=
  | thread_advances i l p p' s' :
      threads n !! i = Some (l, p) -> advance p (shared n) = Some (p', s') ->
      thread_step n {| shared := s'; threads := <[i := (l, p')]> (threads n) |}.

Definition is_settled p : bool := match p with Settled _ => true | _ => false end.
Definition all_settled n : Prop := Forall (fun th => is_settled th.2 = true) (threads n).

(** Let the functions of a schedule take one step each, in its order. *)
Definition advance_thread (i : nat) n : option Pool :=
  '(l, p) ← threads n !! i; '(p', s') ← advance p (shared n);
  Some {| shared := s'; threads := <[i := (l, p')]> (threads n) |}.
Fixpoint schedule (order : list nat) n : option Pool :=
  match order with
  | [] => Some n
  | i :: order' => n' ← advance_thread i n; schedule order' n'
  end.

Lemma schedule_steps order n n' : schedule order n = Some n' -> rtc thread_step n n'.
Proof.
  revert n. induction order as [|i order IH]; intros n; [by intros [= <-]|]. cbn [schedule].
  intros (n1 & Hn1 & Hs)%bind_Some. eapply rtc_l; [|by apply IH].
  apply bind_Some in Hn1 as ([l p] & Hi & Ha). apply bind_Some in Ha as ([p' s'] & Ha & [= <-]).
  by eapply thread_advances.
Qed.

(** Running alone is one way to interleave. *)
Lemma run_steps i l p n s' r :
  threads n !! i = Some (l, p) -> run p (shared n) = Some (s', r) ->
  rtc thread_step n {| shared := s'; threads := <[i := (l, Settled r)]> (threads n) |}.
Proof.
  revert n. induction p as [q|ready B m k IH]; intros n Hi Hr.
  - injection Hr as <- ->. rewrite list_insert_id by done. by destruct n.
  - cbn [run] in Hr. destruct (ready (shared n)) eqn:Hready; [|done].
    destruct (m (shared n)) as [s1 q] eqn:Hm. eapply rtc_l.
    { eapply (thread_advances n i l _ (k q) s1); [done|]. cbn. by rewrite Hready, Hm. }
    pose proof (lookup_lt_Some _ _ _ Hi).
    specialize (IH q {| shared := s1; threads := <[i := (l, k q)]> (threads n) |}).
    cbn [shared threads] in IH. rewrite list_insert_insert_eq in IH.
    apply IH; [by apply list_lookup_insert_eq|done].
Qed.

(** [P] is reached on every way to interleave: the pool can go on until it is. *)
Inductive inevitably (P : Pool -> Prop) n : Prop :=
  | inevitably_now : P n -> inevitably P n
  | inevitably_later : (exists n', thread_step n n') ->
      (forall n', thread_step n n' -> inevitably P n') -> inevitably P n.

(** Functions get shorter: no pool runs for ever. *)
Definition rest_of p' p : Prop :=
  match p with Settled _ => False | Await _ _ k => exists r, p' = k r end.
Lemma rest_of_wf p : Acc rest_of p.
Proof. induction p as [r|ready B m k IH]; constructor; intros q; [done|by intros [r ->]]. Qed.

Definition some_rest (ts' ts : list (L * prog)) : Prop :=
  exists i l p p', ts !! i = Some (l, p) /\ rest_of p' p /\ ts' = <[i := (l, p')]> ts.
Lemma some_rest_wf ts : Acc some_rest ts.
Proof.
  induction ts as [|[l p] ts IH].
  { constructor. intros ? (i & ? & ? & ? & ? & _). by destruct i. }
  revert ts IH. induction (rest_of_wf p) as [p _ IHp]. intros ts IH.
  induction IH as [ts Hts IHts].
  constructor. intros ? ([|i] & l' & q & q' & Hi & Hq & ->).
  - injection Hi as -> ->. apply IHp; [done|by constructor].
  - apply IHts. by exists i, l', q, q'.
Qed.

Lemma advance_rest p p' s s' : advance p s = Some (p', s') -> rest_of p' p.
Proof.
  destruct p as [r|ready B m k]; [done|]. cbn. destruct (ready s); [|done].
  destruct (m s) as [s1 r]. intros [= <- _]. by exists r.
Qed.
Lemma thread_step_rest n n' : thread_step n n' -> some_rest (threads n') (threads n).
Proof. intros [i l p p' s' Hi Ha]. exists i, l, p, p'. eauto using advance_rest. Qed.

(** A pool that can go on while it is not settled settles. *)
Lemma inevitably_settled (J : Pool -> Prop) :
  (forall n n', J n -> thread_step n n' -> J n') ->
  (forall n, J n -> all_settled n \/ exists n', thread_step n n') ->
  forall n, J n -> inevitably all_settled n.
Proof.
  intros Hk Hp n. remember (threads n) as ts eqn:Hts. revert n Hts.
  induction (some_rest_wf ts) as [ts _ IH]. intros n -> Hn.
  destruct (Hp n Hn) as [Hd|Hs]; [by apply inevitably_now|].
  apply inevitably_later; [done|]. intros n' Hs'. eapply IH; [by apply thread_step_rest|done|].
  by eapply Hk.
Qed.
End pool.
Arguments Pool : clear implicits.

(** ** Reasoning about every interleaving

    A protocol says what each function of a pool may do to the shared state and
    what it may assume the others do.  A token is what a function owns: the
    others leave that part of the state alone. *)
Class Protocol (St : Type) := {
  token : Type;
  holds : St -> Prop;                             (** between any two steps *)
  rely : token -> relation St;                    (** what the others may have done *)
  act : token -> St -> token -> St -> Prop;       (** what one step may do *)
  stuck : token -> St -> Prop;                    (** the only reason to wait *)
  over : token -> St -> Prop;                     (** when a function may settle *)
  agree : list token -> St -> Prop;               (** the tokens of a whole pool *)
  initial : token;                                (** of a function that starts *)
}.

Class ProtocolLaws (St : Type) `{Protocol St} := {
  rely_preorder :: forall t, PreOrder (rely t);
  agree_act : forall ts i t s t' s', holds s -> agree ts s -> ts !! i = Some t ->
    act t s t' s' -> holds s' ->
    agree (<[i := t']> ts) s' /\ forall j u, j <> i -> ts !! j = Some u -> rely u s s';
  agree_start : forall ts s, agree ts s -> agree (ts ++ [initial]) s;
  unstuck : forall ts i t s, holds s -> agree ts s -> ts !! i = Some t -> stuck t s ->
    exists j u, ts !! j = Some u /\ ~ stuck u s /\ ~ over u s;
}.

Section wp.
Context {St E : Type} `{ProtocolLaws St}.

(** From token [t] and state [s], whatever the others do, every step of [p]
    keeps to the protocol, and [Q] holds when it settles. *)
Fixpoint wp {A} (p : prog St E A) (Q : E + A -> token -> St -> Prop) (t : token) (s : St) : Prop :=
  match p with
  | Settled r => forall s', rely t s s' -> holds s' -> Q r t s'
  | Await ready m k => forall s', rely t s s' -> holds s' ->
      if ready s' then
        exists t', holds (fst (m s')) /\ act t s' t' (fst (m s')) /\
                   wp (k (snd (m s'))) Q t' (fst (m s'))
      else stuck t s'
  end.

(** It suffices to show it where the invariant holds. *)
Lemma wp_intro {A} (p : prog St E A) Q t s :
  (forall s', rely t s s' -> holds s' -> wp p Q t s') -> wp p Q t s.
Proof. destruct p; intros Hp s' Hr Hs; by apply (Hp s'). Qed.

Lemma wp_rely {A} (p : prog St E A) Q t s s' : rely t s s' -> wp p Q t s -> wp p Q t s'.
Proof. intros Hr. destruct p; intros Hp s'' Hr' Hs; apply Hp; try done; by etrans. Qed.

Lemma wp_mono {A} (p : prog St E A) (Q Q' : E + A -> token -> St -> Prop) t s :
  (forall r t s, holds s -> Q r t s -> Q' r t s) -> wp p Q t s -> wp p Q' t s.
Proof.
  intros HQ. revert t s. induction p as [r|ready B m k IH]; intros t s Hp s' Hr Hs.
  - by apply HQ, Hp.
  - specialize (Hp s' Hr Hs). destruct (ready s'); [|done]. destruct Hp as (t' & ? & ? & ?).
    exists t'. auto.
Qed.

Lemma wp_settle {A B} (p : prog St E A) (k : E + A -> prog St E B) Q t s :
  wp p (fun r t s => wp (k r) Q t s) t s -> wp (settle p k) Q t s.
Proof.
  revert t s. induction p as [r|ready C m j IH]; intros t s Hp; [by apply wp_intro|].
  intros s' Hr Hs. specialize (Hp s' Hr Hs). destruct (ready s'); [|done].
  destruct Hp as (t' & ? & ? & ?). exists t'. auto.
Qed.

Lemma wp_ret {A} (a : A) (Q : E + A -> token -> St -> Prop) t s :
  (forall s', rely t s s' -> holds s' -> Q (inr a) t s') -> wp (mret a) Q t s.
Proof. done. Qed.
Lemma wp_bind {A B} (p : prog St E A) (k : A -> prog St E B) Q t s :
  wp p (fun r t s => match r with
                     | inl e => wp (throw_async e) Q t s
                     | inr a => wp (k a) Q t s
                     end) t s ->
  wp (p ≫= k) Q t s.
Proof. intros Hp. apply wp_settle. eapply wp_mono; [|exact Hp]. by intros [e|a]. Qed.
Lemma wp_catch {A} (p : prog St E A) h Q t s :
  wp p (fun r t s => match r with
                     | inl e => wp (h e) Q t s
                     | inr a => wp (mret a) Q t s
                     end) t s ->
  wp (catch_async p h) Q t s.
Proof. intros Hp. apply wp_settle. eapply wp_mono; [|exact Hp]. by intros [e|a]. Qed.
Lemma wp_await {A} (m : M St E A) Q t s :
  (forall s', rely t s s' -> holds s' -> exists t', holds (fst (m s')) /\
     act t s' t' (fst (m s')) /\ wp (Settled (snd (m s'))) Q t' (fst (m s'))) ->
  wp (await m) Q t s.
Proof. done. Qed.

(** ** Pools that keep to a protocol *)
Section pool.
Context {A L : Type} (post : L -> E + A -> St -> Prop).
Abbreviation Pool := (Pool St E A L).
Implicit Types (n : Pool).

Definition thread_ok (s : St) (t : token) (th : L * prog St E A) : Prop :=
  wp th.2 (fun r t s => over t s /\ post th.1 r s) t s.
Definition pool_ok n : Prop :=
  holds (shared n) /\
  exists ts, agree ts (shared n) /\ Forall2 (thread_ok (shared n)) ts (threads n).

Lemma threads_rely ts n s' i t' th' :
  Forall2 (thread_ok (shared n)) ts (threads n) -> thread_ok s' t' th' ->
  (forall j u, j <> i -> ts !! j = Some u -> rely u (shared n) s') ->
  Forall2 (thread_ok s') (<[i := t']> ts) (<[i := th']> (threads n)).
Proof.
  intros Hts Hth Hr. apply Forall2_same_length_lookup.
  split; [by rewrite !length_insert, (Forall2_length _ _ _ Hts)|]. intros j u th Hu Hj.
  destruct (decide (j = i)) as [->|Hne].
  - apply list_lookup_insert_Some in Hu as [(_ & <- & _)|[? _]]; [|done].
    by apply list_lookup_insert_Some in Hj as [(_ & <- & _)|[? _]].
  - rewrite list_lookup_insert_ne in Hu by done. rewrite list_lookup_insert_ne in Hj by done.
    eapply wp_rely; [by eapply Hr|]. by eapply (Forall2_lookup_lr (thread_ok (shared n))).
Qed.

Lemma pool_ok_step n n' : pool_ok n -> thread_step n n' -> pool_ok n'.
Proof.
  intros (Hs & ts & Ha & Hts) [i l p p' s' Hi Hp].
  destruct (Forall2_lookup_r _ _ _ _ _ Hts Hi) as (t & Ht & Hok).
  unfold thread_ok in Hok. cbn [fst snd] in Hok. destruct p as [r|ready B m k]; [done|].
  specialize (Hok (shared n) ltac:(reflexivity) Hs). cbn in Hp.
  destruct (ready (shared n)); [|done]. destruct (m (shared n)) as [s1 r].
  injection Hp as <- <-. destruct Hok as (t' & Hs' & Hact & Hk).
  destruct (agree_act ts i t _ t' s1 Hs Ha Ht Hact Hs') as [Ha' Hr].
  split; [done|]. exists (<[i := t']> ts). split; [done|]. by apply threads_rely.
Qed.

Lemma pool_ok_progress n : pool_ok n -> all_settled n \/ exists n', thread_step n n'.
Proof.
  intros (Hs & ts & Ha & Hts).
  assert (Hstep : forall j u, ts !! j = Some u -> ~ stuck u (shared n) -> ~ over u (shared n) ->
    exists n', thread_step n n').
  { intros j u Hu Hst Hov. destruct (Forall2_lookup_l _ _ _ _ _ Hts Hu) as ([l p] & Hp & Hok).
    unfold thread_ok in Hok. cbn [fst snd] in Hok.
    destruct p as [r|ready B m k]; specialize (Hok (shared n) ltac:(reflexivity) Hs); [by destruct Hok|].
    destruct (ready (shared n)) eqn:Hready; [|done]. destruct (m (shared n)) as [s' r] eqn:Hm.
    eexists. eapply (thread_advances n j l _ (k r) s'); [done|]. cbn. by rewrite Hready, Hm. }
  destruct (decide (all_settled n)) as [|Hn]; [by left|right].
  apply not_Forall_Exists in Hn; [|apply _]. apply Exists_exists in Hn as ([l p] & Hp & Hns).
  apply list_elem_of_lookup in Hp as [i Hi].
  destruct (Forall2_lookup_r _ _ _ _ _ Hts Hi) as (t & Ht & Hok).
  unfold thread_ok in Hok. cbn [fst snd] in Hok, Hns.
  destruct p as [r|ready B m k]; [by destruct Hns|].
  specialize (Hok (shared n) ltac:(reflexivity) Hs). destruct (ready (shared n)) eqn:Hready.
  - destruct (m (shared n)) as [s' r] eqn:Hm. eexists.
    eapply (thread_advances n i l _ (k r) s'); [done|]. cbn. by rewrite Hready, Hm.
  - destruct (unstuck ts i t _ Hs Ha Ht Hok) as (j & u & Hu & ? & ?). by eapply Hstep.
Qed.

(** Whatever the schedule, every function of the pool settles. *)
Lemma pool_ok_settles n : pool_ok n -> inevitably all_settled n.
Proof. apply inevitably_settled; [apply pool_ok_step|apply pool_ok_progress]. Qed.

Lemma pool_ok_post n i l r :
  pool_ok n -> threads n !! i = Some (l, Settled r) -> post l r (shared n).
Proof.
  intros (Hs & ts & Ha & Hts) Hi. destruct (Forall2_lookup_r _ _ _ _ _ Hts Hi) as (t & _ & Hok).
  by destruct (Hok (shared n) ltac:(reflexivity) Hs).
Qed.

(** A new function joins. *)
Lemma pool_ok_start n l p :
  pool_ok n -> (forall s, holds s -> thread_ok s initial (l, p)) ->
  pool_ok {| shared := shared n; threads := threads n ++ [(l, p)] |}.
Proof.
  intros (Hs & ts & Ha & Hts) Hp. split; [done|]. exists (ts ++ [initial]). split; [by apply agree_start|].
  apply Forall2_app; [done|]. constructor; [by apply Hp|constructor].
Qed.

(** The surroundings change the state without touching what any function owns. *)
Lemma pool_ok_surroundings n s' :
  pool_ok n -> holds s' -> (forall ts, agree ts (shared n) -> agree ts s') ->
  (forall t, rely t (shared n) s') -> pool_ok {| shared := s'; threads := threads n |}.
Proof.
  intros (Hs & ts & Ha & Hts) Hs' Hag Hr. split; [done|]. exists ts. split; [by apply Hag|].
  eapply Forall2_impl; [exact Hts|]. intros t th. by apply wp_rely.
Qed.

Lemma pool_ok_empty s : holds s -> agree [] s -> pool_ok {| shared := s; threads := [] |}.
Proof. intros Hs Ha. split; [done|]. exists []. split; [done|constructor]. Qed.
End pool.
End wp.
