(* ===== verification/BreakerAsync.v ===== *)
(** * BreakerAsync: several calls through one breaker

    [src/common/utils/circuit-breaker.util.js] keeps its state in fields that
    every call in flight reads and writes.  Here [call] is a function of [Async],
    suspended while the protected function runs: between its start and its
    settling other calls may open, half open and close the breaker. *)

From S2P Require Import Prelude Num Domain Breaker Async.

Section call.
Context {St A : Type}.
Context (get : St -> CircuitBreaker) (put : CircuitBreaker -> St -> St).
Context (date_now : M St exn Z) (elapse : Z -> M St exn unit).
Context (fallback : option (exn -> M St exn A)) (fn : M St exn (Z * (exn + A))).
Abbreviation prog := (prog St exn).

(** Up to the call of the function: [Some] result of the fallback, or [None] when
    the call is let through. *)
Definition gate : M St exn (option A) :=
  b ← gets get;
  if decide (cb_state b = CircuitState.OPEN) then
    remaining ← remaining_cooldown date_now b;
    if (0 <? remaining)%Z then
      let err := CircuitBreakerOpenError (cb_name b) remaining in
      match fallback with
      | Some f => r ← f err; mret (Some r)
      | None => throw err
      end
    else
      _ ← update_breaker get put half_open;
      mret None
  else mret None.

Definition withTimeout_async : prog A :=
  b ← await (gets get);
  d ← await fn;
  if (d.1 <? cb_timeout b)%Z then
    _ ← await (elapse d.1);
    Settled d.2
  else
    _ ← await (elapse (cb_timeout b));
    throw_async (timeout_error b).

Definition fail_step (err : exn) : M St exn A :=
  b ← gets get;
  now ← (if opens b then date_now else mret 0%Z);
  _ ← update_breaker get put (onFailure now);
  throw err.

Definition guarded_async : prog A :=
  catch_async
    (r ← withTimeout_async;
     _ ← await (update_breaker get put onSuccess);
     mret r)
    (fun err => await (fail_step err)).

Definition breaker_call_async : prog A :=
  r ← await gate;
  match r with
  | Some r => mret r
  | None => guarded_async
  end.

(** Alone it is [call]. *)
Lemma guarded_alone : runs_as guarded_async (guarded get put date_now elapse fn).
Proof.
  unfold guarded_async, guarded, withTimeout_async, withTimeout, fail_step. runs_steps.
  destruct (_.2); [apply runs_throw|apply runs_ret].
Qed.
Lemma breaker_call_alone :
  runs_as breaker_call_async (call get put date_now elapse fallback fn).
Proof.
  apply (runs_eq _ (r ← gate; match r with
    | Some r => mret r | None => guarded get put date_now elapse fn end)).
  { pose proof guarded_alone. unfold breaker_call_async. runs_steps. }
  intros s. unfold call, gate. generalize (guarded get put date_now elapse fn) as m. intros m.
  unfold mbind, M_bind, gets. destruct (decide _) as [E|E]; [|done].
  destruct (remaining_cooldown date_now (get s) s) as [s1 [e|ms]]; [done|].
  destruct (0 <? ms)%Z; [|done]. destruct fallback as [f|]; [|done]. by destruct (f _ s1) as [s2 [e|r]].
Qed.
End call.

(** ** The bookkeeping in every state

    A call settles in whatever state the others have left the breaker. *)
Lemma onSuccess_any b : breaker_ok b -> breaker_ok (onSuccess b) /\ cb_options (onSuccess b) = cb_options b.
Proof.
  intros Hb. destruct (decide (cb_state b = CircuitState.OPEN)) as [E|E].
  - destruct Hb as (Ht & Hc & Hf & Hb). unfold onSuccess. rewrite E, decide_False by done.
    split; [|done]. unfold breaker_ok. rewrite E in Hb. cbn. destruct Hb as (t & ? & ?).
    split; [done|]. split; [lia|]. split; [done|]. by exists t.
  - by destruct (onSuccess_ok b E Hb) as (? & _ & _ & ?).
Qed.
Lemma onFailure_any now b :
  breaker_ok b -> breaker_ok (onFailure now b) /\ cb_options (onFailure now b) = cb_options b.
Proof.
  intros Hb. destruct (decide (cb_state b = CircuitState.OPEN)) as [E|E].
  - destruct Hb as (Ht & Hc & Hf & Hb). rewrite E in Hb. destruct Hb as (t & ? & ?).
    unfold onFailure. destruct (opens b); cbn; (split; [|done]); unfold breaker_ok; cbn;
      (split; [done|]; split; [lia|]; split; [done|]); [by eexists|]. rewrite E. by exists t.
  - by destruct (onFailure_ok now b E Hb) as (? & ? & _).
Qed.
Lemma half_open_any b :
  cb_state b = CircuitState.OPEN -> breaker_ok b ->
  breaker_ok (half_open b) /\ cb_options (half_open b) = cb_options b.
Proof.
  intros E (Ht & Hc & Hf & Hb). rewrite E in Hb. split; [|done]. unfold breaker_ok. cbn. done.
Qed.

(** ** Many calls *)
Section many.
Context {St A : Type}.
Context (get : St -> CircuitBreaker) (put : CircuitBreaker -> St -> St).
Context (date_now : M St exn Z) (elapse : Z -> M St exn unit).
Context (get_put : forall b s, get (put b s) = b).
Context (options : string * Z * Z * Z).

(** The breaker is well formed and has its options. *)
Definition breaker_holds (s : St) : Prop := breaker_ok (get s) /\ cb_options (get s) = options.

(** Calls own nothing and may do to the breaker what keeps it well formed. *)
#[local] Instance breaker_protocol : Protocol St := {|
  token := unit;
  holds := breaker_holds;
  rely := fun _ _ _ => True;
  act := fun _ _ _ _ => True;
  stuck := fun _ _ => False;
  over := fun _ _ => True;
  agree := fun _ _ => True;
  initial := tt;
|}.
#[local] Instance breaker_protocol_laws : ProtocolLaws St.
Proof. by repeat split. Qed.

Definition same_breaker (s s' : St) : Prop := get s' = get s.
#[local] Instance same_breaker_preorder : PreOrder same_breaker.
Proof. split; [done|]. unfold same_breaker. intros ??? -> ->. done. Qed.
Definition holds_on (s s' : St) : Prop := breaker_holds s -> breaker_holds s'.
#[local] Instance holds_on_preorder : PreOrder holds_on.
Proof. split; [by intros ??|]. intros s s1 s2 H1 H2 Hs. auto. Qed.

Lemma same_breaker_holds s s' : same_breaker s s' -> holds_on s s'.
Proof. unfold same_breaker, holds_on, breaker_holds. by intros ->. Qed.

(** What a call uses leaves the breaker alone. *)
Record usable (fallback : option (exn -> M St exn A)) (fn : M St exn (Z * (exn + A))) : Prop := {
  usable_fn : stays same_breaker fn;
  usable_fallback : forall f e, fallback = Some f -> stays same_breaker (f e);
}.
Context (date_now_same : stays same_breaker date_now).
Context (elapse_same : forall ms, stays same_breaker (elapse ms)).

Lemma stays_same {B} (m : M St exn B) : stays same_breaker m -> stays holds_on m.
Proof. intros Hm s. apply same_breaker_holds, Hm. Qed.

Lemma update_holds f :
  (forall b, breaker_ok b -> breaker_ok (f b) /\ cb_options (f b) = cb_options b) ->
  stays holds_on (update_breaker get put f).
Proof.
  intros Hf s [Hb Ho]. destruct (Hf (get s) Hb) as [? Ho']. split; cbn; rewrite get_put; [done|congruence].
Qed.

Lemma remaining_same b : stays same_breaker (remaining_cooldown date_now b).
Proof. unfold remaining_cooldown. stays_steps; done. Qed.

Lemma gate_holds fallback fn : usable fallback fn -> stays holds_on (gate get put date_now fallback).
Proof.
  intros Hu s. unfold gate. unfold mbind at 1, M_bind at 1, gets.
  destruct (decide (cb_state (get s) = CircuitState.OPEN)) as [E|E]; [|reflexivity].
  pose proof (remaining_same (get s) s) as Hr. unfold mbind at 1, M_bind at 1.
  destruct (remaining_cooldown date_now (get s) s) as [s1 [e|ms]]; cbn in Hr |- *;
    [by apply same_breaker_holds|]. etrans; [by apply same_breaker_holds|].
  destruct (0 <? ms)%Z.
  - destruct fallback as [f|] eqn:Ef; [|reflexivity]. pose proof (usable_fallback _ _ Hu f) as Hf.
    revert s1 Hr. intros s1 _. revert s1. fold (stays holds_on (r ← f (CircuitBreakerOpenError (cb_name (get s)) ms); mret (Some r) : M St exn (option A))).
    apply stays_bind; [apply _|by apply stays_same, Hf|intros; apply stays_ret, _].
  - intros [Hb Ho]. unfold mbind, M_bind, update_breaker, modify. cbn.
    unfold same_breaker in Hr. rewrite Hr in *. destruct (half_open_any (get s) E Hb) as [? Ho'].
    split; rewrite get_put; [done|congruence].
Qed.

Lemma wp_await_holds {B} (m : M St exn B) (k : exn + B -> prog St exn A) Q s :
  stays holds_on m -> (forall r s', wp (k r) Q tt s') -> wp (Await (fun _ => true) m k) Q tt s.
Proof. intros Hm Hk s' _ Hs. exists tt. split; [by apply Hm|]. split; [done|apply Hk]. Qed.

Lemma call_holds fallback fn s :
  usable fallback fn ->
  wp (breaker_call_async get put date_now elapse fallback fn) (fun _ _ _ => True) tt s.
Proof.
  intros Hu. assert (Hfail : forall e s', wp (await (fail_step get put date_now e : M St exn A)) (fun _ _ _ => True) tt s').
  { intros e s'. apply wp_await_holds; [|done]. unfold fail_step.
    pose proof (update_holds (onFailure 0)). assert (forall now, stays holds_on (update_breaker get put (onFailure now)))
      by (intros now; apply update_holds, onFailure_any).
    pose proof (stays_same _ date_now_same). stays_steps. }
  assert (Hg : forall s', wp (guarded_async get put date_now elapse fn) (fun _ _ _ => True) tt s').
  { intros s'. assert (Hs : forall r s2, wp (settle (Settled r : prog St exn A) (fun r => match r with
        inl e => await (fail_step get put date_now e) | inr a => Settled (inr a) end)) (fun _ _ _ => True) tt s2).
    { intros [e|a] s2; [apply Hfail|done]. }
    apply wp_await_holds; [apply stays_gets, _|]. intros [e|b] s1; [apply Hfail|].
    apply wp_await_holds; [apply stays_same, Hu|]. intros [e|d] s2; [apply Hfail|]. cbn [settle].
    destruct (d.1 <? cb_timeout b)%Z;
      (apply wp_await_holds; [apply stays_same, elapse_same|]); intros [e|[]] s3; try apply Hfail.
    cbn [settle]. destruct d.2 as [e|a]; [apply Hfail|].
    apply wp_await_holds; [apply update_holds, onSuccess_any|]. intros [e|[]] s4; [apply Hfail|done]. }
  apply wp_await_holds; [by eapply gate_holds|]. intros [e|[a|]] s1; [done|done|apply Hg].
Qed.

(** A call of the breaker, with its fallback and its function. *)
Definition Call : Type := option (exn -> M St exn A) * M St exn (Z * (exn + A)).
Abbreviation Calls := (Pool St exn A Call).

(** Calls come and take steps; [fn]s and fallbacks leave the breaker alone, and
    so does whatever else happens to the state. *)
Inductive calls_step (n : Calls) : Calls -> Prop :=
  | calls_come fallback fn : usable fallback fn ->
      calls_step n {| shared := shared n; threads := threads n ++
        [((fallback, fn), breaker_call_async get put date_now elapse fallback fn)] |}
  | calls_thread n' : thread_step n n' -> calls_step n n'
  | calls_other s' : same_breaker (shared n) s' ->
      calls_step n {| shared := s'; threads := threads n |}.

Definition calls_ok (n : Calls) : Prop := pool_ok (fun _ _ _ => True) n.

Lemma calls_step_ok n n' : calls_ok n -> calls_step n n' -> calls_ok n'.
Proof.
  intros Hn [fallback fn Hu|n1 Hs|s' Hs].
  - apply pool_ok_start; [done|]. intros s _. eapply wp_mono; [|by apply call_holds]. done.
  - by eapply pool_ok_step.
  - apply pool_ok_surroundings; [done| |done..]. by eapply same_breaker_holds, Hn.
Qed.

(** C36. The breaker survives concurrency: however many calls overlap, in whatever
    order they start, settle and time out, its fields agree with its state (closed
    below the threshold, open or half open with the time it opened), its options
    stay, and every call settles on every schedule. *)
Theorem breaker_interleaved s n :
  breaker_holds s -> rtc calls_step {| shared := s; threads := [] |} n ->
  breaker_ok (get (shared n)) /\ cb_options (get (shared n)) = options /\
  inevitably all_settled n.
Proof.
  intros Hs Hn. assert (calls_ok n) as Hok.
  { assert (Hk : forall n n', rtc calls_step n n' -> calls_ok n -> calls_ok n')
      by (induction 1; eauto using calls_step_ok).
    by apply (Hk _ _ Hn), pool_ok_empty. }
  destruct Hok as [[? ?] ?] eqn:E. split; [done|]. split; [done|]. by eapply pool_ok_settles.
Qed.
End many.

(** ** Two probes *)

(** A breaker, a clock, and how often the function was called. *)
Definition station : Type := CircuitBreaker * Z * nat.
Definition st_get (s : station) : CircuitBreaker := s.1.1.
Definition st_put (b : CircuitBreaker) (s : station) : station := (b, s.1.2, s.2).
Definition st_now : M station exn Z := gets (fun s => s.1.2).
Definition st_elapse (ms : Z) : M station exn unit := modify (fun s => (s.1.1, s.1.2 + ms, s.2)%Z).
Definition st_fn : M station exn (Z * (exn + nat)) := fun s => ((s.1, S s.2), inr (5%Z, inr s.2)).
Definition st_call : prog station exn nat :=
  breaker_call_async st_get st_put st_now st_elapse None st_fn.

(** It opened at time 0 with a cooldown of 30 s; 40 s have passed. *)
Definition cooled : station :=
  (cb_set CircuitState.OPEN 5 (Some 0%Z) (Some 30000%Z) 0
     (new_CircuitBreaker "HCM" (Some 5%Z) (Some 30000%Z) None), 40000%Z, 0%nat).
Definition two_calls : Pool station exn nat (Call (St := station) (A := nat)) :=
  {| shared := cooled; threads := [((None, st_fn), st_call); ((None, st_fn), st_call)] |}.

(** Both calls pass the half-open breaker and reach the function. *)
Example two_probes :
  match schedule [0; 1; 0; 1; 0; 1]%nat two_calls with
  | Some n => cb_state (st_get (shared n)) = CircuitState.HALF_OPEN /\ (shared n).2 = 2%nat
  | None => False
  end.
Proof. vm_compute. split; reflexivity. Qed.

Lemma breaker_interleaved_witness :
  let options := cb_options (st_get cooled) in
  breaker_ok (st_get (shared two_calls)) /\ inevitably all_settled two_calls.
Proof.
  intros options.
  assert (Hu : usable st_get (None : option (exn -> M station exn nat)) st_fn) by (split; [by intros s|done]).
  destruct (breaker_interleaved st_get st_put st_now st_elapse (fun _ _ => eq_refl) options
    (fun _ => eq_refl) (fun _ _ => eq_refl) cooled two_calls) as (Hok & _ & Hi).
  - split; [|reflexivity]. unfold breaker_ok. cbn. repeat split; try lia. exists 0%Z. done.
  - eapply rtc_l; [exact (calls_come _ _ _ _ _ None st_fn Hu)|].
    eapply rtc_l; [exact (calls_come _ _ _ _ _ None st_fn Hu)|]. apply rtc_refl.
  - exact (conj Hok Hi).
Defined.
