(* ===== verification/Process.v ===== *)
(** * Process: the service's operations, interleaved at their awaits

    [TimeOff], [HcmSync] and [Balance] run an operation to its end.  Here each of
    them is a [prog]: every database statement outside a transaction, every
    transaction, every call of HCM and every reading of the clock is a step of
    its own, and the operations of a running process take their steps in any
    order.  [_withCreateLock] waits as in [CreateLock].  The callbacks that
    [setImmediate] queued join the pool, and the process may crash: then the
    database is all that is left.

    A transaction is one step, as its isolation level [SERIALIZABLE] promises; a
    call of HCM is one step because all it changes are the clock and the breaker,
    which may change between any two steps. *)

From S2P Require Import Prelude Num Domain Store Entities World Breaker Dates Balance Hash HcmApi TimeOff.
From S2P Require Import HcmSync Lifecycle CreateLock Async.

(** The process: what the services share, and the promises of [_withCreateLock]. *)
Record Process (Tbl : Type -> Type) := {
  p_world : World Tbl;
  p_calls : list lock_call;
}.
Arguments p_world {Tbl} _.
Arguments p_calls {Tbl} _.

Section process.
Context {Tbl : Type -> Type}.
Abbreviation Process := (Process Tbl).
Abbreviation M A := (M (World Tbl) exn A).
Abbreviation prog := (prog Process exn).
Implicit Types (P : Process) (key hash : string).

Definition set_world (w : World Tbl) P : Process := {| p_world := w; p_calls := p_calls P |}.

(** A computation on the shared world, in the process. *)
Definition lift {A} (m : M A) : Prelude.M Process exn A := fun P =>
  (set_world (fst (m (p_world P))) P, snd (m (p_world P))).
Definition awaits {A} (m : M A) : prog A := await (lift m).

(** ** [_withCreateLock(lockKey, fn)] *)
Definition lock_state P : LockState :=
  {| calls := p_calls P; createLocks := w_createLocks (p_world P) |}.
Definition with_lock (s : LockState) (promises : nat) P : Process :=
  {| p_world := set_createLocks (createLocks s) promises (p_world P); p_calls := calls s |}.

(** Up to [await previous]: the number of the call. *)
Definition enqueue_gate (lockKey : string) : Prelude.M Process exn nat := fun P =>
  (with_lock (enqueue_call lockKey (lock_state P)) (S (w_promises (p_world P))) P,
   inr (length (p_calls P))).
(** [previous] is settled. *)
Definition my_turn (i : nat) P : bool :=
  match p_calls P !! i with
  | Some c => previous_settled (p_calls P) c
  | None => false
  end.
Definition enter_gate (i : nat) P : Process :=
  with_lock (enter i (lock_state P)) (w_promises (p_world P)) P.
Definition leave_gate (i : nat) (lockKey : string) P : Process :=
  with_lock (leave i lockKey (lock_state P)) (w_promises (p_world P)) P.

Definition withCreateLock_async {A} (lockKey : string) (fn : prog A) : prog A :=
  i ← await (enqueue_gate lockKey);
  _ ← Await (my_turn i) (modify (enter_gate i)) Settled;
  finally_async fn (leave_gate i lockKey).

Section services.
Context `{Repo Tbl} `{TxManager Tbl} `{HcmApi Tbl} `{Env} `{Config} `{Engine} `{Crypto}.

(** ** [TimeOffService.createRequest] *)
Definition checkIdempotency_async (idempotencyKey requestHash : string) : prog (option RequestView) :=
  existing ← awaits (findOne_idempotency (fun i => bool_decide (i_idempotencyKey i = idempotencyKey)));
  match existing with
  | None => mret None
  | Some existing =>
      now ← awaits date_now;
      if (i_expiresAt existing <? now)%Z then mret None
      else if decide (i_requestHash existing = requestHash)
      then mret (Some (i_responseBody existing))
      else throw_async (ConflictException ErrorCodes.IDEMPOTENCY_CONFLICT)
  end.

Definition recoverAfterConstraint_async (idempotencyKey requestHash : string) :
    prog (option RequestView) :=
  cached ← checkIdempotency_async idempotencyKey requestHash;
  match cached with
  | Some cached => mret (Some cached)
  | None =>
      existingRequest ← awaits
        (findOne_request (fun r => bool_decide (r_idempotencyKey r = idempotencyKey)));
      mret (serializeRequest <$> existingRequest)
  end.

Fixpoint create_retry_async {A} (runTx : prog A) (left : nat) (attempt : Z) : prog A :=
  match left with
  | O => throw_async ThrownUndefined
  | S left' =>
      catch_async runTx (fun err =>
        if negb (isSqliteTransientTxError err) || (attempt =? 3)%Z then throw_async err
        else _ ← awaits (sleep (5 * attempt)); create_retry_async runTx left' (attempt + 1))
  end.

Definition create_recover_async (idempotencyKey requestHash : string) (err : exn) :
    prog RequestView :=
  let on_transient :=
    if isSqliteTransientTxError err then
      recovered ← recoverAfterConstraint_async idempotencyKey requestHash;
      match recovered with
      | Some recovered => mret recovered
      | None => throw_async (ConflictException ErrorCodes.BALANCE_CONFLICT)
      end
    else throw_async err in
  if isSqliteConstraintError err then
    recovered ← recoverAfterConstraint_async idempotencyKey requestHash;
    match recovered with
    | Some recovered => mret recovered
    | None => on_transient
    end
  else on_transient.

Definition create_locked_async (dto : CreateDto) (idempotencyKey requestHash : string)
    (daysRequested : num) : prog RequestView :=
  lockedIdempotencyCheck ← checkIdempotency_async idempotencyKey requestHash;
  match lockedIdempotencyCheck with
  | Some cached => mret cached
  | None =>
      catch_async
        (createdRequest ← create_retry_async
           (awaits (transaction (create_tx dto idempotencyKey requestHash daysRequested))) 3 1;
         _ ← awaits (notifyHcmAsync (r_id createdRequest) (d_employeeId dto) (d_locationId dto)
               (d_leaveType dto) daysRequested);
         mret (serializeRequest createdRequest))
        (create_recover_async idempotencyKey requestHash)
  end.

Definition createRequest_async (dto : CreateDto) (idempotencyKey : option string) :
    prog RequestView :=
  match idempotencyKey with
  | None | Some "" => throw_async (BadRequestException "MISSING_IDEMPOTENCY_KEY")
  | Some idempotencyKey =>
      notInPast ← awaits (isNotInPast (d_startDate dto));
      if negb notInPast then
        throw_async (UnprocessableEntityException "INVALID_DATE_RANGE")
      else if tv_lt (Date_midnight (d_endDate dto)) (Date_midnight (d_startDate dto)) then
        throw_async (UnprocessableEntityException "INVALID_DATE_RANGE")
      else
        let daysRequested := calculateDaysRequested (d_startDate dto) (d_endDate dto) in
        let requestHash := hashObject (dto_json dto) in
        idempotencyCheck ← checkIdempotency_async idempotencyKey requestHash;
        match idempotencyCheck with
        | Some cached => mret cached
        | None =>
            withCreateLock_async (d_employeeId dto +:+ ":" +:+ d_locationId dto)
              (create_locked_async dto idempotencyKey requestHash daysRequested)
        end
  end.

(** ** The callbacks of [TimeOffService] *)
Definition run_NotifyHcm_async (requestId employeeId locationId leaveType : string)
    (daysRequested : num) : prog unit :=
  catch_async
    (result ← awaits (api_validateRequest employeeId locationId leaveType daysRequested);
     if is_null result then
       now ← awaits date_now;
       awaits (update_request requestId (sync_patch HcmSyncStatus.PENDING None (Some 1%Z) (Some now)))
     else if decide (valid_of result = Some false) then
       now ← awaits date_now;
       awaits (update_request requestId
                 (sync_patch HcmSyncStatus.FAILED (Some false) (Some 1%Z) (Some now)))
     else
       now ← awaits date_now;
       awaits (update_request requestId
                 (sync_patch HcmSyncStatus.SUCCESS (Some true) (Some 1%Z) (Some now))))
    (fun _ => awaits (update_request requestId
                        (sync_patch HcmSyncStatus.PENDING None (Some 1%Z) None))).

Definition run_NotifyApproval_async (request : TimeOffRequest) (requestId : string) : prog unit :=
  let attempts := (r_hcmSyncAttempts request + 1)%Z in
  let days := parseFloat (r_daysRequested request) in
  let finish (isValidated : bool) : prog unit :=
    res ← awaits (api_notifyApproval (r_employeeId request) (r_locationId request)
                    (r_leaveType request) days requestId);
    now ← awaits date_now;
    if negb (is_null res) && negb (bool_decide (success_of res = Some false)) then
      awaits (update_request requestId
                (sync_patch HcmSyncStatus.SUCCESS (Some isValidated) (Some attempts) (Some now)))
    else
      awaits (update_request requestId
                (sync_patch HcmSyncStatus.PENDING (Some isValidated) (Some attempts) (Some now))) in
  catch_async
    (if r_hcmValidated request then finish true
     else
       validation ← awaits (api_validateRequest (r_employeeId request) (r_locationId request)
                              (r_leaveType request) days);
       if is_null validation then
         now ← awaits date_now;
         awaits (update_request requestId
                   (sync_patch HcmSyncStatus.PENDING None (Some attempts) (Some now)))
       else if decide (valid_of validation = Some true) then finish true
       else
         now ← awaits date_now;
         awaits (update_request requestId
                   (sync_patch HcmSyncStatus.FAILED (Some false) (Some attempts) (Some now))))
    (fun _ =>
       now ← awaits date_now;
       awaits (update_request requestId
                 (sync_patch HcmSyncStatus.PENDING None (Some attempts) (Some now)))).

(** ** [BalanceService.upsertBalance] *)
Definition upsertBalance_async (employeeId locationId leaveType : string) (totalBalance : num) :
    prog BalanceView :=
  existing ← awaits (findOne_balance (where_key employeeId locationId leaveType));
  match existing with
  | Some existing => awaits (serialize existing)
  | None =>
      let total := parseFloat totalBalance in
      now ← awaits date_now;
      saved ← awaits (save_balance (new_balance employeeId locationId leaveType total now None));
      awaits (serialize saved)
  end.

(** ** The retry worker of [HcmSyncService] *)
Definition updateSyncAttempt_async (request : TimeOffRequest) (s : HcmSyncStatus.t)
    (v : option bool) : prog unit :=
  now ← awaits date_now;
  awaits (update_request (r_id request)
            (sync_patch s v (Some (r_hcmSyncAttempts request + 1)%Z) (Some now))).

Definition retryValidationOnly_async (request : TimeOffRequest) : prog unit :=
  validation ← (if r_hcmValidated request then mret (HValue (Some true) None)
                else awaits (api_validateRequest (r_employeeId request) (r_locationId request)
                               (r_leaveType request) (parseFloat (r_daysRequested request))));
  if is_null validation then updateSyncAttempt_async request HcmSyncStatus.PENDING None
  else if decide (valid_of validation = Some true) then
    updateSyncAttempt_async request HcmSyncStatus.SUCCESS (Some true)
  else updateSyncAttempt_async request HcmSyncStatus.FAILED (Some false).

Definition retry_approval_async (request : TimeOffRequest) (isValidated : bool) : prog unit :=
  approval ← awaits (api_notifyApproval (r_employeeId request) (r_locationId request)
                       (r_leaveType request) (parseFloat (r_daysRequested request)) (r_id request));
  if negb (is_null approval) && negb (bool_decide (success_of approval = Some false))
  then updateSyncAttempt_async request HcmSyncStatus.SUCCESS (Some isValidated)
  else updateSyncAttempt_async request HcmSyncStatus.PENDING (Some isValidated).

Definition retryApprovalFlow_async (request : TimeOffRequest) : prog unit :=
  if r_hcmValidated request then retry_approval_async request true
  else
    validation ← awaits (api_validateRequest (r_employeeId request) (r_locationId request)
                           (r_leaveType request) (parseFloat (r_daysRequested request)));
    if is_null validation then updateSyncAttempt_async request HcmSyncStatus.PENDING None
    else if decide (valid_of validation = Some true) then retry_approval_async request true
    else updateSyncAttempt_async request HcmSyncStatus.FAILED (Some false).

Definition retry_one_async (request : TimeOffRequest) : prog unit :=
  if (MAX_PENDING_SYNC_RETRIES <=? r_hcmSyncAttempts request)%Z then
    now ← awaits date_now;
    awaits (update_request (r_id request) (sync_patch HcmSyncStatus.FAILED None None (Some now)))
  else
    catch_async
      (match r_status request with
       | RequestStatus.REJECTED | RequestStatus.CANCELLED =>
           updateSyncAttempt_async request HcmSyncStatus.SKIPPED None
       | RequestStatus.PENDING => retryValidationOnly_async request
       | RequestStatus.APPROVED => retryApprovalFlow_async request
       | RequestStatus.Other _ => updateSyncAttempt_async request HcmSyncStatus.FAILED None
       end)
      (fun _ => updateSyncAttempt_async request HcmSyncStatus.PENDING None).

Definition retryPendingHcmSyncs_async : prog unit :=
  pendingRequests ← awaits (findBy_requests
    (fun r => bool_decide (r_hcmSyncStatus r = HcmSyncStatus.PENDING)) retry_order (Some 50) 0);
  for_each_async pendingRequests retry_one_async.

(** ** The batch run of [HcmSyncService] *)
Definition reconcileWith_async (hcmRecord : HcmRecord) (localBalance : option EmployeeBalance) :
    prog bool :=
  let hcmTotal := parseFloat (h_totalBalance hcmRecord) in
  let version := or_null (h_version hcmRecord) in
  match localBalance with
  | None =>
      now ← awaits date_now;
      _ ← awaits (save_balance (new_balance (h_employeeId hcmRecord) (h_locationId hcmRecord)
                                  (h_leaveType hcmRecord) hcmTotal now version));
      mret true
  | Some localBalance =>
      let localUsed := parseFloat (b_usedBalance localBalance) in
      let localPending := parseFloat (b_pendingBalance localBalance) in
      let localAvailable := parseFloat (b_availableBalance localBalance) in
      let localTotal := (localUsed +. localPending +. localAvailable)%num in
      let drift := (hcmTotal -. localTotal)%num in
      if (nabs drift <=. DRIFT_TOLERANCE)%num then
        now ← awaits date_now;
        _ ← awaits (update_balance (b_id localBalance)
              (b_with_hcm hcmTotal (Some now) version false None));
        mret false
      else if (DRIFT_TOLERANCE <. drift)%num then
        let newAvailable := (localAvailable +. drift)%num in
        now ← awaits date_now;
        _ ← awaits (update_balance (b_id localBalance) (fun b =>
              b_with_hcm hcmTotal (Some now) version false None
                (b_set_totalBalance hcmTotal (b_set_availableBalance newAvailable b))));
        mret true
      else
        now ← awaits date_now;
        _ ← awaits (update_balance (b_id localBalance)
              (b_with_hcm hcmTotal (Some now) version true (Some (nabs drift))));
        mret true
  end.

Definition reconcileRecord_async (hcmRecord : HcmRecord) : prog bool :=
  localBalance ← awaits (findOne_balance (where_key (h_employeeId hcmRecord)
                           (h_locationId hcmRecord) (h_leaveType hcmRecord)));
  reconcileWith_async hcmRecord localBalance.

Fixpoint reconcile_loop_async (hcmBalances : list HcmRecord) (c : Counts) : prog Counts :=
  match hcmBalances with
  | [] => mret c
  | hcmRecord :: rest =>
      c' ← catch_async
             (updated ← reconcileRecord_async hcmRecord; mret (count_ok updated c))
             (fun err => mret (count_failed (h_key hcmRecord) (message_of err) c));
      reconcile_loop_async rest c'
  end.

Fixpoint missing_loop_async (hcmKeySet : list string) (localBalances : list EmployeeBalance)
    (c : Counts) : prog (Counts * option exn) :=
  match localBalances with
  | [] => mret (c, None)
  | local :: rest =>
      if bool_decide (batch_key (b_key local) ∈ hcmKeySet) then missing_loop_async hcmKeySet rest c
      else
        let c' := count_failed (b_key local) "Balance missing from HCM batch payload" c in
        stopped ← catch_async
          (now ← awaits date_now;
           _ ← awaits (update_balance (b_id local) (flag_missing local now));
           mret None)
          (fun err => mret (Some err));
        match stopped with
        | Some err => mret (c', Some err)
        | None => missing_loop_async hcmKeySet rest c'
        end
  end.

Definition finish_log_async (i : string) (status : SyncLogStatus.t) (c : Counts)
    (errorDetails : option (list SyncError)) : prog unit :=
  now ← awaits date_now;
  awaits (update_syncLog i (l_with_outcome status (c_processed c) (c_updated c) (c_failed c)
                              errorDetails (Some now))).

Definition fail_log_async (i : string) (c : Counts) (err : exn) : prog unit :=
  finish_log_async i SyncLogStatus.FAILED c
    (Some [{| se_key := None; se_error := message_of err |}]).

Definition batch_body_async (syncLogId : string) : prog unit :=
  data ← catch_async (data ← awaits (api_getBatchBalances None); mret (inr data))
           (fun err => mret (inl err));
  match data with
  | inl err => fail_log_async syncLogId no_counts err
  | inr (HArray hcmBalances) =>
      let hcmKeySet := (fun r => batch_key (h_key r)) <$> hcmBalances in
      c ← reconcile_loop_async hcmBalances no_counts;
      localBalances ← awaits (find_balances (fun _ => true));
      res ← missing_loop_async hcmKeySet localBalances c;
      match res with
      | (c, Some err) => fail_log_async syncLogId c err
      | (c, None) =>
          catch_async
            (finish_log_async syncLogId (finalStatus c) c
               (match c_errors c with [] => None | errors => Some errors end))
            (fail_log_async syncLogId c)
      end
  | inr _ => fail_log_async syncLogId no_counts
           (JsError "HCM batch endpoint returned invalid or empty response")
  end.

Definition clear_batch P : Process := set_world (set_batchRunning false (p_world P)) P.

(** The flag is read and set before the first [await]. *)
Definition claim_batch : M bool := fun w => (set_batchRunning true w, inr (w_batchRunning w)).

Definition runBatchSync_async : prog unit :=
  running ← awaits claim_batch;
  if running : bool then mret tt
  else
    now ← awaits date_now;
    syncLog ← awaits (save_syncLog (new_syncLog now));
    finally_async (batch_body_async (l_id syncLog)) clear_batch.
End services.
End process.

(** ** The calls of a process *)
Inductive Call :=
  | CreateRequest (dto : CreateDto) (idempotencyKey : option string)
  | Decide (d : Decision) (requestId : string)
  | UpsertBalance (employeeId locationId leaveType : string) (totalBalance : num)
  | RealTimeUpdate (employeeId locationId leaveType : string) (hcmData : HcmBalance)
  | RunBatch                     (* the nightly schedule *)
  | TriggerBatch
  | RetryWorker                  (* the schedule of the worker *)
  | Callback (t : Task).         (* [setImmediate] *)

Section calls.
Context {Tbl : Type -> Type} `{Repo Tbl} `{TxManager Tbl} `{HcmApi Tbl}.
Context `{Env} `{Config} `{Engine} `{Crypto}.
Abbreviation prog := (prog (Process Tbl) exn).
Implicit Types (P : Process Tbl) (c : Call).

(** A call answers with a request, or with something else. *)
Definition answer (p : prog RequestView) : prog (option RequestView) := v ← p; mret (Some v).
Definition silent {A} (p : prog A) : prog (option RequestView) := _ ← p; mret None.

Definition task_async (t : Task) : prog unit :=
  match t with
  | NotifyHcm i e l y d => run_NotifyHcm_async i e l y d
  | NotifyApproval q i => run_NotifyApproval_async q i
  | RunBatchSync => runBatchSync_async
  end.

Definition call_async c : prog (option RequestView) :=
  match c with
  | CreateRequest dto okey => answer (createRequest_async dto okey)
  | Decide d i => answer (awaits (decide_request d i))
  | UpsertBalance e l y total => silent (upsertBalance_async e l y total)
  | RealTimeUpdate e l y hb => silent (awaits (transaction (applyHcmRealTimeUpdate e l y hb)))
  | RunBatch => silent runBatchSync_async
  | TriggerBatch => silent (awaits triggerManualBatchSync)
  | RetryWorker => silent retryPendingHcmSyncs_async
  | Callback t => silent (task_async t)
  end.

(** The operation of the service, run to its end. *)
Definition answer_seq (m : M (World Tbl) exn RequestView) : M (World Tbl) exn (option RequestView) :=
  v ← m; mret (Some v).
Definition silent_seq {A} (m : M (World Tbl) exn A) : M (World Tbl) exn (option RequestView) :=
  _ ← m; mret None.
Definition call_seq c : M (World Tbl) exn (option RequestView) :=
  match c with
  | CreateRequest dto okey => answer_seq (createRequest dto okey)
  | Decide d i => answer_seq (decide_request d i)
  | UpsertBalance e l y total => silent_seq (upsertBalance e l y total)
  | RealTimeUpdate e l y hb => silent_seq (transaction (applyHcmRealTimeUpdate e l y hb))
  | RunBatch => silent_seq runBatchSync
  | TriggerBatch => silent_seq triggerManualBatchSync
  | RetryWorker => silent_seq retryPendingHcmSyncs
  | Callback (NotifyHcm i e l y d) => silent_seq (run_NotifyHcm i e l y d)
  | Callback (NotifyApproval q i) => silent_seq (run_NotifyApproval q i)
  | Callback RunBatchSync => silent_seq runBatchSync
  end.

(** ** Steps of a process *)
Abbreviation Node := (Pool (Process Tbl) exn (option RequestView) Call).

(** A restart keeps the database and nothing else. *)
Definition restarted (d : Db Tbl) (now : Z) (tick : nat) (b : CircuitBreaker) : Process Tbl :=
  {| p_world := {| w_db := d; w_now := now; w_tick := tick; w_immediates := []; w_breaker := b;
                   w_createLocks := ∅; w_promises := 0; w_batchRunning := false |};
     p_calls := [] |}.

Definition start (s : Process Tbl) (ts : list (Call * prog (option RequestView))) c : Node :=
  {| shared := s; threads := ts ++ [(c, call_async c)] |}.

(** [admissible] says which calls may come; a callback may start when
    [startable] allows it. *)
Inductive node_step (admissible : Call -> Prop) (startable : Task -> Prop) (n : Node) : Node -> Prop :=
  | node_call c : admissible c -> node_step _ _ n (start (shared n) (threads n) c)
  | node_thread n' : thread_step n n' -> node_step _ _ n n'
  | node_immediate t ts :
      w_immediates (p_world (shared n)) = t :: ts -> startable t ->
      node_step _ _ n (start (set_world (set_immediates ts (p_world (shared n))) (shared n))
                         (threads n) (Callback t))
  | node_time w' :
      quiet (p_world (shared n)) w' ->
      node_step _ _ n {| shared := set_world w' (shared n); threads := threads n |}
  | node_crash now tick b :
      (w_now (p_world (shared n)) <= now)%Z ->
      node_step _ _ n {| shared := restarted (w_db (p_world (shared n))) now tick b;
                         threads := [] |}.

(** ** A call that runs alone

    Without interference an interleaved operation is the operation of [TimeOff],
    [Balance] or [HcmSync]. *)
Definition runs_like {A} (p : prog A) (m : M (World Tbl) exn A) : Prop := runs_as p (lift m).

Lemma runs_like_awaits {A} (m : M (World Tbl) exn A) : runs_like (awaits m) m.
Proof. apply runs_await. Qed.
Lemma runs_like_ret {A} (a : A) : runs_like (mret a) (mret a).
Proof. by intros [w cs]. Qed.
Lemma runs_like_throw {A} e : runs_like (A := A) (throw_async e) (throw e).
Proof. by intros [w cs]. Qed.
Lemma runs_like_bind {A B} (p : prog A) m (k : A -> prog B) j :
  runs_like p m -> (forall a, runs_like (k a) (j a)) -> runs_like (p ≫= k) (m ≫= j).
Proof.
  intros Hp Hk.
  apply (runs_eq _ (lift m ≫= fun a => lift (j a))); [by apply runs_bind|]. intros P.
  unfold mbind, M_bind, lift. by destruct (m (p_world P)) as [w [e|a]].
Qed.
Lemma runs_like_catch {A} (p : prog A) m h g :
  runs_like p m -> (forall e, runs_like (h e) (g e)) -> runs_like (catch_async p h) (try_catch m g).
Proof.
  intros Hp Hh.
  apply (runs_eq _ (try_catch (lift m) (fun e => lift (g e)))); [by apply runs_catch|]. intros P.
  unfold try_catch, lift. by destruct (m (p_world P)) as [w [e|a]].
Qed.
Lemma runs_like_finally {A} (p : prog A) m (f : World Tbl -> World Tbl) :
  runs_like p m ->
  runs_like (finally_async p (fun P => set_world (f (p_world P)) P)) (try_finally m f).
Proof.
  intros Hp. eapply runs_eq; [by apply runs_finally|]. intros P.
  unfold try_finally, lift. by destruct (m (p_world P)) as [w r].
Qed.
Lemma runs_like_for_each {A} (xs : list A) (body : A -> prog unit) m :
  (forall x, runs_like (body x) (m x)) -> runs_like (for_each_async xs body) (for_each xs m).
Proof.
  intros Hb. induction xs as [|x xs IH]; [apply runs_like_ret|].
  apply runs_like_bind; [apply Hb|by intros _].
Qed.
End calls.
#[export] Hint Resolve runs_like_awaits runs_like_ret runs_like_throw : runs.

Ltac alone_steps :=
  repeat first
    [ solve [auto with runs]
    | apply runs_like_bind; [|intros ?] | apply runs_like_catch; [|intros ?]
    | apply runs_like_for_each; intros ?
    | match goal with
      | |- runs_like (match ?x with _ => _ end) _ => destruct x
      | |- runs_like (let _ := _ in _) _ => cbv zeta
      end ].

Section alone.
Context {Tbl : Type -> Type} `{Repo Tbl} `{TxManager Tbl} `{HcmApi Tbl}.
Context `{Env} `{Config} `{Engine} `{Crypto}.
Abbreviation prog := (prog (Process Tbl) exn).
Implicit Types (P : Process Tbl) (c : Call).

Lemma checkIdempotency_alone key hash :
  runs_like (checkIdempotency_async key hash) (checkIdempotency key hash).
Proof. unfold checkIdempotency_async, checkIdempotency. alone_steps. Qed.
#[local] Hint Resolve checkIdempotency_alone : runs.
Lemma recoverAfterConstraint_alone key hash :
  runs_like (recoverAfterConstraint_async key hash) (recoverAfterConstraint key hash).
Proof. unfold recoverAfterConstraint_async, recoverAfterConstraint. alone_steps. Qed.
#[local] Hint Resolve recoverAfterConstraint_alone : runs.
Lemma create_retry_alone {A} (p : prog A) m left attempt :
  runs_like p m -> runs_like (create_retry_async p left attempt) (create_retry_loop m left attempt).
Proof.
  intros Hp. revert attempt. induction left as [|left IH]; intros attempt;
    cbn [create_retry_async create_retry_loop]; alone_steps.
Qed.
#[local] Hint Resolve create_retry_alone : runs.
Lemma create_recover_alone key hash e :
  runs_like (create_recover_async key hash e) (create_recover key hash e).
Proof. unfold create_recover_async, create_recover. alone_steps. Qed.
#[local] Hint Resolve create_recover_alone : runs.
Lemma create_locked_alone dto key hash days :
  runs_like (create_locked_async dto key hash days) (create_locked dto key hash days).
Proof. unfold create_locked_async, create_locked, runCreateTransactionWithRetry. alone_steps. Qed.

Lemma run_NotifyHcm_alone i e l y d :
  runs_like (run_NotifyHcm_async i e l y d) (run_NotifyHcm i e l y d).
Proof. unfold run_NotifyHcm_async, run_NotifyHcm. alone_steps. Qed.
Lemma run_NotifyApproval_alone q i :
  runs_like (run_NotifyApproval_async q i) (run_NotifyApproval q i).
Proof. unfold run_NotifyApproval_async, run_NotifyApproval. alone_steps. Qed.
Lemma upsertBalance_alone e l y d :
  runs_like (upsertBalance_async e l y d) (upsertBalance e l y d).
Proof. unfold upsertBalance_async, upsertBalance. alone_steps. Qed.

Lemma updateSyncAttempt_alone q s v :
  runs_like (updateSyncAttempt_async q s v) (updateSyncAttempt q s v).
Proof. unfold updateSyncAttempt_async, updateSyncAttempt. alone_steps. Qed.
#[local] Hint Resolve updateSyncAttempt_alone : runs.
Lemma retry_approval_alone q v :
  runs_like (retry_approval_async q v) (retry_approval q v).
Proof. unfold retry_approval_async, retry_approval. alone_steps. Qed.
#[local] Hint Resolve retry_approval_alone : runs.
Lemma retry_one_alone q : runs_like (retry_one_async q) (retry_one q).
Proof.
  unfold retry_one_async, retry_one, retryValidationOnly_async, retryValidationOnly,
    retryApprovalFlow_async, retryApprovalFlow. alone_steps.
Qed.
#[local] Hint Resolve retry_one_alone : runs.
Lemma retryPendingHcmSyncs_alone : runs_like retryPendingHcmSyncs_async retryPendingHcmSyncs.
Proof. unfold retryPendingHcmSyncs_async, retryPendingHcmSyncs. alone_steps. Qed.

Lemma reconcileRecord_alone h : runs_like (reconcileRecord_async h) (reconcileRecord h).
Proof.
  unfold reconcileRecord_async, reconcileRecord, reconcileWith_async, reconcileWith. alone_steps.
Qed.
#[local] Hint Resolve reconcileRecord_alone : runs.
Lemma reconcile_loop_alone hs k : runs_like (reconcile_loop_async hs k) (reconcile_loop hs k).
Proof.
  revert k. induction hs as [|h hs IH]; intros k; cbn [reconcile_loop_async reconcile_loop]; alone_steps.
Qed.
Lemma missing_loop_alone keys bs k :
  runs_like (missing_loop_async keys bs k) (missing_loop keys bs k).
Proof.
  revert k. induction bs as [|b bs IH]; intros k; cbn [missing_loop_async missing_loop]; alone_steps.
Qed.
#[local] Hint Resolve reconcile_loop_alone missing_loop_alone : runs.
Lemma batch_body_alone i : runs_like (batch_body_async i) (batch_body i).
Proof.
  unfold batch_body_async, batch_body, fail_log_async, fail_log, finish_log_async, finish_log. alone_steps.
Qed.
#[local] Hint Resolve batch_body_alone : runs.
Lemma runBatchSync_alone : runs_like runBatchSync_async runBatchSync.
Proof.
  apply (runs_eq _ (lift (running ← claim_batch;
    if running : bool then mret tt else
    now ← date_now; syncLog ← save_syncLog (new_syncLog now);
    try_finally (batch_body (l_id syncLog)) (set_batchRunning false)))).
  - unfold runBatchSync_async. alone_steps. by apply (runs_like_finally _ _ (set_batchRunning false)), batch_body_alone.
  - intros [w cs]. unfold lift. cbn [p_world].
    assert ((running ← claim_batch;
      if running : bool then mret tt else
      now ← date_now; syncLog ← save_syncLog (new_syncLog now);
      try_finally (batch_body (l_id syncLog)) (set_batchRunning false)) w = runBatchSync w) as ->; [|done].
    unfold runBatchSync, batchRunning, claim_batch, mbind, M_bind, gets.
    destruct (w_batchRunning w) eqn:Hb; [|done]. by destruct w; cbn in *; subst.
Qed.
#[local] Hint Resolve runBatchSync_alone retryPendingHcmSyncs_alone run_NotifyHcm_alone
  run_NotifyApproval_alone upsertBalance_alone : runs.

(** No creation holds or awaits the lock [key]. *)
Definition unheld (key : string) P : Prop :=
  w_createLocks (p_world P) !! key = None /\ w_promises (p_world P) = length (p_calls P).

(** From [P], running [p] alone is [m]. *)
Definition alone_at {A} P (p : prog A) (m : M (World Tbl) exn A) : Prop :=
  exists cs, run p P =
    Some ({| p_world := fst (m (p_world P)); p_calls := cs |}, snd (m (p_world P))).

Lemma alone_at_like {A} P (p : prog A) m : runs_like p m -> alone_at P p m.
Proof. intros Hp. exists (p_calls P). apply Hp. Qed.
Lemma alone_at_bind {A B} P (p : prog A) m (k : A -> prog B) j :
  runs_like p m ->
  (forall w a, m (p_world P) = (w, inr a) -> alone_at (set_world w P) (k a) (j a)) ->
  alone_at P (p ≫= k) (m ≫= j).
Proof.
  intros Hp Hk. unfold alone_at, mbind, prog_bind, M_bind. rewrite run_settle, Hp. unfold lift. cbn.
  destruct (m (p_world P)) as [w [e|a]]; [by eexists|]. exact (Hk w a eq_refl).
Qed.

Lemma withCreateLock_alone {A} key (p : prog A) m P :
  runs_like p m -> unheld key P -> alone_at P (withCreateLock_async key p) (withCreateLock key m).
Proof.
  intros Hp [Hk Hn]. destruct P as [w cs]. cbn in Hk, Hn.
  set (c := {| lockKey := key; previous := None; doing := Waiting |}).
  set (i := length cs) in *.
  assert (Hci : (cs ++ [c]) !! i = Some c) by by apply list_lookup_middle.
  set (w1 := set_createLocks (<[key := i]> (w_createLocks w)) (S (w_promises w)) w).
  set (P1 := {| p_world := w1; p_calls := alter (set_phase Running) i (cs ++ [c]) |}).
  assert (Hrun : run (withCreateLock_async key p) {| p_world := w; p_calls := cs |} =
    run (finally_async p (leave_gate i key)) P1).
  { unfold withCreateLock_async, enqueue_gate, enqueue_call, lock_state.
    cbn [run settle await mbind prog_bind with_lock calls createLocks p_world p_calls]. rewrite Hk. fold c i.
    unfold my_turn. cbn [with_lock p_calls calls]. rewrite Hci. by cbn [previous_settled c previous]. }
  unfold alone_at. rewrite Hrun, (runs_finally _ _ _ Hp P1). unfold try_finally, lift, withCreateLock, try_finally.
  cbn [P1 p_world p_calls].
  replace (set_createLocks (<[key := w_promises w]> (w_createLocks w)) (S (w_promises w)) w)
    with w1 by (unfold w1; by rewrite Hn).
  destruct (m w1) as [w2 r]. cbn [fst snd]. eexists. apply (f_equal Some), (f_equal (fun x => (x, r))).
  unfold leave_gate, with_lock, leave, lock_state. cbn [calls createLocks p_world p_calls set_world].
  rewrite Hn. fold i. f_equal. case_decide; [reflexivity|]. by destruct w2.
Qed.

Lemma later_unheld key P w : unheld key P -> later (p_world P) w -> unheld key (set_world w P).
Proof. by intros [? ?] (n & t & -> & _). Qed.
Lemma checkIdempotency_later key hash : stays later (checkIdempotency (Tbl := Tbl) key hash).
Proof. unfold checkIdempotency. stays_steps. Qed.
Lemma isNotInPast_later s : stays later (isNotInPast (Tbl := Tbl) s).
Proof. unfold isNotInPast. stays_steps. Qed.

Lemma createRequest_alone dto okey P :
  unheld (d_lock dto) P -> alone_at P (createRequest_async dto okey) (createRequest dto okey).
Proof.
  intros Hu. unfold createRequest_async, createRequest.
  destruct okey as [[|a key]|]; [apply alone_at_like, runs_like_throw| |apply alone_at_like, runs_like_throw].
  apply alone_at_bind; [apply runs_like_awaits|]. intros w1 b Hb.
  apply (stays_eq later) in Hb; [|apply isNotInPast_later]. apply (later_unheld _ _ _ Hu) in Hb.
  destruct b; cbn [negb]; [|apply alone_at_like, runs_like_throw].
  destruct (tv_lt _ _); [apply alone_at_like, runs_like_throw|]. cbv zeta.
  apply alone_at_bind; [apply checkIdempotency_alone|]. intros w2 v Hv.
  apply (stays_eq later) in Hv; [|apply checkIdempotency_later]. apply (later_unheld _ _ _ Hb) in Hv.
  destruct v as [v|]; [apply alone_at_like, runs_like_ret|].
  apply withCreateLock_alone; [apply create_locked_alone|done].
Qed.

(** No creation is under way. *)
Definition resting P : Prop :=
  w_createLocks (p_world P) = ∅ /\ w_promises (p_world P) = length (p_calls P).

Lemma silent_alone {A} (p : prog A) (m : M (World Tbl) exn A) : runs_like p m -> runs_like (silent p) (silent_seq m).
Proof. intros Hp. apply runs_like_bind; [done|intros _; apply runs_like_ret]. Qed.
Lemma answer_alone p (m : M (World Tbl) exn RequestView) : runs_like p m -> runs_like (answer p) (answer_seq m).
Proof. intros Hp. apply runs_like_bind; [done|intros ?; apply runs_like_ret]. Qed.

Lemma call_alone c P : resting P -> alone_at P (call_async c) (call_seq c).
Proof.
  intros [Hr Hn]. destruct c as [dto okey|d i|e l y b|e l y hb| | | |[i e l y d|q i|]];
    cbn [call_async call_seq task_async];
    try solve [apply alone_at_like; first [apply silent_alone|apply answer_alone]; auto with runs].
  assert (Hu : unheld (d_lock dto) P) by (split; [rewrite Hr; apply lookup_empty|done]).
  destruct (createRequest_alone dto okey P Hu) as [cs Hc]. exists cs.
  unfold answer, answer_seq, mbind, prog_bind, M_bind. rewrite run_settle, Hc. cbn.
  by destruct (createRequest dto okey (p_world P)) as [w [e|v]].
Qed.

(** One schedule of the interleaved service is the sequential one: a call to a
    process at rest can run on its own, and then it ends with the result and in
    the state of the operation of [TimeOffService], [BalanceService] or
    [HcmSyncService]. *)
Theorem call_alone_schedule c P ts :
  resting P ->
  exists cs, rtc thread_step (start P ts c)
    {| shared := {| p_world := fst (call_seq c (p_world P)); p_calls := cs |};
       threads := ts ++ [(c, Settled (snd (call_seq c (p_world P))))] |}.
Proof.
  intros Hr. destruct (call_alone c P Hr) as [cs Hc]. exists cs.
  eapply (run_steps (length ts) c (call_async c) (start P ts c)) in Hc as Hs;
    [|by apply list_lookup_middle].
  cbn [start shared threads] in Hs. by rewrite insert_app_r_alt, Nat.sub_diag in Hs by done.
Qed.
End alone.
