(* ===== verification/Concurrent.v ===== *)
(** * Concurrent: the service under every interleaving

    The invariants of [Reachable] when operations interleave at their awaits
    ([Process]), callbacks run among them and the process may crash and restart at
    any moment.  Every step of every operation keeps them, as a protocol of
    [Async]: an operation may change the database only as the invariants allow,
    and the promise of its own [_withCreateLock] is nobody else's business. *)

From S2P Require Import Prelude Num Domain Store Entities World Breaker Dates Balance Hash HcmApi TimeOff.
From S2P Require Import HcmSync Samples Ledger Effects Lifecycle Books Reachable CreateLock Async Process.

Local Open Scope Z_scope.

Section concurrent.
Context (g : Z) (Hg : 0 <= g <= 6).
Context {Tbl : Type -> Type} `{RepoLaws Tbl} `{!TxManager Tbl, !TxLaws Tbl}.
Context `{Env} `{Config} `{Engine} `{Crypto} `{!HcmApi Tbl, !HcmApiLaws Tbl}.
(** Whether the books of [Books] are among the invariants; with them no batch
    run may start. *)
Context (bk : bool).
Abbreviation Process := (Process Tbl).
Abbreviation prog := (prog Process exn).
Implicit Types (w : World Tbl) (P : Process) (key hash : string).

#[local] Existing Instance keeps_preorder.

(** ** The protocol *)

(** [v] is a response for the stored request that has [key]. *)
Definition answers key w (v : RequestView) : Prop :=
  exists q, Req w !! v_id v = Some q /\ r_idempotencyKey q = key.
(** Every idempotency record holds a response for its request. *)
Definition backed w : Prop :=
  forall i n, Idem w !! i = Some n -> answers (i_idempotencyKey n) w (i_responseBody n).
(** The final status of a decided request. *)
Definition decided_as id (s : RequestStatus.t) w : Prop :=
  s <> RequestStatus.PENDING /\ exists q, Req w !! id = Some q /\ r_status q = s.

Record process_ok P : Prop := {
  po_inv : inv g bk (p_world P);
  po_backed : backed (p_world P);
  po_chained : chained (lock_state P);
  po_promises : w_promises (p_world P) = length (p_calls P);
}.

(** Requests only ever evolve; with token [Some i] call [i] of the lock is one's own. *)
Definition others (t : option nat) P P' : Prop :=
  evolves (Req (p_world P)) (Req (p_world P')) /\
  match t with Some i => p_calls P' !! i = p_calls P !! i | None => True end.

(** What a step does to the calls of the lock. *)
Inductive moves_own (cs : list lock_call) : option nat -> list lock_call -> option nat -> Prop :=
  | own_none t : moves_own cs t cs t
  | own_new c : moves_own cs None (cs ++ [c]) (Some (length cs))
  | own_phase i p : moves_own cs (Some i) (alter (set_phase p) i cs) (Some i).

(** Tokens are distinct, and every call that is not over is somebody's. *)
Record tokens_agree (ts : list (option nat)) P : Prop := {
  ta_distinct : forall i j k, ts !! i = Some (Some k) -> ts !! j = Some (Some k) -> i = j;
  ta_real : forall i k, ts !! i = Some (Some k) -> (k < length (p_calls P))%nat;
  ta_owned : forall k c, p_calls P !! k = Some c -> doing c <> Done ->
    exists i, ts !! i = Some (Some k);
}.

#[local] Instance protocol : Protocol Process := {|
  token := option nat;
  holds := process_ok;
  rely := others;
  act := fun t P t' P' =>
    evolves (Req (p_world P)) (Req (p_world P')) /\ moves_own (p_calls P) t (p_calls P') t';
  stuck := fun t P => exists i c, t = Some i /\ p_calls P !! i = Some c /\ doing c = Waiting /\
    previous_settled (p_calls P) c = false;
  over := fun t P => match t with
    | Some i => exists c, p_calls P !! i = Some c /\ doing c = Done
    | None => True
    end;
  agree := tokens_agree;
  initial := None;
|}.

Lemma others_preorder t : PreOrder (others t).
Proof.
  split.
  - intros P. split; [reflexivity|]. by destruct t.
  - intros P P' P'' [He Ht] [He' Ht']. split; [by etrans|]. destruct t; [congruence|done].
Qed.

Lemma tokens_act ts i t P t' P' :
  tokens_agree ts P -> ts !! i = Some t -> moves_own (p_calls P) t (p_calls P') t' ->
  tokens_agree (<[i := t']> ts) P' /\
  forall j k, j <> i -> ts !! j = Some (Some k) -> p_calls P' !! k = p_calls P !! k.
Proof.
  intros [Hd Hr Ho] Hi Hm. remember (p_calls P') as cs' eqn:Hcs.
  destruct Hm as [t|c|n p].
  - rewrite list_insert_id by done. split; [|done]. split; [done| |]; by rewrite <- Hcs.
  - assert (Hl : (i < length ts)%nat) by by eapply lookup_lt_Some.
    split; [split|].
    + intros j j' k Hj Hj'.
      apply list_lookup_insert_Some in Hj as [(-> & Hk & _)|[? Hj]];
        apply list_lookup_insert_Some in Hj' as [(-> & Hk' & _)|[? Hj']]; simplify_eq; try done.
      * apply Hr in Hj'. lia.
      * apply Hr in Hj. lia.
      * by eapply Hd.
    + intros j k [(-> & [= <-] & _)|[? Hj]]%list_lookup_insert_Some;
        rewrite <- Hcs, length_app; cbn; [lia|]. apply Hr in Hj. lia.
    + rewrite <- Hcs. intros k x [Hx|[-> ->]]%lookup_snoc_cases Hx'.
      * destruct (Ho k x Hx Hx') as [j Hj]. exists j. rewrite list_lookup_insert_ne; [done|congruence].
      * exists i. by apply list_lookup_insert_eq.
    + intros j k _ Hj. apply Hr in Hj. by apply lookup_app_l.
  - rewrite list_insert_id by done. split; [split|].
    + done.
    + intros j k Hj. rewrite <- Hcs, length_alter. by eapply Hr.
    + rewrite <- Hcs. intros k x Hx Hx'.
      apply alter_lookup in Hx as (x0 & Hx0 & _ & _ & Hp).
      destruct (decide (k = n)) as [->|]; [by exists i|]. apply (Ho k x0); congruence.
    + intros j k Hne Hj. apply list_lookup_alter_ne. intros <-. by apply Hne, (Hd j i n).
Qed.

#[local] Instance protocol_laws : ProtocolLaws Process.
Proof.
  split; cbn -[others].
  - exact others_preorder.
  - intros ts i t P t' P' _ Ha Hi [He Hm] _. destruct (tokens_act _ _ _ _ _ _ Ha Hi Hm) as [Ha' Hc].
    split; [done|]. intros j u Hj Hu. split; [done|]. destruct u as [k|]; [by apply (Hc j)|done].
  - intros ts P [Hd Hr Ho]. split.
    + intros i j k [Hi|[_ ?]]%lookup_snoc_cases [Hj|[_ ?]]%lookup_snoc_cases; [|done..]. by eapply Hd.
    + intros i k [Hi|[_ ?]]%lookup_snoc_cases; [|done]. by eapply Hr.
    + intros k c Hk Hc. destruct (Ho k c Hk Hc) as [i Hi]. exists i. by apply lookup_app_l_Some.
  - intros ts i t P [_ _ Hch _] [_ _ Ho] Hi (k & c & -> & Hc & Hw & Hp).
    destruct (first_open (p_calls P)) as [Hall|(j & x & Hx & Hnd & Hb)].
    { by rewrite (Forall_lookup_1 _ _ _ _ Hall Hc) in Hw. }
    destruct (Ho j x Hx Hnd) as [o Hto]. exists o, (Some j). split; [done|]. split.
    + intros (? & y & [= <-] & Hy & _ & Hs). assert (y = x) as -> by congruence.
      pose proof (first_ready (lock_state P) j x Hch Hx Hb) as Hs'. cbn [lock_state calls] in Hs'.
      congruence.
    + intros (y & Hy & Hd). congruence.
Qed.

(** ** Steps that leave the locks and the idempotency records alone *)
Definition frame w w' : Prop :=
  Idem w' = Idem w /\ w_createLocks w' = w_createLocks w /\ w_promises w' = w_promises w.
#[local] Instance frame_preorder : PreOrder frame.
Proof. split; [done|]. intros w w' w'' (? & ? & ?) (? & ? & ?). repeat split; congruence. Qed.

Definition kept w w' : Prop := keeps g bk w w' /\ frame w w'.
#[local] Instance kept_preorder : PreOrder kept.
Proof.
  split; [intros w; split; reflexivity|]. intros w w' w'' [? ?] [? ?]. split; by etrans.
Qed.

Lemma stays_kept {A} (m : M (World Tbl) exn A) : stays (keeps g bk) m -> stays frame m -> stays kept m.
Proof. intros Hk Hf w. split; [apply Hk|apply Hf]. Qed.

Lemma quiet_frame w w' : quiet w w' -> frame w w'.
Proof. by intros (n & t & b & -> & _). Qed.
Lemma later_frame w w' : later w w' -> frame w w'.
Proof. intros Hl. by apply quiet_frame, later_quiet. Qed.
Lemma quiet_kept w w' : quiet w w' -> kept w w'.
Proof. intros Hq. split; [by apply keeps_quiet|by apply quiet_frame]. Qed.

Lemma returns_quietly_kept {A} (m : M (World Tbl) exn A) : returns_quietly m -> stays kept m.
Proof. intros Hm w. destruct (Hm w) as (w' & a & -> & Hq). by apply quiet_kept. Qed.
Lemma later_kept {A} (m : M (World Tbl) exn A) : stays later m -> stays kept m.
Proof. intros Hm w. apply quiet_kept, later_quiet, Hm. Qed.

Lemma t_save_frame {R} `{EntityLaws R} (get : Db Tbl -> Tbl R) put r :
  (forall t d, idempotency (put t d) = idempotency d) -> stays frame (t_save get put r).
Proof. intros Hp w. unfold t_save. destruct (r_save _ _). unfold frame, Idem. cbn. by rewrite Hp. Qed.
Lemma t_update_frame {R} `{EntityLaws R} (get : Db Tbl -> Tbl R) put i f :
  (forall t d, idempotency (put t d) = idempotency d) -> stays frame (t_update get put i f).
Proof. intros Hp w. unfold t_update. destruct (r_update _ _ _). unfold frame, Idem. cbn. by rewrite Hp. Qed.
Lemma t_findOne_frame {R} `{EntityLaws R} (get : Db Tbl -> Tbl R) p : stays frame (t_findOne get p).
Proof. apply stays_gets, _. Qed.
Lemma setImmediate_frame t : stays frame (setImmediate t).
Proof. by intros w. Qed.
Lemma date_now_frame : stays frame (date_now (Tbl := Tbl)).
Proof. intros w. apply later_frame, pass_later. Qed.

(** A transaction rolls back the records too. *)
Lemma transaction_frame {A} (body : M (World Tbl) exn A) :
  stays frame body -> stays frame (transaction body).
Proof.
  intros Hb w. destruct (transaction body w) as [w' r] eqn:Ht.
  apply transaction_cases in Ht as (w0 & Hl & Ht). apply later_frame in Hl as Hf. cbn [fst].
  destruct r as [e|a].
  - destruct Ht as [_ [[_ ->]|(w1 & -> & Hw1)]]; [done|].
    assert (Hf1 : frame w0 w1) by (destruct Hw1 as [Hw1|(_ & a & Hw1)]; by eapply (stays_eq frame)).
    destruct Hf as (_ & ? & ?), Hf1 as (_ & ? & ?). split; [done|]. cbn. split; congruence.
  - etrans; [exact Hf|]. by eapply (stays_eq frame).
Qed.
#[local] Hint Resolve t_findOne_frame setImmediate_frame date_now_frame : effects.

Lemma save_balance_frame b : stays frame (save_balance b).
Proof. by apply t_save_frame. Qed.
Lemma save_request_frame q : stays frame (save_request q).
Proof. by apply t_save_frame. Qed.
#[local] Hint Resolve save_balance_frame save_request_frame : effects.

Lemma decide_kept d id : stays kept (decide_request (Tbl := Tbl) d id).
Proof.
  apply stays_kept; [by apply decide_keeps|]. intros w. rewrite decide_request_tx. revert w.
  apply transaction_frame. destruct d; cbn [decision_tx];
    unfold approve_tx, reject_tx, cancel_tx, getRequestLockedOrThrow, assertValidTransition,
      finalizeUsed, releaseFromPending; stays_steps.
Qed.
Lemma realtime_kept e l y hb :
  (bk = true -> exists n, 0 <= n < 2 ^ 52 /\ hb_totalBalance hb = units g n) ->
  stays kept (transaction (applyHcmRealTimeUpdate (Tbl := Tbl) e l y hb)).
Proof.
  intros Hhb. apply stays_kept.
  - refine (transaction_keeps g bk _ _). destruct bk eqn:Hflag.
    + destruct (Hhb eq_refl) as (n & Hn & Hh). by apply (applyHcmRealTimeUpdate_keeps g Hg _ _ _ _ _ n).
    + unfold applyHcmRealTimeUpdate, t_findOne. pose proof (save_balance_keeps g false).
      pose proof (date_now_keeps g false). stays_steps; auto.
  - apply transaction_frame. unfold applyHcmRealTimeUpdate. stays_steps.
Qed.
Lemma update_request_kept i s v n at_ : stays kept (update_request i (sync_patch s v n at_)).
Proof. apply stays_kept; [apply update_request_keeps|by apply t_update_frame]. Qed.
Lemma new_balance_kept e l y total now v :
  (bk = true -> exists n, 0 <= n < 2 ^ 52 /\ total = units g n) ->
  stays kept (save_balance (new_balance e l y (parseFloat total) now v)).
Proof.
  intros Ht. apply stays_kept; [|apply save_balance_frame]. destruct bk eqn:Hflag.
  - destruct (Ht eq_refl) as (n & Hn & ->). rewrite parseFloat_units by (unfold small; lia).
    by apply new_balance_keeps.
  - by apply save_balance_keeps.
Qed.
Lemma flag_missing_kept b now : stays kept (update_balance (b_id b) (flag_missing b now)).
Proof. apply stays_kept; [apply flag_missing_keeps|by apply t_update_frame]. Qed.
Lemma update_balance_kept i f :
  bk = false -> (forall b, b_id (f b) = b_id b) -> stays kept (update_balance i f).
Proof. intros. apply stays_kept; [by apply update_balance_keeps|by apply t_update_frame]. Qed.
Lemma save_balance_kept b : bk = false -> stays kept (save_balance b).
Proof. intros. apply stays_kept; [by apply save_balance_keeps|apply save_balance_frame]. Qed.
Lemma save_syncLog_kept l : stays kept (save_syncLog l).
Proof. apply stays_kept; [apply save_syncLog_keeps|by apply t_save_frame]. Qed.
Lemma update_syncLog_kept i s p u f e c :
  stays kept (update_syncLog i (l_with_outcome s p u f e c)).
Proof. apply stays_kept; [apply update_syncLog_keeps|by apply t_update_frame]. Qed.
Lemma same_db_kept w w' :
  w_db w' = w_db w -> w_createLocks w' = w_createLocks w -> w_promises w' = w_promises w -> kept w w'.
Proof. intros Hd. split; [by apply keeps_db|]. unfold frame, Idem. by rewrite Hd. Qed.

(** ** What a piece of an operation promises

    [says pre p post]: started where [pre] holds, [p] keeps to the protocol, has
    no business with the locks, and ends where [post] holds of its result.  Both
    speak of requests in a way that lasts. *)
Class Lasting (phi : Process -> Prop) : Prop :=
  lasts : forall P P', evolves (Req (p_world P)) (Req (p_world P')) -> phi P -> phi P'.

Definition anything P : Prop := True.
#[local] Instance anything_lasting : Lasting anything.
Proof. done. Qed.
#[local] Instance answers_lasting key v : Lasting (fun P => answers key (p_world P) v).
Proof.
  intros P P' He (q & Hq & Hk). destruct (He _ _ Hq) as (q' & Hq' & _ & _ & _ & _ & Hk' & _).
  exists q'. split; [done|congruence].
Qed.
#[local] Instance decided_as_lasting id s : Lasting (fun P => decided_as id s (p_world P)).
Proof.
  intros P P' He (Hs & q & Hq & Hst). split; [done|]. destruct (He _ _ Hq) as (q' & Hq' & Hb).
  exists q'. split; [done|]. destruct Hb as (_ & _ & _ & _ & _ & [?|(l & Hl & Hin)]); [congruence|].
  destruct (valid_transition_from _ _ _ Hl Hin). congruence.
Qed.

Definition says {A} (pre : Process -> Prop) (p : prog A) (post : exn + A -> Process -> Prop) : Prop :=
  forall t P, process_ok P -> pre P ->
    wp p (fun r t' P' => t' = t /\ others t P P' /\ post r P') t P.

Lemma others_trans t P P' P'' : others t P P' -> others t P' P'' -> others t P P''.
Proof. intros. pose proof (others_preorder t). by etrans. Qed.
Lemma others_refl t P : others t P P.
Proof. pose proof (others_preorder t). reflexivity. Qed.

(** A step on the world. *)
Lemma kept_others P w' t : kept (p_world P) w' -> process_ok P -> others t P (set_world w' P).
Proof. intros [Hk _] Hok. split; [apply Hk, Hok|by destruct t]. Qed.
Lemma backed_evolves w w' :
  evolves (Req w) (Req w') -> Idem w' = Idem w -> backed w -> backed w'.
Proof.
  intros He Hi Hb i n Hn. rewrite Hi in Hn.
  exact (answers_lasting _ _ {| p_world := w; p_calls := [] |} {| p_world := w'; p_calls := [] |} He (Hb i n Hn)).
Qed.
Lemma kept_ok P w' : kept (p_world P) w' -> process_ok P -> process_ok (set_world w' P).
Proof.
  intros [Hk (Hi & Hl & Hp)] [Hinv Hb Hch Hn]. destruct (Hk Hinv) as [Hinv' He].
  split; [done|by eapply backed_evolves| |by cbn; congruence].
  unfold lock_state in *. cbn. by rewrite Hl.
Qed.

Lemma says_awaits {A} (m : M (World Tbl) exn A) pre `{!Lasting pre} (post : exn + A -> Process -> Prop)
    `{!forall r, Lasting (post r)} :
  stays kept m ->
  (forall P w' r, process_ok P -> pre P -> m (p_world P) = (w', r) -> post r (set_world w' P)) ->
  says pre (awaits m) post.
Proof.
  intros Hm Hpost t P _ Hpre P1 Hr Hok. exists t. unfold lift.
  specialize (Hm (p_world P1)). destruct (m (p_world P1)) as [w' r] eqn:Hw. cbn [fst snd] in *.
  split; [by apply kept_ok|]. split.
  { split; [apply (kept_others P1 w' t Hm Hok)|constructor]. }
  intros P2 Hr2 _. split; [done|]. split.
  - eapply others_trans; [exact Hr|]. eapply others_trans; [by apply kept_others|done].
  - eapply lasts; [apply Hr2|]. eapply Hpost; [done|by eapply lasts; [apply Hr|]|done].
Qed.

Lemma says_settled {A} (r : exn + A) pre `{!Lasting pre} (post : exn + A -> Process -> Prop) :
  (forall P, pre P -> post r P) -> says pre (Settled r) post.
Proof.
  intros Hp t P _ Hpre P' Hr _. split; [done|]. split; [done|]. apply Hp. eapply lasts; [apply Hr|done].
Qed.

Lemma says_settle {A B} (p : prog A) (k : exn + A -> prog B) pre mid post :
  says pre p mid -> (forall r, says (mid r) (k r) post) -> says pre (settle p k) post.
Proof.
  intros Hp Hk t P Hok Hpre. apply wp_settle. eapply wp_mono; [|exact (Hp t P Hok Hpre)].
  intros r t' P' Hok' (-> & Ho & Hm). eapply wp_mono; [|exact (Hk r t P' Hok' Hm)].
  intros r' t'' P'' _ (-> & Ho' & Hpost). split; [done|]. split; [|done]. by eapply others_trans.
Qed.
Lemma says_bind {A B} (p : prog A) (k : A -> prog B) pre mid post
    `{!forall e, Lasting (mid (inl e))} :
  says pre p mid -> (forall e P, mid (inl e) P -> post (inl e) P) ->
  (forall a, says (mid (inr a)) (k a) post) -> says pre (p ≫= k) post.
Proof.
  intros Hp He Hk. apply (says_settle _ _ _ mid); [done|]. intros [e|a]; [|done].
  by apply says_settled; [apply _|apply He].
Qed.
Lemma says_catch {A} (p : prog A) h pre mid post `{!forall a, Lasting (mid (inr a))} :
  says pre p mid -> (forall a P, mid (inr a) P -> post (inr a) P) ->
  (forall e, says (mid (inl e)) (h e) post) -> says pre (catch_async p h) post.
Proof.
  intros Hp Ha Hh. apply (says_settle _ _ _ mid); [done|]. intros [e|a]; [done|].
  by apply says_settled; [apply _|apply Ha].
Qed.
Lemma says_mono {A} (p : prog A) (pre pre' : Process -> Prop) (post post' : exn + A -> Process -> Prop) :
  (forall P, pre' P -> pre P) -> (forall r P, post r P -> post' r P) ->
  says pre p post -> says pre' p post'.
Proof.
  intros Hpre Hpost Hp t P Hok HP. eapply wp_mono; [|exact (Hp t P Hok (Hpre P HP))].
  intros r t' P' _ (-> & ? & ?). eauto.
Qed.

(** ** Operations that only keep the invariants *)
Definition tame {A} (p : prog A) : Prop := says anything p (fun _ => anything).

Lemma tame_settled {A} (r : exn + A) : tame (Settled r).
Proof. by apply says_settled; [apply _|]. Qed.
Lemma tame_awaits {A} (m : M (World Tbl) exn A) : stays kept m -> tame (awaits m).
Proof. intros Hm. by apply says_awaits; [apply _..| |]. Qed.
Lemma tame_bind {A B} (p : prog A) (k : A -> prog B) :
  tame p -> (forall a, tame (k a)) -> tame (p ≫= k).
Proof. intros Hp Hk. by apply (says_bind _ _ _ (fun _ => anything)); [intros; apply _| | |]. Qed.
Lemma tame_catch {A} (p : prog A) h : tame p -> (forall e, tame (h e)) -> tame (catch_async p h).
Proof. intros Hp Hh. by apply (says_catch _ _ _ (fun _ => anything)); [intros; apply _| | |]. Qed.
Lemma tame_for_each {A} (xs : list A) (body : A -> prog unit) :
  (forall x, tame (body x)) -> tame (for_each_async xs body).
Proof.
  intros Hb. induction xs as [|x xs IH]; [apply tame_settled|]. apply tame_bind; [apply Hb|by intros _].
Qed.
Ltac tame_steps :=
  repeat first
    [ solve [auto with effects] | apply tame_settled
    | apply tame_bind; [|intros ?] | apply tame_catch; [|intros ?] | apply tame_for_each; intros ?
    | match goal with
      | |- tame (match ?x with _ => _ end) => destruct x
      | |- tame (let _ := _ in _) => cbv zeta
      end ].

Lemma date_now_tame : tame (awaits date_now).
Proof. apply tame_awaits, later_kept, date_now_later. Qed.
Lemma gets_tame {A} (f : World Tbl -> A) : tame (awaits (gets f)).
Proof. apply tame_awaits, stays_gets, _. Qed.
Lemma serialize_tame b : tame (awaits (serialize (Tbl := Tbl) b)).
Proof. apply tame_awaits, later_kept, serialize_later. Qed.
Lemma update_request_tame i s v n at_ : tame (awaits (update_request i (sync_patch s v n at_))).
Proof. apply tame_awaits, update_request_kept. Qed.
Lemma validateRequest_tame e l y d : tame (awaits (api_validateRequest (Tbl := Tbl) e l y d)).
Proof. apply tame_awaits, returns_quietly_kept, validateRequest_quiet. Qed.
Lemma notifyApproval_tame e l y d i : tame (awaits (api_notifyApproval (Tbl := Tbl) e l y d i)).
Proof. apply tame_awaits, returns_quietly_kept, notifyApproval_quiet. Qed.
Lemma getBatchBalances_tame l : tame (awaits (api_getBatchBalances (Tbl := Tbl) l)).
Proof. apply tame_awaits, returns_quietly_kept, getBatchBalances_quiet. Qed.
#[local] Hint Resolve date_now_tame gets_tame serialize_tame update_request_tame validateRequest_tame
  notifyApproval_tame getBatchBalances_tame : effects.

Lemma run_NotifyHcm_tame i e l y d : tame (run_NotifyHcm_async (Tbl := Tbl) i e l y d).
Proof. unfold run_NotifyHcm_async. tame_steps. Qed.
Lemma run_NotifyApproval_tame q i : tame (run_NotifyApproval_async (Tbl := Tbl) q i).
Proof. unfold run_NotifyApproval_async. tame_steps. Qed.

Lemma updateSyncAttempt_tame q s v : tame (updateSyncAttempt_async (Tbl := Tbl) q s v).
Proof. unfold updateSyncAttempt_async. tame_steps. Qed.
#[local] Hint Resolve updateSyncAttempt_tame : effects.
Lemma retry_one_tame q : tame (retry_one_async (Tbl := Tbl) q).
Proof.
  unfold retry_one_async, retryValidationOnly_async, retryApprovalFlow_async, retry_approval_async.
  tame_steps.
Qed.
#[local] Hint Resolve retry_one_tame : effects.
Lemma retryPendingHcmSyncs_tame : tame (retryPendingHcmSyncs_async (Tbl := Tbl)).
Proof. unfold retryPendingHcmSyncs_async, t_findBy. tame_steps. Qed.

Lemma upsertBalance_tame e l y total :
  (bk = true -> exists n, 0 <= n < 2 ^ 52 /\ total = units g n) ->
  tame (upsertBalance_async (Tbl := Tbl) e l y total).
Proof.
  intros Ht. pose proof (fun now v => tame_awaits _ (new_balance_kept e l y total now v Ht)).
  unfold upsertBalance_async, t_findOne. tame_steps.
Qed.

(** A batch run, when the books are left out. *)
Section batch.
Context (no_books : bk = false).

Lemma save_balance_tame b : tame (awaits (save_balance b)).
Proof. by apply tame_awaits, save_balance_kept. Qed.
Lemma update_balance_tame i f : (forall b, b_id (f b) = b_id b) -> tame (awaits (update_balance i f)).
Proof. intros. by apply tame_awaits, update_balance_kept. Qed.
Lemma flag_missing_tame b now : tame (awaits (update_balance (b_id b) (flag_missing b now))).
Proof. apply tame_awaits, flag_missing_kept. Qed.
Lemma save_syncLog_tame l : tame (awaits (save_syncLog l)).
Proof. apply tame_awaits, save_syncLog_kept. Qed.
Lemma finish_log_tame i s c e : tame (finish_log_async (Tbl := Tbl) i s c e).
Proof. apply tame_bind; [apply date_now_tame|intros]. apply tame_awaits, update_syncLog_kept. Qed.
#[local] Hint Resolve save_balance_tame flag_missing_tame save_syncLog_tame finish_log_tame : effects.

Lemma reconcileRecord_tame h : tame (reconcileRecord_async (Tbl := Tbl) h).
Proof.
  unfold reconcileRecord_async, reconcileWith_async, t_findOne. tame_steps; by apply update_balance_tame.
Qed.
#[local] Hint Resolve reconcileRecord_tame : effects.
Lemma reconcile_loop_tame hs c : tame (reconcile_loop_async (Tbl := Tbl) hs c).
Proof. revert c. induction hs as [|h hs IH]; intros c; cbn [reconcile_loop_async]; tame_steps. Qed.
Lemma missing_loop_tame keys bs c : tame (missing_loop_async (Tbl := Tbl) keys bs c).
Proof. revert c. induction bs as [|b bs IH]; intros c; cbn [missing_loop_async]; tame_steps. Qed.
#[local] Hint Resolve reconcile_loop_tame missing_loop_tame : effects.
Lemma batch_body_tame i : tame (batch_body_async (Tbl := Tbl) i).
Proof. unfold batch_body_async, fail_log_async, t_find. tame_steps. Qed.

Lemma runBatchSync_tame : tame (runBatchSync_async (Tbl := Tbl)).
Proof.
  assert (Hc : tame (awaits (claim_batch (Tbl := Tbl)))).
  { apply tame_awaits. intros w. by apply same_db_kept. }
  assert (Hf : forall i, tame (finally_async (batch_body_async (Tbl := Tbl) i) clear_batch)).
  { intros i. apply (says_settle _ _ _ (fun _ => anything)); [apply batch_body_tame|]. intros r.
    intros t P _ _ P1 Hr Hok. assert (Hk : kept (p_world P1) (set_batchRunning false (p_world P1)))
      by by apply same_db_kept.
    exists t. split; [by apply (kept_ok P1)|]. split; [split; [apply Hk, Hok|constructor]|].
    intros P2 Hr2 _. split; [done|]. split; [|done].
    eapply others_trans; [exact Hr|]. eapply others_trans; [|exact Hr2]. by apply (kept_others P1). }
  unfold runBatchSync_async. tame_steps.
Qed.
End batch.

(** ** [createRequest] *)

(** A response is one for the stored request of the key. *)
Definition responds key (r : exn + option RequestView) P : Prop :=
  match r with inr (Some v) => answers key (p_world P) v | _ => True end.
Definition responded key (r : exn + RequestView) P : Prop :=
  match r with inr v => answers key (p_world P) v | _ => True end.
#[local] Instance responds_lasting key r : Lasting (responds key r).
Proof. destruct r as [e|[v|]]; [done|apply answers_lasting|done]. Qed.
#[local] Instance responded_lasting key r : Lasting (responded key r).
Proof. destruct r as [e|v]; [done|apply answers_lasting]. Qed.

Lemma checkIdempotency_says key hash :
  says anything (checkIdempotency_async (Tbl := Tbl) key hash) (responds key).
Proof.
  set (mid (r : exn + option IdempotencyRecord) P := match r with
    | inr (Some n) => answers key (p_world P) (i_responseBody n) | _ => True end).
  assert (Hmid : forall r, Lasting (mid r)) by (intros [e|[n|]]; [done|apply answers_lasting|done]).
  apply (says_bind _ _ _ mid); [intros; apply _|..].
  - apply says_awaits; [apply _..|apply stays_gets, _|]. intros P w' r [Hinv Hb _ _] _ Hf.
    destruct r as [e|o]; [done|]. apply t_findOne_ok in Hf as [-> Ho]; [|apply Hinv].
    destruct o as [n|]; [|done]. destruct Ho as [Hn <-%bool_decide_eq_true]. exact (Hb _ _ Hn).
  - done.
  - intros [n|]; [|by apply says_settled; [apply _|]].
    apply (says_bind _ _ _ (fun _ => mid (inr (Some n)))); [intros; apply _|..].
    + apply says_awaits; [apply _..|apply later_kept, date_now_later|].
      intros P w' r _ Hm Hw. eapply lasts; [|exact Hm].
      apply (stays_eq later) in Hw; [|apply date_now_later]. unfold Req. cbn. by rewrite (later_db _ _ Hw).
    + done.
    + intros now. destruct (_ <? _); [by apply says_settled; [apply _|]|].
      destruct (decide _); by apply says_settled; [apply _|].
Qed.

Lemma recoverAfterConstraint_says key hash :
  says anything (recoverAfterConstraint_async (Tbl := Tbl) key hash) (responds key).
Proof.
  apply (says_bind _ _ _ (responds key)); [intros; apply _|apply checkIdempotency_says|done|].
  intros [v|]; [by apply says_settled; [apply _|]|].
  set (mid (r : exn + option TimeOffRequest) P := match r with
    | inr (Some q) => answers key (p_world P) (serializeRequest q) | _ => True end).
  assert (Hmid : forall r, Lasting (mid r)) by (intros [e|[n|]]; [done|apply answers_lasting|done]).
  apply (says_bind _ _ _ mid); [intros; apply _|..].
  - apply says_awaits; [apply _..|apply stays_gets, _|]. intros P w' r [Hinv _ _ _] _ Hf.
    destruct r as [e|o]; [done|]. apply t_findOne_ok in Hf as [-> Ho]; [|apply Hinv].
    destruct o as [q|]; [|done]. destruct Ho as [Hq Hk%bool_decide_eq_true]. by exists q.
  - done.
  - intros [q|]; by apply says_settled; [apply _|].
Qed.

(** The transaction stores a request that the books can bear. *)
Definition stored_for key (r : exn + TimeOffRequest) P : Prop :=
  match r with inr q => answers key (p_world P) (serializeRequest q) | _ => True end.
#[local] Instance stored_for_lasting key r : Lasting (stored_for key r).
Proof. destruct r as [e|q]; [done|apply answers_lasting]. Qed.

Lemma db_step_locks w w' :
  db_step w w' -> w_createLocks w' = w_createLocks w /\ w_promises w' = w_promises w.
Proof. by intros (d & n & t & -> & _). Qed.

Lemma created_backed dto key hash days w w' req :
  created dto key hash days w w' req -> evolves (Req w) (Req w') -> backed w ->
  backed w' /\ answers key w' (serializeRequest req).
Proof.
  intros [Hr _ Hrs _ _ (m & now & Hm & _ & Hi & _) _ _] He Hb.
  assert (Hans : answers key w' (serializeRequest req)).
  { exists req. cbn. rewrite Hrs. split; [apply lookup_insert_eq|].
    by apply (esame_field r_idempotencyKey) in Hr. }
  split; [|done]. intros i n Hn. rewrite Hi in Hn. apply lookup_insert_Some in Hn as [[_ <-]|[_ Hn]].
  - apply (esame_field i_idempotencyKey) in Hm as Hk; [|done].
    apply (esame_field i_responseBody) in Hm as Hv; [|done]. cbn in Hk, Hv. by rewrite <- Hk, <- Hv.
  - exact (answers_lasting _ _ {| p_world := w; p_calls := [] |} {| p_world := w'; p_calls := [] |} He (Hb i n Hn)).
Qed.

Lemma create_transaction_says dto key hash :
  (bk = true -> dated dto) ->
  says anything (awaits (transaction (create_tx (Tbl := Tbl) dto key hash
    (calculateDaysRequested (d_startDate dto) (d_endDate dto))))) (stored_for key).
Proof.
  intros Hd t P _ _ P1 Hr Hok. exists t. unfold lift.
  set (days := calculateDaysRequested _ _).
  destruct (transaction (create_tx dto key hash days) (p_world P1)) as [w' r] eqn:Hw. cbn [fst snd].
  assert (Hs : process_ok (set_world w' P1) /\ others t P1 (set_world w' P1) /\ stored_for key r (set_world w' P1)).
  { destruct r as [e|req].
    - apply transaction_create_fails in Hw. apply later_quiet, quiet_kept in Hw.
      split; [by apply kept_ok|]. split; [by apply kept_others|done].
    - apply transaction_cases in Hw as (w0 & Hl & Hb).
      pose proof Hok as [Hinv Hbk Hch Hn].
      assert (Hc : created dto key hash days (p_world P1) w' req).
      { eapply created_world; [by apply later_db|by apply db_step_now, later_db_step|done..|].
        apply create_tx_ok; [|done]. rewrite (later_db _ _ Hl). apply Hinv. }
      destruct (created_keeps g Hg bk _ _ _ _ _ _ Hd Hc Hinv) as [Hinv' He].
      destruct (created_backed _ _ _ _ _ _ _ Hc He Hbk) as [Hbk' Hans].
      assert (db_step (p_world P1) w') as [HL HP]%db_step_locks.
      { etrans; [by apply later_db_step|]. by eapply (stays_eq db_step); [apply create_tx_stays|]. }
      split; [split; [done|done| |by cbn; congruence]|split; [|done]].
      + unfold lock_state in *. cbn. by rewrite HL.
      + split; [done|]. by destruct t. }
  destruct Hs as (Hok' & Ho & Hst). split; [done|]. split; [split; [apply Ho|constructor]|].
  intros P2 Hr2 _. split; [done|]. split; [|by eapply lasts; [apply Hr2|]].
  eapply others_trans; [exact Hr|]. by eapply others_trans.
Qed.

Lemma create_retry_says {A} (p : prog A) post left attempt `{!forall r, Lasting (post r)} :
  says anything p post -> (forall e P, post (inl e) P) ->
  says anything (create_retry_async p left attempt) post.
Proof.
  intros Hp He. revert attempt. induction left as [|left IH]; intros attempt; cbn [create_retry_async].
  { apply says_settled; [apply _|]. intros. apply He. }
  apply (says_catch _ _ _ post); [intros; apply _|done|done|]. intros e.
  destruct (_ || _).
  { apply says_settled; [apply _|]. done. }
  apply (says_bind _ _ _ (fun _ => anything)); [intros; apply _| |intros; apply He|intros; apply IH].
  apply (says_mono _ anything _ (fun _ => anything)); [done|done|]. apply tame_awaits, later_kept, sleep_later.
Qed.

Lemma create_recover_says key hash e :
  says anything (create_recover_async (Tbl := Tbl) key hash e) (responded key).
Proof.
  assert (Ht : says anything (if isSqliteTransientTxError e then
      recovered ← recoverAfterConstraint_async (Tbl := Tbl) key hash;
      match recovered with
      | Some recovered => mret recovered
      | None => throw_async (ConflictException ErrorCodes.BALANCE_CONFLICT)
      end
    else throw_async e) (responded key)).
  { destruct (isSqliteTransientTxError e); [|by apply says_settled; [apply _|]].
    apply (says_bind _ _ _ (responds key)); [intros; apply _|apply recoverAfterConstraint_says|done|].
    intros [v|]; by apply says_settled; [apply _|]. }
  unfold create_recover_async. destruct (isSqliteConstraintError e); [|done].
  apply (says_bind _ _ _ (responds key)); [intros; apply _|apply recoverAfterConstraint_says|done|].
  intros [v|]; [by apply says_settled; [apply _|]|done].
Qed.

Lemma create_locked_says dto key hash :
  (bk = true -> dated dto) ->
  says anything (create_locked_async (Tbl := Tbl) dto key hash
    (calculateDaysRequested (d_startDate dto) (d_endDate dto))) (responded key).
Proof.
  intros Hd. set (days := calculateDaysRequested _ _).
  apply (says_bind _ _ _ (responds key)); [intros; apply _|apply checkIdempotency_says|done|].
  intros [v|]; [by apply says_settled; [apply _|]|].
  apply (says_catch _ _ _ (responded key)); [intros; apply _| |done|intros e].
  2: { eapply (says_mono _ anything); [done|done|apply create_recover_says]. }
  apply (says_bind _ _ _ (stored_for key)); [intros; apply _| |done|].
  { apply create_retry_says; [apply _|by apply create_transaction_says|done]. }
  intros q. apply (says_bind _ _ _ (fun _ => stored_for key (inr q))); [intros; apply _| |done|].
  - apply says_awaits; [apply _..| |].
    + intros w. by apply same_db_kept.
    + intros P w' r _ Hst [= <- <-]. by eapply lasts; [|exact Hst].
  - intros _. by apply says_settled; [apply _|].
Qed.

(** ** The lock *)
Lemma lock_state_with s n P : lock_state (with_lock s n P) = s.
Proof. by destruct s. Qed.
Lemma with_lock_ok s n P :
  process_ok P -> chained s -> n = length (calls s) -> process_ok (with_lock s n P).
Proof.
  intros [[Hwf Hb Ha] Hbk _ _] Hch ->. split; [done|done|by rewrite lock_state_with|done].
Qed.
Lemma phase_step i p P P' c :
  p_calls P !! i = Some c -> p_calls P' = alter (set_phase p) i (p_calls P) ->
  p_calls P' !! i = Some (set_phase p c).
Proof. intros Hc ->. by rewrite list_lookup_alter_eq, Hc. Qed.

Definition concludes {A} (post : exn + A -> Process -> Prop) (r : exn + A) (t : option nat) P : Prop :=
  over t P /\ post r P.

(** The caller enters in its turn, whatever others do meanwhile. *)
Lemma enter_wp {A} lockKey (fn : prog A) post i c P `{!forall r, Lasting (post r)} :
  says anything fn post -> p_calls P !! i = Some c -> doing c = Waiting ->
  CreateLock.lockKey c = lockKey ->
  wp (_ ← Await (my_turn i) (modify (enter_gate i)) Settled;
      finally_async fn (leave_gate i lockKey)) (concludes post) (Some i) P.
Proof.
  intros Hfn Hc Hw Hk P1 [_ Hi1] Hok1. rewrite Hc in Hi1. unfold my_turn. rewrite Hi1.
  destruct (previous_settled (p_calls P1) c) eqn:Hp; [|by exists i, c].
  assert (Hm : moves (lock_state P1) (enter i (lock_state P1))) by by eapply moves_enter.
  exists (Some i). assert (Hok2 : process_ok (enter_gate i P1)).
  { apply with_lock_ok; [done|eapply moves_chained; [apply Hok1|done]|].
    cbn. rewrite length_alter. apply Hok1. }
  split; [exact Hok2|]. split; [split; [reflexivity|apply own_phase]|].
  assert (Hi2 : p_calls (enter_gate i P1) !! i = Some (set_phase Running c)) by by eapply phase_step.
  change (wp (finally_async fn (leave_gate i lockKey)) (concludes post) (Some i) (enter_gate i P1)).
  apply wp_settle. eapply wp_mono; [|exact (Hfn (Some i) _ Hok2 I)].
  intros r t P3 Hok3 (-> & [_ Hi3] & Hpost). rewrite Hi2 in Hi3.
  intros P4 [He4 Hi4] Hok4. rewrite Hi3 in Hi4.
  assert (Hm4 : moves (lock_state P4) (leave i lockKey (lock_state P4))).
  { rewrite <- Hk. by eapply (moves_leave (lock_state P4) i (set_phase Running c)). }
  exists (Some i). split.
  { apply with_lock_ok; [done|eapply moves_chained; [apply Hok4|done]|].
    cbn. rewrite length_alter. apply Hok4. }
  split; [split; [reflexivity|apply own_phase]|].
  intros P5 [He5 Hi5] _. split.
  - eexists. rewrite Hi5. split; [by eapply phase_step|done].
  - eapply lasts; [exact He5|]. eapply (lasts P3); [exact He4|done].
Qed.

Lemma withCreateLock_wp {A} lockKey (fn : prog A) post P `{!forall r, Lasting (post r)} :
  says anything fn post -> wp (withCreateLock_async lockKey fn) (concludes post) None P.
Proof.
  intros Hfn. apply wp_bind. intros P1 _ Hok1. exists (Some (length (p_calls P1))).
  split.
  { apply with_lock_ok; [done|apply enqueue_call_chained, Hok1|].
    cbn. rewrite length_app. cbn. pose proof (po_promises _ Hok1). lia. }
  split; [split; [reflexivity|apply own_new]|].
  intros P2 [_ Hi2] _. cbn in Hi2. rewrite list_lookup_middle in Hi2 by done.
  by eapply enter_wp.
Qed.

Lemma says_wp {A} (p : prog A) post P :
  says anything p post -> wp p (concludes post) None P.
Proof.
  intros Hp. apply wp_intro. intros P' _ Hok. eapply wp_mono; [|exact (Hp None P' Hok I)].
  by intros r t s _ (-> & _ & ?).
Qed.

(** Without a lock so far. *)
Lemma wp_bind_says {A B} (p : prog A) (k : A -> prog B) mid post P :
  says anything p mid -> (forall e P, post (inl e) P) ->
  (forall a P', mid (inr a) P' -> wp (k a) (concludes post) None P') ->
  wp (p ≫= k) (concludes post) None P.
Proof.
  intros Hp He Hk. apply wp_intro. intros P1 _ Hok. apply wp_bind.
  eapply wp_mono; [|exact (Hp None P1 Hok I)]. intros r t P2 _ (-> & _ & Hm).
  destruct r as [e|a]; [|by apply Hk]. intros P3 _ _. split; [done|apply He].
Qed.

Definition answered (okey : option string) : exn + RequestView -> Process -> Prop :=
  match okey with Some key => responded key | None => fun _ => anything end.

Lemma answered_error okey e P : answered okey (inl e) P.
Proof. by destruct okey. Qed.
#[local] Instance answered_lasting okey r : Lasting (answered okey r).
Proof. destruct okey; apply _. Qed.

Lemma throws_wp {A} (e : exn) (post : exn + A -> Process -> Prop) P :
  (forall P, post (inl e) P) -> wp (throw_async e) (concludes post) None P.
Proof. intros Hp P' _ _. split; [done|apply Hp]. Qed.

Lemma createRequest_wp dto okey P :
  (bk = true -> dated dto) ->
  wp (createRequest_async (Tbl := Tbl) dto okey) (concludes (answered okey)) None P.
Proof.
  intros Hd. destruct okey as [[|a k]|]; [by apply throws_wp| |by apply throws_wp].
  set (key := String a k). unfold createRequest_async.
  apply (wp_bind_says _ _ (fun _ => anything)); [|intros; apply answered_error|].
  { apply tame_awaits, later_kept, isNotInPast_later. }
  intros b P1 _. destruct (negb b); [apply throws_wp; intros; apply answered_error|].
  destruct (tv_lt _ _); [apply throws_wp; intros; apply answered_error|]. cbv zeta.
  apply (wp_bind_says _ _ (responds key)); [apply checkIdempotency_says|intros; apply answered_error|].
  intros [v|] P2 Hv.
  - intros P3 [He _] _. split; [done|]. by eapply (lasts (phi := responds key (inr (Some v)))).
  - apply withCreateLock_wp; [apply _|]. by apply create_locked_says.
Qed.

(** ** Decisions *)
Definition decision_made (d : Decision) id (r : exn + RequestView) P : Prop :=
  match r with inr _ => decided_as id (target d) (p_world P) | _ => True end.
#[local] Instance decision_made_lasting d id r : Lasting (decision_made d id r).
Proof. destruct r; [done|apply decided_as_lasting]. Qed.

Lemma decide_says d id :
  says anything (awaits (decide_request (Tbl := Tbl) d id)) (decision_made d id).
Proof.
  apply says_awaits; [apply _..|apply decide_kept|]. intros P w' r [Hinv _ _ _] _ Hr.
  apply decide_request_cases in Hr; [|apply Hinv]. destruct r as [e|v]; [done|].
  destruct Hr as (q & q' & [_ _ (now & Hrow & _) _ Hrs _ _ _ _] & _).
  split; [by destruct d|]. exists q'. cbn. rewrite Hrs. split; [apply lookup_insert_eq|].
  by destruct (decide_row_fields _ _ _ _ Hrow) as (_ & _ & ? & _).
Qed.

(** ** Every call *)

(** What a response of a call says from then on. *)
Definition promised (c : Call) (r : exn + option RequestView) P : Prop :=
  match c, r with
  | CreateRequest _ (Some key), inr (Some v) => answers key (p_world P) v
  | Decide d id, inr _ => decided_as id (target d) (p_world P)
  | _, _ => True
  end.

(** The calls that may come, and the callbacks that may start: all of them, but
    for the books amounts must be of the grid and no batch may run. *)
Definition may_call (c : Call) : Prop :=
  match c with
  | CreateRequest dto _ => bk = true -> dated dto
  | UpsertBalance _ _ _ total => bk = true -> exists n, 0 <= n < 2 ^ 52 /\ total = units g n
  | RealTimeUpdate _ _ _ hb =>
      bk = true -> exists n, 0 <= n < 2 ^ 52 /\ hb_totalBalance hb = units g n
  | RunBatch | TriggerBatch => bk = false
  | Callback _ => False
  | _ => True
  end.
Definition may_start (t : Task) : Prop :=
  match t with RunBatchSync => bk = false | _ => True end.

Lemma tame_wp {A} (p : prog A) c P :
  tame p -> (forall r P, promised c (inr None) P /\ promised c (inl r) P) ->
  wp (silent p) (concludes (promised c)) None P.
Proof.
  intros Hp Hc. apply (wp_bind_says _ _ (fun _ => anything)); [done|intros; by eapply Hc|].
  intros _ P1 _ P2 _ _. split; [done|]. by apply (Hc ThrownUndefined).
Qed.

Lemma over_others t P P' : others t P P' -> over t P -> over t P'.
Proof. intros [_ Ho]. destruct t as [i|]; [|done]. intros (c & Hc & ?). exists c. by rewrite Ho. Qed.

Lemma answer_wp (p : prog RequestView) post c P `{!forall r, Lasting (post r)} :
  wp p (concludes post) None P ->
  (forall v P, post (inr v) P -> promised c (inr (Some v)) P) -> (forall e P, promised c (inl e) P) ->
  wp (answer p) (concludes (promised c)) None P.
Proof.
  intros Hp Hc He. apply wp_bind. eapply wp_mono; [|exact Hp].
  intros [e|v] t P1 _ [Ho Hpost] P2 Hr _; (split; [by eapply over_others|]); [apply He|].
  apply Hc. eapply lasts; [apply Hr|done].
Qed.

Lemma call_wp c P :
  may_call c \/ (exists t, c = Callback t /\ may_start t) ->
  wp (call_async c) (concludes (promised c)) None P.
Proof.
  intros Ha. destruct c as [dto okey|d i|e l y total|e l y hb| | | |t]; cbn [call_async];
    destruct Ha as [Ha|(t' & [=] & Ht)]; subst; try (apply tame_wp; [|by split]).
  - eapply answer_wp; [|by apply createRequest_wp| |]; [apply _| |by intros; destruct okey].
    by destruct okey.
  - eapply answer_wp; [|apply says_wp, decide_says|done|done]. apply _.
  - by apply upsertBalance_tame.
  - by apply tame_awaits, realtime_kept.
  - by apply runBatchSync_tame.
  - apply tame_awaits. unfold triggerManualBatchSync, batchRunning.
    assert (stays kept (setImmediate (Tbl := Tbl) RunBatchSync)) by (intros w; by apply same_db_kept).
    stays_steps.
  - apply retryPendingHcmSyncs_tame.
  - done.
  - destruct t'; cbn [task_async];
      [apply run_NotifyHcm_tame|apply run_NotifyApproval_tame|by apply runBatchSync_tame].
Qed.

(** ** The process as a whole *)
Abbreviation Node := (Pool Process exn (option RequestView) Call).
Implicit Types (n : Node).
Abbreviation node_step := (node_step may_call may_start).

Definition node_ok n : Prop := pool_ok promised n.
Definition world n : World Tbl := p_world (shared n).

Lemma same_process_ok P w' :
  kept (p_world P) w' -> process_ok P ->
  process_ok (set_world w' P) /\ (forall ts, tokens_agree ts P -> tokens_agree ts (set_world w' P)) /\
  forall t, others t P (set_world w' P).
Proof.
  intros Hk Hok. split; [by apply kept_ok|]. split; [by intros ts []|]. intros t. by apply kept_others.
Qed.

Lemma surroundings_ok n w' :
  node_ok n -> kept (world n) w' ->
  node_ok {| shared := set_world w' (shared n); threads := threads n |}.
Proof.
  intros Hn Hk. destruct (same_process_ok (shared n) w' Hk) as (? & ? & ?); [apply Hn|].
  by apply pool_ok_surroundings.
Qed.

Lemma start_ok n c :
  node_ok n -> may_call c \/ (exists t, c = Callback t /\ may_start t) ->
  node_ok (start (shared n) (threads n) c).
Proof. intros Hn Hc. apply pool_ok_start; [done|]. intros P _. by apply call_wp. Qed.

Lemma restarted_ok P now tick b :
  process_ok P -> process_ok (restarted (w_db (p_world P)) now tick b).
Proof.
  intros [Hinv Hbk _ _]. split; [by apply (keeps_db g bk (p_world P))|done|apply chained_no_calls|done].
Qed.

Lemma no_tokens P : p_calls P = [] -> tokens_agree [] P.
Proof. intros Hc. split; [by intros ???|by intros ??|]. rewrite Hc. by intros ??. Qed.

Lemma node_step_ok n n' : node_ok n -> node_step n n' -> node_ok n'.
Proof.
  intros Hn [c Hc|n1 Hs|t ts Ht Hst|w' Hq|now tick b Hnow].
  - apply start_ok; auto.
  - by eapply pool_ok_step.
  - apply (start_ok {| shared := _; threads := threads n |}); [|right; by exists t].
    apply surroundings_ok; [done|]. by apply same_db_kept.
  - apply surroundings_ok; [done|]. by apply quiet_kept.
  - apply pool_ok_empty; [apply restarted_ok, Hn|by apply no_tokens].
Qed.

(** The process has started on an empty database. *)
Definition boot P : Prop :=
  empty_db (p_world P) /\ Idem (p_world P) = ∅ /\
  w_createLocks (p_world P) = ∅ /\ w_promises (p_world P) = 0%nat /\ p_calls P = [].

(** [n] is reached from it, whatever calls came, interleaved and failed. *)
Definition reached n : Prop :=
  exists P, boot P /\ rtc node_step {| shared := P; threads := [] |} n.

Lemma boot_ok P : boot P -> node_ok {| shared := P; threads := [] |}.
Proof.
  intros (He & Hi & Hl & Hp & Hc). apply pool_ok_empty; [|by apply no_tokens]. split.
  - by apply empty_inv.
  - intros i m Hm. rewrite Hi in Hm. by apply lookup_empty_Some in Hm.
  - unfold lock_state. rewrite Hl, Hc. apply chained_no_calls.
  - by rewrite Hp, Hc.
Qed.

Lemma rtc_node_ok n n' : node_ok n -> rtc node_step n n' -> node_ok n'.
Proof. intros Hn Hs. revert Hn. induction Hs; eauto using node_step_ok. Qed.
Lemma reached_ok n : reached n -> node_ok n.
Proof. intros (P & Hb & Hs). by eapply rtc_node_ok, Hs; apply boot_ok. Qed.
Lemma reached_process n : reached n -> process_ok (shared n).
Proof. intros Hn. by apply reached_ok in Hn as [? _]. Qed.

(** Requests only evolve. *)
Lemma node_step_evolves n n' : node_ok n -> node_step n n' -> evolves (Req (world n)) (Req (world n')).
Proof.
  intros (Hok & toks & _ & Hts) [c Hc|n1 [i l p p' s' Hi Ha]|t ts Ht Hst|w' Hq|now tick b Hnow];
    try reflexivity.
  - destruct (Forall2_lookup_r _ _ _ _ _ Hts Hi) as (t & _ & Hp). unfold thread_ok in Hp.
    cbn [fst snd] in Hp. destruct p as [r|ready B m k]; [done|]. cbn in Ha.
    specialize (Hp (shared n) (others_refl t _) Hok). destruct (ready (shared n)); [|done].
    destruct (m (shared n)) as [s1 r]. injection Ha as _ <-. by destruct Hp as (t' & _ & [He _] & _).
  - apply (quiet_kept (world n)) in Hq as [Hk _]. apply Hk, Hok.
Qed.

Lemma rtc_evolves n n' : node_ok n -> rtc node_step n n' -> evolves (Req (world n)) (Req (world n')).
Proof.
  intros Hn Hs. revert Hn. induction Hs as [|n n1 n2 Hs _ IH]; intros Hn; [reflexivity|].
  etrans; [by apply node_step_evolves|]. by eapply IH, node_step_ok.
Qed.

(** When every call has settled no lock is held. *)
Lemma all_settled_unlocked n :
  node_ok n -> all_settled n -> w_createLocks (world n) = ∅.
Proof.
  intros (Hok & ts & Ha & Hts) Hall. apply map_empty. intros key.
  destruct (w_createLocks (world n) !! key) as [k|] eqn:Hk; [|done].
  destruct (ch_last _ (po_chained _ Hok) key k Hk) as [(c & Hc & _ & Hd) _].
  destruct (ta_owned _ _ Ha k c Hc Hd) as [i Hi].
  destruct (Forall2_lookup_l _ _ _ _ _ Hts Hi) as ([l p] & Hp & Hw). unfold thread_ok in Hw.
  cbn [fst snd] in Hw. pose proof (Forall_lookup_1 _ _ _ _ Hall Hp) as Hs.
  destruct p as [r|]; [|done].
  destruct (Hw (shared n) (others_refl _ _) Hok) as [(x & Hx & ?) _].
  change (calls (lock_state (shared n)) !! k = Some x) in Hx. congruence.
Qed.

Lemma reached_post n i c r :
  reached n -> threads n !! i = Some (c, Settled r) -> promised c r (shared n).
Proof. intros Hn%reached_ok Hi. by eapply pool_ok_post. Qed.

Lemma reached_settles n :
  reached n -> inevitably (fun n' => all_settled n' /\ w_createLocks (world n') = ∅) n.
Proof.
  intros Hn%reached_ok. pose proof (pool_ok_settles _ n Hn) as Hi. revert Hn.
  induction Hi as [n Hs|n Hgo _ IH]; intros Hn.
  - apply inevitably_now. split; [done|]. by eapply all_settled_unlocked.
  - apply inevitably_later; [done|]. intros n' Hs. apply (IH n' Hs). by eapply pool_ok_step.
Qed.
End concurrent.

(** ** What holds in every interleaving *)
Section theorems.
Context (g : Z) (Hg : 0 <= g <= 6).
Context {Tbl : Type -> Type} `{RepoLaws Tbl} `{!TxManager Tbl, !TxLaws Tbl}.
Context `{Env} `{Config} `{Engine} `{Crypto} `{!HcmApi Tbl, !HcmApiLaws Tbl}.
Abbreviation Node := (Pool (Process Tbl) exn (option RequestView) Call).
Implicit Types (n : Node).

(** C2. The accounts balance under concurrency.  Creations, decisions, account
    openings, real-time updates, callbacks and the retry worker may interleave at
    every await, fail, and be cut off by crashes: at every moment, on every
    balance row, no amount is negative, the total is the sum of available, pending
    and used days, the pending days are exactly those of the [PENDING] requests
    charged to the row, and the used days those of the [APPROVED] ones.  (No batch
    run is among the calls: see [batch_breaks_books].) *)
Theorem concurrent_accounts n i b :
  reached g true n -> Bal (world n) !! i = Some b ->
  exists a p u, 0 <= a /\ 0 <= p /\ 0 <= u /\
    b_availableBalance b = units g a /\ b_pendingBalance b = units g p /\
    b_usedBalance b = units g u /\ b_totalBalance b = units g (a + p + u) /\
    p = requested g RequestStatus.PENDING (b_key b) (Req (world n)) /\
    u = requested g RequestStatus.APPROVED (b_key b) (Req (world n)).
Proof.
  intros Hn Hi. destruct (reached_process g Hg true n Hn) as [[_ Hb _] _ _ _].
  destruct (books_ledger _ _ _ (Hb eq_refl) i b Hi)
    as ([a p u] & (Ha & Hp & Hu & Ht) & (? & ? & ? & _) & Hpe & Hus).
  exists a, p, u. done.
Qed.

(** C3. No double booking under concurrency: whatever calls interleave, batch runs
    included, no two active requests of one employee at one location share a day. *)
Theorem concurrent_no_double_booking n i j q r a b c d :
  reached g false n ->
  Req (world n) !! i = Some q -> Req (world n) !! j = Some r -> i <> j -> active q -> active r ->
  r_employeeId q = r_employeeId r -> r_locationId q = r_locationId r ->
  day_of (r_startDate q) = Some a -> day_of (r_endDate q) = Some b ->
  day_of (r_startDate r) = Some c -> day_of (r_endDate r) = Some d ->
  forall x, ~ (a <= x <= b /\ c <= x <= d).
Proof.
  intros Hn Hi Hj Hne Hq Hr Hem Hlo Ha Hb Hc Hd x Hx.
  destruct (reached_process g Hg false n Hn) as [[_ _ Hap] _ _ _].
  apply (Hap i j q r); try done. split; [done|]. split; [done|].
  rewrite (datesOverlap_days _ _ _ _ _ _ _ _ Ha Hb Hc Hd). apply andb_true_iff.
  rewrite !Z.leb_le. lia.
Qed.

(** C15. Requests survive: once stored, a request keeps its key, dates, days and
    owner through every interleaving, failure, batch run and crash, and its status
    stays or moves once along [VALID_TRANSITIONS]; a decided status is final. *)
Theorem concurrent_persist n n' j q :
  reached g false n -> rtc (node_step (may_call g false) (may_start false)) n n' ->
  Req (world n) !! j = Some q ->
  exists q', Req (world n') !! j = Some q' /\ becomes q q' /\
    (r_status q <> RequestStatus.PENDING -> r_status q' = r_status q).
Proof.
  intros Hn Hs Hj. apply (reached_ok g Hg) in Hn.
  destruct (rtc_evolves g Hg false n n' Hn Hs j q Hj) as (q' & Hj' & Hb).
  exists q'. split; [done|]. split; [done|]. intros Hp.
  destruct Hb as (_ & _ & _ & _ & _ & [Hst|(l & Hl & Hin)]); [done|].
  by destruct (valid_transition_from _ _ _ Hl Hin).
Qed.

(** C4. One key, one request: however many calls of [createRequest] with one
    idempotency key run at the same time, and whatever their payloads, all that
    return name one and the same request, it is stored under that key, and no
    other request is. *)
Theorem concurrent_one_answer n i dto key v :
  reached g false n ->
  threads n !! i = Some (CreateRequest dto (Some key), Settled (inr (Some v))) ->
  exists q, Req (world n) !! v_id v = Some q /\ r_idempotencyKey q = key /\
    (forall j q', Req (world n) !! j = Some q' -> r_idempotencyKey q' = key -> j = v_id v) /\
    (forall k dto' v', threads n !! k = Some (CreateRequest dto' (Some key), Settled (inr (Some v'))) ->
       v_id v' = v_id v).
Proof.
  intros Hn Hi. pose proof (reached_process g Hg false n Hn) as [[Hwf _ _] _ _ _].
  assert (Hans : forall k dto' v',
    threads n !! k = Some (CreateRequest dto' (Some key), Settled (inr (Some v'))) ->
    answers key (world n) v').
  { intros k dto' v' Hk. exact (reached_post g Hg false n k _ _ Hn Hk). }
  destruct (Hans _ _ _ Hi) as (q & Hq & Hkey).
  assert (Huniq : forall j q', Req (world n) !! j = Some q' -> r_idempotencyKey q' = key -> j = v_id v).
  { intros j q' Hj Hk. apply (rows_unique (requests (w_db (world n))) j (v_id v) q' q); [apply Hwf|done|done|].
    apply bool_decide_eq_true. congruence. }
  exists q. split_and!; try done. intros k dto' v' Hk.
  destruct (Hans _ _ _ Hk) as (q' & Hq' & Hk'). by eapply Huniq.
Qed.

(** C8. Decisions do not conflict: of the decisions on one request that run at the
    same time, those that return all made the same decision, and the request has
    its status. *)
Theorem concurrent_decisions n i id d r :
  reached g false n -> threads n !! i = Some (Decide d id, Settled (inr r)) ->
  (exists q, Req (world n) !! id = Some q /\ r_status q = target d) /\
  (forall k d' r', threads n !! k = Some (Decide d' id, Settled (inr r')) -> target d' = target d).
Proof.
  intros Hn Hi. destruct (reached_post g Hg false n i _ _ Hn Hi) as (_ & q & Hq & Hst).
  split; [by exists q|]. intros k d' r' Hk.
  destruct (reached_post g Hg false n k _ _ Hn Hk) as (_ & q' & Hq' & Hst'). congruence.
Qed.

(** C5. Every call returns: in a reachable process no schedule blocks or runs for
    ever; the calls in progress make finitely many steps, whatever their order,
    until each has returned or thrown, and then no create lock is held. *)
Theorem concurrent_calls_return n :
  reached g false n ->
  inevitably (fun n' => all_settled n' /\ w_createLocks (world n') = ∅) n.
Proof. apply (reached_settles g Hg). Qed.
End theorems.
