(* ===== verification/BatchLock.v ===== *)
(** * BatchLock: one batch run at a time

    [HcmSyncService._batchRunning] is a lock: [runBatchSync] takes it before its
    first [await] and its [finally] block gives it back.  Every function of the
    process is shown to treat the flag as a lock, whatever the others do
    meanwhile: only a batch run takes it, only when it is free, and only the run
    that took it gives it back.  So batch runs never overlap, in any interleaving
    of [Process]. *)

From S2P Require Import Prelude Num Domain Store Entities World Breaker Dates Balance Hash HcmApi TimeOff.
From S2P Require Import HcmSync Ledger Effects Lifecycle CreateLock Async Process.

Section batch_lock.
Context {Tbl : Type -> Type} `{RepoLaws Tbl} `{!TxManager Tbl, !TxLaws Tbl}.
Context `{Env} `{Config} `{Engine} `{Crypto} `{!HcmApi Tbl, !HcmApiLaws Tbl}.
Abbreviation Process := (Process Tbl).
Abbreviation prog := (prog Process exn).
Implicit Types (w : World Tbl) (P : Process).

(** The flag. *)
Definition running P : bool := w_batchRunning (p_world P).

(** ** What a function does with the flag *)

(** One step of a function that holds the lock or not ([b]), of a batch run or
    not: the flag before and after it, and whether it holds the lock then. *)
Inductive flag_move (batch : bool) : bool -> bool -> bool -> bool -> Prop :=
  | flag_same b f : flag_move batch b f f b
  | flag_taken : batch = true -> flag_move batch false false true true
  | flag_returned : flag_move batch true true false false.

Lemma flag_move_inv batch b f f' b' : flag_move batch b f f' b' -> (b = true -> f = true) ->
  (b' = true -> f' = true) /\ (b' = true -> b = true \/ f = false /\ batch = true) /\ (f = true -> b = false -> f' = true).
Proof. destruct 1; naive_solver. Qed.

(** Whatever the others do to the process meanwhile, as long as they leave a lock
    that is held alone, every step of [p] is such a move; [Q] holds at its end. *)
Fixpoint behaves {A} (batch b : bool) (p : prog A) (Q : bool -> exn + A -> Prop) : Prop :=
  match p with
  | Settled r => Q b r
  | Await _ m k => forall P, (b = true -> running P = true) ->
      exists b', flag_move batch b (running P) (running (fst (m P))) b' /\
                 behaves batch b' (k (snd (m P))) Q
  end.

Lemma behaves_mono {A} batch b (p : prog A) (Q Q' : bool -> exn + A -> Prop) :
  (forall b r, Q b r -> Q' b r) -> behaves batch b p Q -> behaves batch b p Q'.
Proof.
  intros HQ. revert b. induction p as [r|ready B m k IH]; intros b; [apply HQ|].
  intros Hp P HP. destruct (Hp P HP) as (b' & Hm & Hk). exists b'. eauto.
Qed.
Lemma behaves_settle {A B} batch b (p : prog A) (k : exn + A -> prog B) Q :
  behaves batch b p (fun b r => behaves batch b (k r) Q) -> behaves batch b (settle p k) Q.
Proof.
  revert b. induction p as [r|ready C m j IH]; intros b; [done|].
  intros Hp P HP. destruct (Hp P HP) as (b' & Hm & Hk). exists b'. eauto.
Qed.

(** Most functions have nothing to do with it. *)
Definition neutral {A} (p : prog A) : Prop :=
  forall batch b, behaves batch b p (fun b' _ => b' = b).

Lemma neutral_settled {A} (r : exn + A) : neutral (Settled r).
Proof. done. Qed.
Lemma neutral_step {A} ready (m : Prelude.M Process exn A) : (forall P, running (fst (m P)) = running P) ->
  neutral (Await ready m Settled).
Proof. intros Hm batch b P _. exists b. split; [|done]. rewrite Hm. constructor. Qed.
Lemma neutral_settle {A B} (p : prog A) (k : exn + A -> prog B) :
  neutral p -> (forall r, neutral (k r)) -> neutral (settle p k).
Proof.
  intros Hp Hk batch b. apply behaves_settle. eapply behaves_mono; [|apply Hp].
  intros b' r ->. apply Hk.
Qed.
Lemma neutral_bind {A B} (p : prog A) (k : A -> prog B) :
  neutral p -> (forall a, neutral (k a)) -> neutral (p ≫= k).
Proof. intros Hp Hk. apply neutral_settle; [done|]. by intros [e|a]. Qed.
Lemma neutral_catch {A} (p : prog A) h : neutral p -> (forall e, neutral (h e)) -> neutral (catch_async p h).
Proof. intros Hp Hh. apply neutral_settle; [done|]. by intros [e|a]. Qed.
Lemma neutral_for_each {A} (xs : list A) (body : A -> prog unit) :
  (forall x, neutral (body x)) -> neutral (for_each_async xs body).
Proof. intros Hb. induction xs as [|x xs IH]; [done|]. apply neutral_bind; [apply Hb|by intros _]. Qed.
Lemma neutral_lock {A} key (p : prog A) : neutral p -> neutral (withCreateLock_async key p).
Proof.
  intros Hp. apply neutral_bind; [by apply neutral_step|]. intros i.
  apply neutral_bind; [by apply neutral_step|]. intros _.
  apply neutral_settle; [done|]. intros r batch b P _. exists b. split; [constructor|done].
Qed.

(** ** Computations that leave the flag alone *)
Definition same_flag w w' : Prop := w_batchRunning w' = w_batchRunning w.
#[local] Instance same_flag_preorder : PreOrder same_flag.
Proof. split; [done|]. intros w w' w'' ? ?. unfold same_flag in *. congruence. Qed.

Lemma db_step_flag w w' : db_step w w' -> same_flag w w'.
Proof. by intros (d & n & t & -> & _). Qed.
Lemma quiet_flag w w' : quiet w w' -> same_flag w w'.
Proof. by intros (n & t & b & -> & _). Qed.
Lemma stays_flag {A} (m : M (World Tbl) exn A) : stays db_step m -> stays same_flag m.
Proof. intros Hm w. apply db_step_flag, Hm. Qed.
Lemma setImmediate_flag t : stays same_flag (setImmediate t).
Proof. by intros w. Qed.
Lemma transaction_flag {A} (body : M (World Tbl) exn A) :
  stays same_flag body -> stays same_flag (transaction body).
Proof.
  intros Hb w. destruct (transaction body w) as [w' r] eqn:Ht.
  apply transaction_cases in Ht as (w0 & Hl & Ht). apply later_db_step, db_step_flag in Hl. cbn [fst].
  destruct r as [e|a]; [|etrans; [exact Hl|by eapply (stays_eq same_flag)]].
  destruct Ht as [_ [[_ ->]|(w1 & -> & Hw1)]]; [done|].
  assert (same_flag w0 w1) by (destruct Hw1 as [Hw1|(_ & a & Hw1)]; by eapply (stays_eq same_flag)).
  unfold same_flag in *. cbn. congruence.
Qed.
Lemma quietly_flag {A} (m : M (World Tbl) exn A) : returns_quietly m -> stays same_flag m.
Proof. intros Hm w. destruct (Hm w) as (w' & a & -> & Hq). by apply quiet_flag. Qed.

Lemma neutral_awaits {A} (m : M (World Tbl) exn A) : stays same_flag m -> neutral (awaits m).
Proof. intros Hm. apply neutral_step. intros P. apply Hm. Qed.
Lemma neutral_db {A} (m : M (World Tbl) exn A) : stays db_step m -> neutral (awaits m).
Proof. intros Hm. by apply neutral_awaits, stays_flag. Qed.

(** ** Every call *)
Ltac neutral_steps :=
  repeat first
    [ solve [auto with effects] | apply neutral_settled
    | apply neutral_bind; [|intros ?] | apply neutral_catch; [|intros ?] | apply neutral_for_each; intros ?
    | match goal with
      | |- neutral (match ?x with _ => _ end) => destruct x
      | |- neutral (let _ := _ in _) => cbv zeta
      end ].

Lemma neutral_gets {A} (f : World Tbl -> A) : neutral (awaits (gets f)).
Proof. apply neutral_db, stays_gets, _. Qed.
Lemma neutral_date_now : neutral (awaits date_now).
Proof. apply neutral_db, date_now_stays. Qed.
Lemma neutral_sleep ms : neutral (awaits (sleep ms)).
Proof. apply neutral_db. intros w. apply later_db_step, pass_later. Qed.
Lemma neutral_serialize b : neutral (awaits (serialize b)).
Proof. apply neutral_db. unfold serialize, isStale. stays_steps. Qed.
Lemma neutral_isNotInPast s : neutral (awaits (isNotInPast s)).
Proof. apply neutral_db. unfold isNotInPast. stays_steps. Qed.
Lemma neutral_save {R} `{Entity R} (get : Db Tbl -> Tbl R) put r : neutral (awaits (t_save get put r)).
Proof. apply neutral_db, t_save_stays. Qed.
Lemma neutral_update {R} `{Entity R} (get : Db Tbl -> Tbl R) put i f : neutral (awaits (t_update get put i f)).
Proof. apply neutral_db, t_update_stays. Qed.
Lemma neutral_quietly {A} (m : M (World Tbl) exn A) : returns_quietly m -> neutral (awaits m).
Proof. intros Hm. by apply neutral_awaits, quietly_flag. Qed.
Lemma neutral_notifyHcm i e l y d : neutral (awaits (notifyHcmAsync i e l y d)).
Proof. apply neutral_awaits, setImmediate_flag. Qed.
Lemma neutral_create_tx dto key hash days : neutral (awaits (transaction (create_tx dto key hash days))).
Proof. apply neutral_awaits, transaction_flag, stays_flag, create_tx_stays. Qed.
#[local] Hint Resolve neutral_gets neutral_date_now neutral_sleep neutral_serialize neutral_isNotInPast neutral_save
  neutral_update neutral_quietly neutral_notifyHcm neutral_create_tx
  validateRequest_quiet notifyApproval_quiet getBatchBalances_quiet : effects.

Lemma checkIdempotency_neutral key hash : neutral (checkIdempotency_async key hash).
Proof. unfold checkIdempotency_async, t_findOne. neutral_steps. Qed.
#[local] Hint Resolve checkIdempotency_neutral : effects.
Lemma recoverAfterConstraint_neutral key hash : neutral (recoverAfterConstraint_async key hash).
Proof. unfold recoverAfterConstraint_async, t_findOne. neutral_steps. Qed.
#[local] Hint Resolve recoverAfterConstraint_neutral : effects.
Lemma create_retry_neutral {A} (p : prog A) left attempt : neutral p -> neutral (create_retry_async p left attempt).
Proof.
  intros Hp. revert attempt. induction left as [|left IH]; intros attempt; cbn [create_retry_async]; neutral_steps.
Qed.
#[local] Hint Resolve create_retry_neutral : effects.
Lemma createRequest_neutral dto okey : neutral (createRequest_async dto okey).
Proof.
  assert (Hl : forall key hash days, neutral (create_locked_async dto key hash days)).
  { intros. unfold create_locked_async, create_recover_async. neutral_steps. }
  pose proof (fun key k hash days => neutral_lock key _ (Hl k hash days)).
  unfold createRequest_async. neutral_steps.
Qed.

Lemma run_NotifyHcm_neutral i e l y d : neutral (run_NotifyHcm_async i e l y d).
Proof. unfold run_NotifyHcm_async. neutral_steps. Qed.
Lemma run_NotifyApproval_neutral q i : neutral (run_NotifyApproval_async q i).
Proof. unfold run_NotifyApproval_async. neutral_steps. Qed.
Lemma upsertBalance_neutral e l y total : neutral (upsertBalance_async e l y total).
Proof. unfold upsertBalance_async, t_findOne. neutral_steps. Qed.
Lemma updateSyncAttempt_neutral q s v : neutral (updateSyncAttempt_async q s v).
Proof. unfold updateSyncAttempt_async. neutral_steps. Qed.
#[local] Hint Resolve updateSyncAttempt_neutral : effects.
Lemma retry_one_neutral q : neutral (retry_one_async q).
Proof.
  unfold retry_one_async, retryValidationOnly_async, retryApprovalFlow_async, retry_approval_async. neutral_steps.
Qed.
#[local] Hint Resolve retry_one_neutral : effects.
Lemma retryPendingHcmSyncs_neutral : neutral retryPendingHcmSyncs_async.
Proof. unfold retryPendingHcmSyncs_async, t_findBy. neutral_steps. Qed.

Lemma decide_neutral d id : neutral (awaits (decide_request d id)).
Proof.
  apply neutral_awaits. intros w. rewrite decide_request_tx. revert w. apply transaction_flag.
  pose proof setImmediate_flag.
  assert (Hf : forall A (m : M (World Tbl) exn A), stays db_step m -> stays same_flag m) by (intros; by apply stays_flag).
  destruct d; cbn [decision_tx]; unfold approve_tx, reject_tx, cancel_tx, getRequestLockedOrThrow, assertValidTransition,
    finalizeUsed, releaseFromPending; stays_steps.
Qed.
Lemma realtime_neutral e l y hb : neutral (awaits (transaction (applyHcmRealTimeUpdate e l y hb))).
Proof. apply neutral_awaits, transaction_flag, stays_flag. unfold applyHcmRealTimeUpdate. stays_steps. Qed.

(** ** A batch run *)
Lemma finish_log_neutral i s c e : neutral (finish_log_async i s c e).
Proof. unfold finish_log_async. neutral_steps. Qed.
#[local] Hint Resolve finish_log_neutral : effects.
Lemma reconcileRecord_neutral h : neutral (reconcileRecord_async h).
Proof. unfold reconcileRecord_async, reconcileWith_async, t_findOne. neutral_steps. Qed.
#[local] Hint Resolve reconcileRecord_neutral : effects.
Lemma reconcile_loop_neutral hs c : neutral (reconcile_loop_async hs c).
Proof. revert c. induction hs as [|h hs IH]; intros c; cbn [reconcile_loop_async]; neutral_steps. Qed.
Lemma missing_loop_neutral keys bs c : neutral (missing_loop_async keys bs c).
Proof. revert c. induction bs as [|b bs IH]; intros c; cbn [missing_loop_async]; neutral_steps. Qed.
#[local] Hint Resolve reconcile_loop_neutral missing_loop_neutral : effects.
Lemma batch_body_neutral i : neutral (batch_body_async i).
Proof. unfold batch_body_async, fail_log_async, t_find. neutral_steps. Qed.

Lemma runBatchSync_behaves : behaves true false runBatchSync_async (fun _ _ => True).
Proof.
  assert (Hn : forall A b (p : prog A) (k : A -> prog unit),
    neutral p -> (forall a, behaves true b (k a) (fun _ _ => True)) -> behaves true b (p ≫= k) (fun _ _ => True)).
  { intros A b p k Hp Hk. apply behaves_settle. eapply behaves_mono; [|apply Hp]. by intros b' [e|a] ->. }
  intros P _. destruct P as [w cs]. unfold running, lift, claim_batch. cbn [fst snd p_world set_world settle].
  destruct (w_batchRunning w).
  - exists false. split; [constructor|done].
  - exists true. split; [by constructor|]. cbn [settle].
    apply Hn; [apply neutral_date_now|]. intros now. apply Hn; [apply neutral_save|]. intros log.
    apply behaves_settle. eapply behaves_mono; [|apply batch_body_neutral]. intros b r -> P' HP'.
    exists false. split; [|done]. rewrite HP' by done. constructor.
Qed.

Definition is_batch (c : Call) : bool :=
  match c with RunBatch | Callback RunBatchSync => true | _ => false end.

Lemma call_behaves c : behaves (is_batch c) false (call_async c) (fun _ _ => True).
Proof.
  assert (Hn : forall (p : prog (option RequestView)), neutral p -> behaves (is_batch c) false p (fun _ _ => True)).
  { intros p Hp. eapply behaves_mono; [|apply Hp]. done. }
  assert (Ha : forall p, neutral p -> neutral (answer p)) by (intros; apply neutral_bind; [done|by intros]).
  assert (Hs : forall A (p : prog A), neutral p -> neutral (silent p)) by (intros; apply neutral_bind; [done|by intros]).
  assert (Hb : behaves true false (silent runBatchSync_async) (fun _ _ => True)).
  { apply behaves_settle. eapply behaves_mono; [|apply runBatchSync_behaves]. by intros b [e|a] _. }
  pose proof createRequest_neutral. pose proof decide_neutral. pose proof upsertBalance_neutral.
  pose proof realtime_neutral. pose proof retryPendingHcmSyncs_neutral. pose proof run_NotifyHcm_neutral.
  pose proof run_NotifyApproval_neutral.
  destruct c as [dto okey|d i|e l y total|e l y hb| | | |[i e l y d|q i|]]; cbn [call_async task_async is_batch];
    auto.
  apply Hn, Hs, neutral_awaits. pose proof setImmediate_flag. unfold triggerManualBatchSync, batchRunning. stays_steps.
Qed.

(** ** The process *)
Abbreviation Node := (Pool Process exn (option RequestView) Call).
Implicit Types (n : Node).

(** Which functions hold the lock: at most one, and then the flag is set. *)
Definition thread_flag (b : bool) (th : Call * prog (option RequestView)) : Prop :=
  behaves (is_batch th.1) b th.2 (fun _ _ => True) /\ (b = true -> is_batch th.1 = true).
Record locked (bs : list bool) n : Prop := {
  lk_threads : Forall2 thread_flag bs (threads n);
  lk_one : forall i j, bs !! i = Some true -> bs !! j = Some true -> i = j;
  lk_flag : forall i, bs !! i = Some true -> running (shared n) = true;
}.

Lemma thread_locked bs n n' : locked bs n -> thread_step n n' -> exists bs', locked bs' n'.
Proof.
  intros [Ht Hone Hf] [i c p p' s' Hi Ha]. destruct (Forall2_lookup_r _ _ _ _ _ Ht Hi) as (b & Hb & Hp).
  destruct Hp as [Hp Hbatch]. cbn [fst snd] in *. destruct p as [r|ready B m k]; [done|]. cbn in Ha.
  destruct (ready (shared n)); [|done]. destruct (m (shared n)) as [s1 r] eqn:Hm. injection Ha as <- <-.
  assert (Hbf : b = true -> running (shared n) = true) by (intros ->; by eapply Hf).
  destruct (Hp (shared n) Hbf) as (b' & Hmove & Hk). rewrite Hm in Hmove, Hk. cbn [fst snd] in *.
  destruct (flag_move_inv _ _ _ _ _ Hmove Hbf) as (Hheld & Htaken & Hkept).
  assert (Hother : forall j, i <> j -> bs !! j = Some true -> b = false /\ running (shared n) = true).
  { intros j Hne Hj. split; [|by eapply Hf]. destruct b; [|done]. destruct Hne. by eapply Hone. }
  assert (Hnew : forall j, i <> j -> bs !! j = Some true -> b' <> true).
  { intros j Hne Hj Hb'. destruct (Hother j Hne Hj). destruct (Htaken Hb') as [?|[? _]]; congruence. }
  exists (<[i := b']> bs). split; cbn [shared threads].
  - apply Forall2_insert; [done|]. split; [done|]. cbn. intros Hb'. destruct (Htaken Hb') as [->|[_ ?]]; auto.
  - intros j j' [(<- & E & _)|[Hne Hj]]%list_lookup_insert_Some [(<- & E' & _)|[Hne' Hj']]%list_lookup_insert_Some.
    + done.
    + by destruct (Hnew j').
    + by destruct (Hnew j).
    + by eapply Hone.
  - intros j [(<- & -> & _)|[Hne Hj]]%list_lookup_insert_Some; [by apply Hheld|].
    destruct (Hother j Hne Hj). by apply Hkept.
Qed.

Lemma start_locked bs s ts c :
  locked bs {| shared := s; threads := ts |} -> locked (bs ++ [false]) (start s ts c).
Proof.
  intros [Ht Hone Hf]. split; cbn [start shared threads] in *.
  - apply Forall2_app; [done|]. constructor; [by split; [apply call_behaves|]|constructor].
  - intros i j [Hi|[_ ?]]%lookup_snoc_cases [Hj|[_ ?]]%lookup_snoc_cases; [|done..]. by eapply Hone.
  - intros i [Hi|[_ ?]]%lookup_snoc_cases; [|done]. by eapply Hf.
Qed.
Lemma locked_flag bs s s' ts :
  running s' = running s -> locked bs {| shared := s; threads := ts |} -> locked bs {| shared := s'; threads := ts |}.
Proof. intros Hs [Ht Hone Hf]. split; [done|done|]. cbn in *. rewrite Hs. done. Qed.

Lemma node_locked may start_ n n' bs : locked bs n -> node_step may start_ n n' -> exists bs', locked bs' n'.
Proof.
  intros Hl [c Hc|n1 Hs|t ts Ht Hst|w' Hq|now tick b Hnow].
  - exists (bs ++ [false]). apply start_locked. by destruct n.
  - by eapply thread_locked.
  - exists (bs ++ [false]). apply start_locked. destruct n as [s ths]. by apply (locked_flag bs s).
  - exists bs. destruct n as [s ths]. apply (locked_flag bs s); [by apply quiet_flag|done].
  - exists []. split; [constructor|by intros i|by intros i].
Qed.
Lemma reached_locked may start_ P n :
  rtc (node_step may start_) {| shared := P; threads := [] |} n -> exists bs, locked bs n.
Proof.
  intros Hs. remember {| shared := P; threads := [] |} as n0 eqn:Hn.
  assert (Hl : exists bs, locked bs n0) by (exists []; subst; split; [constructor|by intros i|by intros i]).
  clear Hn. induction Hs as [n|n n1 n2 Hs _ IH]; [done|]. destruct Hl as [bs Hl]. apply IH. by eapply node_locked.
Qed.

(** A function past its guard: while the flag stays set, it can still go on and
    clear it. *)
Inductive committed {A} : prog A -> Prop :=
  | committed_now ready B (m : Prelude.M Process exn B) k P :
      running P = true -> running (fst (m P)) = false -> committed (Await ready m k)
  | committed_later ready B (m : Prelude.M Process exn B) k P :
      running P = true -> running (fst (m P)) = true -> committed (k (snd (m P))) -> committed (Await ready m k).

Lemma committed_holds {A} batch b (p : prog A) Q :
  committed p -> behaves batch b p Q -> b = true.
Proof.
  intros Hc. revert b. induction Hc as [ready B m k P Hr Hr'|ready B m k P Hr Hr' Hc IH]; intros [|] Hp; try done;
    destruct (Hp P ltac:(done)) as (b' & Hm & Hk); rewrite Hr, Hr' in Hm.
  - inversion Hm.
  - apply IH in Hk. subst b'. inversion Hm.
Qed.
(** [p], from [P] and alone, clears the flag for the first time: a test for
    [committed]. *)
Fixpoint clears {A} (p : prog A) P : bool :=
  match p with
  | Settled _ => false
  | Await _ m k => running P && (negb (running (fst (m P))) || clears (k (snd (m P))) (fst (m P)))
  end.
Lemma clears_committed {A} (p : prog A) P : clears p P = true -> committed p.
Proof.
  revert P. induction p as [r|ready B m k IH]; intros P; [done|]. cbn.
  intros [Hr Hc]%andb_true_iff. destruct (running (fst (m P))) eqn:Hm; cbn in Hc.
  - apply (committed_later ready B m k P); [done|done|by eapply IH].
  - by apply (committed_now ready B m k P).
Qed.

(** C16. Batch runs exclude each other.  From any start of the process, whatever
    calls came, interleaved, failed or crashed: at most one of the calls in
    progress is a batch run past its guard; while there is one the flag is set,
    and a batch run that starts then returns at its first step and changes
    nothing. *)
Theorem batch_runs_exclusive may start_ P0 n i c p :
  rtc (node_step may start_) {| shared := P0; threads := [] |} n ->
  threads n !! i = Some (c, p) -> committed p ->
  is_batch c = true /\ w_batchRunning (p_world (shared n)) = true /\
  (forall j c' p', threads n !! j = Some (c', p') -> committed p' -> j = i) /\
  advance (call_async RunBatch) (shared n) = Some (Settled (inr None), shared n).
Proof.
  intros Hs Hi Hc. destruct (reached_locked _ _ _ _ Hs) as [bs [Ht Hone Hf]].
  assert (Hheld : forall j c' p', threads n !! j = Some (c', p') -> committed p' ->
    bs !! j = Some true /\ is_batch c' = true).
  { intros j c' p' Hj Hc'. destruct (Forall2_lookup_r _ _ _ _ _ Ht Hj) as (b & Hb & Hp & Hbatch).
    cbn [fst snd] in *. pose proof (committed_holds _ _ _ _ Hc' Hp) as ->. auto. }
  destruct (Hheld i c p Hi Hc) as [Hb Hbatch]. pose proof (Hf i Hb) as Hrun.
  split; [done|]. split; [done|]. split.
  - intros j c' p' Hj Hc'. destruct (Hheld j c' p' Hj Hc') as [Hb' _]. by eapply Hone.
  - cbn. destruct (shared n) as [w cs]. unfold lift, claim_batch, running, set_world in *. cbn in Hrun |- *.
    rewrite Hrun. cbn. f_equal. f_equal. f_equal. destruct w. cbn in *. by subst.
Qed.
End batch_lock.
