(* ===== verification/Progress.v ===== *)
(** * Progress: when the operations succeed

    With a driver that fails only on constraints (keys that must be unique, numbers
    that must not be [NULL]), the contracts of [Lifecycle]
    are not vacuous: a decision on a [PENDING] request always goes through when
    the books are right, and [createRequest] stores a request whenever its own
    checks pass. *)

From S2P Require Import Prelude Num Domain Store Entities World Dates Balance Hash HcmApi TimeOff.
From S2P Require Import Samples Ledger Effects Lifecycle Books Reachable.

Local Open Scope Z_scope.

Section progress.
Context (g : Z) (Hg : 0 <= g <= 6).
Context {Tbl : Type -> Type} `{ReliableRepo Tbl} `{!TxManager Tbl, !TxLaws Tbl, !ReliableTx Tbl}.
Context `{Env} `{Config} `{Engine} `{Crypto}.
Implicit Types (w : World Tbl).

(** A [save] that violates no constraint returns. *)
Lemma t_save_total {R} `{EntityLaws R} (get : Db Tbl -> Tbl R) put w r :
  wf (get (w_db w)) -> e_storable r = true ->
  (forall j q, rows (get (w_db w)) !! j = Some q -> e_clash r q = true -> eid r = j) ->
  exists w' r', t_save get put r w = (w', inr r').
Proof.
  intros Hwf Hs Hc. unfold t_save. destruct (save_total _ _ Hwf Hs Hc) as (t & r' & ->). by do 2 eexists.
Qed.

(** Moving a finite number of days leaves amounts that can be stored. *)
Lemma assigns_storable op days b :
  e_storable b = true -> finite days = true -> e_storable (assigns op days b) = true.
Proof.
  intros Hb Hd. rewrite <- parseFloat_finite in Hd. cbn in Hb. rewrite !andb_true_iff in Hb.
  destruct Hb as (S1 & S2 & S3 & S4 & S5 & S6 & _).
  destruct op; cbn; rewrite !andb_true_iff; split_and!; try done;
    (apply nadd_has_value || apply nsub_has_value); by rewrite ?parseFloat_has_value.
Qed.

Lemma run_op_total op k days w i b :
  wf (balances (w_db w)) -> finite days = true -> Bal w !! i = Some b -> b_key b = k -> refuses op days b = None ->
  exists w', run_op op k days w = (w', inr tt).
Proof.
  intros Hwf Hfin Hi Hk Hre. rewrite run_op_update. unfold locked_update, mbind, M_bind, t_findOne, gets.
  destruct k as [[e l] y]. cbn [fst snd]. rewrite (findOne_key _ _ _ _ _ _ Hwf Hi Hk), Hre.
  destruct (t_save_total balances set_balances w (assigns op days b)) as (w' & b' & ->);
    [done|apply assigns_storable; [by apply (rows_storable _ _ _ Hwf Hi)|done]| |by eexists].
  intros j c Hj Hc. destruct (rows_id _ _ _ Hwf Hi) as [Hid _]. cbn in Hid.
  assert (Hka : b_key (assigns op days b) = b_key b) by by destruct op.
  apply bool_decide_eq_true in Hc. rewrite Hka in Hc.
  assert (j = i) as -> by (apply (rows_unique _ j i c b Hwf Hj Hi); by apply bool_decide_eq_true).
  rewrite <- Hid. by destruct op.
Qed.

(** The books hold enough pending days for every [PENDING] request. *)
Lemma books_enough w id q d :
  db_wf (w_db w) -> books g (Bal w) (Req w) -> Req w !! id = Some q ->
  r_status q = RequestStatus.PENDING ->
  exists i b, Bal w !! i = Some b /\ b_key b = r_key q /\
    refuses (move_of d) (parseFloat (r_daysRequested q)) b = None /\
    finite (parseFloat (r_daysRequested q)) = true.
Proof.
  intros Hwf Hb Hq Hp. destruct (books_covered _ _ _ Hb id q Hq ltac:(by left)) as (i & b & Hi & Hk).
  destruct (books_ledger _ _ _ Hb i b Hi) as (l & Hr & Hl & Hpl & _).
  destruct (books_days _ _ _ Hb id q Hq) as (n & Hn & Hd). exists i, b. split_and!; try done.
  2: { rewrite parseFloat_finite, Hd. apply units_are_finite; [lia|unfold small; lia]. }
  rewrite Hd, parseFloat_units by (unfold small; lia).
  pose proof (refuses_step g ltac:(lia) (move_of d) n b l Hl Hn Hr) as Hs.
  assert (Hle : n <= pending l).
  { rewrite Hpl, Hk. transitivity (days_at g RequestStatus.PENDING (r_key q) q).
    - rewrite (days_at_units g Hg _ _ _ n) by done. by rewrite !decide_True.
    - apply (sum_by_member _ _ id); [|done]. intros j r Hj.
      destruct (books_days _ _ _ Hb j r Hj) as (m & Hm & Hrd).
      rewrite (days_at_units g Hg _ _ _ m) by done. repeat case_decide; lia. }
  destruct (ledger_step (move_of d) n l) as [l'|] eqn:E; [by destruct Hs|exfalso].
  destruct d; simpl in E; (destruct (Z.ltb_spec (pending l) n); [lia|done]).
Qed.

Lemma decision_tx_total d id w q :
  db_wf (w_db w) -> books g (Bal w) (Req w) -> Req w !! id = Some q ->
  r_status q = RequestStatus.PENDING -> exists w' v, decision_tx d id w = (w', inr v).
Proof.
  intros Hwf Hb Hq Hp. rewrite decision_tx_body. pose proof Hwf as (Hwb & Hwr & _).
  unfold decision_body, mbind at 1, M_bind at 1.
  destruct (getRequestLockedOrThrow id w) as [w1 [e|q']] eqn:Hgr;
    apply getRequestLockedOrThrow_cases in Hgr as [-> Hgr]; try done.
  { destruct Hgr. congruence. }
  destruct Hgr as [Hq' Hid]. rewrite Hq in Hq'. injection Hq' as <-.
  unfold mbind at 1, M_bind at 1. unfold assertValidTransition. rewrite Hp.
  rewrite bool_decide_eq_true_2 by (destruct d; cbn; rewrite !elem_of_cons; auto). cbn [mret M_ret].
  assert (exists now w1, match d with Cancel _ => mret 0 | _ => date_now end w = (w1, inr now) /\ later w w1)
    as (now & w1 & Ht & Hl).
  { destruct d; do 2 eexists; (split; [reflexivity|]); try reflexivity; apply pass_later. }
  unfold mbind at 1, M_bind at 1. rewrite Ht. unfold mbind at 1, M_bind at 1.
  destruct (t_save_total requests set_requests w1 (decide_row d now q)) as (w2 & q' & Hs).
  { by rewrite (later_db _ _ Hl). }
  { pose proof (rows_storable _ _ _ Hwr Hq) as Hst. by destruct d. }
  { intros j r Hj Hc. rewrite (later_db _ _ Hl) in Hj. apply bool_decide_eq_true in Hc.
    symmetry. assert (Hi' : r_id (decide_row d now q) = id) by (by destruct d). cbn. rewrite Hi'.
    apply (rows_unique _ j id r q Hwr Hj Hq). apply bool_decide_eq_true. rewrite <- Hc. by destruct d. }
  rewrite Hs. apply t_save_ok in Hs as (t & -> & Hwt & Hsame & _); [|by rewrite (later_db _ _ Hl)].
  destruct (decide_row_fields _ _ _ _ Hsame) as (Hk & Hd & _). rewrite Hk, Hd.
  destruct (books_enough w id q d Hwf Hb Hq Hp) as (i & b & Hi & Hbk & Hre & Hfin).
  unfold mbind at 1, M_bind at 1.
  destruct (run_op_total (move_of d) (r_key q) (parseFloat (r_daysRequested q))
    (set_db (set_requests t (w_db w1)) w1) i b) as (w3 & ->); try done.
  - cbn. by rewrite (later_db _ _ Hl).
  - unfold Bal in *. cbn. by rewrite (later_db _ _ Hl).
  - by do 2 eexists.
Qed.

(** C13. A decision on a [PENDING] request always goes through: in a reachable
    state the balance has the request's days pending, so approval, rejection
    and cancellation are never refused for want of them. *)
Theorem decision_succeeds `{!HcmApi Tbl, !HcmApiLaws Tbl, !HcmGrid g} d id w0 w q :
  empty_db w0 -> rtc (step g) w0 w -> Req w !! id = Some q -> r_status q = RequestStatus.PENDING ->
  exists w' v, decide_request d id w = (w', inr v).
Proof.
  intros He Hs Hq Hp. pose proof (reachable_inv g Hg w0 w He Hs) as [Hwf Hb _]. specialize (Hb eq_refl).
  rewrite decide_request_tx. destruct (transaction_reliable (decision_tx d id) w) as (w1 & Hl & Ht).
  destruct (decision_tx_total d id w1 q) as (w2 & v & Hd);
    [by rewrite (later_db _ _ Hl)|unfold Bal, Req; by rewrite (later_db _ _ Hl)
    |unfold Req; by rewrite (later_db _ _ Hl)|done|].
  rewrite Hd in Ht. by exists w2, v.
Qed.

(** ** [createRequest] *)

(** Nothing is stored under the key. *)
Definition unused (key : string) w : Prop :=
  (forall i n, Idem w !! i = Some n -> i_idempotencyKey n <> key) /\
  (forall j q, Req w !! j = Some q -> r_idempotencyKey q <> key).

(** What the transaction of [createRequest] checks. *)
Definition admissible_request (dto : CreateDto) (days : num) w : Prop :=
  (forall j q, Req w !! j = Some q -> active_at (d_employeeId dto) (d_locationId dto) q = true ->
     datesOverlap (d_startDate dto) (d_endDate dto) (r_startDate q) (r_endDate q) = false) /\
  exists i b, Bal w !! i = Some b /\ b_key b = d_key dto /\ refuses Reserve days b = None.

Lemma create_tx_total dto key hash days w :
  db_wf (w_db w) -> finite days = true -> unused key w -> admissible_request dto days w ->
  exists w' req, create_tx dto key hash days w = (w', inr req).
Proof.
  intros Hwf Hfin [Hui Hur] [Hap (i & b & Hi & Hk & Hre)]. pose proof Hwf as (Hwb & Hwr & Hwi & _).
  assert (Hov : assertNoOverlap (d_employeeId dto) (d_locationId dto) (d_startDate dto) (d_endDate dto) w
    = (w, inr tt)).
  { destruct (assertNoOverlap _ _ _ _ w) as [w1 [e|[]]] eqn:Ho;
      apply assertNoOverlap_cases in Ho as [-> Ho]; try done.
    destruct Ho as (_ & j & q & Hj & Ha & Hq). by rewrite (Hap j q Hj Ha) in Hq. }
  unfold create_tx. erewrite bind_ok by reflexivity. rewrite (bind_ok _ _ _ _ _ Hov).
  destruct (run_op_total Reserve (d_key dto) days w i b Hwb Hfin Hi Hk Hre) as (w1 & Hop).
  pose proof Hop as Hop'. unfold run_op in Hop. cbn [d_key fst snd] in Hop.
  apply bind_inv_ok in Hop as (w2 & b' & Hde & [= <-]).
  rewrite (bind_ok _ _ _ _ _ Hde).
  apply run_op_ok in Hop' as (? & ? & ? & _ & _ & _ & (t & -> & _) & _); [|done].
  destruct (t_save_total requests set_requests (set_db (set_balances t (w_db w)) w)
    (new_request dto key days)) as (w3 & req & Hs); [done|by apply finite_has_value| |].
  { intros j q Hj Hc. apply bool_decide_eq_true in Hc. by destruct (Hur j q Hj). }
  rewrite (bind_ok _ _ _ _ _ Hs). apply t_save_ok in Hs as (tr & -> & _); [|done].
  erewrite bind_ok by reflexivity.
  match goal with |- context [(t_save idempotency set_idempotency ?n ≫= _) ?v] =>
    destruct (t_save_total idempotency set_idempotency v n) as (w4 & n' & Hs) end.
  - done.
  - done.
  - intros j q Hj Hc. apply bool_decide_eq_true in Hc. by destruct (Hui j q Hj).
  - rewrite (bind_ok _ _ _ _ _ Hs). by do 2 eexists.
Qed.

Lemma checkIdempotency_unused key hash w :
  wf (idempotency (w_db w)) -> (forall i n, Idem w !! i = Some n -> i_idempotencyKey n <> key) ->
  exists w', checkIdempotency key hash w = (w', inr None) /\ later w w'.
Proof.
  intros Hwf Hu. destruct (checkIdempotency key hash w) as [w' r] eqn:Hc. exists w'.
  apply checkIdempotency_cases in Hc as [Hl Hc]; [|done]. split; [|done].
  destruct r as [e|[v|]]; [..|done].
  - destruct Hc as (_ & i & n & Hi & Hk & _). by destruct (Hu i n Hi).
  - destruct Hc as (i & n & Hi & Hk & _). by destruct (Hu i n Hi).
Qed.

Lemma unused_db key w w' : w_db w' = w_db w -> unused key w -> unused key w'.
Proof. unfold unused, Idem, Req. by intros ->. Qed.
Lemma admissible_db dto days w w' :
  w_db w' = w_db w -> admissible_request dto days w -> admissible_request dto days w'.
Proof. unfold admissible_request, Bal, Req. by intros ->. Qed.

Lemma create_locked_total dto key hash days w :
  db_wf (w_db w) -> finite days = true -> unused key w -> admissible_request dto days w ->
  exists w' v, create_locked dto key hash days w = (w', inr v).
Proof.
  intros Hwf Hfin Hu Ha. unfold create_locked.
  destruct (checkIdempotency_unused key hash w) as (w1 & Hc & Hl); [apply Hwf|apply Hu|].
  rewrite (bind_ok _ _ _ _ _ Hc). unfold try_catch, mbind, M_bind.
  unfold runCreateTransactionWithRetry. cbn [create_retry_loop]. unfold try_catch.
  destruct (transaction_reliable (create_tx dto key hash days) w1) as (w2 & Hl2 & Ht).
  assert (Hd : w_db w2 = w_db w) by (rewrite (later_db _ _ Hl2); by apply later_db).
  destruct (create_tx_total dto key hash days w2) as (w3 & req & Htx);
    [by rewrite Hd|done|by eapply unused_db|by eapply admissible_db|].
  rewrite Htx in Ht. rewrite Ht. by do 2 eexists.
Qed.

(** C14. When the driver does not fail, [createRequest] stores the request whenever
    its checks pass: the key is given and unused, the start date is not in the past
    and the end not before it, the dates have a length (a date like [2026-05] gives
    NaN, which passes the checks but not the [NOT NULL] columns), no active request
    of the employee at the location overlaps, and the balance has the days
    available. *)
Theorem createRequest_succeeds dto key w :
  db_wf (w_db w) -> key <> "" -> unused key w ->
  isNotInPast_at (w_now (pass 0 w)) (d_startDate dto) = true ->
  tv_lt (Date_midnight (d_endDate dto)) (Date_midnight (d_startDate dto)) = false ->
  let days := calculateDaysRequested (d_startDate dto) (d_endDate dto) in
  finite days = true -> admissible_request dto days w ->
  exists w' req, createRequest dto (Some key) w = (w', inr (serializeRequest req)) /\
    created dto key (hashObject (dto_json dto)) days w w' req.
Proof.
  intros Hwf Hne Hu Hp Hd days Hfin Ha.
  assert (exists w' v, createRequest dto (Some key) w = (w', inr v)) as (w' & v & Hc).
  { unfold createRequest. destruct key as [|c key]; [done|].
    rewrite (bind_ok (isNotInPast (d_startDate dto)) _ w (pass 0 w)
      (isNotInPast_at (w_now (pass 0 w)) (d_startDate dto)) eq_refl).
    rewrite Hp, Hd. cbn [negb].
    destruct (checkIdempotency_unused (String c key) (hashObject (dto_json dto)) (pass 0 w))
      as (w1 & Hck & Hl); [apply Hwf|apply Hu|].
    rewrite (bind_ok _ _ _ _ _ Hck). unfold withCreateLock, try_finally.
    set (w2 := set_createLocks _ _ w1).
    assert (Hd2 : w_db w2 = w_db w).
    { change (w_db w2) with (w_db w1). by rewrite (later_db _ _ Hl). }
    destruct (create_locked_total dto (String c key) (hashObject (dto_json dto)) days w2)
      as (w3 & v & Hcl); [by rewrite Hd2|done|by eapply unused_db|by eapply admissible_db|].
    unfold days, d_lock in Hcl. rewrite Hcl. by do 2 eexists. }
  pose proof Hc as Hcc. apply createRequest_cases in Hcc; [|done].
  destruct Hcc as (? & [= <-] & _ & _ & [(req & Hcr & -> & _)|[_ Hst]]).
  - by exists w', req.
  - exfalso. destruct Hu as [Hui Hur]. destruct Hst as [(i & n & Hi & Hk & _)|(j & q & Hj & Hk & _)].
    + by destruct (Hui i n Hi).
    + by destruct (Hur j q Hj).
Qed.
End progress.
