(* ===== verification/Responses.v ===== *)
(** * Responses: what a client of the time-off endpoints sees

    A computation is [safe P] when it keeps the tables well formed and throws
    only exceptions that satisfy [P].  With it the status and the error code of
    every response of [TimeOffController] are determined. *)

From S2P Require Import Prelude Num Domain Store Entities DeadLetter World Dates Balance Hash HcmApi TimeOff Samples Ledger Effects Lifecycle Listing Http.

(** ** Computations with known exceptions *)
Section safe.
Context {Tbl : Type -> Type} `{RepoLaws Tbl}.
Implicit Types (w : World Tbl) (P : exn -> Prop).

Definition safe {A} P (m : M (World Tbl) exn A) : Prop := forall w,
  db_wf (w_db w) -> db_wf (w_db (m w).1) /\ forall e, (m w).2 = inl e -> P e.

Lemma safe_ret {A} P (a : A) : safe P (mret a).
Proof. intros w Hw. by split. Qed.
Lemma safe_throw {A} P e : P e -> safe P (throw (A := A) e).
Proof. intros He w Hw. split; [done|]. by intros ? [= <-]. Qed.
Lemma safe_gets {A} P (f : World Tbl -> A) : safe P (gets f).
Proof. intros w Hw. by split. Qed.
Lemma safe_bind {A B} P (m : M (World Tbl) exn A) (k : A -> M (World Tbl) exn B) :
  safe P m -> (forall a, safe P (k a)) -> safe P (m ≫= k).
Proof.
  intros Hm Hk w Hw. specialize (Hm w Hw) as [H1 H2]. unfold mbind, M_bind.
  destruct (m w) as [w1 [e|a]]; cbn [fst snd] in *; [|by apply Hk].
  split; [done|]. intros ? [= <-]. by apply H2.
Qed.
Lemma safe_catch {A} P Q (m : M (World Tbl) exn A) h :
  safe Q m -> (forall e, Q e -> safe P (h e)) -> safe P (try_catch m h).
Proof.
  intros Hm Hh w Hw. specialize (Hm w Hw) as [H1 H2]. unfold try_catch.
  destruct (m w) as [w1 [e|a]]; cbn [fst snd] in *; [apply Hh; auto|by split].
Qed.
Lemma safe_for_each {A} P (xs : list A) body :
  (forall x, safe P (body x)) -> safe P (for_each xs body).
Proof. intros Hb. induction xs as [|x xs IH]; [apply safe_ret|]. by apply safe_bind. Qed.
(** Steps that do not touch the database. *)
Lemma safe_same {A} P (m : M (World Tbl) exn A) :
  (forall w, w_db (m w).1 = w_db w /\ forall e, (m w).2 = inl e -> P e) -> safe P m.
Proof. intros Hm w Hw. destruct (Hm w) as [-> ?]. by split. Qed.
Lemma safe_date_now `{Env} P : safe P date_now.
Proof. by apply safe_same. Qed.
Lemma safe_sleep `{Env} P ms : safe P (sleep ms).
Proof. by apply safe_same. Qed.
Lemma safe_setImmediate P t : safe P (setImmediate t).
Proof. by apply safe_same. Qed.

(** Driver errors are among the exceptions of a write. *)
Context (P : exn -> Prop) (HP : forall e, driver_error e -> P e).
Lemma safe_save {R} `{EntityLaws R} (get : Db Tbl -> Tbl R) put (r : R) :
  (forall d, db_wf d -> wf (get d)) -> (forall t d, db_wf d -> wf t -> db_wf (put t d)) ->
  safe P (t_save get put r).
Proof.
  intros Hget Hput w Hw. destruct (t_save get put r w) as [w' x] eqn:Hs.
  apply t_save_cases in Hs; [|by apply Hget]. destruct x as [e|r'].
  - destruct Hs as (He & t & -> & Ht & _). split; [by apply Hput|]. intros ? [= <-]. auto.
  - destruct Hs as (t & -> & Ht & _). split; [by apply Hput|done].
Qed.
Lemma safe_save_balance b : safe P (save_balance b).
Proof. apply safe_save; [by intros d (? & ? & ? & ?)|by intros t d (? & ? & ? & ?)]. Qed.
Lemma safe_save_request q : safe P (save_request q).
Proof. apply safe_save; [by intros d (? & ? & ? & ?)|by intros t d (? & ? & ? & ?)]. Qed.
Lemma safe_save_idempotency i : safe P (save_idempotency i).
Proof. apply safe_save; [by intros d (? & ? & ? & ?)|by intros t d (? & ? & ? & ?)]. Qed.
Lemma safe_transaction `{!TxManager Tbl, !TxLaws Tbl} {A} (body : M (World Tbl) exn A) :
  safe P body -> safe P (transaction body).
Proof.
  intros Hb w Hw. destruct (transaction body w) as [w' r] eqn:Ht.
  apply transaction_cases in Ht as (w0 & Hl & Ht). cbn [fst snd].
  destruct (Hb w0) as [B1 B2]; [by rewrite (later_db _ _ Hl)|]. destruct r as [e|a].
  - destruct Ht as [-> Ht]. split; [done|]. intros ? [= <-].
    destruct Ht as [[? _]|(w1 & _ & [Hr|[? _]])]; auto. apply B2. by rewrite Hr.
  - split; [|done]. by rewrite Ht in B1.
Qed.
End safe.
Create HintDb safe.
#[export] Hint Resolve safe_ret safe_gets safe_date_now safe_sleep safe_setImmediate
  safe_save_balance safe_save_request safe_save_idempotency : safe.

(** Split a computation into its steps and its branches; what is left is that the
    exceptions thrown are allowed. *)
Ltac safe_steps :=
  repeat first
    [ solve [auto with safe]
    | apply safe_throw | apply safe_bind; [|intros ?] | apply safe_for_each; intros ?
    | match goal with
      | |- safe _ (match ?x with _ => _ end) => destruct x
      | |- safe _ (let _ := _ in _) => cbv zeta
      end ].

(** An error object (answered with 500), or a Nest exception of the list. *)
Definition allowed (codes : list (Z * string)) (e : exn) : Prop :=
  match e with
  | HttpException status error => (status, error) ∈ codes
  | ErrorObject _ => True
  | ThrownUndefined => False
  end.
Lemma driver_allowed codes e : driver_error e -> allowed codes e.
Proof. by intros [o ->]. Qed.
#[export] Hint Resolve driver_allowed : safe.

(** The statuses and codes of the exceptions in the methods an endpoint calls, as
    the code throws them. *)
Definition create_codes : list (Z * string) :=
  [(400, "Bad Request"); (400, "MISSING_IDEMPOTENCY_KEY"); (422, "INVALID_DATE_RANGE");
   (409, ErrorCodes.IDEMPOTENCY_CONFLICT); (409, ErrorCodes.OVERLAPPING_REQUEST);
   (409, ErrorCodes.BALANCE_CONFLICT); (404, ErrorCodes.BALANCE_NOT_FOUND);
   (422, ErrorCodes.INSUFFICIENT_BALANCE)]%Z.
Definition decision_codes : list (Z * string) :=
  [(400, "Bad Request"); (404, ErrorCodes.REQUEST_NOT_FOUND); (404, ErrorCodes.BALANCE_NOT_FOUND);
   (409, ErrorCodes.INVALID_STATUS_TRANSITION); (409, ErrorCodes.BALANCE_CONFLICT)]%Z.
Ltac in_codes :=
  unfold BadRequestException, NotFoundException, ConflictException, UnprocessableEntityException;
  cbn [allowed]; apply list_elem_of_In; cbn; auto 12.

Section endpoints.
Context {Tbl : Type -> Type} `{RepoLaws Tbl} `{!TxManager Tbl, !TxLaws Tbl, !HcmApi Tbl}.
Context `{Env} `{Config} `{Engine} `{Crypto} `{NestLaws}.
Implicit Types (w : World Tbl).

Lemma checkIdempotency_safe key hash : safe (allowed create_codes) (checkIdempotency (Tbl := Tbl) key hash).
Proof. unfold checkIdempotency, t_findOne. safe_steps; in_codes. Qed.
#[local] Hint Resolve checkIdempotency_safe : safe.
Lemma create_tx_safe dto key hash days : safe (allowed create_codes) (create_tx (Tbl := Tbl) dto key hash days).
Proof.
  unfold create_tx, lockEmployeeBalances, assertNoOverlap, atomicDeduct, t_findOne, t_find. safe_steps; in_codes.
Qed.
(** The third attempt rethrows, so the loop never falls through. *)
Lemma create_retry_safe P {A} (runTx : M (World Tbl) exn A) :
  safe P runTx -> safe P (runCreateTransactionWithRetry runTx).
Proof.
  intros Hr. unfold runCreateTransactionWithRetry. cbn [create_retry_loop].
  repeat (apply safe_catch with P; [done|]; intros ? ?; case_match; [by apply safe_throw|];
    apply safe_bind; [apply safe_sleep|]; intros _).
  match goal with E : _ || (1 + 1 + 1 =? _)%Z = false |- _ => by apply orb_false_iff in E as [_ E] end.
Qed.
Lemma recover_safe key hash : safe (allowed create_codes) (recoverAfterConstraint (Tbl := Tbl) key hash).
Proof. unfold recoverAfterConstraint, t_findOne. safe_steps. Qed.
#[local] Hint Resolve recover_safe : safe.
Lemma create_locked_safe dto key hash days :
  safe (allowed create_codes) (create_locked (Tbl := Tbl) dto key hash days).
Proof.
  unfold create_locked. safe_steps. apply safe_catch with (allowed create_codes).
  - unfold notifyHcmAsync. safe_steps. apply create_retry_safe, (safe_transaction _ (driver_allowed _)), create_tx_safe.
  - intros e He. unfold create_recover. safe_steps; (done || in_codes).
Qed.
Lemma createRequest_safe dto key : safe (allowed create_codes) (createRequest (Tbl := Tbl) dto key).
Proof.
  unfold createRequest, isNotInPast. safe_steps; try in_codes.
  intros w Hw. unfold withCreateLock, try_finally.
  match goal with |- context [create_locked ?d ?k ?h ?n ?v] => pose proof (create_locked_safe d k h n v Hw) as Hc;
    destruct (create_locked d k h n v) as [w1 r] end.
  cbn [fst snd] in *. by case_decide.
Qed.

(** ** The endpoints of one request *)
Inductive TimeOffCall :=
  | PostRequest (dto : CreateDto) (idempotencyKey : option string)
  | GetRequest (id : string)
  | PatchRequest (id : string) (d : Decision).
Definition handler_of (c : TimeOffCall) : M (World Tbl) exn RequestView :=
  match c with
  | PostRequest dto key => post_request dto key
  | GetRequest id => get_request id
  | PatchRequest id (Approve a) => patch_approve id {| ap_approverId := a |}
  | PatchRequest id (Reject a reason) => patch_reject id {| rj_approverId := a; rj_reason := reason |}
  | PatchRequest id (Cancel reason) => patch_cancel id {| cn_reason := reason |}
  end.
Definition success_of (c : TimeOffCall) : Z := match c with PostRequest _ _ => 201 | _ => 200 end.
Definition codes_of (c : TimeOffCall) : list (Z * string) :=
  match c with
  | PostRequest _ _ => create_codes
  | GetRequest _ => [(400, "Bad Request"); (404, ErrorCodes.REQUEST_NOT_FOUND)]%Z
  | PatchRequest _ _ => decision_codes
  end.

Lemma pipe_throws codes {A} (a : A) w w' e :
  (400%Z, "Bad Request") ∈ codes -> lift (pipe_body a) w = (w', inl e) -> w' = w /\ allowed codes e.
Proof. intros Hc [= <- Hp]. split; [done|]. apply pipe_refuses in Hp as ->. exact Hc. Qed.

Lemma refused_allowed d id w e : decision_refused d id w e -> allowed decision_codes e.
Proof.
  unfold decision_refused. destruct (Req w !! id) as [q|]; [|intros ->; in_codes].
  case_decide; [|intros ->; in_codes].
  intros [[_ ->]|(i & b & _ & _ & Hr)]; [in_codes|]. unfold refuses in Hr.
  destruct (_ <. _)%num; [|done]. injection Hr as <-. destruct d; in_codes.
Qed.
Lemma decide_throws d id w w' e :
  db_wf (w_db w) -> decide_request d id w = (w', inl e) -> w_db w' = w_db w /\ allowed decision_codes e.
Proof.
  intros Hw Hd. apply decide_request_cases in Hd as [Hdb Hd]; [|done]. split; [done|]. destruct Hd as [He|[He _]].
  - by apply driver_allowed.
  - by eapply refused_allowed.
Qed.

(** A handler that throws has changed nothing, and throws what is allowed. *)
Lemma handler_throws c w w' e :
  db_wf (w_db w) -> handler_of c w = (w', inl e) -> w_db w' = w_db w /\ allowed (codes_of c) e.
Proof.
  intros Hw. destruct c as [dto key|id|id d]; cbn [handler_of codes_of].
  - unfold post_request. intros [Hp|(w1 & dto' & [= <- _] & Hc)]%bind_inv_err.
    + apply (pipe_throws create_codes) in Hp as [-> Ha]; [by split|apply list_elem_of_In; cbn; auto].
    + pose proof (createRequest_safe dto' key w Hw) as [_ He]. rewrite Hc in He. split; [|by apply He].
      apply createRequest_cases in Hc; [|done]. by eapply untouched_db.
  - unfold get_request, ParseUUIDPipe, getRequest, mbind, M_bind. destruct (is_uuid id).
    + cbn. destruct (r_findOne _ _); intros [= <- <-]. split; [done|in_codes].
    + intros [= <- <-]. split; [done|in_codes].
  - assert (Hd : forall A (a : A) (k : A -> Decision),
        (id ← ParseUUIDPipe id; dto ← lift (pipe_body a); decide_request (k dto) id) w = (w', inl e) ->
        w_db w' = w_db w /\ allowed decision_codes e).
    { intros A a k. unfold ParseUUIDPipe. destruct (is_uuid id);
        [|intros [= <- <-]; split; [done|in_codes]].
      rewrite (bind_ok _ _ w w id eq_refl). intros [Hp|(w1 & a' & [= <- _] & Hc)]%bind_inv_err.
      - apply (pipe_throws decision_codes) in Hp as [-> Ha]; [by split|apply list_elem_of_In; cbn; auto].
      - by eapply decide_throws. }
    destruct d as [a|a reason|reason]; intros Hp.
    + by apply (Hd _ {| ap_approverId := a |} (fun dto => Approve (ap_approverId dto))).
    + by apply (Hd _ {| rj_approverId := a; rj_reason := reason |} (fun dto => Reject (rj_approverId dto) (rj_reason dto))).
    + by apply (Hd _ {| cn_reason := reason |} (fun dto => Cancel (cn_reason dto))).
Qed.

Definition serve (requestId : option string) (url : string) (c : TimeOffCall) : M (World Tbl) exn (response RequestView) :=
  handle requestId url (success_of c) (handler_of c).

(** C18. Every call of an endpoint of one request is answered.  The answer is the
    endpoint's success status with the request; or an error whose status and
    code are on the endpoint's short list ([codes_of], read off the code: a 422 for
    an insufficient balance, where the API specification has a 409), or else the
    500 that tells nothing about what went wrong; and after an error the database
    is as before. *)
Theorem time_off_responses c requestId url w :
  db_wf (w_db w) ->
  exists w' r, serve requestId url c w = (w', inr r) /\
    match r with
    | Answer s v => s = success_of c /\ handler_of c w = (w', inr v)
    | Failure b =>
        w_db w' = w_db w /\ eb_path b = url /\ eb_requestId b = or_string requestId "unknown" /\
        ((eb_statusCode b, eb_error b) ∈ codes_of c \/
         eb_statusCode b = 500%Z /\ eb_error b = INTERNAL_SERVER_ERROR /\
         eb_message b = unexpected_message /\ eb_details b = None)
    end.
Proof.
  intros Hw. unfold serve, handle, try_catch, mbind at 1, M_bind at 1.
  destruct (handler_of c w) as [w1 [e|v]] eqn:Hh; [|by do 2 eexists].
  destruct (handler_throws c w w1 e Hw Hh) as [Hdb Ha].
  destruct e as [s code|o|]; [| |done]; do 2 eexists; (split; [reflexivity|]); cbn [eb_path eb_requestId eb_statusCode eb_error eb_message eb_details];
    (split; [by rewrite <- Hdb|]); (split; [done|]); (split; [done|]).
  - left. assert (Hne : forallb (fun sc : Z * string => negb (bool_decide (sc.2 = ""))) (codes_of c) = true) by by destruct c.
    rewrite forallb_forall in Hne. specialize (Hne (s, code)). rewrite <- list_elem_of_In in Hne. cbn [allowed] in Ha.
    specialize (Hne Ha). by destruct code.
  - by right.
Qed.
End endpoints.

(** The response the API specification gives for an insufficient balance is none
    of the list. *)
Example documented_conflict : (409%Z, ErrorCodes.INSUFFICIENT_BALANCE) ∉ create_codes.
Proof. by apply (bool_decide_unpack _). Qed.
