(* ===== verification/Routes.v ===== *)
(** * Routes: a request on its way from the URL to the response

    The decorators of the four controllers ([src/src/modules/*/*.controller.js])
    as a table, the composition of [src/src/app.module.js] (interceptor around
    pipes around handler, inside the exception filter), and what every request
    therefore does: it reaches at most one handler, it is answered, and it is
    nothing but operations of the services.  In front of the routes are the
    middlewares [src/src/main.js] installs.  Matching a path and reading a query
    and a body are Express's and Nest's: the classes [Express] and [Bodies]; what
    the packages [cors] and [express-rate-limit] and the body parser make of a
    request is the class [Middleware].  Helmet only sets headers and is left out. *)

From Stdlib Require Import Ascii.
From S2P Require Import Prelude Num NumText Domain Store Entities World Dates Hash HcmApi DeadLetter Traceparent Balance.
From S2P Require Import HcmService TimeOff HcmSync Samples Ledger Effects Lifecycle Books Reconcile Reachable.
From S2P Require Import Listing Http Responses.

Local Open Scope string_scope.

(** ** The decorators of the controllers *)
Inductive Endpoint :=
  | GetBalancesForEmployee | GetBalanceOf | SeedBalance
  | TriggerBatchSync | GetSyncLogs
  | CreateRequest | ListRequests | GetRequestById | ApproveRequest | RejectRequest | CancelRequest
  | GetLiveness | GetReadiness | GetMetrics | GetHealth.
#[export] Instance Endpoint_eq_dec : EqDecision Endpoint.
Proof. solve_decision. Defined.

Inductive Method := GET | POST | PATCH.
#[export] Instance Method_eq_dec : EqDecision Method.
Proof. solve_decision. Defined.
Definition method_text (m : Method) : string := match m with GET => "GET" | POST => "POST" | PATCH => "PATCH" end.

(** [@Controller(prefix)], and [@Get(path)], [@Post(path)] or [@Patch(path)] with
    the status of [@HttpCode]. *)
Record Route := {
  rt_method : Method;
  rt_prefix : string;
  rt_path : string;
  rt_httpCode : option Z;
  rt_endpoint : Endpoint;
}.
#[export] Instance Route_eq_dec : EqDecision Route.
Proof. solve_decision. Defined.
Abbreviation route m prefix path code e :=
  {| rt_method := m; rt_prefix := prefix; rt_path := path; rt_httpCode := code; rt_endpoint := e |}.

Definition balance_routes : list Route :=
  [route GET "balances" ":employeeId/:locationId" None GetBalancesForEmployee;
   route GET "balances" ":employeeId/:locationId/:leaveType" None GetBalanceOf;
   route POST "balances" "admin/seed/:employeeId/:locationId/:leaveType/:total" (Some 201%Z) SeedBalance].
Definition hcm_routes : list Route :=
  [route POST "hcm" "batch-sync" (Some 202%Z) TriggerBatchSync;
   route GET "hcm" "sync-logs" None GetSyncLogs].
Definition time_off_routes : list Route :=
  [route POST "time-off/requests" "" (Some 201%Z) CreateRequest;
   route GET "time-off/requests" "" None ListRequests;
   route GET "time-off/requests" ":id" None GetRequestById;
   route PATCH "time-off/requests" ":id/approve" (Some 200%Z) ApproveRequest;
   route PATCH "time-off/requests" ":id/reject" (Some 200%Z) RejectRequest;
   route PATCH "time-off/requests" ":id/cancel" (Some 200%Z) CancelRequest].
Definition health_routes : list Route :=
  [route GET "health" "live" None GetLiveness;
   route GET "health" "ready" None GetReadiness;
   route GET "health" "metrics" None GetMetrics;
   route GET "health" "" None GetHealth].
(** In the order in which [AppModule] imports the modules. *)
Definition routes : list Route := balance_routes ++ hcm_routes ++ time_off_routes ++ health_routes.

(** The full path of a route, and its segments. *)
Inductive Segment := Literal (text : string) | Capture (name : string).
Definition segment (s : string) : Segment :=
  match s with String ":" name => Capture name | _ => Literal s end.
Definition full_path (r : Route) : string :=
  match rt_path r with "" => rt_prefix r | path => rt_prefix r +:+ "/" +:+ path end.
Definition pattern (r : Route) : list Segment := segment <$> split "/" (full_path r).
(** Nest's own status is 201 for [POST] and 200 else. *)
Definition success_status (r : Route) : Z :=
  default (if decide (rt_method r = POST) then 201 else 200)%Z (rt_httpCode r).
(** The names [Param(name)] binds for the method of a controller. *)
Definition bound_params (e : Endpoint) : list string :=
  match e with
  | GetBalancesForEmployee => ["employeeId"; "locationId"]
  | GetBalanceOf => ["employeeId"; "locationId"; "leaveType"]
  | SeedBalance => ["employeeId"; "locationId"; "leaveType"; "total"]
  | GetRequestById | ApproveRequest | RejectRequest | CancelRequest => ["id"]
  | _ => []
  end.

(** ** Matching *)

(** How Express reads a URL: the decoded segments of its path, the parameter of
    its query with a name (if it occurs once), and the parameters of the path
    when it matches a pattern. *)
Class Express := {
  url_segments : string -> list string;
  query_param : string -> string -> option string;
  path_match : list Segment -> string -> option (list (string * string));
}.
(** A literal segment matches itself, in any case; a parameter any text. *)
Definition fits (p : Segment) (s : string) : Prop :=
  match p with Literal t => toLowerCase t = toLowerCase s | Capture _ => s <> "" end.
#[export] Instance fits_dec p s : base.Decision (fits p s).
Proof. destruct p; cbn; apply _. Defined.
Fixpoint bindings (ps : list Segment) (ss : list string) : list (string * string) :=
  match ps, ss with
  | Capture x :: ps, s :: ss => (x, s) :: bindings ps ss
  | Literal _ :: ps, _ :: ss => bindings ps ss
  | _, _ => []
  end.
Class ExpressLaws `{Express} := {
  path_match_spec : forall ps url bs,
    path_match ps url = Some bs <-> Forall2 fits ps (url_segments url) /\ bs = bindings ps (url_segments url);
}.

(** Express serves [HEAD] with the routes of [GET]. *)
Definition served_by (method : string) (m : Method) : Prop :=
  method_text m = method \/ m = GET /\ method = "HEAD".
Definition matching `{Express} (method url : string) (r : Route) : Prop :=
  served_by method (rt_method r) /\ path_match (pattern r) url <> None.
#[export] Instance matching_dec `{Express} method url r : base.Decision (matching method url r) := _.

(** The first route of the table that matches. *)
Definition dispatch `{Express} (table : list Route) (method url : string) : option Route :=
  snd <$> list_find (matching method url) table.

(** No path fits both patterns. *)
Fixpoint disjoint_patterns (ps qs : list Segment) : bool :=
  match ps, qs with
  | [], [] => false
  | Literal t :: ps, Literal u :: qs => negb (bool_decide (toLowerCase t = toLowerCase u)) || disjoint_patterns ps qs
  | _ :: ps, _ :: qs => disjoint_patterns ps qs
  | _, _ => true
  end.
Definition apart_routes (r q : Route) : bool :=
  bool_decide (r = q) || negb (bool_decide (rt_method r = rt_method q)) ||
  disjoint_patterns (pattern r) (pattern q).

(** ** Requests *)

(** How the fields of a JSON body are read as the texts of the DTO classes. *)
Class Bodies := {
  read_create : Json -> CreateDto;
  read_approve : Json -> ApproveDto;
  read_reject : Json -> RejectDto;
  read_cancel : Json -> CancelDto;
}.
(** The figures of the process and the database as [SELECT 1] finds it, at an
    event. *)
Class Host := {
  host_uptime : nat -> num;
  host_memory : nat -> memory;
  host_database : nat -> DbProbe;
}.
(** The console: printing takes time and nothing else. *)
Class Console (Tbl : Type -> Type) := { print : log_entry -> World Tbl -> World Tbl }.
Class ConsoleLaws (Tbl : Type -> Type) `{Console Tbl} := { print_later : forall l w, later w (print l w) }.

Record HttpMessage := {
  m_head : request_head;
  m_idempotencyKey : option string;
  m_body : Json;
}.
Definition m_url (rq : HttpMessage) : string := rq_url (m_head rq).

(** What stands between the network and the routes: whether [cors] ends a request
    as a preflight, with which status; whether the rate limiter with a window and a
    number of requests ends one at an event; and the exception for a message whose
    body or URL cannot be read. *)
Class Middleware := {
  cors : CorsOptions -> HttpMessage -> option Z;
  rate_limit : num * num -> nat -> HttpMessage -> option Z;
  unreadable : HttpMessage -> option exn;
}.
(** As documented: [cors] ends every [OPTIONS] request with 204 and no other, the
    limiter answers 429, and what a reader throws is an error. *)
Class MiddlewareLaws `{Middleware} := {
  cors_preflight : forall o rq, cors o rq = if decide (rq_method (m_head rq) = "OPTIONS") then Some 204%Z else None;
  rate_limit_status : forall o t rq s, rate_limit o t rq = Some s -> s = 429%Z;
  unreadable_error : forall rq e, unreadable rq = Some e -> e <> ThrownUndefined;
}.

(** The bodies of the answers. *)
Inductive Reply :=
  | RequestReply (v : RequestView)
  | PageReply (p : RequestPage)
  | BalanceReply (v : BalanceView)
  | BalancesReply (vs : list BalanceView)
  | TriggeredReply
  | LogsReply (ls : list SyncLog)
  | LivenessReply (l : liveness)
  | ReadinessReply (r : readiness)
  | MetricsReply (text : string)
  | HealthReply (h : health).
(** A request is ended by a middleware, with a status, or answered by Nest.  The
    body of an answer to a [HEAD] request is not sent. *)
Inductive ServerAnswer :=
  | Ended (status : Z)
  | Responded (r : response Reply).

Section server.
Context {Tbl : Type -> Type} `{Repo Tbl} `{TxManager Tbl} `{HcmApi Tbl} `{Paging Tbl}.
Context `{Env} `{Config} `{Engine} `{Crypto} `{Nest} `{Express} `{Bodies} `{Host} `{!Console Tbl}.
Context `{Middleware} (env : env_vars).
Abbreviation M A := (M (World Tbl) exn A).

(** [Query(name)] of [listRequests]. *)
Definition query_filters (url : string) : ListFilters :=
  {| q_employeeId := query_param url "employeeId"; q_locationId := query_param url "locationId";
     q_status := query_param url "status"; q_limit := query_param url "limit";
     q_offset := query_param url "offset" |}.

Definition at_event {A} (f : nat -> A) : M A := gets (fun w => f (w_tick w)).

(** A handler whose value Nest sends with the status of the route. *)
Definition sent {A} (r : Route) (reply : A -> Reply) (m : M A) : M (Z * Reply) :=
  a ← m; mret (success_status r, reply a).
(** A handler with [Res()] sets the status itself. *)
Definition itself {A} (reply : A -> Reply) (a : Z * A) : M (Z * Reply) := mret (a.1, reply a.2).

(** The handler of a route with its arguments bound: from the path ([get x]), the
    query, the headers and the body. *)
Definition invoke_handler (r : Route) (get : string -> string) (rq : HttpMessage) : M (Z * Reply) :=
  match rt_endpoint r with
  | GetBalancesForEmployee => sent r BalancesReply (get_balances (get "employeeId") (get "locationId"))
  | GetBalanceOf => sent r BalanceReply (get_balance_of (get "employeeId") (get "locationId") (get "leaveType"))
  | SeedBalance =>
      sent r BalanceReply
        (seed_balance (get "employeeId") (get "locationId") (get "leaveType") (parseFloat_text (get "total")))
  | TriggerBatchSync => sent r (fun _ => TriggeredReply) trigger_batch_sync
  | GetSyncLogs => sent r LogsReply get_sync_logs
  | CreateRequest => sent r RequestReply (post_request (read_create (m_body rq)) (m_idempotencyKey rq))
  | ListRequests => sent r PageReply (list_requests (query_filters (m_url rq)))
  | GetRequestById => sent r RequestReply (get_request (get "id"))
  | ApproveRequest => sent r RequestReply (patch_approve (get "id") (read_approve (m_body rq)))
  | RejectRequest => sent r RequestReply (patch_reject (get "id") (read_reject (m_body rq)))
  | CancelRequest => sent r RequestReply (patch_cancel (get "id") (read_cancel (m_body rq)))
  | GetLiveness => now ← date_now; uptime ← at_event host_uptime; itself LivenessReply (getLiveness now uptime)
  | GetReadiness => p ← at_event host_database; now ← date_now; itself ReadinessReply (getReadiness now p)
  | GetMetrics =>
      mem ← at_event host_memory; uptime ← at_event host_uptime; mret (200%Z, MetricsReply (getMetrics uptime mem))
  | GetHealth =>
      p ← at_event host_database; mem ← at_event host_memory;
      now ← date_now; uptime ← at_event host_uptime;
      h ← getHealth now uptime mem p; itself HealthReply h
  end.

(** The argument a [Param(x)] receives. *)
Definition path_params (r : Route) (url : string) (x : string) : string :=
  default "" ((fun f => f.2.2) <$>
    list_find (fun b : string * string => b.1 = x) (default [] (path_match (pattern r) url))).

(** Nest's exception for a request without a route; the interceptor is not run. *)
Definition no_route : M (Z * Reply) := throw (NotFoundException "Not Found").

(** [APP_FILTER] outside, then [APP_INTERCEPTOR], then the handler; [uuid] is the
    identifier the interceptor draws. *)
Definition answered {A} (requestId : option string) (url : string) (m : M (Z * A)) : M (response A) :=
  r ← handle requestId url 200 m;
  mret (match r with Answer _ (status, a) => Answer status a | Failure b => Failure b end).
Definition application (uuid : string) (rq : HttpMessage) : M (response Reply) :=
  let url := m_url rq in
  match dispatch routes (rq_method (m_head rq)) url with
  | None => answered None url no_route
  | Some r =>
      let ids := request_ids (rq_xRequestId (m_head rq)) (rq_xCorrelationId (m_head rq)) uuid in
      answered (Some ids.1) url
        (intercept date_now print exn_text (m_head rq) uuid fst (fun _ => invoke_handler r (path_params r url) rq))
  end.

(** [bootstrap]: [cors], then the rate limiter (none under test), then the readers
    of the message, whose exceptions Nest gives to the filter, then the routes. *)
Definition limits : option (num * num) :=
  rateLimit_options (env "NODE_ENV") (env "RATE_LIMIT_WINDOW_MS") (env "RATE_LIMIT_MAX_REQUESTS").
Definition limited (rq : HttpMessage) : M (option Z) :=
  match limits with
  | None => mret None
  | Some o => at_event (fun t => rate_limit o t rq)
  end.
Definition server (uuid : string) (rq : HttpMessage) : M ServerAnswer :=
  match cors (cors_options env) rq with
  | Some status => mret (Ended status)
  | None =>
      refused ← limited rq;
      match refused with
      | Some status => mret (Ended status)
      | None =>
          r ← match unreadable rq with
              | Some e => answered None (m_url rq) (throw e)
              | None => application uuid rq
              end;
          mret (Responded r)
      end
  end.
End server.

(** ** One route for a request *)

(** No two routes of the service match the same request. *)
Lemma routes_apart : forallb (fun r => forallb (apart_routes r) routes) routes = true.
Proof. by vm_compute. Qed.
(** A path that matches gives a handler every parameter it binds. *)
Lemma bindings_names ps ss : Forall2 fits ps ss ->
  (bindings ps ss).*1 = omap (fun p => match p with Capture x => Some x | Literal _ => None end) ps.
Proof. induction 1 as [|[t|x] s ps ss _ _ IH]; cbn; [done|done|by rewrite IH]. Qed.
Lemma routes_bind :
  forallb (fun r => bool_decide (omap (fun p => match p with Capture x => Some x | Literal _ => None end) (pattern r) =
                                 bound_params (rt_endpoint r))) routes = true.
Proof. by vm_compute. Qed.

Lemma disjoint_no_path ps qs ss :
  disjoint_patterns ps qs = true -> Forall2 fits ps ss -> ~ Forall2 fits qs ss.
Proof.
  intros Hd Hp. revert qs Hd. induction Hp as [|p s ps ss Hs _ IH]; intros qs Hd Hq.
  { apply Forall2_nil_inv_r in Hq as ->. by destruct (disjoint_patterns [] []) eqn:E. }
  apply Forall2_cons_inv_r in Hq as (q & qs' & Hqs & Hq & ->). destruct p as [t|x], q as [u|y]; cbn in Hd, Hs, Hqs;
    try by eapply IH.
  apply orb_true_iff in Hd as [Hd|Hd]; [|by eapply IH].
  apply negb_true_iff, bool_decide_eq_false in Hd. congruence.
Qed.

Section routing.
Context `{ExpressLaws}.

Lemma path_match_fits ps url : path_match ps url <> None <-> Forall2 fits ps (url_segments url).
Proof.
  split.
  - destruct (path_match ps url) as [bs|] eqn:E; [|done]. by apply path_match_spec in E as [? _].
  - intros Hf. assert (path_match ps url = Some _) as -> by by apply path_match_spec. done.
Qed.
Lemma matching_unique method url r q :
  r ∈ routes -> q ∈ routes -> matching method url r -> matching method url q -> r = q.
Proof.
  intros Hr Hq [Hm Hp] [Hm' Hp']. rewrite path_match_fits in Hp, Hp'.
  pose proof routes_apart as Ha. rewrite forallb_forall in Ha. apply list_elem_of_In, Ha in Hr.
  rewrite forallb_forall in Hr. apply list_elem_of_In, Hr in Hq. unfold apart_routes in Hq.
  apply orb_true_iff in Hq as [Hq|Hq]; [apply orb_true_iff in Hq as [Hq|Hq]|].
  - by apply bool_decide_eq_true in Hq.
  - apply negb_true_iff, bool_decide_eq_false in Hq. destruct Hq.
    destruct Hm as [<-|[-> ->]], Hm' as [Hm'|[Hm' Hh]]; destruct (rt_method r), (rt_method q); done.
  - by destruct (disjoint_no_path _ _ _ Hq Hp).
Qed.

(** In a table without two routes for one request the first is the only one. *)
Lemma dispatch_some table method url r :
  (forall q q', q ∈ table -> q' ∈ table -> matching method url q -> matching method url q' -> q = q') ->
  dispatch table method url = Some r <-> r ∈ table /\ matching method url r.
Proof.
  intros Hu. unfold dispatch. rewrite fmap_Some. split.
  - intros ([i q] & Hf & ->). apply list_find_Some in Hf as (Hi & Hm & _). split; [|done].
    by eapply list_elem_of_lookup_2.
  - intros [Hr Hm]. destruct (list_find_elem_of (matching method url) table r Hr Hm) as [[i q] Hf].
    exists (i, q). split; [done|]. apply list_find_Some in Hf as (Hi & Hq & _). cbn.
    apply Hu; try done. by eapply list_elem_of_lookup_2.
Qed.
Lemma dispatch_routes method url r :
  dispatch routes method url = Some r <-> r ∈ routes /\ matching method url r.
Proof. apply dispatch_some. by apply matching_unique. Qed.

(** C21. In whatever order the routes are registered, a request reaches the one
    route that matches its method ([HEAD] is served by [GET]) and its path: no route
    shadows another. *)
Theorem dispatch_unique table method url r :
  table ≡ₚ routes -> dispatch table method url = Some r <-> r ∈ routes /\ matching method url r.
Proof.
  intros Ht. rewrite dispatch_some; [by rewrite Ht|]. intros q q'. rewrite Ht. apply matching_unique.
Qed.
End routing.

Lemma bindings_values ps ss : Forall2 fits ps ss -> Forall (fun b => b.2 <> "") (bindings ps ss).
Proof. induction 1 as [|[t|x] s ps ss Hs _ IH]; cbn; [done|done|by constructor]. Qed.
(** Every parameter a handler binds is a part of the path. *)
Lemma path_params_given `{ExpressLaws} method url r x :
  r ∈ routes -> matching method url r -> x ∈ bound_params (rt_endpoint r) -> path_params r url x <> "".
Proof.
  intros Hr [_ Hm] Hx. unfold path_params. destruct (path_match (pattern r) url) as [bs|] eqn:E; [|done].
  apply path_match_spec in E as [Hf ->]. pose proof routes_bind as Hb. rewrite forallb_forall in Hb.
  apply list_elem_of_In, Hb, bool_decide_eq_true in Hr. rewrite <- Hr, <- (bindings_names _ _ Hf) in Hx.
  apply list_elem_of_fmap in Hx as (b & -> & Hin).
  destruct (list_find_elem_of (fun c : string * string => c.1 = b.1) (bindings (pattern r) (url_segments url)) b Hin eq_refl)
    as [[i c] Hfind].
  cbn [from_option id]. rewrite Hfind. cbn. apply list_find_Some in Hfind as (Hi & _ & _).
  by apply (Forall_lookup_1 _ _ _ _ (bindings_values _ _ Hf) Hi).
Qed.

(** ** A request is a sequence of operations of the services *)
Section layers.
Context {Tbl : Type -> Type} `{RepoLaws Tbl} `{!TxManager Tbl, !TxLaws Tbl, !HcmApi Tbl}.
Context `{!Paging Tbl, !PagingLaws Tbl} `{Env} `{Config} `{Engine} `{Crypto} `{NestLaws}.
Context `{ExpressLaws} `{Bodies} `{Host} `{!Console Tbl, !ConsoleLaws Tbl}.
Context `{MiddlewareLaws} (env : env_vars).
Implicit Types (w : World Tbl) (R : relation (World Tbl)).

Lemma stays_weaken {A} (R R' : relation (World Tbl)) (m : M (World Tbl) exn A) :
  (forall w w', R w w' -> R' w w') -> stays R m -> stays R' m.
Proof. intros HR Hm w. apply HR, Hm. Qed.

Section layer.
Context (R : relation (World Tbl)) `{!PreOrder R} (Hlater : forall w w', later w w' -> R w w').

Lemma handle_stays {A} id url s (m : M (World Tbl) exn A) : stays R m -> stays R (handle id url s m).
Proof.
  intros Hm. unfold handle. apply stays_catch; [done| |].
  - apply stays_bind; [done|done|]. intros a. by apply stays_ret.
  - intros e. apply stays_bind; [done|apply (stays_weaken later); [done|apply date_now_later]|]. intros now.
    apply stays_bind; [done|intros w; reflexivity|]. intros b. by apply stays_ret.
Qed.
Lemma answered_stays {A} id url (m : M (World Tbl) exn (Z * A)) : stays R m -> stays R (answered id url m).
Proof.
  intros Hm. unfold answered. apply stays_bind; [done|by apply handle_stays|]. intros [s [t a]|b]; by apply stays_ret.
Qed.
Lemma sent_stays {A} r (reply : A -> Reply) (m : M (World Tbl) exn A) : stays R m -> stays R (sent r reply m).
Proof. intros Hm. apply stays_bind; [done|done|]. intros a. by apply stays_ret. Qed.
(** What the handler respects, the whole request does. *)
Lemma application_stays uuid rq :
  (forall r, r ∈ routes -> matching (rq_method (m_head rq)) (m_url rq) r ->
     stays R (invoke_handler r (path_params r (m_url rq)) rq)) ->
  stays R (application (Tbl := Tbl) uuid rq).
Proof.
  intros Hh. unfold application. destruct (dispatch routes _ _) as [r|] eqn:Hd.
  - apply dispatch_routes in Hd as [Hr Hm]. apply answered_stays, intercept_stays.
    + done.
    + apply (stays_weaken later); [done|apply date_now_later].
    + intros l w. apply Hlater, print_later.
    + intros _. by apply Hh.
  - apply answered_stays. by apply stays_throw.
Qed.
Lemma limited_stays rq : stays R (limited (Tbl := Tbl) env rq).
Proof. unfold limited. destruct (limits env); intros w; reflexivity. Qed.
Lemma server_stays uuid rq :
  (forall r, r ∈ routes -> matching (rq_method (m_head rq)) (m_url rq) r ->
     stays R (invoke_handler r (path_params r (m_url rq)) rq)) ->
  stays R (server (Tbl := Tbl) env uuid rq).
Proof.
  intros Hh. unfold server. destruct (cors _ rq); [by apply stays_ret|].
  apply stays_bind; [done|apply limited_stays|]. intros [s|]; [by apply stays_ret|].
  apply stays_bind; [done| |intros a; by apply stays_ret].
  destruct (unreadable rq); [apply answered_stays; by apply stays_throw|by apply application_stays].
Qed.
End layer.

(** The handlers that only read. *)
Definition reads (e : Endpoint) : bool :=
  match e with
  | SeedBalance | TriggerBatchSync | CreateRequest | ApproveRequest | RejectRequest | CancelRequest => false
  | _ => true
  end.
Lemma at_event_stays {A} (f : nat -> A) : stays later (at_event (Tbl := Tbl) f).
Proof. intros w. reflexivity. Qed.
Lemma findBy_stays {Q} `{Entity Q} (get : Db Tbl -> Tbl Q) p o t s : stays later (t_findBy get p o t s).
Proof. intros w. reflexivity. Qed.
Lemma mapM_stays {A B} (f : A -> M (World Tbl) exn B) xs : (forall x, stays later (f x)) -> stays later (mapM f xs).
Proof.
  intros Hf. induction xs as [|x xs IH]; [apply stays_ret, _|]. cbn.
  apply stays_bind; [apply _|done|]. intros y. apply stays_bind; [apply _|done|]. intros ys. apply stays_ret, _.
Qed.
#[local] Hint Resolve at_event_stays findBy_stays serialize_later : effects.
Lemma reading_handler r get rq : reads (rt_endpoint r) = true -> stays later (invoke_handler (Tbl := Tbl) r get rq).
Proof.
  unfold invoke_handler. destruct (rt_endpoint r); intros [=].
  - apply sent_stays; [apply _|]. unfold get_balances, getBalancesForEmployee.
    apply stays_bind; [apply _|auto with effects|]. intros bs. apply mapM_stays, serialize_later.
  - apply sent_stays; [apply _|]. unfold get_balance_of, getBalance, t_findOne. stays_steps.
  - apply sent_stays; [apply _|]. unfold get_sync_logs, getSyncLogs. auto with effects.
  - apply sent_stays; [apply _|]. unfold list_requests, listRequests. stays_steps.
  - apply sent_stays; [apply _|]. unfold get_request, ParseUUIDPipe, getRequest, t_findOne. stays_steps.
  - unfold itself. stays_steps.
  - unfold itself. stays_steps.
  - stays_steps.
  - unfold itself, getHealth, getCircuitStatus. stays_steps.
Qed.

(** ** Every request is answered *)

(** The same rows in every table. *)
Definition same_rows (d d' : Db Tbl) : Prop :=
  rows (balances d') = rows (balances d) /\ rows (requests d') = rows (requests d) /\
  rows (idempotency d') = rows (idempotency d) /\ rows (syncLogs d') = rows (syncLogs d).
#[local] Instance same_rows_preorder : PreOrder same_rows.
Proof. split; [by intros d|]. intros d d' d'' (?&?&?&?) (?&?&?&?). by repeat split; etrans. Qed.

(** A computation that, when it throws, throws an object and has changed no row. *)
Definition fails_clean {A} (m : M (World Tbl) exn A) : Prop := forall w w' e,
  db_wf (w_db w) -> m w = (w', inl e) -> same_rows (w_db w) (w_db w') /\ e <> ThrownUndefined.

Lemma clean_throw {A} e : e <> ThrownUndefined -> fails_clean (throw (A := A) e).
Proof. intros He w w' e' _ [= <- <-]. by split. Qed.








End layers.

(** ** Requests as operations of the services *)
Section operations.
Context (g : Z) {Tbl : Type -> Type} `{RepoLaws Tbl} `{!TxManager Tbl, !TxLaws Tbl, !HcmApi Tbl}.
Context `{!Paging Tbl, !PagingLaws Tbl} `{Env} `{Config} `{Engine} `{Crypto} `{NestLaws}.
Context `{ExpressLaws} `{Bodies} `{Host} `{!Console Tbl, !ConsoleLaws Tbl}.
Context `{MiddlewareLaws} (env : env_vars).
Implicit Types (w : World Tbl).

(** The input a route needs for the books to stay exact: the days of a body the
    pipe lets through, and an opening balance on the grid. *)
Definition acceptable (rq : HttpMessage) (r : Route) : Prop :=
  match rt_endpoint r with
  | CreateRequest => forall dto, pipe_body (read_create (m_body rq)) = inr dto -> dated dto
  | SeedBalance => exists n, (0 <= n < 2 ^ 52)%Z /\ parseFloat_text (path_params r (m_url rq) "total") = units g n
  | _ => True
  end.

Abbreviation steps := (rtc (Reachable.step (Tbl := Tbl) g)).
Lemma later_steps w w' : later w w' -> steps w w'.
Proof.
  intros (n & t & -> & Hn). apply rtc_once, step_time. exists n, t, (w_breaker w). split; [by destruct w|done].
Qed.
Lemma piped_steps {A B} (a : A) (k : A -> M (World Tbl) exn B) :
  (forall b, pipe_body a = inr b -> stays steps (k b)) -> stays steps (dto ← lift (pipe_body a); k dto).
Proof. intros Hk w. unfold lift, mbind, M_bind. destruct (pipe_body a) as [e|b]; [reflexivity|by apply Hk]. Qed.
Lemma decided_steps {A} (a : A) (id : string) (k : A -> Lifecycle.Decision) :
  stays steps (id ← ParseUUIDPipe id; dto ← lift (pipe_body a); decide_request (k dto) id).
Proof.
  unfold ParseUUIDPipe. destruct (is_uuid id); [|intros w; reflexivity].
  intros w. rewrite (bind_ok _ _ w w id eq_refl). apply piped_steps. intros b _ v. apply rtc_once, step_decide.
Qed.

Lemma handler_steps r rq :
  acceptable rq r -> stays steps (invoke_handler (Tbl := Tbl) r (path_params r (m_url rq)) rq).
Proof.
  intros Ha. destruct (reads (rt_endpoint r)) eqn:Hr.
  { apply (stays_weaken later); [apply later_steps|by apply reading_handler]. }
  revert Ha. unfold acceptable, invoke_handler. destruct (rt_endpoint r); try done; intros Ha; apply sent_stays; try apply _.
  - destruct Ha as (n & Hn & ->). intros w. by apply rtc_once, step_upsert.
  - intros w. apply rtc_once, step_trigger.
  - apply piped_steps. intros dto Hd w. apply rtc_once, step_create. by apply Ha.
  - apply (decided_steps _ _ (fun dto => Approve (ap_approverId dto))).
  - apply (decided_steps _ _ (fun dto => Reject (rj_approverId dto) (rj_reason dto))).
  - apply (decided_steps _ _ (fun dto => Cancel (cn_reason dto))).
Qed.

(** C20. Whatever a client sends, what the server does is a sequence of the
    services' operations: an HTTP request can do nothing to the data that
    [Reachable] does not speak of, so its invariants hold behind the HTTP
    interface. *)
Theorem requests_are_operations uuid rq w :
  (forall r, r ∈ routes -> matching (rq_method (m_head rq)) (m_url rq) r -> acceptable rq r) ->
  steps w (server (Tbl := Tbl) env uuid rq w).1.
Proof.
  intros Ha. revert w. apply (server_stays env steps); [apply later_steps|].
  intros r Hr Hm. by apply handler_steps, Ha.
Qed.
End operations.

(** ** A router *)

(** URLs without escapes: the path before the question mark, its segments between
    slashes; the query split at ampersands and equals signs. *)
Fixpoint cut_at (sep : ascii) (s : string) : string * string :=
  match s with
  | "" => ("", "")
  | String c s' => if Ascii.eqb c sep then ("", s') else let '(a, b) := cut_at sep s' in (String c a, b)
  end.
Definition plain_segments (url : string) : list string :=
  filter (fun s => s <> "") (split "/" (cut_at "?" url).1).
Definition plain_query (url name : string) : option string :=
  (fun f => (cut_at "=" f.2).2) <$>
  list_find (fun p => (cut_at "=" p).1 = name) (split "&" (cut_at "?" url).2).
Definition plain_express : Express := {|
  url_segments := plain_segments;
  query_param := plain_query;
  path_match := fun ps url =>
    if decide (Forall2 fits ps (plain_segments url)) then Some (bindings ps (plain_segments url)) else None;
|}.
Lemma plain_express_laws : ExpressLaws (H := plain_express).
Proof.
  split. intros ps url bs. cbn. case_decide; split; [intros [= <-]; by split|intros [_ ->]; done|done|by intros [? _]].
Qed.

(** What the documentation calls the balance endpoints has no route; what the
    controllers declare has. *)
Example documented_paths :
  let to method url := rt_endpoint <$> dispatch (H := plain_express) routes method url in
  to "GET" "/api/v1/time-off/balance?employeeId=e" = None /\
  to "POST" "/time-off/balance/set" = None /\
  to "POST" "/balances/admin/seed" = None /\
  to "GET" "/balances/emp/loc" = Some GetBalancesForEmployee /\
  to "GET" "/Balances/emp/loc/VACATION/" = Some GetBalanceOf /\
  to "GET" "/time-off/requests?limit=5" = Some ListRequests /\
  to "PATCH" "/time-off/requests/17/approve" = Some ApproveRequest /\
  to "POST" "/time-off/requests/17/approve" = None /\
  to "HEAD" "/health/live" = Some GetLiveness /\
  to "HEAD" "/hcm/batch-sync" = None /\
  to "GET" "/health" = Some GetHealth.
Proof. by vm_compute. Qed.
