(* ===== verification/Startup.v ===== *)
(** * Startup: environment variables and the wiring of the modules

    What is fixed before the first request: the configuration that
    [src/src/modules/hcm/hcm.service.js], [src/src/common/constants/index.js],
    [src/src/main.js] and the mock server read from environment variables, and the
    modules of [src/src/app.module.js] with what their classes have constructor_args.
    Starting the servers is I/O; Nest's rule for what may be constructor_args where is a
    hypothesis. *)

From Stdlib Require Import Ascii.
From stdpp Require Import pretty.
From S2P Require Import Prelude Num NumText Domain Store Entities World Breaker Dates HcmApi DeadLetter Limiters Traceparent.
From S2P Require Import Hash Balance HcmService TimeOff HcmSync Samples Listing Http Responses Routes.

Local Open Scope string_scope.

(** ** Integers in variables *)

(** [parseInt(process.env.NAME || 'default')]; [None] when it is not an integer a
    binary64 number holds exactly. *)
Definition integer_of (x : num) : option Z :=
  let n := Math_floor x in if neqb x (of_Z n) && (Z.abs n <? 2 ^ 53)%Z then Some n else None.
Definition env_integer (env : env_vars) (name default_text : string) : option Z :=
  integer_of (parseInt (or_string (env name) default_text)).

(** The configuration the services run with; [None] when a variable does not hold
    an integer. *)
Definition config_of (env : env_vars) : option Config :=
  stale ← env_integer env "BALANCE_STALE_THRESHOLD_HOURS" "6";
  ttl ← env_integer env "IDEMPOTENCY_TTL_HOURS" "24";
  attempts ← env_integer env "HCM_RETRY_MAX_ATTEMPTS" "3";
  delay ← env_integer env "HCM_RETRY_BASE_DELAY_MS" "1000";
  threshold ← env_integer env "HCM_CIRCUIT_BREAKER_THRESHOLD" "5";
  reset ← env_integer env "HCM_CIRCUIT_BREAKER_RESET_MS" "30000";
  Some {| BALANCE_STALE_THRESHOLD_HOURS := stale; IDEMPOTENCY_TTL_HOURS := ttl;
          HCM_RETRY_MAX_ATTEMPTS := attempts; HCM_RETRY_BASE_DELAY_MS := delay;
          HCM_CIRCUIT_BREAKER_THRESHOLD := threshold; HCM_CIRCUIT_BREAKER_RESET_MS := reset |}.

(** [new HcmService()]: its HTTP client's options, and its breaker. *)
Record HttpClientOptions := { hc_baseURL : string; hc_timeout : num; hc_headers : list (string * string) }.
Definition httpClient_options (env : env_vars) : HttpClientOptions :=
  {| hc_baseURL := or_string (env "HCM_BASE_URL") "http://localhost:3001";
     hc_timeout := parseInt (or_string (env "HCM_TIMEOUT_MS") "5000");
     hc_headers := [("Content-Type", "application/json"); ("X-Service", "timeoff-service")] |}.
Definition hcm_breaker `{Config} : CircuitBreaker :=
  new_CircuitBreaker "HCM" (Some HCM_CIRCUIT_BREAKER_THRESHOLD) (Some HCM_CIRCUIT_BREAKER_RESET_MS) None.

(** The schedules of the two workers. *)
Definition BATCH_SYNC_CRON (env : env_vars) : string := or_string (env "BATCH_SYNC_CRON") "0 2 * * *".
Definition PENDING_RETRY_CRON (env : env_vars) : string := or_string (env "HCM_PENDING_RETRY_CRON") "*/15 * * * *".

(** [bootstrap]: the port. *)
Definition listen_port (env : env_vars) : string := or_string (env "PORT") "3000".
Definition dbPath (env : env_vars) : string := or_string (env "DB_PATH") "./data/timeoff.db".

(** The mock server's port, its administration's port and its two probabilities. *)
Definition mock_options (env : env_vars) : num * num * num * num :=
  let port := parseInt (or_string (env "MOCK_HCM_PORT") "3001") in
  (port, (port +. of_Z 100)%num, parseFloat_text (or_string (env "MOCK_HCM_FLAKINESS") "0.1"),
   parseFloat_text (or_string (env "MOCK_HCM_TIMEOUT_PROBABILITY") "0.05")).

(** ** Decimal texts are read as the numbers they show *)
Fixpoint all_digits (s : string) : bool :=
  match s with "" => true | String c s' => is_digit c && all_digits s' end.

Lemma pretty_N_char_value d : (d < 10)%N -> decimal_value (pretty_N_char d) = Some d.
Proof.
  intros Hd. assert (d ∈ [0; 1; 2; 3; 4; 5; 6; 7; 8; 9]%N) as Hin.
  { rewrite !elem_of_cons. lia. }
  revert Hin. rewrite !elem_of_cons. by intros [->|[->|[->|[->|[->|[->|[->|[->|[->|[->|Hn]]]]]]]]]];
    [..|apply elem_of_nil in Hn].
Qed.
Lemma pretty_N_go_digits x s : all_digits s = true -> all_digits (pretty_N_go x s) = true.
Proof.
  revert s. induction (N.lt_wf_0 x) as [x _ IH]. intros s Hs.
  destruct (decide (x = 0)%N) as [->|Hx]; [by rewrite pretty_N_go_0|].
  rewrite pretty_N_go_step by lia. apply IH; [apply N.div_lt; lia|]. cbn.
  pose proof (pretty_N_char_value (x mod 10) ltac:(apply N.mod_lt; lia)) as Hc.
  unfold is_digit. unfold decimal_value in Hc. destruct (digit _); [by rewrite Hs|done].
Qed.
Lemma digit_prefix_pretty x s : (0 < x)%N ->
  digit_prefix decimal_value 10 None (pretty_N_go x s) = digit_prefix decimal_value 10 (Some x) s.
Proof.
  revert s. induction (N.lt_wf_0 x) as [x _ IH]. intros s Hx. rewrite pretty_N_go_step by done.
  pose proof (pretty_N_char_value (x mod 10) ltac:(apply N.mod_lt; lia)) as Hc.
  assert (Hdm : (x / 10 * 10 + x mod 10 = x)%N) by (pose proof (N.div_mod x 10 ltac:(lia)); lia).
  destruct (decide (x / 10 = 0)%N) as [Hz|Hz].
  - rewrite Hz, pretty_N_go_0 in *. cbn [digit_prefix]. rewrite Hc. by change (default 0%N None) with 0%N; rewrite Hdm.
  - rewrite IH; [|apply N.div_lt; lia|by apply N.neq_0_lt_0]. cbn [digit_prefix]. rewrite Hc.
    change (default 0%N (Some (x / 10)%N)) with (x / 10)%N. by rewrite Hdm.
Qed.

(** A text of digits has no sign, no space and no prefix of another base. *)
Ltac digit_cases c := destruct c as [[] [] [] [] [] [] [] []]; try discriminate.
Lemma parse_magnitude_digits s : all_digits s = true ->
  parse_magnitude s = match digit_prefix decimal_value 10 None s with Some n => of_Z (Z.of_N n) | None => NaN end.
Proof.
  destruct s as [|c [|d s]]; [done|intros [Hc _]%andb_true_iff; revert Hc; by digit_cases c|].
  intros [Hc [Hd _]%andb_true_iff]%andb_true_iff. revert Hc Hd. digit_cases c; intros _; try reflexivity. by digit_cases d.
Qed.
Lemma parseInt_digits s : all_digits s = true ->
  parseInt s = match digit_prefix decimal_value 10 None s with Some n => of_Z (Z.of_N n) | None => NaN end.
Proof.
  intros Hs. rewrite <- parse_magnitude_digits by done. destruct s as [|c s]; [done|].
  apply andb_true_iff in Hs as [Hc _]. revert Hc. by digit_cases c.
Qed.
Lemma parseInt_pretty (n : N) : parseInt (pretty n) = of_Z (Z.of_N n).
Proof.
  unfold pretty, pretty_N. case_decide as Hn; [by subst|]. rewrite parseInt_digits by by apply pretty_N_go_digits.
  by rewrite digit_prefix_pretty by lia.
Qed.
Lemma integer_of_Z n : (0 <= n < 2 ^ 53)%Z -> integer_of (of_Z n) = Some n.
Proof.
  intros Hn. unfold integer_of. rewrite Math_floor_of_Z by (unfold small; lia).
  rewrite <- units_integer. unfold neqb, SpecFloat.SFeqb. rewrite units_compare by (unfold small; lia).
  rewrite Z.compare_refl. cbn. by rewrite (proj2 (Z.ltb_lt _ _)) by lia.
Qed.

(** Variables that show positive whole numbers give the configuration of those
    numbers; variables that are not set give [default_config]. *)
Definition variables_of (c : Config) : env_vars := fun name =>
  let show (n : Z) := Some (pretty (Z.to_N n)) in
  match name with
  | "BALANCE_STALE_THRESHOLD_HOURS" => show BALANCE_STALE_THRESHOLD_HOURS
  | "IDEMPOTENCY_TTL_HOURS" => show IDEMPOTENCY_TTL_HOURS
  | "HCM_RETRY_MAX_ATTEMPTS" => show HCM_RETRY_MAX_ATTEMPTS
  | "HCM_RETRY_BASE_DELAY_MS" => show HCM_RETRY_BASE_DELAY_MS
  | "HCM_CIRCUIT_BREAKER_THRESHOLD" => show HCM_CIRCUIT_BREAKER_THRESHOLD
  | "HCM_CIRCUIT_BREAKER_RESET_MS" => show HCM_CIRCUIT_BREAKER_RESET_MS
  | _ => None
  end.
Definition config_values (c : Config) : list Z :=
  [BALANCE_STALE_THRESHOLD_HOURS; IDEMPOTENCY_TTL_HOURS; HCM_RETRY_MAX_ATTEMPTS; HCM_RETRY_BASE_DELAY_MS;
   HCM_CIRCUIT_BREAKER_THRESHOLD; HCM_CIRCUIT_BREAKER_RESET_MS].

Lemma env_integer_shown env name d n :
  env name = Some (pretty (Z.to_N n)) -> (0 <= n < 2 ^ 53)%Z -> env_integer env name d = Some n.
Proof.
  intros He Hn. unfold env_integer, or_string. rewrite He.
  pose proof (pretty_N_nonempty (Z.to_N n)). destruct (pretty (Z.to_N n)) as [|c s] eqn:Hp; [done|].
  rewrite <- Hp, parseInt_pretty, Z2N.id by lia. by apply integer_of_Z.
Qed.

(** The configuration round-trips through the environment: variables that show
    whole numbers are read as these numbers, and with no variable set (or only
    empty ones) the services run with [default_config]. *)
Lemma config_roundtrip c env :
  Forall (fun n => 0 <= n < 2 ^ 53)%Z (config_values c) ->
  (forall name, env name = None \/ env name = Some "") ->
  config_of (variables_of c) = Some c /\ config_of env = Some default_config.
Proof.
  intros Hc He. split.
  - unfold config_values in Hc. rewrite !Forall_cons in Hc. destruct Hc as (? & ? & ? & ? & ? & ? & _).
    unfold config_of.
    assert (Hr : forall name d n, variables_of c name = Some (pretty (Z.to_N n)) -> (0 <= n < 2 ^ 53)%Z ->
      env_integer (variables_of c) name d = Some n) by (intros; by apply env_integer_shown).
    rewrite (Hr "BALANCE_STALE_THRESHOLD_HOURS" _ BALANCE_STALE_THRESHOLD_HOURS), (Hr "IDEMPOTENCY_TTL_HOURS" _ IDEMPOTENCY_TTL_HOURS), (Hr "HCM_RETRY_MAX_ATTEMPTS" _ HCM_RETRY_MAX_ATTEMPTS),
      (Hr "HCM_RETRY_BASE_DELAY_MS" _ HCM_RETRY_BASE_DELAY_MS), (Hr "HCM_CIRCUIT_BREAKER_THRESHOLD" _ HCM_CIRCUIT_BREAKER_THRESHOLD), (Hr "HCM_CIRCUIT_BREAKER_RESET_MS" _ HCM_CIRCUIT_BREAKER_RESET_MS)
      by (done || reflexivity). by destruct c.
  - assert (Hd : forall name d, env_integer env name d = integer_of (parseInt d)).
    { intros name d. unfold env_integer, or_string. by destruct (He name) as [->| ->]. }
    unfold config_of. rewrite !Hd. by vm_compute.
Qed.
Lemma config_roundtrip_witness :
  config_of (variables_of default_config) = Some default_config /\ config_of (fun _ => None) = Some default_config.
Proof.
  apply (config_roundtrip default_config (fun _ => None)); [|by left]. repeat constructor; discriminate.
Defined.

(** A variable that is not a number leaves the services without a configuration
    in the sense of [Config]: JavaScript runs on with NaN. *)
Example unreadable_variable :
  config_of (fun name => if decide (name = "HCM_RETRY_MAX_ATTEMPTS") then Some "three" else None) = None /\
  config_of (fun name => if decide (name = "HCM_RETRY_MAX_ATTEMPTS") then Some " 4 times" else None) =
    Some {| BALANCE_STALE_THRESHOLD_HOURS := 6; IDEMPOTENCY_TTL_HOURS := 24; HCM_RETRY_MAX_ATTEMPTS := 4;
            HCM_RETRY_BASE_DELAY_MS := 1000; HCM_CIRCUIT_BREAKER_THRESHOLD := 5; HCM_CIRCUIT_BREAKER_RESET_MS := 30000 |} /\
  mock_options (fun _ => None) = (of_Z 3001, of_Z 3101, literal 1 10, literal 5 100).
Proof. by vm_compute. Qed.

(** The data source is SQLite, so that no read in a transaction asks for a row
    lock: what keeps transactions apart is their isolation level. *)
Definition database_type : string := "sqlite".
Example no_row_locks : Balance.getWriteLock (Some database_type) (Some database_type) = None /\
  Balance.getWriteLock (Some "") (Some "postgres") = Some "pessimistic_write".
Proof. by vm_compute. Qed.

(** ** The modules *)
Inductive ClassName :=
  | BalanceController_ | HcmController_ | TimeOffController_ | HealthController_
  | BalanceService_ | HcmService_ | HcmSyncService_ | TimeOffService_.
Inductive EntityName := EmployeeBalance_ | TimeOffRequest_ | IdempotencyRecord_ | SyncLog_.
Inductive ModuleName := SyncLogModule | BalanceModule | HcmModule | TimeOffModule | HealthModule.

(** What a constructor receives: [Inject(Class)], [InjectRepository(Entity)], or
    the data source. *)
Inductive Token := Provided (c : ClassName) | Repository (e : EntityName) | DataSource.
#[export] Instance ClassName_eq_dec : EqDecision ClassName.
Proof. solve_decision. Defined.
#[export] Instance EntityName_eq_dec : EqDecision EntityName.
Proof. solve_decision. Defined.
#[export] Instance ModuleName_eq_dec : EqDecision ModuleName.
Proof. solve_decision. Defined.

(** [@Module({ imports, controllers, providers, exports })]; the entities of
    [TypeOrmModule.forFeature] apart. *)
Record ModuleDecl := {
  md_entities : list EntityName;
  md_imports : list ModuleName;
  md_controllers : list ClassName;
  md_providers : list ClassName;
  md_exports : list ClassName;
}.
Definition sync_log_module : ModuleDecl :=
  {| md_entities := [SyncLog_]; md_imports := []; md_controllers := []; md_providers := []; md_exports := [] |}.
Definition balance_module : ModuleDecl :=
  {| md_entities := [EmployeeBalance_; SyncLog_]; md_imports := []; md_controllers := [BalanceController_];
     md_providers := [BalanceService_]; md_exports := [BalanceService_] |}.
Definition hcm_module : ModuleDecl :=
  {| md_entities := [EmployeeBalance_; TimeOffRequest_; SyncLog_]; md_imports := [];
     md_controllers := [HcmController_]; md_providers := [HcmService_; HcmSyncService_];
     md_exports := [HcmService_; HcmSyncService_] |}.
Definition time_off_module : ModuleDecl :=
  {| md_entities := [TimeOffRequest_; IdempotencyRecord_]; md_imports := [BalanceModule; HcmModule];
     md_controllers := [TimeOffController_]; md_providers := [TimeOffService_]; md_exports := [TimeOffService_] |}.
Definition health_module : ModuleDecl :=
  {| md_entities := []; md_imports := [HcmModule]; md_controllers := [HealthController_];
     md_providers := []; md_exports := [] |}.
Definition module_decl (m : ModuleName) : ModuleDecl :=
  match m with
  | SyncLogModule => sync_log_module | BalanceModule => balance_module | HcmModule => hcm_module
  | TimeOffModule => time_off_module | HealthModule => health_module
  end.
(** [AppModule]'s own imports, in their order. *)
Definition app_modules : list ModuleName := [SyncLogModule; BalanceModule; HcmModule; TimeOffModule; HealthModule].

(** The arguments of the constructors. *)
Definition constructor_args (c : ClassName) : list Token :=
  match c with
  | BalanceController_ => [Provided BalanceService_]
  | HcmController_ => [Provided HcmSyncService_]
  | TimeOffController_ => [Provided TimeOffService_]
  | HealthController_ => [DataSource; Provided HcmService_]
  | BalanceService_ => [Repository EmployeeBalance_; Repository SyncLog_; DataSource]
  | HcmService_ => []
  | HcmSyncService_ =>
      [Provided HcmService_; Repository EmployeeBalance_; Repository TimeOffRequest_; Repository SyncLog_; DataSource]
  | TimeOffService_ =>
      [Repository TimeOffRequest_; Repository IdempotencyRecord_; DataSource; Provided BalanceService_; Provided HcmService_]
  end.
Definition controller_routes (c : ClassName) : list Route :=
  match c with
  | BalanceController_ => balance_routes | HcmController_ => hcm_routes
  | TimeOffController_ => time_off_routes | HealthController_ => health_routes
  | _ => []
  end.

(** What Nest promises: a module sees its own providers, the exports of the modules
    it imports, the repositories of its own entities, and the data source. *)
Class NestModules := { sees : ModuleName -> Token -> Prop }.
Class NestModulesLaws `{NestModules} := {
  sees_provider : forall m c, c ∈ md_providers (module_decl m) -> sees m (Provided c);
  sees_import : forall m m' c, m' ∈ md_imports (module_decl m) -> c ∈ md_exports (module_decl m') -> sees m (Provided c);
  sees_entity : forall m e, e ∈ md_entities (module_decl m) -> sees m (Repository e);
  sees_data_source : forall m, sees m DataSource;
}.

(** The rule as a test. *)
Definition resolvable (m : ModuleName) (t : Token) : bool :=
  match t with
  | Provided c => bool_decide (c ∈ md_providers (module_decl m)) ||
      existsb (fun m' => bool_decide (c ∈ md_exports (module_decl m'))) (md_imports (module_decl m))
  | Repository e => bool_decide (e ∈ md_entities (module_decl m))
  | DataSource => true
  end.
Lemma resolvable_sees `{NestModulesLaws} m t : resolvable m t = true -> sees m t.
Proof.
  destruct t as [c|e|]; cbn; [|intros ?%bool_decide_eq_true; by apply sees_entity|intros _; apply sees_data_source].
  intros [?%bool_decide_eq_true|(m' & Hm%list_elem_of_In & ?%bool_decide_eq_true)%existsb_exists]%orb_true_iff.
  - by apply sees_provider.
  - by eapply sees_import.
Qed.

Definition classes_of (m : ModuleName) : list ClassName := md_controllers (module_decl m) ++ md_providers (module_decl m).
Definition wired : bool :=
  forallb (fun m => forallb (fun c => forallb (resolvable m) (constructor_args c)) (classes_of m)) app_modules.

(** The wiring is complete and single.  Every constructor of every module gets
    all its arguments; every class belongs to exactly one module, so that there is
    one [HcmService] with one breaker, one [TimeOffService] with one table of
    locks and one [HcmSyncService] with one flag, as in [World]; no module imports
    itself through others; and the routes are those of the controllers the
    modules declare. *)
Lemma wiring `{NestModulesLaws} :
  (forall m c t, m ∈ app_modules -> c ∈ classes_of m -> t ∈ constructor_args c -> sees m t) /\
  NoDup (app_modules ≫= classes_of) /\
  (forall c, exists m, m ∈ app_modules /\ c ∈ classes_of m) /\
  (forall i m m', app_modules !! i = Some m -> m' ∈ md_imports (module_decl m) ->
     exists j, (j < i)%nat /\ app_modules !! j = Some m') /\
  routes = (app_modules ≫= fun m => md_controllers (module_decl m) ≫= controller_routes).
Proof.
  split_and!.
  - assert (Hw : wired = true) by by vm_compute. unfold wired in Hw. rewrite forallb_forall in Hw.
    intros m c t Hm%list_elem_of_In Hc%list_elem_of_In Ht%list_elem_of_In. apply resolvable_sees.
    specialize (Hw m Hm). rewrite forallb_forall in Hw. specialize (Hw c Hc). rewrite forallb_forall in Hw. by apply Hw.
  - apply (bool_decide_unpack (NoDup _)). by vm_compute.
  - intros c. assert (Hc : existsb (fun m => bool_decide (c ∈ classes_of m)) app_modules = true) by by destruct c.
    apply existsb_exists in Hc as (m & Hm%list_elem_of_In & Hc%bool_decide_eq_true). by exists m.
  - intros i m m' Hi Hm.
    assert (Ho : forall k n, app_modules !! k = Some n ->
      forallb (fun n' => existsb (fun j => bool_decide (app_modules !! j = Some n')) (seq 0 k)) (md_imports (module_decl n)) = true).
    { intros [|[|[|[|[|k]]]]] n [= <-]; by vm_compute. }
    specialize (Ho i m Hi). rewrite forallb_forall in Ho. apply list_elem_of_In, Ho in Hm.
    apply existsb_exists in Hm as (j & Hj%in_seq & Hm%bool_decide_eq_true). exists j. split; [lia|done].
  - reflexivity.
Qed.

(** The rule itself is such a promise. *)
Lemma wiring_witness : exists H : NestModules, @NestModulesLaws H.
Proof.
  exists {| sees := fun m t => resolvable m t = true |}. split; cbn.
  - intros m c Hc. by rewrite bool_decide_eq_true_2.
  - intros m m' c Hm Hc. apply orb_true_iff. right. apply existsb_exists. exists m'.
    split; [by apply list_elem_of_In|by rewrite bool_decide_eq_true_2].
  - intros m e He. by rewrite bool_decide_eq_true_2.
  - done.
Qed.
