(* ===== verification/BatchFacts.v ===== *)
(** * The batch run as a whole

    A snapshot of HCM lists a total for each key.  What a run does to a key is a
    fold of the reports for it over its ledger and its discrepancy flag, and a
    mark on the keys the snapshot lacks. *)

From S2P Require Import Prelude Num Domain Store Entities World Dates Balance HcmApi TimeOff HcmSync.
From S2P Require Import Samples Ledger Effects Reconcile.

Local Open Scope Z_scope.

(** ** The specification: what is known of one key *)
Definition standing : Type := option (Ledger * bool).

(** A report of [n] days. *)
Definition report (n : Z) (o : standing) : Ledger * bool :=
  match o with
  | Some (l, _) => (raise_to n l, n <? entitlement l)
  | None => ({| available := n; pending := 0; used := 0 |}, false)
  end.
(** The reports for the key [k], in their order. *)
Fixpoint settle (k : bkey) (snapshot : list (bkey * Z)) (o : standing) : standing :=
  match snapshot with
  | [] => o
  | (k', n) :: snapshot => settle k snapshot (if decide (k = k') then Some (report n o) else o)
  end.
(** A key the snapshot lacks. *)
Definition mark (o : standing) : standing := (fun ld => (ld.1, true)) <$> o.
Definition batch_effect (k : bkey) (snapshot : list (bkey * Z)) (o : standing) : standing :=
  if decide (batch_key k ∈ batch_key <$> snapshot.*1) then settle k snapshot o else mark o.

(** A key whose text the snapshot lacks has no report. *)
Lemma settle_other k snapshot o : batch_key k ∉ (batch_key <$> snapshot.*1) -> settle k snapshot o = o.
Proof.
  revert o. induction snapshot as [|[k' n] snapshot IH]; intros o; [done|]. cbn [settle fmap list_fmap fst].
  intros [Hk Hn]%not_elem_of_cons. rewrite decide_False by congruence. by apply IH.
Qed.

Section batch.
Context (g : Z) (Hg : 0 <= g <= 6).
Context {Tbl : Type -> Type} `{ReliableRepo Tbl} `{!HcmApi Tbl, !HcmApiLaws Tbl} `{Env}.
Implicit Types (w : World Tbl).

(** What the database has on a key. *)
Definition view w (k : bkey) (o : standing) : Prop :=
  match o with
  | Some (l, d) => exists i b, Bal w !! i = Some b /\ b_key b = k /\ repr g b l /\ ledger_ok l /\ b_hasDiscrepancy b = d
  | None => forall i b, Bal w !! i = Some b -> b_key b <> k
  end.
Definition settled w : Prop := db_wf (w_db w) /\ ledgers g w.

Lemma view_bal w w' k o : Bal w' = Bal w -> view w k o -> view w' k o.
Proof. intros HB. unfold view. by rewrite HB. Qed.
(** Every key has a standing. *)
Lemma view_total w k : settled w -> exists o, view w k o.
Proof.
  intros [(Hwb & _) Hl]. destruct (r_findOne (where_key k.1.1 k.1.2 k.2) (balances (w_db w))) as [b|] eqn:Hf.
  - destruct (findOne_Some _ _ _ Hwb Hf) as [Hi Hk%where_key_spec]. cbn in Hi.
    destruct (Hl _ _ Hi) as (l & Hr & Hok). exists (Some (l, b_hasDiscrepancy b)), (b_id b), b.
    split_and!; try done. rewrite Hk. by destruct k as [[]].
  - exists None. intros i b Hi Hk. pose proof (findOne_None _ _ _ _ Hwb Hf Hi) as Hn.
    apply not_true_iff_false in Hn. apply Hn, where_key_spec. rewrite Hk. by destruct k as [[]].
Qed.

(** A row replaced by one of the same key. *)
Lemma view_insert w w' i b b' l l' k o :
  settled w -> Bal w !! i = Some b -> b_key b' = b_key b -> repr g b l -> ledger_ok l ->
  Bal w' = <[i := b']> (Bal w) -> repr g b' l' -> ledger_ok l' ->
  view w k o ->
  view w' k (if decide (k = b_key b) then Some (l', b_hasDiscrepancy b') else o).
Proof.
  intros [(Hwb & _) _] Hi Hk Hr Hl HB Hr' Hl' Hv. case_decide as Hkb.
  - subst k. exists i, b'. rewrite HB, lookup_insert_eq. done.
  - destruct o as [[m d]|]; cbn in *.
    + destruct Hv as (j & c & Hj & Hc & ?). exists j, c. rewrite HB, lookup_insert_ne; [done|]. intros ->. congruence.
    + intros j c. rewrite HB. rewrite lookup_insert. case_decide; [intros [= <-]; congruence|]. apply Hv.
Qed.

Lemma view_row w i b l o :
  settled w -> Bal w !! i = Some b -> repr g b l -> ledger_ok l -> view w (b_key b) o ->
  o = Some (l, b_hasDiscrepancy b).
Proof.
  intros [(Hwb & _) _] Hi Hr Hl Hv. destruct o as [[m d]|]; cbn in Hv.
  - destruct Hv as (j & c & Hj & Hc & Hrm & Hm & <-).
    assert (j = i) as -> by (eapply (rows_unique _ j i c b); [done|done|done|by apply bool_decide_eq_true]).
    unfold Bal in *. rewrite Hi in Hj. injection Hj as <-. do 2 f_equal. by eapply (repr_inj g b); [lia|..].
  - by destruct (Hv i b).
Qed.

Lemma ledgers_insert w w' i b l :
  ledgers g w -> Bal w' = <[i := b]> (Bal w) -> repr g b l -> ledger_ok l -> ledgers g w'.
Proof.
  intros Hl HB Hr Hok j c. rewrite HB, lookup_insert. case_decide; [intros [= <-]; by exists l|apply Hl].
Qed.

(** ** Every write of a run succeeds *)
Lemma update_succeeds w i f :
  settled w -> (forall b, eid (f b) = eid b) -> (forall b, b_key (f b) = b_key b) ->
  (forall b, Bal w !! i = Some b -> e_storable (f b) = true) ->
  exists w', update_balance i f w = (w', inr tt).
Proof.
  intros [(Hwb & _) _] Hid Hk Hst.
  destruct (update_total (balances (w_db w)) i f Hwb Hid (fun b c => ltac:(cbn; by rewrite Hk)) Hst) as [t Ht].
  unfold t_update. rewrite Ht. by eexists.
Qed.

(** A ledger on the grid is stored; the columns beside it as before. *)
Lemma ledger_storable b l :
  repr g b l -> ledger_ok l -> has_value (b_carryOverBalance b) = true ->
  has_value (b_hcmTotalBalance b) = true -> e_storable b = true.
Proof.
  intros (Ha & Hp & Hu & Ht) (? & ? & ? & ?) Hc Hh. unfold entitlement in *.
  cbn. rewrite Ha, Hp, Hu, Ht, Hc, Hh.
  by rewrite !(fun n Hn => finite_has_value _ (units_are_finite g n ltac:(lia) Hn))
    by (unfold small, entitlement; lia).
Qed.
Lemma stored_columns w i b :
  settled w -> Bal w !! i = Some b ->
  has_value (b_carryOverBalance b) = true /\ has_value (b_hcmTotalBalance b) = true.
Proof.
  intros [(Hwb & _) _] Hi. pose proof (rows_storable _ _ _ Hwb Hi) as Hst. cbn in Hst.
  rewrite !andb_true_iff in Hst. tauto.
Qed.
Lemma total_has_value n : 0 <= n < 2 ^ 52 -> has_value (units g n) = true.
Proof. intros Hn. apply finite_has_value, units_are_finite; [lia|unfold small; lia]. Qed.

Lemma reconcile_succeeds h n w :
  settled w -> h_totalBalance h = units g n -> 0 <= n < 2 ^ 52 ->
  exists w' u, reconcileRecord h w = (w', inr u).
Proof.
  intros Hs Hh Hn. pose proof Hs as [Hwf Hl]. pose proof Hwf as (Hwb & _).
  destruct (r_findOne (where_key (h_employeeId h) (h_locationId h) (h_leaveType h)) (balances (w_db w))) as [b|] eqn:Hf.
  - destruct (findOne_Some _ _ _ Hwb Hf) as [Hi Hk%where_key_spec]. cbn in Hi.
    destruct (Hl _ _ Hi) as (l & Hr & Hok).
    destruct (reconcile_found g Hg h n w (b_id b) b l) as (now & w1 & Hl1 & ->); try done.
    assert (Hs1 : settled w1) by (unfold settled, ledgers, Bal in *; by rewrite (later_db _ _ Hl1)).
    unfold mbind, M_bind. match goal with |- context [update_balance ?i ?f w1] =>
      destruct (update_succeeds w1 i f Hs1) as [w' ->]; [| | |by do 2 eexists] end.
    1,2: intros c; unfold reconcile_patch; by repeat case_match.
    intros c Hc. assert (c = b) as -> by (unfold Bal in *; rewrite (later_db _ _ Hl1) in Hc; congruence).
    destruct (reconcile_patch_spec g Hg n l now (or_null (h_version h)) b Hr Hok Hn) as (Hr' & (Ht & _) & _).
    destruct (stored_columns w _ _ Hs Hi) as [Hc1 Hc2].
    eapply ledger_storable; [exact Hr'|apply raise_to_ok; [done|lia]| |rewrite Ht; by apply total_has_value].
    unfold reconcile_patch. by repeat case_match.
  - unfold reconcileRecord, reconcileWith, mbind at 1, M_bind at 1, t_findOne, gets. rewrite Hf.
    unfold mbind, M_bind, date_now, t_save.
    match goal with |- context [r_save ?r ?t] => destruct (save_total t r) as (t' & r' & ->); [done| | |by do 2 eexists] end.
    + rewrite Hh, parseFloat_units by (unfold small; lia). cbn. by rewrite total_has_value.
    + intros j q Hj Hc. exfalso. pose proof (findOne_None _ _ _ _ Hwb Hf Hj) as Hno.
      apply not_true_iff_false in Hno. apply Hno, where_key_spec. apply bool_decide_eq_true in Hc. by rewrite <- Hc.
Qed.

(** ** One report *)
Lemma reconcile_view h n w :
  settled w -> h_totalBalance h = units g n -> 0 <= n < 2 ^ 52 ->
  exists w' u, reconcileRecord h w = (w', inr u) /\ settled w' /\ Req w' = Req w /\
    forall k o, view w k o -> view w' k (if decide (k = h_key h) then Some (report n o) else o).
Proof.
  intros Hs Hh Hn. destruct (reconcile_succeeds h n w Hs Hh Hn) as (w' & u & Hr). exists w', u. split; [done|].
  pose proof Hs as [Hwf Hl]. apply (reconcile_cases g Hg h n w w' (inr u) Hwf Hl Hh Hn) in Hr as (Hwf' & HR & _ & _ & Hr).
  destruct Hr as [(i & b & l & b' & Hi & Hbk & Hrep & Hok & HB & Hbk' & Hrep' & (_ & Hfl & _) & _)
                 |(Hno & _ & i & b' & Hi & HB & Hbk & Hrep & Hfl)].
  - pose proof (raise_to_ok n l Hok ltac:(lia)) as Hok'.
    split; [split; [done|by eapply ledgers_insert]|]. split; [done|]. intros k o Hv.
    pose proof (view_insert w w' i b b' l (raise_to n l) k o Hs Hi ltac:(congruence) Hrep Hok HB Hrep' Hok' Hv) as Hv'.
    rewrite Hbk in Hv'. case_decide as Hk; [|done]. subst k. rewrite <- Hbk in Hv.
    rewrite (view_row w i b l o Hs Hi Hrep Hok Hv). cbn [report]. by rewrite <- Hfl.
  - assert (Hok' : ledger_ok {| available := n; pending := 0; used := 0 |})
      by (unfold ledger_ok, entitlement; cbn; lia).
    split; [split; [done|by eapply ledgers_insert]|]. split; [done|]. intros k o Hv. case_decide as Hk.
    + subst k. destruct o as [[m d]|].
      { destruct Hv as (j & c & Hj & Hc & _). by destruct (Hno j c). }
      exists i, b'. rewrite HB, lookup_insert_eq. done.
    + destruct o as [[m d]|]; cbn in *.
      * destruct Hv as (j & c & Hj & Hc & ?). exists j, c. rewrite HB, lookup_insert_ne; [done|]. intros ->. congruence.
      * intros j c. rewrite HB, lookup_insert. case_decide; [intros [= <-]; congruence|]. apply Hv.
Qed.

(** The records of a payload say what the snapshot says. *)
Definition reads_as (hs : list HcmRecord) (snapshot : list (bkey * Z)) : Prop :=
  Forall2 (fun h kn => h_key h = kn.1 /\ h_totalBalance h = units g kn.2 /\ 0 <= kn.2 < 2 ^ 52) hs snapshot.

Lemma reconcile_loop_view hs snapshot : reads_as hs snapshot -> forall c w, settled w ->
  exists w' c', reconcile_loop hs c w = (w', inr c') /\ settled w' /\ Req w' = Req w /\
    forall k o, view w k o -> view w' k (settle k snapshot o).
Proof.
  induction 1 as [|h [k0 n] hs snapshot (Hk & Hh & Hn) _ IH]; intros c w Hs; cbn [reconcile_loop settle].
  { by exists w, c. }
  destruct (reconcile_view h n w Hs Hh Hn) as (w1 & u & Hr & Hs1 & HR1 & Hv1). cbn in Hk.
  destruct (IH (count_ok u c) w1 Hs1) as (w2 & c2 & Hloop & Hs2 & HR2 & Hv2). exists w2, c2.
  split; [|split; [done|split; [congruence|]]].
  - unfold mbind at 1, M_bind at 1, try_catch, mbind at 1, M_bind at 1. rewrite Hr. exact Hloop.
  - intros k o Hv. apply Hv2. rewrite <- Hk. by apply Hv1.
Qed.

(** ** The keys the snapshot lacks *)
Lemma mark_mark o : mark (mark o) = mark o.
Proof. by destruct o as [[]|]. Qed.

(** One write of the loop over the local rows. *)
Lemma flag_view local now w c :
  settled w -> Bal w !! b_id local = Some c -> b_key c = b_key local ->
  exists w', update_balance (b_id local) (flag_missing local now) w = (w', inr tt) /\ settled w' /\ Req w' = Req w /\
    (forall j d, Bal w !! j = Some d -> exists d', Bal w' !! j = Some d' /\ b_key d' = b_key d) /\
    forall k o, view w k o -> view w' k (if decide (k = b_key local) then mark o else o).
Proof.
  intros Hs Hi Hk. destruct (update_succeeds w (b_id local) (flag_missing local now) Hs) as [w' Hu]; [done|done| |].
  { intros d Hd. destruct Hs as [(Hwb & _) _]. exact (rows_storable _ _ _ Hwb Hd). }
  exists w'. split; [done|]. pose proof Hs as [(Hwb & Hwr & Hwi & Hwl) Hl].
  apply t_update_cases in Hu as (t & -> & Hwt & Ho); [|done|done].
  change (rows (balances (w_db w)) !! b_id local) with (Bal w !! b_id local) in Ho. rewrite Hi in Ho.
  destruct Ho as (c' & Hsame & _ & HB). destruct (Hl _ _ Hi) as (l & Hrep & Hok).
  assert (Hrep' : repr g c' l) by by rewrite <- Hsame.
  assert (Hck : b_key c' = b_key c) by (symmetry; rewrite <- (esame_b_key _ _ Hsame); done).
  set (w1 := set_db _ w). assert (HB1 : Bal w1 = <[b_id local := c']> (Bal w)) by exact HB.
  split; [split; [done|by eapply ledgers_insert]|]. split; [done|]. split.
  - intros j d Hj. rewrite HB1, lookup_insert. case_decide as E; [|by exists d].
    exists c'. split; [done|]. subst j. congruence.
  - intros k o Hv. pose proof (view_insert w w1 (b_id local) c c' l l k o Hs Hi Hck Hrep Hok HB1 Hrep' Hok Hv) as Hv'.
    rewrite Hk in Hv'. case_decide as E; [|done]. subst k. rewrite <- Hk in Hv. rewrite (view_row w _ c l o Hs Hi Hrep Hok Hv).
    by rewrite <- (esame_field b_hasDiscrepancy _ _ ltac:(done) Hsame) in Hv'.
Qed.

(** The rows whose key the payload lacks. *)
Definition lacks_key (keys : list string) (k : bkey) (local : EmployeeBalance) : Prop :=
  b_key local = k /\ batch_key k ∉ keys.
#[local] Instance lacks_key_dec keys k local : Decision (lacks_key keys k local).
Proof. apply _. Defined.

Lemma missing_loop_view keys bs : forall c w, settled w ->
  (forall local, local ∈ bs -> exists d, Bal w !! b_id local = Some d /\ b_key d = b_key local) ->
  exists w' c', missing_loop keys bs c w = (w', inr (c', None)) /\ settled w' /\ Req w' = Req w /\
    forall k o, view w k o -> view w' k (if decide (Exists (lacks_key keys k) bs) then mark o else o).
Proof.
  induction bs as [|local bs IH]; intros c w Hs Hrows; cbn [missing_loop].
  { by exists w, c. }
  assert (Hrest : forall local', local' ∈ bs -> exists d, Bal w !! b_id local' = Some d /\ b_key d = b_key local')
    by (intros; apply Hrows; by right).
  destruct (bool_decide _) eqn:Hin.
  - apply bool_decide_eq_true in Hin. destruct (IH c w Hs Hrest) as (w' & c' & Hl & Hs' & HR & Hv).
    exists w', c'. split_and!; try done. intros k o Ho. specialize (Hv k o Ho).
    rewrite (decide_ext (Exists (lacks_key keys k) (local :: bs)) (Exists (lacks_key keys k) bs)); [done|].
    rewrite Exists_cons. split; [|by right]. intros [[<- Hn]|?]; done.
  - apply bool_decide_eq_false in Hin. unfold mbind at 1, M_bind at 1, try_catch, mbind at 1, M_bind at 1, date_now.
    destruct (Hrows local) as (d & Hd & Hdk); [left|].
    destruct (flag_view local (w_now (pass 0 w)) (pass 0 w) d Hs Hd Hdk) as (w1 & Hu & Hs1 & HR1 & Hkeep & Hv1).
    unfold mbind at 1, M_bind at 1. rewrite Hu. cbn [mret M_ret].
    destruct (IH (count_failed (b_key local) "Balance missing from HCM batch payload" c) w1 Hs1) as (w2 & c2 & Hl & Hs2 & HR2 & Hv2).
    { intros local' Hl'. destruct (Hrest local' Hl') as (e & He & Hek). destruct (Hkeep _ _ He) as (e' & He' & Hek').
      exists e'. split; [done|]. congruence. }
    exists w2, c2. split_and!; [done|done|by rewrite HR2, HR1|]. intros k o Ho. apply (Hv1 k o) in Ho. apply Hv2 in Ho.
    destruct (decide (Exists (lacks_key keys k) (local :: bs))) as [E|E]; rewrite Exists_cons in E.
    + repeat case_decide; try done; [by rewrite mark_mark in Ho|]. destruct E as [[? ?]|?]; congruence.
    + rewrite decide_False in Ho by auto. rewrite decide_False in Ho; [done|].
      intros ->. apply E. left. by split.
Qed.

Lemma finish_log_succeeds i s c e w :
  settled w -> exists w', finish_log i s c e w = (w', inr tt) /\ Bal w' = Bal w /\ Req w' = Req w.
Proof.
  intros [(_ & _ & _ & Hwl) _]. unfold finish_log, mbind, M_bind, date_now, t_update.
  match goal with |- context [r_update ?i ?f ?t] => destruct (update_total t i f) as [t' ->]; [done|done|done|done|] end.
  eexists. split; [done|done].
Qed.

Lemma reads_keys hs snapshot :
  reads_as hs snapshot -> (fun r => batch_key (h_key r)) <$> hs = batch_key <$> snapshot.*1.
Proof. induction 1 as [|h [k n] hs snapshot (Hk & _) _ IH]; [done|]. cbn in *. by rewrite IH, Hk. Qed.

(** The rows a run finds have all the keys of which something is known. *)
Lemma lacking_row w keys k ld :
  settled w -> view w k (Some ld) -> batch_key k ∉ keys ->
  Exists (lacks_key keys k) (r_find (fun _ => true) (balances (w_db w))).
Proof.
  intros [(Hwb & _) _] Hv Hout. destruct ld as [l d], Hv as (i & b & Hi & Hb & _).
  apply Exists_exists. exists b. split; [|by split]. apply find_In; [done|]. split; [|done].
  destruct (rows_id _ _ _ Hwb Hi) as [E _]. cbn in E. cbn. by rewrite E.
Qed.

(** The body of the run, once HCM has answered. *)
Lemma batch_body_view i hs snapshot w :
  settled w -> reads_as hs snapshot ->
  (exists v, api_getBatchBalances None w = (v, inr (HArray hs))) ->
  exists w', batch_body i w = (w', inr tt) /\ Req w' = Req w /\
    forall k o, view w k o -> view w' k (batch_effect k snapshot o).
Proof.
  intros Hs Hread [w2 Hget]. unfold batch_body. unfold mbind at 1, M_bind at 1, try_catch at 1.
  unfold mbind at 1, M_bind at 1. rewrite Hget. cbn [mret M_ret].
  destruct (getBatchBalances_quiet None w) as (w2' & d & Hget' & (n & tk & br & Hq & _)).
  rewrite Hget in Hget'. injection Hget' as <- <-. assert (Hs2 : settled w2) by by subst w2.
  destruct (reconcile_loop_view hs snapshot Hread no_counts w2 Hs2) as (w3 & c3 & Hloop & Hs3 & HR3 & Hv3).
  unfold mbind at 1, M_bind at 1. rewrite Hloop. unfold mbind at 1, M_bind at 1, t_find, gets. unfold mbind at 1, M_bind at 1.
  rewrite (reads_keys hs snapshot Hread). set (keys := batch_key <$> snapshot.*1).
  destruct (missing_loop_view keys (r_find (fun _ => true) (balances (w_db w3))) c3 w3 Hs3) as (w4 & c4 & Hmiss & Hs4 & HR4 & Hv4).
  { intros local Hin. apply find_In in Hin as [Hin _]; [|apply Hs3]. by exists local. }
  rewrite Hmiss. unfold try_catch.
  destruct (finish_log_succeeds i (finalStatus c4) c4 (match c_errors c4 with [] => None | errors => Some errors end) w4 Hs4)
    as (w5 & -> & HB5 & HR5).
  exists w5. split; [done|]. split; [by rewrite HR5, HR4, HR3; subst w2|].
  intros k o Hv. apply (view_bal w4); [done|].
  assert (Hv2 : view w2 k o) by (apply (view_bal w); [by subst w2|done]).
  pose proof (Hv3 k o Hv2) as Hv3k. pose proof (Hv4 k _ Hv3k) as Hend.
  unfold batch_effect. fold keys. destruct (decide (batch_key k ∈ keys)) as [Hin|Hout].
  - rewrite decide_False in Hend; [done|]. by intros (b & _ & _ & Hn)%Exists_exists.
  - rewrite (settle_other k snapshot o Hout) in Hv3k, Hend. destruct o as [ld|]; [|by destruct (decide _)].
    rewrite decide_True in Hend; [done|]. by apply (lacking_row w3 keys k ld).
Qed.

(** C12. A batch run whose snapshot of HCM arrives, with a driver that does not
    fail, does to every key what the specification says: reports settle it in
    their order, raising its ledger to HCM's total or opening it, and say whether
    HCM has less; a key the snapshot lacks is marked (the class comment says it is
    left unchanged, for the data may be partial) and its days are left alone.
    Requests are not touched, and the run is over when it returns. *)
Theorem batch_reconciles hs snapshot w :
  settled w -> w_batchRunning w = false -> reads_as hs snapshot ->
  (forall v, w_breaker v = w_breaker w -> exists v', api_getBatchBalances None v = (v', inr (HArray hs))) ->
  exists w', runBatchSync w = (w', inr tt) /\ w_batchRunning w' = false /\ Req w' = Req w /\
    forall k o, view w k o -> view w' k (batch_effect k snapshot o).
Proof.
  intros [(Hwb & Hwr & Hwi & Hwl) Hl] Hrun Hread Hhcm. unfold runBatchSync.
  unfold mbind at 1, M_bind at 1, batchRunning, gets. rewrite Hrun.
  unfold mbind at 1, M_bind at 1, set_running, modify. unfold mbind at 1, M_bind at 1, date_now.
  set (w0 := pass 0 _). unfold mbind at 1, M_bind at 1.
  destruct (save_total (syncLogs (w_db w0)) (new_syncLog (w_now w0))) as (t & log & Hsave); [exact Hwl|done|done|].
  unfold t_save. rewrite Hsave. set (w1 := set_db _ w0).
  assert (Hs1 : settled w1).
  { split; [|exact Hl]. destruct (save_Ok (syncLogs (w_db w0)) _ _ _ Hwl Hsave) as [Ht _]. by split_and!. }
  destruct (batch_body_view (l_id log) hs snapshot w1 Hs1 Hread (Hhcm w1 eq_refl)) as (w2 & Hbody & HR & Hv).
  unfold try_finally. rewrite Hbody. exists (set_batchRunning false w2). split; [done|]. split; [done|].
  split; [exact HR|exact Hv].
Qed.
End batch.
