(* ===== verification/MockSync.v ===== *)
(** * A batch run against the mock HCM server

    The services and the mock server together: HCM answers the batch request with
    the snapshot the mock server makes of its accounts.  One account is behind
    HCM, one unknown to it, and two only HCM has. *)

From S2P Require Import Prelude Num Domain Store Entities Breaker World Dates Balance Hash HcmApi HcmService TimeOff HcmSync.
From S2P Require Import MockHcm Samples Ledger Effects Reconcile BatchFacts.

Local Open Scope Z_scope.

#[local] Existing Instance MemTx.
#[local] Existing Instance default_config.

(** HCM takes a tenth of a second. *)
Definition mock_env (m : Mock) : Env := {|
  env_delay := fun _ => 0%N; env_random := fun _ => 0%N;
  env_http := fun n config =>
    match config with
    | GetBatchSync _ => (100%N, inr (hcm_data (get_batch_sync m)))
    | _ => agreeable_http n config
    end |}.

(** The mock server after eighteen days were injected for the employee. *)
Definition injected : Mock := (admin_inject jan10 "emp" "loc" "VACATION" (of_Z 18) (of_Z 18) initial_mock).1.
#[local] Existing Instance mock_env.
#[local] Instance injected_env : Env := mock_env injected.
Definition payload_records : list HcmRecord := hcm_record <$> JsMap.jm_values (hcmBalances injected).
Definition payload_snapshot : list (bkey * Z) :=
  [(("EMP123", "LOC1", "VACATION"), 15); (("EMP123", "LOC1", "SICK"), 10); (("emp", "loc", "VACATION"), 18)].

Lemma payload_reads : reads_as 0 payload_records payload_snapshot.
Proof. repeat constructor; cbn; lia. Qed.

(** While the breaker is closed the payload arrives. *)
Lemma payload_arrives (v : World MemTbl) :
  w_breaker v = sample_breaker ->
  exists v', api_getBatchBalances None v = (v', inr (HArray payload_records)).
Proof. destruct v. cbn. intros ->. eexists. vm_compute. reflexivity. Qed.

(** Fifteen days of the employee, and an account HCM does not list. *)
Definition two_accounts : World MemTbl :=
  sample_world (sample_db [sample_balance "b1" 10 2 3;
    b_with_managed "b2" 1 jan10 jan10 (new_balance "lost" "loc" "VACATION" (of_Z 4) jan10 None)] []).
Definition days (a p u : Z) : Ledger := {| available := a; pending := p; used := u |}.

Lemma two_accounts_rows i b :
  Bal two_accounts !! i = Some b ->
  b = sample_balance "b1" 10 2 3 \/
  b = b_with_managed "b2" 1 jan10 jan10 (new_balance "lost" "loc" "VACATION" (of_Z 4) jan10 None).
Proof.
  intros Hi. apply (table_lookup (R := EmployeeBalance)) in Hi as [Hi _].
  apply elem_of_cons in Hi as [->|Hi]; [by left|]. apply list_elem_of_singleton in Hi as ->. by right.
Qed.
Lemma two_accounts_settled : settled 0 two_accounts.
Proof.
  split.
  - split; [|split; [|split]]; [apply wf_table|apply wf_empty|apply wf_empty|apply wf_empty]. vm_compute. reflexivity.
  - intros i b [->| ->]%two_accounts_rows; [exists (days 10 2 3)|exists (days 4 0 0)]; (split; [by vm_compute|]);
      unfold ledger_ok, entitlement; cbn; lia.
Qed.

Lemma effect_emp : batch_effect ("emp", "loc", "VACATION") payload_snapshot (Some (days 10 2 3, false)) = Some (days 13 2 3, false).
Proof. vm_compute. reflexivity. Qed.
Lemma effect_lost : batch_effect ("lost", "loc", "VACATION") payload_snapshot (Some (days 4 0 0, false)) = Some (days 4 0 0, true).
Proof. vm_compute. reflexivity. Qed.
Lemma effect_sick : batch_effect ("EMP123", "LOC1", "SICK") payload_snapshot None = Some (days 10 0 0, false).
Proof. vm_compute. reflexivity. Qed.
Lemma effect_nobody : batch_effect ("nobody", "loc", "SICK") payload_snapshot None = None.
Proof. vm_compute. reflexivity. Qed.

(** The employee gets the three days HCM has more, the account HCM does not list
    is marked and keeps its days, the accounts only HCM has are opened, and for a
    key nobody has nothing appears. *)
Lemma batch_reconciles_witness : exists w',
  runBatchSync two_accounts = (w', inr tt) /\ w_batchRunning w' = false /\
  view 0 w' ("emp", "loc", "VACATION") (Some (days 13 2 3, false)) /\
  view 0 w' ("lost", "loc", "VACATION") (Some (days 4 0 0, true)) /\
  view 0 w' ("EMP123", "LOC1", "SICK") (Some (days 10 0 0, false)) /\
  view 0 w' ("nobody", "loc", "SICK") None.
Proof.
  destruct (batch_reconciles 0 ltac:(lia) payload_records payload_snapshot two_accounts two_accounts_settled
    eq_refl payload_reads payload_arrives) as (w' & E & Hflag & _ & Hv).
  exists w'. split; [exact E|]. split; [exact Hflag|].
  assert (Hnone : forall k, k <> ("emp", "loc", "VACATION") -> k <> ("lost", "loc", "VACATION") -> view 0 two_accounts k None).
  { intros k H1 H2 i b [->| ->]%two_accounts_rows Hk; [apply H1|apply H2]; symmetry; exact Hk. }
  assert (Hemp : view 0 two_accounts ("emp", "loc", "VACATION") (Some (days 10 2 3, false))).
  { exists "b1", (sample_balance "b1" 10 2 3). split; [vm_compute; reflexivity|]. split; [reflexivity|].
    split; [vm_compute; tauto|]. split; [unfold ledger_ok, entitlement; cbn; lia|reflexivity]. }
  assert (Hlost : view 0 two_accounts ("lost", "loc", "VACATION") (Some (days 4 0 0, false))).
  { exists "b2", (b_with_managed "b2" 1 jan10 jan10 (new_balance "lost" "loc" "VACATION" (of_Z 4) jan10 None)).
    split; [vm_compute; reflexivity|]. split; [reflexivity|].
    split; [vm_compute; tauto|]. split; [unfold ledger_ok, entitlement; cbn; lia|reflexivity]. }
  apply Hv in Hemp, Hlost. assert (Hsick : view 0 two_accounts ("EMP123", "LOC1", "SICK") None) by (apply Hnone; discriminate).
  assert (Hno : view 0 two_accounts ("nobody", "loc", "SICK") None) by (apply Hnone; discriminate).
  apply Hv in Hsick, Hno.
  rewrite effect_emp in Hemp. rewrite effect_lost in Hlost. rewrite effect_sick in Hsick. rewrite effect_nobody in Hno.
  split; [exact Hemp|]. split; [exact Hlost|]. split; [exact Hsick|exact Hno].
Defined.

(** ** An approval is taken for a discrepancy

    HCM takes approved days from an account's total; the services compare that
    total with used, pending and available days together.  After the approval of
    the three used days the batch run marks the balance, and when HCM then grants
    two days more they do not arrive. *)
Definition approved : Mock :=
  (put_balance jan10 "emp" "loc" "VACATION" (Some (of_Z 3)) "APPROVE"
     (admin_inject jan10 "emp" "loc" "VACATION" (of_Z 15) (of_Z 15) initial_mock).1).1.
Definition granted : Mock := (anniversary_refresh (fun _ => jan10) (Some "emp") None None (Some (of_Z 2)) approved).1.
Definition after_batch (m : Mock) : option (num * bool) :=
  b ← Bal (runBatchSync (H0 := @HcmService_api MemTbl (mock_env m) _) (H1 := mock_env m) world_10_2_3).1 !! "b1";
  Some (b_availableBalance b, b_hasDiscrepancy b).
Example approval_is_flagged :
  after_batch approved = Some (of_Z 10, true) /\ after_batch granted = Some (of_Z 10, true).
Proof. vm_compute. split; reflexivity. Qed.
