(* ===== verification/SyncFacts.v ===== *)
(** * SyncFacts: the batch run and the retry worker

    The re-entrancy flag, the counters and the final status of a batch run, and
    the progress of the retry worker. *)

From S2P Require Import Prelude Num Domain Store Entities World Dates Balance HcmApi TimeOff.
From S2P Require Import HcmSync Samples Ledger Effects.

Local Open Scope Z_scope.

(** ** Counters *)

(** The counters tell what happened to the records counted. *)
Definition counts_ok (c : Counts) : Prop :=
  0 <= c_updated c /\ c_updated c + c_failed c <= c_processed c /\
  c_failed c = Z.of_nat (length (c_errors c)) /\ Forall (fun e => is_Some (se_key e)) (c_errors c).

Lemma counts_ok_0 : counts_ok no_counts.
Proof. done. Qed.
Lemma count_ok_ok u c : counts_ok c -> counts_ok (count_ok u c).
Proof. unfold counts_ok. intros (? & ? & ? & ?). destruct u; simpl; split_and!; done || lia. Qed.
Lemma count_failed_ok k e c : counts_ok c -> counts_ok (count_failed k e c).
Proof.
  unfold counts_ok. intros (? & ? & ? & ?). simpl. rewrite length_app. simpl. split_and!; try lia.
  apply Forall_app_2; [done|]. by repeat constructor.
Qed.

(** The final status says whether no record failed, all did, or some. *)
Lemma finalStatus_spec c :
  counts_ok c ->
  (finalStatus c = SyncLogStatus.COMPLETED <-> c_failed c = 0) /\
  (finalStatus c = SyncLogStatus.PARTIAL <-> 0 < c_failed c < c_processed c) /\
  (finalStatus c = SyncLogStatus.FAILED <-> 0 < c_failed c /\ c_failed c = c_processed c).
Proof.
  intros (Hu & Hs & He & _). unfold finalStatus.
  destruct (Z.eqb_spec (c_failed c) 0), (Z.ltb_spec (c_failed c) (c_processed c));
    split_and!; split; intros ?; try done; lia.
Qed.

Section sync.
Context {Tbl : Type -> Type} `{RepoLaws Tbl} `{!HcmApi Tbl, !HcmApiLaws Tbl} `{Env}.
Implicit Types (w : World Tbl).

(** What the two loops of a run count: every record of the payload once, and
    every local row whose key the payload lacks. *)
Lemma reconcile_loop_counts hs c w :
  counts_ok c -> exists w' c', reconcile_loop hs c w = (w', inr c') /\ counts_ok c' /\
    c_processed c' = c_processed c + Z.of_nat (length hs).
Proof.
  revert c w. induction hs as [|h hs IH]; intros c w Hc; cbn [reconcile_loop].
  - exists w, c. simpl. split_and!; try done. lia.
  - unfold mbind at 1, M_bind at 1, try_catch, mbind at 1, M_bind at 1.
    destruct (reconcileRecord h w) as [w1 [e|u]]; cbn [mret M_ret].
    + destruct (IH (count_failed (h_key h) (message_of e) c) w1) as (w' & c' & -> & Hok & Hp);
        [by apply count_failed_ok|]. exists w', c'. split_and!; try done. simpl in *. lia.
    + destruct (IH (count_ok u c) w1) as (w' & c' & -> & Hok & Hp);
        [by apply count_ok_ok|]. exists w', c'. split_and!; try done. simpl in *. lia.
Qed.

Lemma missing_loop_counts keys bs c w :
  counts_ok c -> exists w' c' s, missing_loop keys bs c w = (w', inr (c', s)) /\ counts_ok c' /\
    c_processed c <= c_processed c' /\
    (s = None -> c_processed c' = c_processed c +
       Z.of_nat (length (filter (fun b => batch_key (b_key b) ∉ keys) bs))).
Proof.
  revert c w. induction bs as [|b bs IH]; intros c w Hc; cbn [missing_loop].
  - exists w, c, None. simpl. split_and!; try done; lia.
  - rewrite filter_cons. destruct (bool_decide _) eqn:Hk.
    + apply bool_decide_eq_true in Hk. rewrite decide_False by auto. by apply IH.
    + apply bool_decide_eq_false in Hk. rewrite decide_True by done.
      set (c1 := count_failed _ _ c). assert (counts_ok c1) by (by apply count_failed_ok).
      unfold mbind at 1, M_bind at 1.
      destruct (try_catch _ _ w) as [w1 [e|[e|]]] eqn:Ht.
      * exfalso. unfold try_catch, mbind, M_bind in Ht. destruct (date_now w) as [w2 [?|n]]; [done|].
        by destruct (t_update _ _ _ _ w2) as [w3 [?|[]]].
      * exists w1, c1, (Some e). split_and!; try done. simpl. lia.
      * destruct (IH c1 w1) as (w' & c' & s & -> & ? & Hle & Hp); [done|].
        exists w', c', s. split_and!; try done; [simpl in Hle; lia|].
        intros Hs. rewrite (Hp Hs). simpl. lia.
Qed.

(** ** The re-entrancy flag *)

(** The flag of a batch run: a run that finds it set does nothing; any other
    run sets it, and leaves it cleared whether its body returned or threw, with
    one exception: when the sync log cannot be stored the run throws the
    driver's error and the flag stays set. *)
Theorem batch_flag w w' r :
  wf (syncLogs (w_db w)) -> runBatchSync w = (w', r) ->
  if w_batchRunning w then w' = w /\ r = inr tt
  else w_batchRunning w' = false \/
       (w_batchRunning w' = true /\ exists e w1 now, r = inl e /\ driver_error e /\
          w_batchRunning w1 = true /\ save_syncLog (new_syncLog now) w1 = (w', inl e)).
Proof.
  intros Hwf. unfold runBatchSync. unfold mbind at 1, M_bind at 1, batchRunning, gets.
  destruct (w_batchRunning w); [by intros [= <- <-]|].
  unfold mbind at 1, M_bind at 1, set_running, modify. unfold mbind at 1, M_bind at 1, date_now.
  set (w1 := pass 0 (set_batchRunning true w)). unfold mbind at 1, M_bind at 1.
  destruct (save_syncLog _ w1) as [w2 [e|log]] eqn:Hs.
  - intros [= <- <-]. right. pose proof Hs as Hs'. apply t_save_cases in Hs'; [|done].
    destruct Hs' as (He & t & -> & _). split; [done|]. by exists e, w1, (w_now w1).
  - unfold try_finally. destruct (batch_body (l_id log) w2) as [w3 o]. intros [= <- <-]. by left.
Qed.

(** ** The retry worker *)

(** One turn of the worker moved the request on: its report is settled, or one
    more attempt of the allowed ten is counted. *)
Definition moved_on (q q' : TimeOffRequest) : Prop :=
  r_hcmSyncStatus q' <> HcmSyncStatus.PENDING \/
  (r_hcmSyncAttempts q < MAX_PENDING_SYNC_RETRIES /\
   r_hcmSyncAttempts q' = r_hcmSyncAttempts q + 1).

(** A computation that ends in one update of request [q], or in an error that
    left the table alone. *)
Definition updates_once (q : TimeOffRequest) (m : M (World Tbl) exn unit) : Prop :=
  forall w, wf (requests (w_db w)) -> Req w !! r_id q = Some q ->
    match m w with
    | (w', inr _) => wf (requests (w_db w')) /\
        exists q', Req w' = <[r_id q := q']> (Req w) /\ moved_on q q'
    | (w', inl _) => wf (requests (w_db w')) /\ Req w' = Req w
    end.

Lemma update_once q f :
  (forall r, r_id (f r) = r_id r) -> (forall q', esame (f q) q' -> moved_on q q') ->
  updates_once q (update_request (r_id q) f).
Proof.
  intros Hid Hm w Hwf Hq. destruct (t_update _ _ _ _ w) as [w' o] eqn:Hu.
  apply t_update_cases in Hu as (t & -> & Hwt & Ho); [|done..]. destruct o as [e|[]].
  - destruct Ho. done.
  - unfold Req in Hq. rewrite Hq in Ho. destruct Ho as (q' & Hs & _ & Ho). split; [done|].
    exists q'. split; [done|]. by apply Hm.
Qed.

Lemma after_reads {A} q (m : M (World Tbl) exn A) (k : A -> M (World Tbl) exn unit) :
  (forall w, exists w' a, m w = (w', inr a) /\ w_db w' = w_db w) ->
  (forall a, updates_once q (k a)) -> updates_once q (m ≫= k).
Proof.
  intros Hm Hk w Hwf Hq. destruct (Hm w) as (w1 & a & Hw & Hd). unfold mbind, M_bind. rewrite Hw.
  specialize (Hk a w1). unfold Req in *. rewrite Hd in Hk. by apply Hk.
Qed.

Lemma date_now_reads w : exists w' now, date_now w = (w', inr now) /\ w_db w' = w_db w.
Proof. by do 2 eexists. Qed.
Lemma api_reads {A} (m : M (World Tbl) exn A) :
  returns_quietly m -> forall w, exists w' a, m w = (w', inr a) /\ w_db w' = w_db w.
Proof. intros Hm w. destruct (Hm w) as (w' & a & -> & (n & t & b & -> & _)). by do 2 eexists. Qed.

Lemma updateSyncAttempt_once q s v :
  r_hcmSyncAttempts q < MAX_PENDING_SYNC_RETRIES -> updates_once q (updateSyncAttempt q s v).
Proof.
  intros Hlt. apply after_reads; [apply date_now_reads|]. intros now.
  apply update_once; [done|]. intros q' Hs. right. split; [done|].
  by rewrite <- (esame_field r_hcmSyncAttempts _ q') by done.
Qed.

Lemma retry_one_once q : updates_once q (retry_one q).
Proof.
  unfold retry_one. destruct (Z.leb_spec MAX_PENDING_SYNC_RETRIES (r_hcmSyncAttempts q)) as [Hm|Hlt].
  - apply after_reads; [apply date_now_reads|]. intros now. apply update_once; [done|].
    intros q' Hs. left. by rewrite <- (esame_field r_hcmSyncStatus _ q') by done.
  - pose proof (fun s v => updateSyncAttempt_once q s v Hlt) as Hu.
    assert (Happ : forall v, updates_once q (retry_approval q v)).
    { intros v. apply after_reads; [apply api_reads, notifyApproval_quiet|]. intros d. by case_match. }
    assert (Hbody : updates_once q (match r_status q with
         | RequestStatus.REJECTED | RequestStatus.CANCELLED => updateSyncAttempt q HcmSyncStatus.SKIPPED None
         | RequestStatus.PENDING => retryValidationOnly q
         | RequestStatus.APPROVED => retryApprovalFlow q
         | RequestStatus.Other _ => updateSyncAttempt q HcmSyncStatus.FAILED None
         end)).
    { destruct (r_status q); try apply Hu.
      - apply after_reads; [|intros d; by repeat case_match]. destruct (r_hcmValidated q).
        + intros w. by do 2 eexists.
        + apply api_reads, validateRequest_quiet.
      - unfold retryApprovalFlow. destruct (r_hcmValidated q); [apply Happ|].
        apply after_reads; [apply api_reads, validateRequest_quiet|]. intros d. by repeat case_match. }
    intros w Hwf Hq. specialize (Hbody w Hwf Hq). unfold try_catch. revert Hbody.
    match goal with |- context [match ?m w with _ => _ end] => destruct (m w) as [w1 [e|[]]] end; [|done].
    intros [Hwf1 Hr1]. pose proof (Hu HcmSyncStatus.PENDING None w1 Hwf1) as Hf. rewrite Hr1 in Hf. by apply Hf.
Qed.

Lemma retry_order_total q r : retry_order q r = true \/ retry_order r q = true.
Proof.
  unfold retry_order. rewrite !orb_true_iff, !andb_true_iff, !Z.ltb_lt, !Z.eqb_eq, !Z.leb_le. lia.
Qed.
Lemma retry_order_trans q r s :
  retry_order q r = true -> retry_order r s = true -> retry_order q s = true.
Proof.
  unfold retry_order. rewrite !orb_true_iff, !andb_true_iff, !Z.ltb_lt, !Z.eqb_eq, !Z.leb_le. lia.
Qed.

(** The turns of a pass, one after the other, on distinct requests. *)
Lemma retry_turns sel w w' :
  wf (requests (w_db w)) -> NoDup (r_id <$> sel) ->
  (forall q, q ∈ sel -> Req w !! r_id q = Some q) ->
  for_each sel retry_one w = (w', inr tt) ->
  (forall q, q ∈ sel -> exists q', Req w' !! r_id q = Some q' /\ moved_on q q') /\
  (forall i, i ∉ r_id <$> sel -> Req w' !! i = Req w !! i).
Proof.
  revert w. induction sel as [|q sel IH]; intros w Hwf Hnd Hsel Hr.
  - injection Hr as <-. split; [|done]. intros q Hq. by apply elem_of_nil in Hq.
  - cbn [for_each] in Hr. apply bind_inv_ok in Hr as (w1 & [] & H1' & Hr).
    rewrite fmap_cons in Hnd. apply NoDup_cons in Hnd as [Hnq Hnd].
    pose proof (retry_one_once q w Hwf (Hsel q ltac:(left))) as Ho. rewrite H1' in Ho.
    destruct Ho as (Hwf1 & q' & Hreq & Hmv).
    assert (Hother : forall r, r ∈ sel -> r_id r <> r_id q).
    { intros r Hin He. apply Hnq. rewrite <- He. by apply list_elem_of_fmap_2. }
    destruct (IH w1 Hwf1 Hnd) as [Hin Hout]; [|done|].
    { intros r Hrin. rewrite Hreq, lookup_insert_ne by (symmetry; by apply Hother). apply Hsel. by right. }
    split.
    + intros r [->|Hrin]%elem_of_cons; [|by apply Hin]. exists q'. split; [|done].
      rewrite Hout, Hreq by done. apply lookup_insert_eq.
    + intros i Hi. rewrite fmap_cons in Hi. apply not_elem_of_cons in Hi as [Hiq Hi].
      rewrite Hout, Hreq by done. by apply lookup_insert_ne.
Qed.

(** The requests whose report to HCM is pending. *)
Definition report_pending (q : TimeOffRequest) : bool :=
  bool_decide (r_hcmSyncStatus q = HcmSyncStatus.PENDING).

(** C32. A pass of the retry worker that returns has moved on up to fifty of the
    requests with a pending report, those with the fewest attempts and the
    oldest first: each of them is now settled, or has one more of its ten
    attempts counted.  A request with ten attempts is always settled, and no
    other request is touched. *)
Theorem retry_pass w w' :
  wf (requests (w_db w)) -> retryPendingHcmSyncs w = (w', inr tt) ->
  exists sel,
    length sel = Nat.min 50 (length (r_find report_pending (requests (w_db w)))) /\
    (forall q, q ∈ sel -> Req w !! r_id q = Some q /\ report_pending q = true /\
       exists q', Req w' !! r_id q = Some q' /\ moved_on q q') /\
    (forall q r, q ∈ sel -> Req w !! r_id r = Some r -> report_pending r = true ->
       r_id r ∉ r_id <$> sel -> retry_order q r = true) /\
    (forall i, i ∉ r_id <$> sel -> Req w' !! i = Req w !! i).
Proof.
  intros Hwf Hr. unfold retryPendingHcmSyncs in Hr.
  apply bind_inv_ok in Hr as (w1 & sel & [= <- Hsel] & Hr).
  destruct (findBy_spec (requests (w_db w)) report_pending retry_order (Some 50%nat) 0 Hwf
              retry_order_total retry_order_trans) as (l & Hp & Hsort & Hl).
  fold report_pending in Hsel. rewrite Hl in Hsel. cbn [page] in Hsel. rewrite drop_0 in Hsel. subst sel.
  assert (Hin : forall q, q ∈ l <-> Req w !! r_id q = Some q /\ report_pending q = true).
  { intros q. rewrite Hp. apply (find_In (requests (w_db w)) report_pending q Hwf). }
  assert (Hnd : NoDup (r_id <$> l)).
  { rewrite Hp. exact (find_NoDup (requests (w_db w)) report_pending Hwf). }
  assert (Hsub : forall q, q ∈ take 50 l -> q ∈ l)
    by (intros q (i & Hi & _)%elem_of_take; by eapply list_elem_of_lookup_2).
  destruct (retry_turns (take 50 l) w w') as [Ht Ho]; try done.
  { rewrite <- (take_drop 50 l), fmap_app in Hnd. by apply NoDup_app in Hnd as [? _]. }
  { intros q Hq. by apply Hin, Hsub. }
  exists (take 50 l). split; [by rewrite length_take, Hp|]. split; [|split; [|done]].
  - intros q Hq. destruct (proj1 (Hin q) (Hsub q Hq)). auto.
  - intros q r Hq Hrq Hrp Hni. assert (Hrl : r ∈ l) by by apply Hin.
    rewrite <- (take_drop 50 l) in Hrl, Hsort. apply elem_of_app in Hrl as [Hrl|Hrl].
    + destruct Hni. by apply list_elem_of_fmap_2.
    + revert Hsort Hq Hrl. generalize (take 50 l) as l1, (drop 50 l) as l2. clear.
      induction l1 as [|x l1 IH]; intros l2 Hs Hq Hr; [by apply elem_of_nil in Hq|].
      simpl in Hs. apply StronglySorted_inv in Hs as [Hs Hf].
      apply elem_of_cons in Hq as [->|Hq]; [|by eapply IH].
      rewrite Forall_forall in Hf. apply Hf, elem_of_app. by right.
Qed.

(** ** The sync log of a run *)

(** The step from [w] to [w'] leaves the sync logs alone. *)
Definition same_logs w w' : Prop := syncLogs (w_db w') = syncLogs (w_db w).
#[local] Instance same_logs_preorder : PreOrder same_logs.
Proof. split; [done|]. intros w w1 w2 Ha Hb. unfold same_logs in *. congruence. Qed.

Lemma date_now_logs : stays same_logs (date_now (Tbl := Tbl)).
Proof. done. Qed.
Lemma save_balance_logs b : stays same_logs (save_balance b).
Proof. intros w. unfold t_save. by destruct (r_save _ _). Qed.
Lemma update_balance_logs i f : stays same_logs (update_balance i f).
Proof. intros w. unfold t_update. by destruct (r_update _ _ _). Qed.
#[local] Hint Resolve date_now_logs save_balance_logs update_balance_logs : effects.

Lemma reconcileRecord_logs h : stays same_logs (reconcileRecord (Tbl := Tbl) h).
Proof. unfold reconcileRecord, reconcileWith, t_findOne. stays_steps. Qed.
#[local] Hint Resolve reconcileRecord_logs : effects.
Lemma reconcile_loop_logs hs c : stays same_logs (reconcile_loop (Tbl := Tbl) hs c).
Proof. revert c. induction hs as [|h hs IH]; intros c; cbn [reconcile_loop]; stays_steps; auto. Qed.
Lemma missing_loop_logs keys bs c : stays same_logs (missing_loop (Tbl := Tbl) keys bs c).
Proof. revert c. induction bs as [|b bs IH]; intros c; cbn [missing_loop]; stays_steps; auto. Qed.

(** The outcome columns of a log. *)
Definition logged (s : SyncLogStatus.t) (c : Counts) (e : option (list SyncError)) (log : SyncLog) : Prop :=
  l_status log = s /\ l_recordsProcessed log = c_processed c /\
  l_recordsUpdated log = c_updated c /\ l_recordsFailed log = c_failed c /\
  l_errorDetails log = e /\ is_Some (l_completedAt log).

Lemma finish_log_cases i s c e w w' r log0 :
  wf (syncLogs (w_db w)) -> Logs w !! i = Some log0 -> finish_log i s c e w = (w', r) ->
  wf (syncLogs (w_db w')) /\
  match r with
  | inr _ => exists log, Logs w' !! i = Some log /\ logged s c e log
  | inl _ => Logs w' = Logs w
  end.
Proof.
  intros Hwf Hi. unfold finish_log, mbind, M_bind, date_now. intros Hu.
  apply t_update_cases in Hu as (t & -> & Hwt & Ho); [|done..]. split; [done|].
  destruct r as [x|[]]; [by destruct Ho|]. unfold Logs in Hi. cbn in Ho. rewrite Hi in Ho.
  destruct Ho as (log & Hs & _ & Ho). exists log. unfold Logs. cbn. rewrite Ho, lookup_insert_eq.
  split; [done|]. unfold logged.
  rewrite <- (esame_field l_status _ log), <- (esame_field l_recordsProcessed _ log),
    <- (esame_field l_recordsUpdated _ log), <- (esame_field l_recordsFailed _ log),
    <- (esame_field l_errorDetails _ log), <- (esame_field l_completedAt _ log) by done. done.
Qed.

(** The log of a run that went through: its status says how many of the records
    it counted failed, and each of these has its error. *)
Definition counted_log (log : SyncLog) : Prop :=
  (l_status log = SyncLogStatus.COMPLETED <-> l_recordsFailed log = 0) /\
  (l_status log = SyncLogStatus.PARTIAL <-> 0 < l_recordsFailed log < l_recordsProcessed log) /\
  (l_status log = SyncLogStatus.FAILED <->
     0 < l_recordsFailed log /\ l_recordsFailed log = l_recordsProcessed log) /\
  (l_errorDetails log = None <-> l_recordsFailed log = 0) /\
  l_recordsFailed log = Z.of_nat (length (default [] (l_errorDetails log))) /\
  Forall (fun e => is_Some (se_key e)) (default [] (l_errorDetails log)).
(** The log of a run that stopped: the error it stopped at, which is of no
    record, instead of the errors of the records. *)
Definition stopped_log (log : SyncLog) : Prop :=
  l_status log = SyncLogStatus.FAILED /\
  exists message, l_errorDetails log = Some [{| se_key := None; se_error := message |}].
Definition final_log (log : SyncLog) : Prop :=
  0 <= l_recordsUpdated log /\
  l_recordsUpdated log + l_recordsFailed log <= l_recordsProcessed log /\
  is_Some (l_completedAt log) /\
  (counted_log log \/ stopped_log log).

Lemma fail_log_final i c e w w' log0 :
  wf (syncLogs (w_db w)) -> Logs w !! i = Some log0 -> counts_ok c ->
  fail_log i c e w = (w', inr tt) -> exists log, Logs w' !! i = Some log /\ final_log log.
Proof.
  intros Hwf Hi (Hc1 & Hc2 & _) Hf. apply (finish_log_cases _ _ _ _ _ _ _ _ Hwf Hi) in Hf as [_ (log & Hl & Hg)].
  exists log. split; [done|]. destruct Hg as (Hs & Hp & Hu & Hfl & He & Hc). unfold final_log.
  rewrite Hp, Hu, Hfl. split_and!; try done. right. unfold stopped_log. rewrite Hs, He. split; [done|]. by eexists.
Qed.

Lemma done_log_final i c w w' log0 :
  wf (syncLogs (w_db w)) -> Logs w !! i = Some log0 -> counts_ok c ->
  try_catch (finish_log i (finalStatus c) c (match c_errors c with [] => None | errors => Some errors end))
    (fail_log i c) w = (w', inr tt) -> exists log, Logs w' !! i = Some log /\ final_log log.
Proof.
  intros Hwf Hi Hc. unfold try_catch. destruct (finish_log _ _ _ _ w) as [w1 [e|[]]] eqn:Hf;
    apply (finish_log_cases _ _ _ _ _ _ _ _ Hwf Hi) in Hf as [Hwf1 Hf].
  - apply (fail_log_final i c e w1 w' log0); try done. by rewrite Hf.
  - intros [= <-]. destruct Hf as (log & Hl & Hg). exists log. split; [done|].
    destruct Hg as (Hs & Hp & Hu & Hfl & He & Hcp). pose proof (finalStatus_spec c Hc) as Hspec.
    destruct Hc as (Hc1 & Hc2 & Hc3 & Hc4). unfold final_log. rewrite Hp, Hu, Hfl.
    split_and!; [done|lia|done|]. left. unfold counted_log. rewrite Hs, Hp, Hfl, He.
    destruct Hspec as (S1 & S2 & S3). split; [done|]. split; [done|]. split; [done|].
    destruct (c_errors c) as [|x xs]; cbn [default from_option length] in *; split_and!; try done; split; done || lia.
Qed.

Lemma batch_body_log i w w' log0 :
  wf (syncLogs (w_db w)) -> Logs w !! i = Some log0 -> batch_body i w = (w', inr tt) ->
  exists log, Logs w' !! i = Some log /\ final_log log.
Proof.
  intros Hwf Hi. unfold batch_body. unfold mbind at 1, M_bind at 1, try_catch at 1.
  unfold mbind at 1, M_bind at 1. destruct (api_reads _ (getBatchBalances_quiet None) w) as (w1 & d & -> & Hd).
  cbn [mret M_ret]. assert (Hwf1 : wf (syncLogs (w_db w1))) by by rewrite Hd.
  assert (Hi1 : Logs w1 !! i = Some log0) by (unfold Logs; by rewrite Hd).
  destruct d as [|hs|v s].
  - by eapply fail_log_final.
  - unfold mbind at 1, M_bind at 1.
    destruct (reconcile_loop_counts hs no_counts w1 counts_ok_0) as (w2 & c & Hr & Hc & _).
    pose proof (stays_eq same_logs _ _ _ _ (reconcile_loop_logs hs no_counts) Hr) as Hs.
    rewrite Hr. unfold mbind at 1, M_bind at 1, t_find, gets. unfold mbind at 1, M_bind at 1.
    destruct (missing_loop_counts ((fun r => batch_key (h_key r)) <$> hs)
      (r_find (fun _ => true) (balances (w_db w2))) c w2 Hc) as (w3 & c' & o & Hm & Hc' & _).
    pose proof (stays_eq same_logs _ _ _ _ (missing_loop_logs _ _ c) Hm) as Hs'.
    rewrite Hm. assert (Hd3 : syncLogs (w_db w3) = syncLogs (w_db w1)) by (unfold same_logs in *; congruence).
    assert (Hwf3 : wf (syncLogs (w_db w3))) by by rewrite Hd3.
    assert (Hi3 : Logs w3 !! i = Some log0) by (unfold Logs in *; by rewrite Hd3).
    destruct o as [e|]; [by eapply fail_log_final|by eapply done_log_final].
  - by eapply fail_log_final.
Qed.

(** C33. A batch run that finds another one running returns and changes nothing.
    One that does not, and returns, leaves one new sync log, completed at some time:
    it is [COMPLETED] exactly when no record failed, [PARTIAL] exactly when some but
    not all of the records it processed failed, and [FAILED] exactly when all of
    them did, with an error for each failed record; or the run was stopped by an
    error, and the log is [FAILED] with that error.  It is never [STARTED]. *)
Theorem batch_log w w' :
  wf (syncLogs (w_db w)) -> runBatchSync w = (w', inr tt) ->
  if w_batchRunning w then w' = w
  else exists i log, Logs w !! i = None /\ Logs w' !! i = Some log /\ final_log log.
Proof.
  intros Hwf. unfold runBatchSync. unfold mbind at 1, M_bind at 1, batchRunning, gets.
  destruct (w_batchRunning w) eqn:Hb; [by intros [= <-]|].
  unfold mbind at 1, M_bind at 1, set_running, modify. unfold mbind at 1, M_bind at 1, date_now.
  set (w1 := pass 0 (set_batchRunning true w)). unfold mbind at 1, M_bind at 1.
  destruct (save_syncLog _ w1) as [w2 [e|log0]] eqn:Hs; [done|].
  apply t_save_ok in Hs as (t & -> & Hwt & _ & Hr & Hnew); [|done].
  unfold try_finally. set (w2 := set_db _ w1). destruct (batch_body (l_id log0) w2) as [w3 o] eqn:Hbody.
  intros [= <- ->]. cbn in Hnew.
  destruct (batch_body_log (l_id log0) w2 w3 log0) as (log & Hl & Hf); try done.
  { unfold Logs. cbn. rewrite Hr. apply lookup_insert_eq. }
  exists (l_id log0), log. done.
Qed.
End sync.
