(* ===== verification/Findings.v ===== *)
(** * Findings: behaviour the comments do not describe

    Runs of the definitions on small worlds, each of a behaviour where the code
    and its comments, or the code and its purpose, part ways. *)

From S2P Require Import Prelude Num Domain Store Entities Breaker Retry World Dates Balance Hash.
From S2P Require Import HcmApi HcmService TimeOff HcmSync Samples Ledger Effects.

#[local] Existing Instance MemTx.
#[local] Existing Instance calm.
#[local] Existing Instance default_config.
#[local] Existing Instance no_dates.
#[local] Existing Instance plain_crypto.

(** ** A request without a length

    A length of NaN, which an end date like [2026-06] gives, is refused by no
    balance, however small. *)
Lemma NaN_never_refused op b : refuses op NaN b = None.
Proof.
  unfold refuses. by destruct op; simpl; destruct (parseFloat _) as [[]|[]| |[]].
Qed.

(** The request passes the checks for the dates, the overlap and the balance, and
    only the database refuses the row: the client gets an error that names
    neither the dates nor the balance, answered with 500. *)
Example NaN_length_reaches_database :
  let w := sample_world (sample_db [sample_balance "b1" 10 0 0] []) in
  let '(w', r) := createRequest (sample_dto "2026-05-04" "2026-06") (Some "k1") w in
  r = inl null_violation /\ w_db w' = w_db w.
Proof. vm_compute. done. Qed.

(** ** An expired idempotency key *)

(** A request of February whose idempotency record has expired. *)
Definition old_request : TimeOffRequest :=
  sample_request "r1" "k1" "2026-02-02" "2026-02-03" 2 RequestStatus.PENDING.
Definition expired_record : IdempotencyRecord := {|
  i_id := "i1"; i_idempotencyKey := "k1"; i_employeeId := "emp";
  i_requestHash := hashObject (dto_json (sample_dto "2026-02-02" "2026-02-03"));
  i_responseStatus := 201; i_responseBody := serializeRequest old_request;
  i_expiresAt := jan10 - 1; i_createdAt := jan10 - 86400000 |}.
Definition world_expired : World MemTbl :=
  sample_world {| balances := table [sample_balance "b1" 10 2 0]; requests := table [old_request];
                  idempotency := table [expired_record]; syncLogs := table [] |}.

(** Asking for other dates under the expired key is answered with the old
    request, as if it had been created. *)
Example expired_key_answers_old_request :
  let '(w', r) := createRequest (sample_dto "2026-05-04" "2026-05-05") (Some "k1") world_expired in
  r = inr (serializeRequest old_request) /\ w_db w' = w_db world_expired.
Proof. vm_compute. done. Qed.

(** ** Two locations *)

(** The same employee gets the same days twice, at two locations. *)
Definition elsewhere (b : EmployeeBalance) : EmployeeBalance :=
  {| b_id := "b2"; b_employeeId := b_employeeId b; b_locationId := "loc2";
     b_leaveType := b_leaveType b; b_totalBalance := b_totalBalance b;
     b_availableBalance := b_availableBalance b; b_pendingBalance := b_pendingBalance b;
     b_usedBalance := b_usedBalance b; b_carryOverBalance := b_carryOverBalance b;
     b_hcmTotalBalance := b_hcmTotalBalance b; b_hcmLastSync := b_hcmLastSync b;
     b_hcmVersion := b_hcmVersion b; b_hasDiscrepancy := b_hasDiscrepancy b;
     b_discrepancyAmount := b_discrepancyAmount b;
     b_version := b_version b; b_createdAt := b_createdAt b; b_updatedAt := b_updatedAt b |}.
Definition dto_elsewhere : CreateDto :=
  {| d_employeeId := "emp"; d_locationId := "loc2"; d_leaveType := "VACATION";
     d_startDate := "2026-05-04"; d_endDate := "2026-05-05"; d_notes := None |}.

Example overlap_across_locations :
  let w := sample_world (sample_db [sample_balance "b1" 10 0 0; elsewhere (sample_balance "b1" 10 0 0)] []) in
  let '(w1, r1) := createRequest (sample_dto "2026-05-04" "2026-05-05") (Some "k1") w in
  let '(w2, r2) := createRequest dto_elsewhere (Some "k2") w1 in
  (is_Some (match r1 with inr v => Some v | inl _ => None end)) /\
  (is_Some (match r2 with inr v => Some v | inl _ => None end)).
Proof. vm_compute. split; by eexists. Qed.

(** ** A replay after the start date *)

(** The response is cached for a day, but once the start date has passed the
    replay is refused by the date check before the cache is looked at. *)
Example replay_refused_after_start :
  let w := sample_world (sample_db [sample_balance "b1" 10 0 0] []) in
  let '(w1, r1) := createRequest (sample_dto "2026-01-10" "2026-01-11") (Some "k1") w in
  let w2 := set_clock (jan10 + 86400000) (w_tick w1) w1 in
  let '(_, r2) := createRequest (sample_dto "2026-01-10" "2026-01-11") (Some "k1") w2 in
  is_Some (match r1 with inr v => Some v | inl _ => None end) /\
  r2 = inl (UnprocessableEntityException "INVALID_DATE_RANGE") /\
  exists i n, rows (idempotency (w_db w2)) !! i = Some n /\ i_idempotencyKey n = "k1" /\
    (w_now w2 <= i_expiresAt n)%Z.
Proof.
  vm_compute. split; [by eexists|]. split; [done|]. exists "0". eexists. split; [done|]. done.
Qed.

(** ** The batch flag *)

(** A database that refuses writes. *)
Definition ReadOnlyRepo : Repo MemTbl := {|
  r_find := @r_find _ MemRepo; r_findOne := @r_findOne _ MemRepo; r_findBy := @r_findBy _ MemRepo;
  r_save := fun _ _ _ t => (t, inl (DriverError "SQLITE_READONLY" "attempt to write a readonly database"));
  r_update := fun _ _ _ _ t => (t, inl (DriverError "SQLITE_READONLY" "attempt to write a readonly database"))
|}.

(** When the sync log cannot be stored, the flag stays set, and every later run,
    also after the database has recovered, does nothing. *)
Example batch_flag_stuck :
  let w1 := fst (runBatchSync (H := ReadOnlyRepo) world_10_2_3) in
  w_batchRunning w1 = true /\ runBatchSync w1 = (w1, inr tt) /\
  snd (triggerManualBatchSync w1) = inl (JsError "Batch sync already in progress").
Proof. vm_compute. done. Qed.

(** ** Reconciliation between a read and a write *)

(** [_reconcileRecord] reads the balance, and a request is created before it
    writes: the days it reserved are available again although they are pending. *)
Definition raced_reconcile (h : HcmRecord) : M (World MemTbl) exn bool :=
  local ← findOne_balance (where_key (h_employeeId h) (h_locationId h) (h_leaveType h));
  _ ← createRequest (sample_dto "2026-05-04" "2026-05-07") (Some "k9");
  reconcileWith h local.

Example reconcile_loses_reservation :
  let w := sample_world (sample_db [sample_balance "b1" 10 0 0] []) in
  let h := {| h_employeeId := "emp"; h_locationId := "loc"; h_leaveType := "VACATION";
              h_totalBalance := of_Z 12; h_version := None |} in
  let w' := fst (raced_reconcile h w) in
  exists b, rows (balances (w_db w')) !! "b1" = Some b /\
    b_totalBalance b = of_Z 12 /\ b_availableBalance b = of_Z 12 /\ b_pendingBalance b = of_Z 4.
Proof. vm_compute. eexists. done. Qed.

(** ** Two calls open the breaker *)

(** Every attempt of the retry loop counts as a failure of the breaker: with the
    default configuration the second call that meets an outage opens it. *)
Example second_call_opens_breaker :
  let w1 := fst (validateRequest (H := outage) "emp" "loc" "VACATION" (of_Z 1) world_10_2_3) in
  let w2 := fst (validateRequest (H := outage) "emp" "loc" "VACATION" (of_Z 1) w1) in
  cb_state (w_breaker w1) = CircuitState.CLOSED /\ cb_failureCount (w_breaker w1) = 3%Z /\
  cb_state (w_breaker w2) = CircuitState.OPEN /\ cb_failureCount (w_breaker w2) = 5%Z.
Proof. vm_compute. done. Qed.
