(* ===== verification/Witnesses.v ===== *)
(** * Witnesses: the theorems on a concrete run

    A run of the service on tables in memory: an account of ten days is opened,
    a request of two days is created and then approved.  Each theorem about the
    services that has hypotheses is applied to a state of this run. *)

From S2P Require Import Prelude Num NumText Domain Store Entities Breaker Retry World Dates Balance Hash.
From S2P Require Import HcmApi HcmService TimeOff HcmSync Samples Ledger Effects Lifecycle.
From S2P Require Import Books Reconcile Reachable Progress SyncFacts Listing Http Responses Routes.

Local Open Scope Z_scope.

#[local] Existing Instance MemTx.
#[local] Existing Instance calm.
#[local] Existing Instance default_config.
#[local] Existing Instance no_dates.
#[local] Existing Instance plain_crypto.

(** The agreeable HCM sends amounts of any grid. *)
#[local] Instance calm_grid g : HcmGrid g (Tbl := MemTbl).
Proof.
  intros l w w' hs Hr. destruct (callWithResilience_cases (GetBatchSync l) w) as (w1 & d & Hc & _ & Hd).
  assert (HArray hs = d) as <-.
  { change (callWithResilience (breaker_call (GetBatchSync l)) w = (w', inr (HArray hs))) in Hr. congruence. }
  destruct Hd as [?|(n & [= <-])]; [done|constructor].
Qed.

(** The run. *)
Definition vacation : bkey := ("emp", "loc", "VACATION").
Definition feb : CreateDto := sample_dto "2026-02-02" "2026-02-03".
Definition run0 : World MemTbl := sample_world (sample_db [] []).
Definition run1 : World MemTbl := fst (upsertBalance "emp" "loc" "VACATION" (units 0 10) run0).
Definition run2 : World MemTbl := fst (createRequest feb (Some "k1") run1).
Definition run3 : World MemTbl := fst (decide_request (Approve "boss") "0" run2).

Lemma run0_empty : empty_db run0.
Proof. by repeat split. Qed.

Lemma feb_dated : dated feb.
Proof. split; vm_compute; by eexists. Qed.

Lemma run1_reached : rtc (step 0) run0 run1.
Proof. apply rtc_once, step_upsert. lia. Qed.
Lemma run2_reached : rtc (step 0) run0 run2.
Proof. eapply rtc_r; [apply run1_reached|]. apply step_create, feb_dated. Qed.
Lemma run3_reached : rtc (step 0) run0 run3.
Proof. eapply rtc_r; [apply run2_reached|]. apply step_decide. Qed.

Lemma run_wf w : rtc (step 0) run0 w -> db_wf (w_db w).
Proof.
  intros Hs. by destruct (reachable_inv 0 ltac:(lia) run0 w run0_empty Hs).
Qed.

(** ** Reachable *)

Lemma accounts_balance_witness :
  exists b a p u, Bal run3 !! "0" = Some b /\ 0 <= a /\ b_availableBalance b = units 0 a /\
    p = requested 0 RequestStatus.PENDING (b_key b) (Req run3) /\
    u = requested 0 RequestStatus.APPROVED (b_key b) (Req run3) /\
    b_totalBalance b = units 0 (a + p + u).
Proof.
  assert (exists b, Bal run3 !! "0" = Some b) as [b Hb] by (vm_compute; by eexists).
  destruct (accounts_balance 0 ltac:(lia) run0 run3 "0" b run0_empty run3_reached Hb)
    as (a & p & u & Ha & _ & _ & Hav & _ & _ & Ht & Hp & Hu).
  exists b, a, p, u. exact (conj Hb (conj Ha (conj Hav (conj Hp (conj Hu Ht))))).
Defined.

Definition may : CreateDto := sample_dto "2026-05-04" "2026-05-05".
Definition run4 : World MemTbl := fst (createRequest may (Some "k2") run3).
Lemma run4_reached : rtc (step 0) run0 run4.
Proof. eapply rtc_r; [apply run3_reached|]. apply step_create. split; vm_compute; by eexists. Qed.

(** The two requests it has stored. *)
Definition run4_first : TimeOffRequest := Eval vm_compute in default (new_request feb "" NaN) (Req run4 !! "0").
Definition run4_second : TimeOffRequest := Eval vm_compute in default (new_request feb "" NaN) (Req run4 !! "1").

Lemma no_double_booking_witness :
  ~ (20486 <= 20577 <= 20487 /\ 20577 <= 20577 <= 20578).
Proof.
  assert (Hq : Req run4 !! "0" = Some run4_first) by (vm_compute; reflexivity).
  assert (Hr : Req run4 !! "1" = Some run4_second) by (vm_compute; reflexivity).
  refine (no_double_booking 0 ltac:(lia) run0 run4 "0" "1" run4_first run4_second 20486 20487 20577 20578
    run0_empty run4_reached Hq Hr ltac:(discriminate) _ _ _ _ _ _ _ _ 20577);
    [right|left|..]; vm_compute; reflexivity.
Defined.

Lemma requests_persist_witness :
  exists q q', Req run2 !! "0" = Some q /\ Req run3 !! "0" = Some q' /\ becomes q q'.
Proof.
  assert (exists q, Req run2 !! "0" = Some q) as [q Hq] by (vm_compute; by eexists).
  assert (rtc (step 0) run2 run3) as Hs by (apply rtc_once, step_decide).
  destruct (requests_persist 0 ltac:(lia) run0 run2 run3 "0" q run0_empty run2_reached Hs Hq)
    as (q' & Hq' & Hb & _).
  exists q, q'. exact (conj Hq (conj Hq' Hb)).
Defined.

(** ** Lifecycle *)

Lemma run1_tables : Idem run1 = ∅ /\ Req run1 = ∅.
Proof. split; vm_compute; reflexivity. Qed.
Lemma run1_unused key : unused key run1.
Proof.
  destruct run1_tables as [Hi Hr]. split; [rewrite Hi|rewrite Hr]; intros i n Hn;
    by apply lookup_empty_Some in Hn.
Qed.
Lemma run1_fresh key v : ~ stored key run1 v.
Proof.
  intros [(i & n & Hi & Hk & _)|(j & q & Hj & Hk & _)]; destruct (run1_unused key) as [Ha Hb];
    [by apply (Ha i n)|by apply (Hb j q)].
Qed.

(** The responses of the two calls. *)
Definition view_created : RequestView := Eval vm_compute in
  match snd (createRequest feb (Some "k1") run1) with
  | inr v => v | inl _ => serializeRequest (new_request feb "" NaN) end.
Lemma run2_created : createRequest feb (Some "k1") run1 = (run2, inr view_created).
Proof. vm_compute. reflexivity. Qed.

Lemma createRequest_contract_witness :
  exists req, created feb "k1" (hashObject (dto_json feb))
    (calculateDaysRequested "2026-02-02" "2026-02-03") run1 run2 req.
Proof.
  pose proof (createRequest_contract feb (Some "k1") run1 run2 (inr view_created)
    (run_wf run1 run1_reached) run2_created) as (key & Hk & _ & [(req & Hcr & _)|(_ & _ & Hst)]).
  - injection Hk as <-. exists req. exact Hcr.
  - destruct (run1_fresh _ _ Hst).
Defined.

(** The idempotency record of the run. *)
Definition run2_record : IdempotencyRecord := Eval vm_compute in
  match Idem run2 !! "0" with
  | Some n => n
  | None => new_idempotency feb "" "" (new_request feb "" NaN) 0
  end.
Lemma run2_recorded : Idem run2 !! "0" = Some run2_record.
Proof. vm_compute. reflexivity. Qed.

Lemma createRequest_at_most_once_witness :
  w_db (fst (createRequest may (Some "k1") run2)) = w_db run2.
Proof.
  apply (createRequest_at_most_once may "k1" run2 _ (snd (createRequest may (Some "k1") run2)) "0" run2_record
    (run_wf run2 run2_reached) run2_recorded eq_refl (surjective_pairing _)).
Defined.

Lemma createRequest_idempotent_witness :
  snd (createRequest feb (Some "k1") run2) = inr view_created.
Proof.
  refine (proj2 (createRequest_idempotent feb "k1" run1 run2 view_created run2 _ _
    (run_wf run1 run1_reached) (run1_fresh "k1") run2_created (run_wf run2 run2_reached)
    (reflexivity _) (surjective_pairing _) _)); vm_compute; discriminate.
Defined.

Lemma createRequest_key_conflict_witness :
  snd (createRequest may (Some "k1") run2) = inl (ConflictException ErrorCodes.IDEMPOTENCY_CONFLICT).
Proof.
  refine (proj2 (createRequest_key_conflict may "k1" run2 _ _ "0" run2_record
    (run_wf run2 run2_reached) run2_recorded eq_refl ltac:(discriminate) _ _ _ (surjective_pairing _) _));
    vm_compute; try reflexivity; discriminate.
Defined.

Definition view_approved : RequestView := Eval vm_compute in
  match snd (decide_request (Approve "boss") "0" run2) with
  | inr v => v | inl _ => serializeRequest (new_request feb "" NaN) end.
Lemma run3_decided : decide_request (Approve "boss") "0" run2 = (run3, inr view_approved).
Proof. vm_compute. reflexivity. Qed.

Lemma decision_contract_witness : exists q q', decided (Approve "boss") "0" run2 run3 q q'.
Proof.
  destruct (decision_contract (Approve "boss") "0" run2 run3 (inr view_approved)
    (run_wf run2 run2_reached) run3_decided) as (q & q' & Hd & _).
  exists q, q'. exact Hd.
Defined.

Definition run3_request : TimeOffRequest := Eval vm_compute in default (new_request feb "" NaN) (Req run3 !! "0").
Lemma run3_requested : Req run3 !! "0" = Some run3_request.
Proof. vm_compute. reflexivity. Qed.

Lemma decision_final_witness :
  w_db (fst (decide_request (Cancel None) "0" run3)) = w_db run3.
Proof.
  refine (proj1 (decision_final (Cancel None) "0" run3 _ (snd (decide_request (Cancel None) "0" run3))
    run3_request (run_wf run3 run3_reached) run3_requested ltac:(discriminate) (surjective_pairing _))).
Defined.

(** ** Progress *)

Definition run2_request : TimeOffRequest := Eval vm_compute in default (new_request feb "" NaN) (Req run2 !! "0").
Lemma run2_requested : Req run2 !! "0" = Some run2_request.
Proof. vm_compute. reflexivity. Qed.

Lemma decision_succeeds_witness :
  exists w' v, decide_request (Reject "boss" "no cover") "0" run2 = (w', inr v).
Proof.
  exact (decision_succeeds 0 ltac:(lia) (Reject "boss" "no cover") "0" run0 run2 run2_request
    run0_empty run2_reached run2_requested eq_refl).
Defined.

Definition run1_balance : EmployeeBalance := Eval vm_compute in default b_default (Bal run1 !! "0").
Lemma run1_balanced : Bal run1 !! "0" = Some run1_balance.
Proof. vm_compute. reflexivity. Qed.

Lemma createRequest_succeeds_witness :
  exists w' req, createRequest feb (Some "k1") run1 = (w', inr (serializeRequest req)).
Proof.
  destruct (createRequest_succeeds feb "k1" run1 (run_wf run1 run1_reached) ltac:(discriminate)
    (run1_unused "k1") eq_refl eq_refl eq_refl) as (w' & req & Hc & _).
  - split.
    + destruct run1_tables as [_ Hr]. intros j q Hj. rewrite Hr in Hj. by apply lookup_empty_Some in Hj.
    + exists "0", run1_balance. split; [apply run1_balanced|]. split; vm_compute; reflexivity.
  - exists w', req. exact Hc.
Defined.

(** ** Reconciliation, the batch run and the retry worker *)

Definition hcm_12 : HcmRecord := {| h_employeeId := "emp"; h_locationId := "loc";
  h_leaveType := "VACATION"; h_totalBalance := units 0 12; h_version := None |}.
Definition ledger_8_2_0 : Ledger := {| available := 8; pending := 2; used := 0 |}.

Lemma run2_ledgers : ledgers 0 run2.
Proof.
  intros i b Hi. destruct (reachable_inv 0 ltac:(lia) run0 run2 run0_empty run2_reached) as [_ Hb _].
  specialize (Hb eq_refl).
  destruct (books_ledger _ _ _ Hb i b Hi) as (l & Hr & Hl & _). exists l. exact (conj Hr Hl).
Qed.
Definition run2_balance : EmployeeBalance := Eval vm_compute in default b_default (Bal run2 !! "0").
Lemma run2_shows : shows 0 run2 vacation ledger_8_2_0.
Proof.
  split; [exact (proj1 (run_wf run2 run2_reached))|]. split; [|done].
  exists "0", run2_balance. split; [vm_compute; reflexivity|]. split; [reflexivity|].
  split_and!; vm_compute; reflexivity.
Qed.

Lemma reconcile_refines_witness :
  shows 0 (fst (reconcileRecord hcm_12 run2)) vacation {| available := 10; pending := 2; used := 0 |}.
Proof.
  assert (Hc : exists w', reconcileRecord hcm_12 run2 = (w', inr true)) by (vm_compute; by eexists).
  destruct Hc as [w' Hc].
  pose proof (reconcile_refines 0 ltac:(lia) hcm_12 12 run2 w' (inr true) ledger_8_2_0
    (run_wf run2 run2_reached) run2_ledgers eq_refl ltac:(lia) run2_shows Hc) as (_ & _ & Hs & _).
  rewrite Hc. exact Hs.
Defined.

Lemma reconcile_stale_read_witness :
  exists b2 a p s, Bal (fst (reconcileWith hcm_12 (Some run1_balance) run2)) !! "0" = Some b2 /\
    b_totalBalance b2 = units 0 12 /\ b_availableBalance b2 = units 0 a /\ a + p + s = 14.
Proof.
  assert (Hc : exists w', reconcileWith hcm_12 (Some run1_balance) run2 = (w', inr true))
    by (vm_compute; by eexists).
  destruct Hc as [w' Hc].
  destruct (reconcile_stale_read 0 ltac:(lia) hcm_12 12 2 run2 w' true "0" run1_balance run2_balance
    {| available := 10; pending := 0; used := 0 |} ledger_8_2_0 (run_wf run2 run2_reached) eq_refl
    ltac:(lia) ltac:(split_and!; vm_compute; reflexivity) ltac:(split_and!; vm_compute; done) eq_refl
    ltac:(lia) eq_refl ltac:(vm_compute; reflexivity) ltac:(split_and!; vm_compute; reflexivity)
    ltac:(vm_compute; reflexivity) Hc) as (b2 & a & p & s & Hb & Ha & _ & _ & Ht & Hs).
  exists b2, a, p, s. rewrite Hc. exact (conj Hb (conj Ht (conj Ha Hs))).
Defined.

Lemma retry_pass_witness :
  exists sel, length sel = 1%nat /\ forall q, q ∈ sel -> Req run2 !! r_id q = Some q.
Proof.
  assert (Hc : exists w', retryPendingHcmSyncs run2 = (w', inr tt)) by (vm_compute; by eexists).
  destruct Hc as [w' Hc].
  destruct (retry_pass run2 w' (proj1 (proj2 (run_wf run2 run2_reached))) Hc) as (sel & Hlen & Hin & _).
  exists sel. split; [rewrite Hlen; vm_compute; reflexivity|]. intros q Hq. apply Hin. exact Hq.
Defined.

Lemma batch_log_witness :
  exists i log, Logs (fst (runBatchSync run2)) !! i = Some log /\ final_log log.
Proof.
  assert (Hc : exists w', runBatchSync run2 = (w', inr tt)) by (vm_compute; by eexists).
  destruct Hc as [w' Hc].
  pose proof (batch_log run2 w' (proj2 (proj2 (proj2 (run_wf run2 run2_reached)))) Hc) as Hlog.
  assert (w_batchRunning run2 = false) as E by (vm_compute; reflexivity). rewrite E in Hlog.
  destruct Hlog as (i & log & _ & Hl & Hf).
  exists i, log. rewrite Hc. exact (conj Hl Hf).
Defined.

Lemma batch_flag_witness : w_batchRunning (fst (runBatchSync run2)) = false.
Proof.
  assert (Hc : exists w', runBatchSync run2 = (w', inr tt)) by (vm_compute; by eexists).
  destruct Hc as [w' Hc].
  pose proof (batch_flag run2 w' (inr tt) (proj2 (proj2 (proj2 (run_wf run2 run2_reached)))) Hc) as Hf.
  assert (w_batchRunning run2 = false) as E by (vm_compute; reflexivity). rewrite E in Hf.
  rewrite Hc. destruct Hf as [Hf|(_ & e & _ & _ & He & _)]; [exact Hf|discriminate He].
Defined.

Lemma hcm_calls_return_witness :
  exists w' data, validateRequest "emp" "loc" "VACATION" (units 0 2) run2 = (w', inr data).
Proof.
  pose proof (hcm_calls_return "emp" "loc" "VACATION" "0" (units 0 2) None run2) as Hf.
  destruct (Forall_inv (Forall_inv_tail Hf)) as (w' & data & Hc & _).
  exists w', data. exact Hc.
Defined.

(** ** Responses *)

(** Pipes that let every body pass, as Nest's do without parameter types. *)
Definition open_pipes : Nest :=
  {| is_uuid := fun _ => true; pipe_body := fun _ a => inr a; exn_text := fun _ => "text"; exn_details := fun _ => None |}.
#[local] Existing Instance open_pipes.
#[local] Instance open_pipes_laws : NestLaws.
Proof. by split. Qed.

(** A rejection of the request that was approved. *)
Definition late_rejection : TimeOffCall := PatchRequest "0" (Reject "boss" "late").
Definition late_response := serve (Some "req-1") "/time-off/requests/0/reject" late_rejection.
Lemma late_response_409 :
  match (late_response run3).2 with inr (Failure b) => eb_statusCode b = 409%Z | _ => False end.
Proof. vm_compute. reflexivity. Qed.
Lemma time_off_responses_witness : exists w' b,
  late_response run3 = (w', inr (Failure b)) /\ eb_statusCode b = 409%Z /\ w_db w' = w_db run3.
Proof.
  pose proof late_response_409 as Hs.
  destruct (time_off_responses late_rejection (Some "req-1") "/time-off/requests/0/reject" run3
    (run_wf run3 run3_reached)) as (w' & r & E & Hr).
  change (serve (Some "req-1") "/time-off/requests/0/reject" late_rejection) with late_response in E.
  destruct (late_response run3) as [w1 r1]. injection E as -> ->. destruct r as [s v|b]; [destruct Hs|].
  exists w', b. split; [reflexivity|]. split; [exact Hs|exact (proj1 Hr)].
Defined.

(** ** Routes *)

#[local] Existing Instance plain_express.
#[local] Existing Instance plain_express_laws.
(** Bodies whose fields are texts. *)
Definition body_field (body : Json) (x : string) : option string :=
  match body with
  | JObject fields =>
      list_find (fun f : string * Json => f.1 = x) fields ≫= fun f => match f.2.2 with JString s => Some s | _ => None end
  | _ => None
  end.
#[local] Instance text_bodies : Bodies :=
  let text body x := default ""%string (body_field body x) in
  {| read_create := fun body =>
       {| d_employeeId := text body "employeeId"%string; d_locationId := text body "locationId"%string;
          d_leaveType := text body "leaveType"%string; d_startDate := text body "startDate"%string;
          d_endDate := text body "endDate"%string; d_notes := body_field body "notes" |};
     read_approve := fun body => {| ap_approverId := text body "approverId"%string |};
     read_reject := fun body =>
       {| rj_approverId := text body "approverId"%string; rj_reason := text body "reason"%string |};
     read_cancel := fun body => {| cn_reason := body_field body "reason" |} |}.
#[local] Instance healthy_host : Host :=
  {| host_uptime := fun _ => of_Z 1; host_memory := fun _ => {| mem_rss := 0; mem_heapUsed := 0; mem_heapTotal := 0 |};
     host_database := fun _ => QueryAnswered |}.
#[local] Instance silent : Console MemTbl := {| print := fun _ w => w |}.
#[local] Instance silent_laws : ConsoleLaws MemTbl.
Proof. split. intros l w. cbn. reflexivity. Qed.

(** A limiter that lets no request of the employee [flood] through, and a reader that
    cannot read a body that is missing. *)
#[local] Instance plain_middleware : Middleware :=
  {| cors := fun _ rq => if decide (rq_method (m_head rq) = "OPTIONS"%string) then Some 204 else None;
     rate_limit := fun _ _ rq => if decide (rq_xEmployeeId (m_head rq) = Some "flood"%string) then Some 429 else None;
     unreadable := fun rq => match m_body rq with JUndefined => Some (BadRequestException "Bad Request") | _ => None end |}.
#[local] Instance plain_middleware_laws : MiddlewareLaws.
Proof.
  split; [done| |].
  - intros o t rq s. cbn. case_decide; congruence.
  - intros rq e. cbn. by destruct (m_body rq); intros [= <-].
Qed.
Definition no_variables : env_vars := fun _ => None.

Definition message (method url : string) (key : option string) (body : Json) : HttpMessage :=
  {| m_head := {| rq_method := method; rq_url := url; rq_xRequestId := None; rq_xCorrelationId := None;
                  rq_xEmployeeId := None |};
     m_idempotencyKey := key; m_body := body |}.
Definition seed_message : HttpMessage := message "POST" "/balances/admin/seed/emp/loc/VACATION/10" None JNull.
Definition create_message : HttpMessage :=
  message "POST" "/time-off/requests" (Some "k1"%string)
    (JObject [("employeeId", JString "emp"); ("locationId", JString "loc"); ("leaveType", JString "VACATION");
              ("startDate", JString "2026-02-02"); ("endDate", JString "2026-02-03")]%string).
(** An account is opened and a request created over HTTP. *)
Definition served1 : World MemTbl := fst (server no_variables "id-1" seed_message run0).
Definition served2 : World MemTbl := fst (server no_variables "id-2" create_message served1).

Lemma route_of method url e :
  rt_endpoint <$> dispatch routes method url = Some e ->
  forall r, r ∈ routes -> matching method url r -> rt_endpoint r = e.
Proof.
  intros He r Hr Hm. assert (Hd : dispatch routes method url = Some r) by by apply dispatch_routes.
  rewrite Hd in He. by injection He.
Qed.
Definition health_route : Route :=
  {| rt_method := GET; rt_prefix := "health"; rt_path := ""; rt_httpCode := None; rt_endpoint := GetHealth |}.
(** Registered backwards, the table answers the same. *)
Lemma dispatch_unique_witness : dispatch (reverse routes) "GET" "/health" = Some health_route.
Proof.
  apply (dispatch_unique (reverse routes) "GET" "/health" health_route); [apply reverse_Permutation|].
  split; [apply list_elem_of_In; cbn; tauto|]. split; [left; reflexivity|vm_compute; discriminate].
Defined.


Lemma seed_acceptable r : r ∈ routes -> matching "POST" (m_url seed_message) r -> acceptable 0 seed_message r.
Proof.
  intros Hr Hm. assert (He : rt_endpoint r = SeedBalance).
  { apply (route_of "POST" (m_url seed_message)); [by vm_compute|done|done]. }
  assert (Hp : Forall (fun q => rt_endpoint q = SeedBalance ->
    parseFloat_text (path_params q (m_url seed_message) "total") = units 0 10) routes).
  { unfold routes. cbn [app balance_routes hcm_routes time_off_routes health_routes].
    repeat apply Forall_cons_2; try apply Forall_nil_2; intros Hq; (discriminate Hq || by vm_compute). }
  unfold acceptable. rewrite He. exists 10. split; [lia|].
  exact (proj1 (List.Forall_forall _ _) Hp r (proj1 (list_elem_of_In _ _) Hr) He).
Qed.
Lemma create_acceptable r : r ∈ routes -> matching "POST" (m_url create_message) r -> acceptable 0 create_message r.
Proof.
  intros Hr Hm. assert (He : rt_endpoint r = CreateRequest).
  { apply (route_of "POST" (m_url create_message)); [by vm_compute|done|done]. }
  unfold acceptable. rewrite He. intros dto [= <-]. split; vm_compute; by eexists.
Qed.
(** The pending request on the books, behind the HTTP interface. *)
Lemma requests_are_operations_witness :
  rtc (step 0) run0 served2 /\ (b_pendingBalance <$> Bal served2 !! "0") = Some (units 0 2).
Proof.
  split; [|vm_compute; reflexivity]. transitivity served1.
  - exact (requests_are_operations 0 no_variables "id-1" seed_message run0 seed_acceptable).
  - exact (requests_are_operations 0 no_variables "id-2" create_message served1 create_acceptable).
Defined.
