(* ===== verification/ConcurrentRuns.v ===== *)
(** * ConcurrentRuns: interleavings on a concrete process

    Scripts of calls, steps, callbacks and crashes, played on the tables in memory
    of [Witnesses], to which the theorems of [Process] and [Concurrent] are applied.
    The last section plays the interleaving of a batch run with a creation that
    breaks the books. *)

From S2P Require Import Prelude Num Domain Store Entities Breaker World Dates Balance Hash.
From S2P Require Import HcmApi HcmService TimeOff HcmSync Samples Ledger Effects Lifecycle.
From S2P Require Import Books Reachable CreateLock Async Process Concurrent BatchLock Witnesses.

Local Open Scope Z_scope.

(** ** Scripts *)

(** A call comes, a call in progress takes a step, a queued callback starts, the
    process crashes. *)
Inductive event := Come (c : Call) | Go (i : nat) | Immediate | Crash.

Section play.
Context `{Env} `{Config} `{Engine} `{Crypto}.
#[local] Existing Instance MemTx.
Abbreviation Node := (Pool (Process MemTbl) exn (option RequestView) Call).
Implicit Types (n : Node).

Definition happen (e : event) n : option Node :=
  match e with
  | Come c => Some (start (shared n) (threads n) c)
  | Go i => advance_thread i n
  | Immediate =>
      match w_immediates (world n) with
      | t :: ts => Some (start (set_world (set_immediates ts (world n)) (shared n)) (threads n) (Callback t))
      | [] => None
      end
  | Crash =>
      let w := world n in
      Some {| shared := restarted (w_db w) (w_now w) (w_tick w) (w_breaker w); threads := [] |}
  end.
Fixpoint play (es : list event) n : option Node :=
  match es with
  | [] => Some n
  | e :: es' => n' ← happen e n; play es' n'
  end.

(** Without a batch run no callback of one is queued; a script says so. *)
Definition batch_free (bk : bool) n : bool :=
  negb bk || forallb (fun t => match t with RunBatchSync => false | _ => true end) (w_immediates (world n)).
Fixpoint batch_free_play (bk : bool) (es : list event) n : bool :=
  batch_free bk n &&
  match es with
  | [] => true
  | e :: es' => match happen e n with Some n' => batch_free_play bk es' n' | None => true end
  end.
Definition may_come g bk (e : event) : Prop := match e with Come c => may_call g bk c | _ => True end.

Lemma play_steps g bk es n n' :
  Forall (may_come g bk) es -> batch_free_play bk es n = true -> play es n = Some n' ->
  rtc (node_step (may_call g bk) (may_start bk)) n n'.
Proof.
  intros Hes. revert n. induction Hes as [|e es He _ IH]; intros n; [by intros _ [= <-]|].
  cbn [play batch_free_play]. intros [Hb Hbs]%andb_true_iff (n1 & Hn1 & Hp)%bind_Some.
  rewrite Hn1 in Hbs. eapply rtc_l; [|by apply IH]. destruct e as [c|i| |]; cbn [happen] in Hn1.
  - injection Hn1 as <-. by apply node_call.
  - apply node_thread. apply bind_Some in Hn1 as ([l p] & Hi & Ha).
    apply bind_Some in Ha as ([p' s'] & Ha & [= <-]). by eapply thread_advances.
  - destruct (w_immediates (world n)) as [|t ts] eqn:Ht; [done|]. injection Hn1 as <-.
    apply node_immediate; [exact Ht|]. unfold batch_free in Hb. rewrite Ht in Hb.
    destruct bk; [|by destruct t]. cbn in Hb. by apply andb_true_iff in Hb as [Hb _]; destruct t.
  - injection Hn1 as <-. apply node_crash. unfold world. lia.
Qed.

Lemma may_call_weaken g c : may_call g true c -> may_call g false c.
Proof. by destruct c; cbn; try congruence. Qed.
Lemma reached_weaken g n : reached g true n -> reached g false n.
Proof.
  intros (P & Hb & Hs). exists P. split; [done|]. clear Hb. induction Hs as [|n n1 n2 Hs _ IH]; [done|].
  eapply rtc_l; [|done]. destruct Hs as [c Hc|n1 Hs|t ts Ht Hst|w' Hq|now tick b Hn].
  - by apply node_call, may_call_weaken.
  - by apply node_thread.
  - by apply node_immediate; [|destruct t].
  - by apply node_time.
  - by apply node_crash.
Qed.
End play.

#[local] Existing Instance MemTx.
#[local] Existing Instance default_config.
#[local] Existing Instance no_dates.
#[local] Existing Instance plain_crypto.
Abbreviation Node := (Pool (Process MemTbl) exn (option RequestView) Call).

Definition process0 : Process MemTbl := {| p_world := run0; p_calls := [] |}.
Definition node0 : Node := {| shared := process0; threads := [] |}.
Lemma process0_boot : boot process0.
Proof. split; [exact run0_empty|]. by repeat split. Qed.

(** What the calls of a node have answered so far. *)
Definition answers_of (n : Node) : list (option (exn + option RequestView)) :=
  (fun th => match th.2 with Settled r => Some r | _ => None end) <$> threads n.

Module Calm.
#[local] Existing Instance calm.

(** Two identical creations and a third one, at one employee's lock, take turns;
    then an approval and a cancellation of the first request meet. *)
Definition open : Call := UpsertBalance "emp" "loc" "VACATION" (units 0 10).
Definition meet : list event :=
  [Come open; Go 0; Go 0; Go 0; Go 0;
   Come (CreateRequest feb (Some "k1")); Come (CreateRequest feb (Some "k1"));
   Come (CreateRequest may (Some "k2"));
   Go 1; Go 2; Go 3; Go 3; Go 2; Go 1; Go 2; Go 1; Go 3;    (* the second caller enqueues first *)
   Go 2; Go 2; Go 2].                                       (* and has stored its request *)
Definition finish : list event :=
  [Go 2; Go 2; Go 1; Go 1; Go 1; Go 1; Go 3; Go 3; Go 3; Go 3; Go 3].
Definition decide_both : list event :=
  [Come (Decide (Approve "boss") "0"); Come (Decide (Cancel None) "0"); Go 5; Go 4].

Lemma events_may_come : Forall (may_come 0 true) (meet ++ finish ++ decide_both).
Proof.
  assert (may_call 0 true open) by (intros _; exists 10; split; [lia|reflexivity]).
  assert (dated may) by (split; vm_compute; by eexists).
  assert (forall dto k, dated dto -> may_call 0 true (CreateRequest dto k)) by (intros ???; by intros _).
  pose proof feb_dated. repeat constructor; cbn [may_come]; auto.
Qed.

(** The node a script leads to. *)
Definition after (es : list event) : Node := default node0 (play es node0).
Definition plays (es : list event) : bool :=
  match play es node0 with Some _ => true | None => false end && batch_free_play true es node0.

Lemma after_reached es :
  Forall (may_come 0 true) es -> plays es = true -> reached 0 true (after es).
Proof.
  intros He [Hp Hb]%andb_true_iff. exists process0. split; [apply process0_boot|].
  unfold after. destruct (play es node0) as [n|] eqn:Hn; [|done]. by eapply play_steps.
Qed.

Definition node_met : Node := after meet.
Definition node_done : Node := after (meet ++ finish).
Definition node_decided : Node := after (meet ++ finish ++ decide_both).

Lemma node_met_reached : reached 0 true node_met.
Proof.
  apply after_reached; [|vm_compute; reflexivity].
  pose proof events_may_come as He. by apply Forall_app in He as [? _].
Qed.
Lemma node_done_reached : reached 0 true node_done.
Proof.
  apply after_reached; [|vm_compute; reflexivity].
  pose proof events_may_come as He. rewrite app_assoc in He. by apply Forall_app in He as [? _].
Qed.
Lemma node_decided_reached : reached 0 true node_decided.
Proof. apply after_reached; [apply events_may_come|vm_compute; reflexivity]. Qed.

(** While the second caller holds the lock and the other two wait for it, the
    account already has its days pending. *)
Definition balance_met : EmployeeBalance := Eval vm_compute in
  default b_default (Bal (world node_met) !! "0").
Lemma concurrent_accounts_witness :
  exists a p u, b_availableBalance balance_met = units 0 a /\
    b_totalBalance balance_met = units 0 (a + p + u) /\
    p = requested 0 RequestStatus.PENDING (b_key balance_met) (Req (world node_met)).
Proof.
  assert (Hb : Bal (world node_met) !! "0" = Some balance_met) by (vm_compute; reflexivity).
  destruct (concurrent_accounts 0 ltac:(lia) node_met "0" balance_met node_met_reached Hb)
    as (a & p & u & _ & _ & _ & Ha & _ & _ & Ht & Hp & _).
  exists a, p, u. exact (conj Ha (conj Ht Hp)).
Defined.

Definition response_of (n : Node) (i : nat) : RequestView :=
  match threads n !! i with
  | Some (_, Settled (inr (Some v))) => v
  | _ => serializeRequest (new_request feb "" NaN)
  end.
Definition answer1 : RequestView := Eval vm_compute in response_of node_done 1.

Lemma concurrent_one_answer_witness :
  threads node_done !! 1%nat = Some (CreateRequest feb (Some "k1"), Settled (inr (Some answer1))) /\
  v_id answer1 = "0" /\
  (forall j q', Req (world node_done) !! j = Some q' -> r_idempotencyKey q' = "k1" -> j = v_id answer1).
Proof.
  assert (Hi : threads node_done !! 1%nat =
    Some (CreateRequest feb (Some "k1"), Settled (inr (Some answer1)))) by (vm_compute; reflexivity).
  split; [exact Hi|]. split; [reflexivity|].
  destruct (concurrent_one_answer 0 ltac:(lia) node_done 1 feb "k1" answer1
    (reached_weaken 0 node_done node_done_reached) Hi) as (q & _ & _ & Hu & _).
  exact Hu.
Defined.

Definition request_of (n : Node) (i : string) : TimeOffRequest :=
  default (new_request feb "" NaN) (Req (world n) !! i).
Definition done_first : TimeOffRequest := Eval vm_compute in request_of node_done "0".
Definition done_second : TimeOffRequest := Eval vm_compute in request_of node_done "1".

Lemma concurrent_no_double_booking_witness :
  ~ (20486 <= 20577 <= 20487 /\ 20577 <= 20577 <= 20578).
Proof.
  assert (Hq : Req (world node_done) !! "0" = Some done_first) by (vm_compute; reflexivity).
  assert (Hr : Req (world node_done) !! "1" = Some done_second) by (vm_compute; reflexivity).
  refine (concurrent_no_double_booking 0 ltac:(lia) node_done "0" "1" done_first done_second
    20486 20487 20577 20578 (reached_weaken 0 node_done node_done_reached) Hq Hr
    ltac:(discriminate) _ _ _ _ _ _ _ _ 20577); [left|left|..]; vm_compute; reflexivity.
Defined.

(** The cancellation came first: it is the one that returned. *)
Definition cancelled : RequestView := Eval vm_compute in response_of node_decided 5.
Example approval_refused :
  (fun th => match th.2 with Settled r => Some r | _ => None end) <$> threads node_decided !! 4%nat =
  Some (Some (inl (ConflictException ErrorCodes.INVALID_STATUS_TRANSITION))).
Proof. vm_compute. reflexivity. Qed.

Lemma concurrent_decisions_witness :
  exists q, Req (world node_decided) !! "0" = Some q /\ r_status q = RequestStatus.CANCELLED.
Proof.
  assert (Hi : threads node_decided !! 5%nat =
    Some (Decide (Cancel None) "0", Settled (inr (Some cancelled)))) by (vm_compute; reflexivity).
  exact (proj1 (concurrent_decisions 0 ltac:(lia) node_decided 5 "0" (Cancel None) (Some cancelled)
    (reached_weaken 0 node_decided node_decided_reached) Hi)).
Defined.

(** Through a cancellation and a crash. *)
Definition cancel_and_crash : list event := [Come (Decide (Cancel None) "0"); Go 4; Crash].
Definition node_crashed : Node := default node0 (play cancel_and_crash node_done).
Lemma node_crashed_later :
  rtc (node_step (may_call 0 false) (may_start false)) node_done node_crashed.
Proof.
  unfold node_crashed. destruct (play cancel_and_crash node_done) as [n'|] eqn:Hp.
  - apply (play_steps 0 false cancel_and_crash); [repeat constructor|vm_compute; reflexivity|exact Hp].
  - assert (match play cancel_and_crash node_done with Some _ => true | None => false end = true) as Hs
      by (vm_compute; reflexivity).
    by rewrite Hp in Hs.
Qed.
Lemma concurrent_persist_witness :
  exists q', Req (world node_crashed) !! "0" = Some q' /\ becomes done_first q'.
Proof.
  assert (Hq : Req (world node_done) !! "0" = Some done_first) by (vm_compute; reflexivity).
  destruct (concurrent_persist 0 ltac:(lia) node_done node_crashed "0" done_first
    (reached_weaken 0 node_done node_done_reached) node_crashed_later Hq) as (q' & Hq' & Hb & _).
  exists q'. exact (conj Hq' Hb).
Defined.

(** From the middle of the run. *)
Lemma concurrent_calls_return_witness :
  is_settled <$> (snd <$> threads node_met) = [true; false; false; false] /\
  inevitably (fun n' => all_settled n' /\ w_createLocks (world n') = ∅) node_met.
Proof.
  split; [vm_compute; reflexivity|].
  exact (concurrent_calls_return 0 ltac:(lia) node_met (reached_weaken 0 node_met node_met_reached)).
Defined.

Lemma call_alone_schedule_witness :
  exists cs, rtc thread_step (start process0 [] open)
    {| shared := {| p_world := fst (call_seq open run0); p_calls := cs |};
       threads := [(open, Settled (snd (call_seq open run0)))] |}.
Proof. apply (call_alone_schedule open process0 []). split; reflexivity. Defined.
End Calm.

(** ** A crash before the callback *)
Module Recovery.
#[local] Existing Instance calm.

(** The process dies when the request is stored and HCM not yet told; after the
    restart the retry worker tells it. *)
Definition script : list event :=
  [Come Calm.open; Go 0; Go 0; Go 0; Go 0;
   Come (CreateRequest feb (Some "k1")); Go 1; Go 1; Go 1; Go 1; Go 1; Go 1; Crash;
   Come RetryWorker; Go 0; Go 0; Go 0; Go 0].
Example retry_after_crash :
  r_hcmSyncStatus (Calm.request_of (Calm.after (take 13 script)) "0") = HcmSyncStatus.PENDING /\
  r_hcmSyncStatus (Calm.request_of (Calm.after script) "0") = HcmSyncStatus.SUCCESS.
Proof. vm_compute. split; reflexivity. Qed.
End Recovery.

(** ** A batch run amid a creation *)
Module Race.

(** HCM reports twelve days for the account of ten. *)
Definition generous : Env := {|
  env_delay := fun _ => 0%N; env_random := fun _ => 0%N;
  env_http := fun n config => match config with
    | GetBatchSync _ => (0%N, inr (HArray [hcm_12]))
    | _ => agreeable_http n config
    end |}.
#[local] Existing Instance generous.

(** The run reads the balance; a request is stored and answered; the run writes
    what it computed. *)
Definition script : list event :=
  [Come (UpsertBalance "emp" "loc" "VACATION" (units 0 10)); Go 0; Go 0; Go 0; Go 0;
   Come RunBatch; Go 1; Go 1; Go 1; Go 1; Go 1;
   Come (CreateRequest feb (Some "k1")); Go 2; Go 2; Go 2; Go 2; Go 2; Go 2; Go 2; Go 2;
   Go 1; Go 1].
Definition node_raced : Node := default node0 (play script node0).

(** Two of the twelve days are pending, and all twelve are available. *)
Theorem batch_breaks_books :
  reached 0 false node_raced /\
  exists b, Bal (world node_raced) !! "0" = Some b /\
    b_totalBalance b = units 0 12 /\ b_availableBalance b = units 0 12 /\
    b_pendingBalance b = units 0 2 /\
    requested 0 RequestStatus.PENDING (b_key b) (Req (world node_raced)) = 2.
Proof.
  split.
  - exists process0. split; [exact process0_boot|]. unfold node_raced.
    destruct (play script node0) as [n|] eqn:Hn.
    + apply (play_steps 0 false script); [|vm_compute; reflexivity|exact Hn].
      repeat constructor; discriminate.
    + assert (match play script node0 with Some _ => true | None => false end = true) as Hs
        by (vm_compute; reflexivity).
      by rewrite Hn in Hs.
  - eexists. split; [vm_compute; reflexivity|]. vm_compute. repeat split.
Qed.

(** ** Two batch runs *)

(** A run is past its guard when the schedule starts another. *)
Definition two_runs : list event :=
  [Come (UpsertBalance "emp" "loc" "VACATION" (units 0 10)); Go 0; Go 0; Go 0; Go 0;
   Come RunBatch; Go 1; Go 1; Go 1; Come RunBatch].
Definition node_two : Node := default node0 (play two_runs node0).
Lemma two_played : play two_runs node0 = Some node_two.
Proof.
  assert (match play two_runs node0 with Some _ => true | None => false end = true) as Hs by (vm_compute; reflexivity).
  unfold node_two. destruct (play two_runs node0); [reflexivity|discriminate].
Qed.
Lemma two_progress : match threads node_two !! 1%nat with
  | Some (RunBatch, p) => clears p (shared node_two) | _ => false end = true.
Proof. vm_compute. reflexivity. Qed.
Lemma batch_runs_exclusive_witness :
  exists p, threads node_two !! 1%nat = Some (RunBatch, p) /\ committed p /\
    w_batchRunning (p_world (shared node_two)) = true /\
    advance (call_async RunBatch) (shared node_two) = Some (Settled (inr None), shared node_two).
Proof.
  assert (exists p, threads node_two !! 1%nat = Some (RunBatch, p) /\ clears p (shared node_two) = true) as (p & Hp & Hc).
  { pose proof two_progress as Hc. destruct (threads node_two !! 1%nat) as [[[] p]|]; try discriminate Hc. by exists p. }
  destruct (batch_runs_exclusive (may_call 0 false) (may_start false) process0 node_two 1 RunBatch p) as (_ & Hr & _ & Ha).
  - apply (play_steps 0 false two_runs); [|vm_compute; reflexivity|exact two_played].
    repeat constructor; discriminate.
  - exact Hp.
  - exact (clears_committed p (shared node_two) Hc).
  - exists p. exact (conj Hp (conj (clears_committed p (shared node_two) Hc) (conj Hr Ha))).
Defined.
End Race.
